(* ===== verification/_CoqProject ===== *)
-Q . S2P
Prelude.v
Text.v
PyValue.v
Numerals.v
Diagnostics.v
Layout.v
Shlex.v
CustomEnv.v
JobEntry.v
RegistryCodec.v
CodecFacts.v
CodecSound.v
CodecRoundtrip.v
CodecSpec.v
CodecCanonical.v
Lifecycle.v
Registry.v
ActiveIndex.v
RegistryOps.v
RegistryFacts.v
RegistrySpec.v
RegistryScan.v
StatusProbe.v
StatusSpec.v
Termination.v
Config.v
Probe.v
ProbeSpec.v
RunSpec.v
Placement.v
Queue.v
Refs.v
Scheduler.v
SchedulerSpec.v
ForecastSpec.v
PlacementSpec.v
RouteHealth.v
RouteSpec.v
RouteTrial.v
Claim.v
ClaimSpec.v
ClaimOwner.v
Gate.v
GateSpec.v
Agent.v
AgentSpec.v
AgentTick.v
AgentTickSpec.v
Intent.v
IntentSpec.v
Submission.v
SubmissionSpec.v
Contract.v
ContractSpec.v
Derive.v
DeriveSpec.v
Recovery.v
RecoverySpec.v
Launch.v
LaunchSpec.v
Dispatch.v
DispatchFacts.v
DispatchSpec.v
CleanPlan.v
Maintenance.v
MaintenanceSpec.v
Group.v
GroupSpec.v
Kill.v
KillSpec.v
LinkMetrics.v
