(* ===== verification/Prelude.v ===== *)
(** * Verification of the dt control plane

    dt ([src/src/dt/]) is the head-side control plane of a small GPU center: it
    keeps one durable row per job, probes the worker nodes over SSH, decides
    which queued job may start where, and tracks what became of it.  This
    library models the decisions and the durable state of that control plane
    and proves the properties its operators rely on.

    ** How the parts interact

    A job's row ([JobEntry]) lives in one of two registry directories as a
    versioned JSON document.  Every reader goes through the codec, every writer
    through [save]; a derived index lists the rows that still need attention.
    Status probes turn what a node prints into the next lifecycle state of a
    row; the lifecycle rules say when a verdict is settled and may be relied on
    by dependents.  Capacity probes turn what a node prints into [NodeStatus]
    values, which placement ranks and the scheduler forecasts against; admission
    is the verdict taken under the placement lock before a row may claim a
    node.  Route circuits remember which direct transfer routes fail.

    A submission passes the gate of [_validate_run_spec], claims its request
    identity in a durable receipt, and becomes a queued row that carries its
    whole contract.  A tick of the agent reconciles the rows with the probes,
    submits automatic retries, and walks the queue; for each row it passes the
    dependency gate and takes the claim, whose owner can be recognised when it
    dies.  The dispatch of the row first settles the launch an earlier claim may
    have left on its node, then chooses candidates, claims each before it
    launches there, fails over only past launches that are proven absent, and
    publishes what became of the last one.

    ** Files and the code they model

    - [Text], [PyValue], [Numerals], [Diagnostics]: Python strings, JSON values,
      numerals ([jsonvalue.py], [private_state.decode_strict_json]) and
      [sshio.diagnostic_excerpt].
    - [Layout]: [layout.py] and the capsule check of [lifecycle.py].
    - [CustomEnv]: [custom_env.py].
    - [JobEntry], [RegistryCodec]: the row and its codec in
      [jobs/__init__.py]; proofs in [CodecFacts], [CodecSound],
      [CodecRoundtrip], [CodecSpec], [CodecCanonical].
    - [Lifecycle]: names, result states, finality, quota and retry rules of
      [jobs/__init__.py].
    - [Registry], [ActiveIndex], [RegistryOps]: resolution, reads, saves,
      removal, scans and queries of [jobs/__init__.py] and
      [jobs/active_index.py]; proofs in [RegistryFacts], [RegistrySpec],
      [RegistryScan].
    - [StatusProbe]: [jobs/status.py]; proofs in [StatusSpec].
    - [Termination]: runtime names and termination verdicts of [lifecycle.py].
    - [Config]: the fields of [config.py] the other parts read.
    - [Probe]: [probe.py]; proofs in [ProbeSpec].
    - [Placement]: [dispatch/__init__.py]; proofs in [PlacementSpec].
    - [Queue], [Refs]: the queue view and the job references of
      [jobs/__init__.py].
    - [Scheduler]: [scheduler.py]; proofs in [SchedulerSpec] (admission) and
      [ForecastSpec] (forecast).
    - [RouteHealth]: [route_health.py]; proofs in [RouteSpec] and [RouteTrial].
    - [Claim]: the compare-and-swap claim, its owner and the cards in-flight
      claims hide ([dispatch/queued.py], [dispatch/__init__.py]); proofs in
      [ClaimSpec] and [ClaimOwner].
    - [Gate]: the dependency gate of [dispatch/queued.py]; proofs in [GateSpec].
    - [Agent]: one pass over the queue, the backoff and the dispatch pool of
      [agent.py]; proofs in [AgentSpec].  [AgentTick]: reconciliation, automatic
      retries and the whole tick; proofs in [AgentTickSpec].
    - [Intent]: the receipts of [submission_intent.py]; proofs in [IntentSpec].
      [Submission]: the idempotent submission of [dispatch/submission.py] and the
      settlement of [cli/commands/request.py]; proofs in [SubmissionSpec].
    - [Shlex], [RunSpec], [Contract]: Python's [shlex], the submission request
      and its validation in [dispatch/__init__.py]; proofs in [ContractSpec].
    - [Recovery]: the recovery and proof protocols of [dispatch/launch.py] and
      [dispatch/queued.py], cancellation of a launch, adoption of one that
      survived; proofs in [RecoverySpec].
    - [Launch]: the answer of the launcher, the row it becomes, the loop over the
      candidates and the settlement of a launch that raced a dequeue
      ([dispatch/launch.py]); proofs in [LaunchSpec].
    - [Dispatch]: the dispatch of one queued row ([_dispatch_queued_active] of
      [dispatch/queued.py]) composed of the parts above; [DispatchFacts] holds
      what the registry keeps while other processes write to it, [DispatchSpec]
      the proofs.
    - [Derive]: the rows of submissions and the submissions of rows in
      [dispatch/__init__.py], [dispatch/submission.py] and [dispatch/queued.py];
      proofs in [DeriveSpec].
    - [CleanPlan], [Maintenance]: the durable authorizations and the retention
      rules of [maintenance.py]; proofs in [CleanPlan] and [MaintenanceSpec].
    - [Group]: the receipts of multi-job submissions ([submission_group.py]);
      proofs in [GroupSpec].
    - [Kill]: [dt kill] on the head ([cli/commands/kill.py]): dequeue, signal,
      verdict and stored row; proofs in [KillSpec].
    - [LinkMetrics]: the measured throughput of transfer edges and its ranking
      ([link_metrics.py]), with its proofs.

    Definitions keep the names of the functions they translate.  A function
    that may raise returns [result]; one that also reads and writes the store
    is a state transformer (the registry's [M], the circuits' [RM]) that
    returns the store it leaves on failure too.

    ** What the theorems show

    - Codec: only well-formed rows leave the decoder, well-formed rows round
      trip, whatever the encoder publishes is readable, and no exception but
      [RegistryError] escapes.
    - Registry: a save is atomic, isolated and readable; private values survive
      writers that never loaded them; a finalized verdict is irreversible along
      every sequence of operations; two authorities for one job are refused by
      every operation; the two full scans agree.
    - Status: no reply reopens a finalized verdict, evidence is applied only to
      the process that was probed, and framing cannot be displaced.
    - Scheduler: the exact condition of admission and its causes of refusal,
      the quota as an invariant of the claim; the forecast never promises a
      card twice, respects FIFO and the quota, and promises only what placement
      would offer on the same evidence.
    - Probe: any output yields a well-formed inventory, a compute process makes
      its card busy, and a failed query frees nothing.
    - Placement: the candidates are exactly what live evidence allows, in order
      of preference; drain and exclusion hold for every submission.
    - Circuits: every state stays readable and bounded, half-open trials are
      exclusive, foreign reports are ignored, a clock set back conserves the
      remaining cooldown.
    - Claim: of two dispatchers that saw the same attempt at most one wins, a
      won claim was admitted and names its owner, a claim is held exactly while
      its owner lives, and its cards are offered to nobody else.
    - Recovery: a claim is released only when its node proved the capsule empty;
      an adopted row names exactly the launch that was found.
    - Launch: the loop moves on only past a launch that is proven absent, so at
      its end one capsule at most may run the job, the one it reports.
    - Dispatch: whatever happens, an exception included, and whatever other
      processes do to the row, the stored row names every capsule that may run
      the job; a dequeue that raced a launch is reported truthfully.
    - Gate: placement starts only when every dependency is settled as its policy
      demands, every stop is recorded, and gate and forecast agree.
    - Agent: a pass reports every job, keeps the place of a busy job, and never
      dispatches one job twice; a tick reopens no finalized verdict and submits
      few retries, each of a fenced attempt; chains of retries end.
    - Submission: receipts stay readable and never change identity, a bound
      launch is never repeated, a claim is on disk before its launch, and a
      receipt is replayed only with proof of absence.
    - Contract: accepted artifact links are independent, accepted submissions
      become well-formed rows, and the dispatcher rebuilds them exactly.
    - Groups: the progress of a multi-job submission counts confirmed children
      only, its receipt keeps its identity, and a preparation that may have run
      is not repeated unless it said that is safe.
    - Cleaning: a plan reads back exactly and within its day, its pages
      enumerate it; a cleaning removes only what the plan and the retention
      rules allow and never the row of a capsule that may be running; needed
      environments and snapshots are kept.
    - Kill: whatever the nodes answer, the stored row goes on naming every
      capsule that may run the job, and a kill is reported as what it did.
    - Link metrics: a record writes only the sample it answers, within its
      bounds, and slow evidence expires.
    - References, queue view, termination, environment and paths: round trips
      and totals of the small formats.

    ** Modelling choices

    A [str] is a list of code points of the Latin-1 range.  A finite float is
    the exact rational it denotes: overflow and underflow are decided when text
    is read ([Numerals]), arithmetic does not round.  A JSON document is its
    value; the text layer is the identity and the number of bytes it takes is
    the parameter [encoded_size], so size limits are about every such function.
    SHA-256, [uuid4], the jitter, the clock and one-decimal formatting are
    arguments; one call reads one clock.  Exception messages keep their
    constant text, not the [repr]s they interpolate.

    A registry directory maps names to documents and carries a counter
    [revision] that every change of the directory advances, for the pair of
    directory times the index records; a directory listing is sorted.
    Operations run under the locks the source takes and are atomic, as are the
    calls on one circuit edge; the decode cache, which only saves work, is left
    out, as is the repair of file modes.  Whether the disk accepts a write is an
    argument of each operation.  A caller's row is a value: the fields a failing
    [save] already assigned to the caller's object are not tracked.  The remote
    side is a parameter everywhere: what a node answers is an arbitrary
    [reply], and the theorems hold for every reply.

    The other processes of the head are a parameter of the claim ([HeadView]:
    the boot identity, the process table, the jobs this process dispatches).
    Dispatching one row is a parameter of the tick, submitting one retry too.
    In [Recovery] a node is a state machine [run_on] that receives one of four
    commands (recover, terminate, retire, prove) and answers with any reply; the
    world [W] is its state.  [Launch] is about any launcher; what the theorems
    need of it is the class [TryContract] (an attempt touches its own capsule
    only, a refusal with a documented exit code left nothing running, a verified
    cancellation leaves nothing), with the ledger of launches in [TryLedger].
    [RemoteContract] states the same of the four commands and [NodeContract] of
    the node a dispatch sees; each is shown to hold of a concrete center in the
    witnesses.  A dispatch works on a [Site], the registry next to that world,
    and the two may change under it only as [keeps] allows: other dispatchers
    respect the claim ([rivals_keep] derives this from the claim's own
    theorems).  The stage of a job is read through [StageView].
    The launch behind a receipt, the group record, the agent's compatibility and
    the remote inspection are parameters of a submission.  Each write of a
    receipt takes the disk's outcome; the receipt's size limit is left out.  The
    fields of a [RunSpec] are typed, so the [isinstance] tests of its validation
    hold; [shlex] is the documented behaviour of the standard library.

    A cleaning sends three commands to a node, with the values the source puts
    into their shell text; [CleanContract] states what the deletion of a capsule
    promises (exit code 0 means nothing of it runs any more, and only the
    directory of a dead capsule ever disappears).  [KillContract] states what the
    signalling command promises: it starts nothing, [DEAD] means that the capsule
    is empty, and an ignored exit marker is never answered.  The other processes
    of the head do not run between the steps of a cleaning or of a kill, and the
    commands on a node leave the registry alone.  The preparation of a group is an action on a
    world [W] that says whether its failure may be retried.

    Recursion is structural except where the source loops on an index: binary
    search runs on the length of its range, batches on the length of the
    list, and digits of a number [n] on [S n]; the lemmas about these functions
    show that the bound is never reached.

    ** Not modelled

    Processes, threads and transfers (SSH, rsync, tmux, the resident process of
    the agent, snapshots and staging, the environment text of the launcher),
    shell fragments, the command line
    and its rendering (the relay of a laptop to its head included), topology
    discovery, the artifact replica index, batch
    files and parameter sweeps, the hash of a canonical intent, migration and
    compaction over file trees, and the payload programs that run on the nodes: their substance
    is the effect of external programs.
    Within modelled files: the TOML loader of [config.py], the fan-out and disk
    cache of [probe.py], [shared_resolution_snapshot] (one listing reused inside
    a scope) and the locking and directory handling of [route_health.py]. *)

From stdpp Require Export base tactics list strings gmap pretty option sorting.
From Stdlib Require Export QArith Lqa.

Set Default Proof Using "Type".
#[export] Set Default Goal Selector "!".
#[export] Set Warnings "-clear-no-such-hyp".
Open Scope Z_scope.

(** ** Python exceptions as values *)

(** The exception classes the modelled code raises.  [CustomEnvironmentError] and
    [InvalidRequestId] derive from [ValueError] in the source, which
    [is_value_error] records; [RequestDurabilityUnknown] derives from
    [RequestRecordError], and the other group errors from [GroupRequestError]. *)
Inductive exn :=
  | ValueError (detail : string)
  | TypeError (detail : string)
  | KeyError (detail : string)
  | OverflowError (detail : string)
  | RegistryError (detail : string)
  | CustomEnvironmentError (detail : string)
  | RouteHealthError (detail : string)
  | ConfigError (detail : string)
  | OSError (detail : string)
  | InvalidRequestId (detail : string)
  | RequestRecordError (detail : string)
  | RequestDurabilityUnknown (detail : string)
  | DispatchError (detail : string)
  | CleanPlanError (detail : string)
  | GroupRequestError (detail : string)
  | GroupRequestConflict (detail : string)
  | GroupRequestRejected (detail : string)
  | GroupRequestOutcomeUnknown (detail : string)
  | LinkMetricsError (detail : string).

Definition exn_message (e : exn) : string :=
  match e with
  | ValueError d | TypeError d | KeyError d | OverflowError d
  | RegistryError d | CustomEnvironmentError d | RouteHealthError d | ConfigError d
  | OSError d | InvalidRequestId d | RequestRecordError d | RequestDurabilityUnknown d | DispatchError d
  | CleanPlanError d | GroupRequestError d | GroupRequestConflict d | GroupRequestRejected d
  | GroupRequestOutcomeUnknown d | LinkMetricsError d => d
  end.

(** [type(exc).__name__]. *)
Definition exn_name (e : exn) : string :=
  match e with
  | ValueError _ => "ValueError" | TypeError _ => "TypeError" | KeyError _ => "KeyError"
  | OverflowError _ => "OverflowError" | RegistryError _ => "RegistryError"
  | CustomEnvironmentError _ => "CustomEnvironmentError" | RouteHealthError _ => "RouteHealthError"
  | ConfigError _ => "ConfigError" | OSError _ => "OSError"
  | InvalidRequestId _ => "InvalidRequestId" | RequestRecordError _ => "RequestRecordError"
  | RequestDurabilityUnknown _ => "RequestDurabilityUnknown" | DispatchError _ => "DispatchError"
  | CleanPlanError _ => "CleanPlanError" | GroupRequestError _ => "GroupRequestError"
  | GroupRequestConflict _ => "GroupRequestConflict" | GroupRequestRejected _ => "GroupRequestRejected"
  | GroupRequestOutcomeUnknown _ => "GroupRequestOutcomeUnknown" | LinkMetricsError _ => "LinkMetricsError"
  end.

Definition is_value_error (e : exn) : bool :=
  match e with ValueError _ | CustomEnvironmentError _ | InvalidRequestId _ => true | _ => false end.

Inductive result (A : Type) :=
  | Ok (a : A)
  | Err (e : exn).
Arguments Ok {A} a.
Arguments Err {A} e.

#[export] Instance result_ret : MRet result := @Ok.
#[export] Instance result_bind : MBind result := fun A B f m =>
  match m with Ok a => f a | Err e => Err e end.
#[export] Instance result_fmap : FMap result := fun A B f m =>
  match m with Ok a => Ok (f a) | Err e => Err e end.

(** [if c: raise e]. *)
Definition raise_if (c : bool) (e : exn) : result unit :=
  if c then Err e else Ok tt.

Definition is_ok {A} (r : result A) : bool :=
  match r with Ok _ => true | Err _ => false end.

Definition ok_option {A} (r : result A) : option A :=
  match r with Ok a => Some a | Err _ => None end.

(** [for x in xs: body(x)] where the body only raises. *)
Fixpoint for_each {A} (body : A -> result unit) (l : list A) : result unit :=
  match l with
  | [] => Ok tt
  | x :: l => body x ;; for_each body l
  end.

Lemma raise_if_ok c e : raise_if c e = Ok tt <-> c = false.
Proof. destruct c; naive_solver. Qed.

Lemma bind_ok {A B} (m : result A) (f : A -> result B) b :
  (m ≫= f) = Ok b <-> exists a, m = Ok a /\ f a = Ok b.
Proof. destruct m; naive_solver. Qed.

Lemma bind_raise_ok {B} c e (k : result B) b :
  (raise_if c e ;; k) = Ok b <-> c = false /\ k = Ok b.
Proof. destruct c; naive_solver. Qed.

Lemma for_each_ok {A} (body : A -> result unit) l :
  for_each body l = Ok tt <-> Forall (fun x => body x = Ok tt) l.
Proof.
  induction l as [|x l IH]; simpl.
  - split; [constructor | done].
  - rewrite bind_ok, Forall_cons_iff, <- IH. split.
    + intros ([] & ? & ?). done.
    + intros [? ?]. exists tt. done.
Qed.

(** Decompose a successful run of a guarded block into the guards it passed. *)
Ltac ok_inv H :=
  repeat first
    [ rewrite bind_raise_ok in H
    | let a := fresh "v" in let E := fresh "E" in
      apply bind_ok in H as (a & E & H) ];
  repeat match type of H with _ /\ _ => let G := fresh "G" in destruct H as [G H] end.

(** ** Record update

    [r <| field := v |>] copies the record [r] with one field replaced, as an
    attribute assignment on a dataclass does.  A record opts in by giving its
    eta expansion. *)
Class Eta (X : Type) := eta_expand : X -> X.
Class Setter {X T : Type} (proj : X -> T) := set_field : (T -> T) -> X -> X.

Ltac solve_setter :=
  lazymatch goal with
  | |- @Setter ?X ?T ?proj =>
      let body := constr:(@eta_expand X _) in
      let body := eval hnf in body in
      let body := eval pattern proj in body in
      lazymatch body with
      | ?abs proj => exact (fun (g : T -> T) => abs (fun x => g (proj x)))
      end
  end.

#[export] Hint Extern 1 (Setter _) => solve_setter : typeclass_instances.

#[warnings="-postfix-notation-not-level-1"]
Notation "r <| proj := v |>" := (set_field (proj := proj) (fun _ => v) r)
  (at level 12, left associativity, format "r  <| proj  :=  v |>").

(** ** Numbers

    Python floats are modelled by their exact rational value. *)
Definition q_ltb (x y : Q) : bool := negb (Qle_bool y x).
(** [max(x, y)] and [min(x, y)] keep the first argument on a tie. *)
Definition q_max (x y : Q) : Q := if q_ltb x y then y else x.
Definition q_min (x y : Q) : Q := if q_ltb y x then y else x.

Lemma q_leb_le x y : Qle_bool x y = true <-> (x <= y)%Q.
Proof. apply Qle_bool_iff. Qed.

Lemma q_leb_gt x y : Qle_bool x y = false <-> (y < x)%Q.
Proof.
  rewrite <- not_true_iff_false, q_leb_le. split; [apply Qnot_le_lt | apply Qlt_not_le].
Qed.

Lemma q_ltb_lt x y : q_ltb x y = true <-> (x < y)%Q.
Proof. unfold q_ltb. rewrite negb_true_iff. apply q_leb_gt. Qed.

Lemma q_ltb_ge x y : q_ltb x y = false <-> (y <= x)%Q.
Proof. unfold q_ltb. rewrite negb_false_iff. apply q_leb_le. Qed.

(** Case analysis on a rational comparison in the goal or a hypothesis. *)
Ltac q_case :=
  match goal with
  | |- context [Qle_bool ?x ?y] =>
      let E := fresh "Hq" in destruct (Qle_bool x y) eqn:E;
      [apply q_leb_le in E | apply q_leb_gt in E]
  | |- context [q_ltb ?x ?y] =>
      let E := fresh "Hq" in destruct (q_ltb x y) eqn:E;
      [apply q_ltb_lt in E | apply q_ltb_ge in E]
  | H : context [Qle_bool ?x ?y] |- _ =>
      let E := fresh "Hq" in destruct (Qle_bool x y) eqn:E;
      [apply q_leb_le in E | apply q_leb_gt in E]
  | H : context [q_ltb ?x ?y] |- _ =>
      let E := fresh "Hq" in destruct (q_ltb x y) eqn:E;
      [apply q_ltb_lt in E | apply q_ltb_ge in E]
  end.

Lemma q_max_le_l x y : (x <= q_max x y)%Q.
Proof. unfold q_max. q_case; lra. Qed.
Lemma q_max_le_r x y : (y <= q_max x y)%Q.
Proof. unfold q_max. q_case; lra. Qed.
Lemma q_max_lub x y z : (x <= z)%Q -> (y <= z)%Q -> (q_max x y <= z)%Q.
Proof. unfold q_max. q_case; lra. Qed.
Lemma q_min_le_l x y : (q_min x y <= x)%Q.
Proof. unfold q_min. q_case; lra. Qed.
Lemma q_min_le_r x y : (q_min x y <= y)%Q.
Proof. unfold q_min. q_case; lra. Qed.
Lemma q_min_glb x y z : (z <= x)%Q -> (z <= y)%Q -> (z <= q_min x y)%Q.
Proof. unfold q_min. q_case; lra. Qed.

(** ** Boolean list predicates *)
Lemma forallb_True_spec {A} (p : A -> bool) l :
  forallb p l = true <-> Forall (fun x => p x = true) l.
Proof.
  induction l as [|x l IH]; simpl; [split; [constructor | done]|].
  by rewrite andb_true_iff, Forall_cons_iff, IH.
Qed.

Lemma existsb_False_spec {A} (p : A -> bool) l :
  existsb p l = false <-> Forall (fun x => p x = false) l.
Proof.
  induction l as [|x l IH]; simpl; [split; [constructor | done]|].
  by rewrite orb_false_iff, Forall_cons_iff, IH.
Qed.

Lemma existsb_True_spec {A} (p : A -> bool) l :
  existsb p l = true <-> exists x, x ∈ l /\ p x = true.
Proof.
  rewrite existsb_exists. split; intros (x & Hx & Hp); exists x;
    [rewrite list_elem_of_In | rewrite list_elem_of_In in Hx]; done.
Qed.

(** ** Filtering and concatenation *)
Lemma elem_of_filterb {A} (p : A -> bool) l x : x ∈ List.filter p l <-> x ∈ l /\ p x = true.
Proof. rewrite !list_elem_of_In. apply filter_In. Qed.

Lemma filter_nodup {A} (p : A -> bool) l : NoDup l -> NoDup (List.filter p l).
Proof.
  induction 1 as [|x l Hx H IH]; simpl; [constructor|].
  destruct (p x); [|done]. constructor; [|done]. by rewrite elem_of_filterb; intros [? _].
Qed.

Lemma filterb_length {A} (p : A -> bool) l : (length (List.filter p l) <= length l)%nat.
Proof. induction l as [|x l IH]; simpl; [lia|]. destruct (p x); simpl; lia. Qed.

Lemma filterb_nil {A} (p : A -> bool) l :
  List.filter p l = [] <-> forall x, x ∈ l -> p x = false.
Proof.
  split.
  - intros H x Hx. destruct (p x) eqn:E; [|done].
    assert (x ∈ List.filter p l) as Hin by (by apply elem_of_filterb). rewrite H in Hin. set_solver.
  - intros H. destruct (List.filter p l) as [|x k] eqn:E; [done|].
    assert (x ∈ List.filter p l) as Hin by (rewrite E; set_solver).
    apply elem_of_filterb in Hin as [Hx Hp]. by rewrite (H x Hx) in Hp.
Qed.

#[export] Instance filterb_perm {A} (p : A -> bool) : Proper ((≡ₚ) ==> (≡ₚ)) (List.filter p).
Proof.
  induction 1 as [|x l k _ IH|x y l|l1 l2 l3 _ IH1 _ IH2]; simpl; [done|..].
  - destruct (p x); by rewrite IH.
  - destruct (p x), (p y); first [done | constructor].
  - by rewrite IH1.
Qed.

Lemma filter_sorted {A} (R : A -> A -> Prop) (f : A -> bool) l :
  StronglySorted R l -> StronglySorted R (List.filter f l).
Proof.
  induction 1 as [|x l Hs IH Hall]; cbn [List.filter]; [constructor|].
  destruct (f x); [|done]. constructor; [done|]. rewrite Forall_forall in Hall |- *.
  intros y [Hy _]%elem_of_filterb. by apply Hall.
Qed.

Lemma elem_of_concat {A} (ls : list (list A)) x : x ∈ concat ls <-> exists l, l ∈ ls /\ x ∈ l.
Proof.
  rewrite list_elem_of_In, in_concat. by setoid_rewrite <- list_elem_of_In.
Qed.

Lemma elem_of_concat_fmap {A B} (f : A -> list B) l x :
  x ∈ concat (f <$> l) <-> exists a, a ∈ l /\ x ∈ f a.
Proof.
  rewrite elem_of_concat. setoid_rewrite list_elem_of_fmap. naive_solver.
Qed.

(** Split a conjunction of boolean tests in the goal. *)
Ltac split_andb :=
  repeat lazymatch goal with |- _ && _ = true => apply andb_true_iff; split end.

(** Split every conjunction of boolean tests among the hypotheses. *)
Ltac destruct_andb :=
  repeat match goal with
  | H : _ && _ = true |- _ => apply andb_true_iff in H as [? ?]
  end.

(** Boolean tests read as propositions, by [autorewrite with to_prop]. *)
Create Rewrite HintDb to_prop.
#[export] Hint Rewrite andb_true_iff andb_false_iff orb_true_iff orb_false_iff negb_true_iff
  negb_false_iff : to_prop.
#[export] Hint Rewrite Z.leb_le Z.leb_gt Z.ltb_lt Z.ltb_ge Z.eqb_eq Z.eqb_neq : to_prop.
#[export] Hint Rewrite Nat.leb_le Nat.leb_gt Nat.ltb_lt Nat.ltb_ge Nat.eqb_eq Nat.eqb_neq : to_prop.
#[export] Hint Rewrite Qeq_bool_iff q_leb_le q_leb_gt q_ltb_lt q_ltb_ge : to_prop.
#[export] Hint Rewrite bool_decide_eq_true bool_decide_eq_false : to_prop.

(** The bounds of the two-sided clamps. *)
Create HintDb q_bounds.
#[export] Hint Resolve q_max_le_l q_max_le_r q_max_lub q_min_le_l q_min_le_r q_min_glb : q_bounds.

(** Refute the equation the goal assumes. *)
Ltac no_eq := let H := fresh in intros H; discriminate H.
