(* ===== verification/Text.v ===== *)
(** * Python text operations

    The string operations the control plane relies on: prefixes and suffixes,
    [str.strip], [str.split] on whitespace, [str.join], anchored regular
    expressions made of bounded character classes, lexicographic comparison by
    code point, and [sshio.diagnostic_excerpt], the bound every persisted
    diagnostic goes through.  A [str] is a [string] whose characters are its
    code points (the model covers the Latin-1 range). *)

From S2P Require Import Prelude.

Abbreviation chars := String.list_ascii_of_string.
Abbreviation unchars := String.string_of_list_ascii.

Definition code (c : Ascii.ascii) : N := Ascii.N_of_ascii c.
Definition str_len (s : string) : nat := String.length s.

Lemma chars_length s : length (chars s) = str_len s.
Proof. induction s; simpl; [done | by f_equal]. Qed.

Lemma unchars_chars s : unchars (chars s) = s.
Proof. apply String.string_of_list_ascii_of_string. Qed.

Lemma chars_unchars l : chars (unchars l) = l.
Proof. apply String.list_ascii_of_string_of_list_ascii. Qed.

Lemma str_len_unchars l : str_len (unchars l) = length l.
Proof. by rewrite <- chars_length, chars_unchars. Qed.

Lemma chars_app s t : chars (s +:+ t) = chars s ++ chars t.
Proof. induction s; simpl; [done | by f_equal]. Qed.

Lemma chars_inj s t : chars s = chars t -> s = t.
Proof. intros H. by rewrite <- (unchars_chars s), <- (unchars_chars t), H. Qed.

Lemma unchars_app l k : unchars (l ++ k) = unchars l +:+ unchars k.
Proof. apply chars_inj. by rewrite chars_app, !chars_unchars. Qed.

Lemma str_app_inj_l (p s t : string) : p +:+ s = p +:+ t -> s = t.
Proof. intros H%(f_equal chars). rewrite !chars_app in H. by apply app_inv_head, chars_inj in H. Qed.

(** ** Character classes *)
Definition in_range (lo hi : N) (c : Ascii.ascii) : bool :=
  (lo <=? code c)%N && (code c <=? hi)%N.
Definition is_upper : Ascii.ascii -> bool := in_range 65 90.
Definition is_lower : Ascii.ascii -> bool := in_range 97 122.
Definition is_digit : Ascii.ascii -> bool := in_range 48 57.
Definition is_alpha c := is_upper c || is_lower c.
Definition is_alnum c := is_alpha c || is_digit c.
Definition is_hex c := is_digit c || in_range 97 102 c.
Definition char_in (set : string) (c : Ascii.ascii) : bool := bool_decide (c ∈ chars set).
Definition is_name_char c := is_alnum c || char_in "_-" c.

(** [str.isspace] on Latin-1: the ASCII separators, NEL and NBSP. *)
Definition is_space (c : Ascii.ascii) : bool :=
  in_range 9 13 c || in_range 28 32 c || (code c =? 133)%N || (code c =? 160)%N.

Definition NUL : Ascii.ascii := Ascii.zero.
Definition nul : string := String NUL "".
Definition LF : Ascii.ascii := Ascii.ascii_of_N 10.
Definition CR : Ascii.ascii := Ascii.ascii_of_N 13.

(** [c in s] for a one-character [c]. *)
Definition has_char (c : Ascii.ascii) (s : string) : bool := bool_decide (c ∈ chars s).
Definition has_control (s : string) : bool :=
  has_char NUL s || has_char CR s || has_char LF s.

(** ** UTF-8

    [len(s.encode("utf-8"))] and [len(os.fsencode(s))]: code points from 128
    take two bytes.  Decoding covers the sequences of the same range. *)
Definition utf8_len (s : string) : nat :=
  sum_list_with (fun c => if (code c <? 128)%N then 1%nat else 2%nat) (chars s).

Definition utf8_char (c : Ascii.ascii) : list Ascii.ascii :=
  if (code c <? 128)%N then [c]
  else [Ascii.ascii_of_N (192 + code c / 64); Ascii.ascii_of_N (128 + code c mod 64)].
Definition utf8_encode (s : string) : list Ascii.ascii := flat_map utf8_char (chars s).

Fixpoint utf8_decode (l : list Ascii.ascii) : option (list Ascii.ascii) :=
  match l with
  | [] => Some []
  | a :: l1 =>
      if (code a <? 128)%N then cons a <$> utf8_decode l1
      else match l1 with
           | b :: l2 =>
               if in_range 194 195 a && in_range 128 191 b
               then cons (Ascii.ascii_of_N ((code a - 192) * 64 + (code b - 128))) <$> utf8_decode l2
               else None
           | [] => None
           end
  end.

Definition ascii_decode (l : list Ascii.ascii) : option string :=
  if forallb (fun c => code c <? 128)%N l then Some (unchars l) else None.

(** ** Prefixes, suffixes, slices *)
Definition starts_with (p s : string) : bool := String.prefix p s.
Definition ends_with (p s : string) : bool :=
  bool_decide (drop (str_len s - str_len p) (chars s) = chars p).
(** [s[n:]] and [s[:n]] for a non-negative [n]. *)
Definition str_drop (n : nat) (s : string) : string := unchars (drop n (chars s)).
Definition str_take (n : nat) (s : string) : string := unchars (take n (chars s)).

Lemma starts_with_spec p s : starts_with p s = true <-> exists t, s = p +:+ t.
Proof.
  unfold starts_with. revert s. induction p as [|a p IH]; intros s.
  - split; [by exists s | by destruct s].
  - destruct s as [|b s]; [split; [done | intros [t Ht]; discriminate Ht]|].
    simpl.
    destruct (Ascii.ascii_dec a b) as [->|Hne].
    + rewrite IH. split; intros [t Ht]; exists t; [by rewrite Ht | by injection Ht].
    + split; [done | intros [t Ht]; by injection Ht].
Qed.

Lemma starts_with_app p t : starts_with p (p +:+ t) = true.
Proof. apply starts_with_spec. by exists t. Qed.

Lemma ends_with_spec p s : ends_with p s = true <-> exists t, s = t +:+ p.
Proof.
  unfold ends_with. rewrite bool_decide_eq_true. split.
  - intros H. exists (unchars (take (str_len s - str_len p) (chars s))).
    apply chars_inj. rewrite chars_app, chars_unchars, <- H. by rewrite take_drop.
  - intros [t ->]. unfold str_len. rewrite <- !chars_length, chars_app, length_app.
    replace (length (chars t) + length (chars p) - length (chars p))%nat
      with (length (chars t)) by lia.
    by rewrite drop_app_length.
Qed.

(** [s or default] on texts, and [needle in s]. *)
Definition or_str (s : option string) (other : string) : string :=
  match s with Some (String _ _ as t) => t | _ => other end.
Fixpoint occurs_in (needle : string) (s : string) : bool :=
  starts_with needle s || match s with String _ s' => occurs_in needle s' | EmptyString => false end.

(** ** [strip], [split] and [join] *)
Fixpoint drop_while {A} (p : A -> bool) (l : list A) : list A :=
  match l with
  | [] => []
  | x :: l' => if p x then drop_while p l' else l
  end.
Definition lstrip_by (p : Ascii.ascii -> bool) (s : string) : string :=
  unchars (drop_while p (chars s)).
Definition rstrip_by (p : Ascii.ascii -> bool) (s : string) : string :=
  unchars (rev (drop_while p (rev (chars s)))).
Definition strip_by p s := rstrip_by p (lstrip_by p s).
Definition strip (s : string) : string := strip_by is_space s.

(** [s.split()]: the maximal runs of non-space characters; [cur] is the run
    being read, in order. *)
Fixpoint split_ws_go (cur : list Ascii.ascii) (l : list Ascii.ascii) : list (list Ascii.ascii) :=
  match l with
  | [] => match cur with [] => [] | _ => [cur] end
  | c :: l' =>
      if is_space c
      then match cur with [] => split_ws_go [] l' | _ => cur :: split_ws_go [] l' end
      else split_ws_go (cur ++ [c]) l'
  end.
Definition split_ws (s : string) : list string := unchars <$> split_ws_go [] (chars s).

(** [s.split(sep)] for a one-character separator: never empty. *)
Fixpoint split_on_go (sep : Ascii.ascii) (l : list Ascii.ascii) : list (list Ascii.ascii) :=
  match l with
  | [] => [[]]
  | c :: l' =>
      if bool_decide (c = sep) then [] :: split_on_go sep l'
      else match split_on_go sep l' with
           | [] => [[c]]
           | w :: ws => (c :: w) :: ws
           end
  end.
Definition split_on (sep : Ascii.ascii) (s : string) : list string :=
  unchars <$> split_on_go sep (chars s).

Fixpoint join (sep : string) (ws : list string) : string :=
  match ws with
  | [] => ""
  | [w] => w
  | w :: ws' => w +:+ sep +:+ join sep ws'
  end.

(** [str.splitlines]: every line boundary Python knows below U+0100, a CR-LF
    pair counted once; a final boundary opens no line.  [cur] is the line being
    read, in order. *)
Definition is_line_break (c : Ascii.ascii) : bool :=
  in_range 10 13 c || in_range 28 30 c || in_range 133 133 c.
Fixpoint splitlines_go (cur : list Ascii.ascii) (l : list Ascii.ascii) : list (list Ascii.ascii) :=
  match l with
  | [] => match cur with [] => [] | _ => [cur] end
  | c :: l' =>
      if is_line_break c then
        cur :: match l' with
               | d :: l'' => if bool_decide (c = CR) && bool_decide (d = LF)
                             then splitlines_go [] l'' else splitlines_go [] l'
               | [] => []
               end
      else splitlines_go (cur ++ [c]) l'
  end.
Definition splitlines (s : string) : list string := unchars <$> splitlines_go [] (chars s).

(** ** Anchored regular expressions

    [fullmatch] for a sequence of character classes with repetition bounds,
    by backtracking over the length each class consumes. *)
Record re_item := Rep { re_class : Ascii.ascii -> bool; re_min : nat; re_max : nat }.

Fixpoint re_match (r : list re_item) (l : list Ascii.ascii) : bool :=
  match r with
  | [] => match l with [] => true | _ => false end
  | Rep cls lo hi :: r' =>
      existsb (fun k => (k <=? length l)%nat && forallb cls (take k l) && re_match r' (drop k l))
        (seq lo (S hi - lo))
  end.
Definition fullmatch (r : list re_item) (s : string) : bool := re_match r (chars s).
Definition one (c : string) : re_item := Rep (char_in c) 1 1.

Lemma re_match_single cls lo hi l :
  re_match [Rep cls lo hi] l = true <->
  (lo <= length l <= hi)%nat /\ Forall (fun c => cls c = true) l.
Proof.
  simpl. rewrite existsb_exists. split.
  - intros (k & Hk & H). apply in_seq in Hk.
    rewrite !andb_true_iff, Nat.leb_le in H. destruct H as [[Hle Hall] Hnil].
    destruct (drop k l) eqn:E; [|done].
    assert (Hlen := f_equal length E). rewrite length_drop in Hlen. simpl in Hlen.
    rewrite take_ge in Hall by lia.
    split; [lia|]. by apply forallb_True_spec.
  - intros [Hlen Hall]. exists (length l).
    rewrite in_seq. split; [lia|].
    rewrite !andb_true_iff, Nat.leb_le, drop_all, take_ge by lia.
    repeat split; [lia|]. by apply forallb_True_spec.
Qed.

Lemma fullmatch_single cls lo hi s :
  fullmatch [Rep cls lo hi] s = true <->
  (lo <= str_len s <= hi)%nat /\ Forall (fun c => cls c = true) (chars s).
Proof. unfold fullmatch. by rewrite re_match_single, chars_length. Qed.

(** ** Ordering by code point *)
Fixpoint lex_compare (a b : list N) : comparison :=
  match a, b with
  | [], [] => Eq
  | [], _ => Lt
  | _, [] => Gt
  | x :: a', y :: b' =>
      match (x ?= y)%N with Eq => lex_compare a' b' | c => c end
  end.
Definition codes (s : string) : list N := code <$> chars s.
Definition str_ltb (s t : string) : bool :=
  match lex_compare (codes s) (codes t) with Lt => true | _ => false end.

Lemma lex_compare_refl a : lex_compare a a = Eq.
Proof. induction a; simpl; [done | by rewrite N.compare_refl]. Qed.

Lemma lex_compare_eq a b : lex_compare a b = Eq <-> a = b.
Proof.
  split; [|intros ->; apply lex_compare_refl].
  revert b. induction a as [|x a IH]; intros [|y b]; simpl; try done.
  destruct (N.compare_spec x y) as [->| |]; [|done|done].
  intros H. f_equal. by apply IH.
Qed.

Lemma lex_compare_antisym a b : lex_compare b a = CompOpp (lex_compare a b).
Proof.
  revert b. induction a as [|x a IH]; intros [|y b]; simpl; try done.
  rewrite (N.compare_antisym x y). destruct (x ?= y)%N; simpl; [apply IH | done | done].
Qed.

Lemma lex_compare_lt_trans a b c :
  lex_compare a b = Lt -> lex_compare b c = Lt -> lex_compare a c = Lt.
Proof.
  revert b c. induction a as [|x a IH]; intros [|y b] [|z c]; simpl; try done.
  destruct (N.compare_spec x y), (N.compare_spec y z), (N.compare_spec x z);
    intros Hab Hbc; try lia; try done; eauto.
Qed.

(** [sorted(strings)]: insertion sort, stable. *)
Fixpoint insert_by {A} (ltb : A -> A -> bool) (x : A) (l : list A) : list A :=
  match l with
  | [] => [x]
  | y :: l' => if ltb x y then x :: l else y :: insert_by ltb x l'
  end.
Definition sort_by {A} (ltb : A -> A -> bool) (l : list A) : list A :=
  fold_left (fun acc x => insert_by ltb x acc) l [].
Definition sort_strings : list string -> list string := sort_by str_ltb.

Lemma insert_by_perm {A} (ltb : A -> A -> bool) x l : insert_by ltb x l ≡ₚ x :: l.
Proof.
  induction l as [|y l IH]; simpl; [done|].
  destruct (ltb x y); [done|]. rewrite IH. constructor.
Qed.

Lemma sort_by_acc_perm {A} (ltb : A -> A -> bool) l acc :
  fold_left (fun acc x => insert_by ltb x acc) l acc ≡ₚ l ++ acc.
Proof.
  revert acc. induction l as [|x l IH]; intros acc; simpl; [done|].
  rewrite IH, insert_by_perm. symmetry. apply Permutation_middle.
Qed.

Lemma sort_by_perm {A} (ltb : A -> A -> bool) l : sort_by ltb l ≡ₚ l.
Proof. unfold sort_by. rewrite sort_by_acc_perm. by rewrite app_nil_r. Qed.

Section sorting.
Context {A : Type} (ltb : A -> A -> bool).
(** [lte x y]: [x] may stand before [y]. *)
Let lte x y := ltb y x = false.
Context (lte_trans : forall x y z, lte x y -> lte y z -> lte x z).
Context (ltb_asym : forall x y, ltb x y = true -> ltb y x = false).

Lemma insert_by_sorted x l :
  StronglySorted lte l -> StronglySorted lte (insert_by ltb x l).
Proof using All.
  induction 1 as [|y l Hs IH Hall]; simpl; [repeat constructor|].
  destruct (ltb x y) eqn:E.
  - constructor; [by constructor|]. constructor; [by apply ltb_asym|].
    eapply Forall_impl; [exact Hall|]. intros z Hz.
    eapply lte_trans; [|exact Hz]. by apply ltb_asym.
  - constructor; [done|]. rewrite insert_by_perm. by constructor.
Qed.

Lemma sort_by_sorted l : StronglySorted lte (sort_by ltb l).
Proof using All.
  unfold sort_by. generalize (SSorted_nil lte). generalize (@nil A).
  induction l as [|x l IH]; intros acc Hacc; simpl; [done|].
  by apply IH, insert_by_sorted.
Qed.
End sorting.

(** Sorting by a test orders by the relation the test refutes. *)
Lemma sort_by_orders {A} (ltb : A -> A -> bool) (R : A -> A -> Prop) l :
  (forall a b, ltb b a = false <-> R a b) -> (forall a b c, R a b -> R b c -> R a c) ->
  (forall a b, ltb a b = true -> R a b) -> StronglySorted R (sort_by ltb l).
Proof.
  intros HR Htrans Hasym.
  assert (StronglySorted (fun a b => ltb b a = false) (sort_by ltb l)) as H.
  { apply sort_by_sorted; [intros a b c; rewrite !HR; apply Htrans|].
    intros a b H. by apply HR, Hasym. }
  induction H as [|x m Hs IH Hall]; constructor; [done|].
  eapply Forall_impl; [exact Hall|]. intros y Hy. by apply HR.
Qed.

Definition str_leb (s t : string) : bool := negb (str_ltb t s).

Lemma str_ltb_asym s t : str_ltb s t = true -> str_ltb t s = false.
Proof.
  unfold str_ltb. rewrite (lex_compare_antisym (codes s)).
  by destruct (lex_compare (codes s) (codes t)).
Qed.

Lemma str_ltb_false_trans s t u :
  str_ltb t s = false -> str_ltb u t = false -> str_ltb u s = false.
Proof.
  unfold str_ltb. rewrite (lex_compare_antisym (codes s) (codes t)),
    (lex_compare_antisym (codes t) (codes u)), (lex_compare_antisym (codes s) (codes u)).
  destruct (lex_compare (codes s) (codes t)) eqn:Est, (lex_compare (codes t) (codes u)) eqn:Etu;
    simpl; try done; intros _ _.
  - apply lex_compare_eq in Est, Etu. rewrite Est, Etu, lex_compare_refl. done.
  - apply lex_compare_eq in Est. by rewrite Est, Etu.
  - apply lex_compare_eq in Etu. by rewrite <- Etu, Est.
  - by rewrite (lex_compare_lt_trans _ _ _ Est Etu).
Qed.

Lemma str_ltb_total s t : str_ltb s t = false -> str_ltb t s = false -> s = t.
Proof.
  unfold str_ltb. rewrite (lex_compare_antisym (codes s) (codes t)).
  destruct (lex_compare (codes s) (codes t)) eqn:E; cbn; try done. intros _ _.
  apply lex_compare_eq in E. unfold codes in E. apply chars_inj.
  revert E. generalize (chars s) (chars t). intros a. induction a as [|c a IH]; intros [|d b]; try done.
  cbn. intros [= Hc Hab]. f_equal; [|by apply IH].
  unfold code in Hc. apply (f_equal Ascii.ascii_of_N) in Hc. by rewrite !Ascii.ascii_N_embedding in Hc.
Qed.

(** Sorting commutes with a map that preserves the order. *)
Lemma sort_by_fmap {A B} (f : A -> B) (ltb : A -> A -> bool) (ltb' : B -> B -> bool) l :
  (forall a b, ltb' (f a) (f b) = ltb a b) -> f <$> sort_by ltb l = sort_by ltb' (f <$> l).
Proof.
  intros H. unfold sort_by. change (@nil B) with (f <$> (@nil A)). generalize (@nil A).
  induction l as [|x l IH]; intros acc; [done|]. rewrite fmap_cons. cbn [fold_left].
  rewrite IH. f_equal. clear IH l. induction acc as [|y acc IH]; [done|].
  cbn [insert_by fmap list_fmap]. rewrite H. destruct (ltb x y); [done|].
  cbn [fmap list_fmap]. f_equal. exact IH.
Qed.

Lemma sort_strings_perm l : sort_strings l ≡ₚ l.
Proof. apply sort_by_perm. Qed.

Lemma sort_strings_sorted l : StronglySorted (fun s t => str_ltb t s = false) (sort_strings l).
Proof. apply sort_by_sorted; [intros ???; apply str_ltb_false_trans | apply str_ltb_asym]. Qed.

(** ** [split] on a separator and [join] *)
Lemma split_on_go_nonnil sep l : split_on_go sep l <> [].
Proof.
  destruct l as [|c l]; simpl; [done|].
  case_bool_decide; [done|]. by destruct (split_on_go sep l).
Qed.

Lemma split_on_go_app sep w r :
  sep ∉ w -> split_on_go sep (w ++ sep :: r) = w :: split_on_go sep r.
Proof.
  induction w as [|c w IH]; simpl; intros Hni.
  - by rewrite bool_decide_true.
  - rewrite bool_decide_false by set_solver. rewrite IH by set_solver. done.
Qed.

Lemma split_on_go_none sep w : sep ∉ w -> split_on_go sep w = [w].
Proof.
  induction w as [|c w IH]; simpl; intros Hni; [done|].
  rewrite bool_decide_false by set_solver. rewrite IH by set_solver. done.
Qed.

Lemma split_on_go_sep sep l : Forall (fun w => sep ∉ w) (split_on_go sep l).
Proof.
  induction l as [|c l IH]; simpl; [constructor; [set_solver | constructor]|].
  case_bool_decide as Hc; [by constructor; [set_solver|]|].
  destruct (split_on_go sep l); [constructor; [set_solver | constructor]|].
  apply Forall_cons_iff in IH as [? ?]. constructor; [set_solver | done].
Qed.

(** The words rejoined with the separator. *)
Fixpoint intersperse {A} (sep : A) (ws : list (list A)) : list A :=
  match ws with
  | [] => []
  | [w] => w
  | w :: ws' => w ++ sep :: intersperse sep ws'
  end.

Lemma intersperse_split sep l : intersperse sep (split_on_go sep l) = l.
Proof.
  induction l as [|c l IH]; simpl; [done|].
  pose proof (split_on_go_nonnil sep l).
  case_bool_decide as Hc; destruct (split_on_go sep l) as [|w ws]; simpl in *; subst; try done.
  by destruct ws.
Qed.

Lemma split_intersperse sep ws :
  ws <> [] -> Forall (fun w => sep ∉ w) ws -> split_on_go sep (intersperse sep ws) = ws.
Proof.
  intros Hne. induction 1 as [|w ws Hw Hws IH]; [done|].
  destruct ws as [|w' ws]; [by apply split_on_go_none|].
  change (intersperse sep (w :: w' :: ws)) with (w ++ sep :: intersperse sep (w' :: ws)).
  rewrite split_on_go_app by done. by rewrite IH.
Qed.

(** ** UTF-8 round trip *)
Lemma ascii_ind (P : Ascii.ascii -> bool) :
  forallb (fun n => P (Ascii.ascii_of_N (N.of_nat n))) (seq 0 256) = true ->
  forall c, P c = true.
Proof.
  intros H c. rewrite forallb_True_spec, Forall_forall in H.
  specialize (H (N.to_nat (code c))). rewrite N2Nat.id in H. unfold code in H.
  rewrite Ascii.ascii_N_embedding in H. apply H, list_elem_of_In, in_seq.
  pose proof (Ascii.N_ascii_bounded c). lia.
Qed.

Definition list_eqb (a b : list Ascii.ascii) : bool := bool_decide (a = b).

Lemma utf8_char_facts c :
  (utf8_decode (utf8_char c) = Some [c]) /\
  length (utf8_char c) = (if (code c <? 128)%N then 1%nat else 2%nat) /\
  (c <> NUL -> NUL ∉ utf8_char c).
Proof.
  assert (bool_decide (utf8_decode (utf8_char c) = Some [c]) &&
          (length (utf8_char c) =? (if (code c <? 128)%N then 1 else 2))%nat &&
          (bool_decide (c = NUL) || bool_decide (NUL ∉ utf8_char c)) = true) as H.
  { revert c. apply ascii_ind. vm_compute. reflexivity. }
  rewrite !andb_true_iff, orb_true_iff, !bool_decide_eq_true, Nat.eqb_eq in H.
  naive_solver.
Qed.

Lemma utf8_decode_char c l :
  utf8_decode (utf8_char c ++ l) = cons c <$> utf8_decode l.
Proof.
  pose proof (proj1 (utf8_char_facts c)) as H. unfold utf8_char in *.
  destruct (code c <? 128)%N eqn:E; simpl in *; [by rewrite E|].
  repeat case_match; try done. injection H as H. by rewrite H.
Qed.

Lemma utf8_roundtrip s : utf8_decode (utf8_encode s) = Some (chars s).
Proof.
  unfold utf8_encode. induction (chars s) as [|c l IH]; simpl; [done|].
  rewrite utf8_decode_char, IH. done.
Qed.

Lemma utf8_encode_length s : length (utf8_encode s) = utf8_len s.
Proof.
  unfold utf8_encode, utf8_len. induction (chars s) as [|c l IH]; simpl; [done|].
  rewrite length_app, IH. by rewrite (proj1 (proj2 (utf8_char_facts c))).
Qed.

Lemma utf8_encode_nul s : NUL ∉ chars s -> NUL ∉ utf8_encode s.
Proof.
  unfold utf8_encode. induction (chars s) as [|c l IH]; simpl; [done|].
  intros H. rewrite not_elem_of_app. split; [|apply IH; set_solver].
  apply (proj2 (proj2 (utf8_char_facts c))). set_solver.
Qed.

Lemma utf8_encode_ascii s :
  Forall (fun c => (code c <? 128)%N = true) (chars s) -> utf8_encode s = chars s.
Proof.
  unfold utf8_encode. induction 1 as [|c l Hc _ IH]; simpl; [done|].
  unfold utf8_char at 1. by rewrite Hc, IH.
Qed.

Lemma utf8_encode_app s t : utf8_encode (s +:+ t) = utf8_encode s ++ utf8_encode t.
Proof. unfold utf8_encode. by rewrite chars_app, flat_map_app. Qed.

(** Sorting an already sorted list changes nothing. *)
Lemma insert_by_last {A} (ltb : A -> A -> bool) x l :
  Forall (fun y => ltb x y = false) l -> insert_by ltb x l = l ++ [x].
Proof. induction 1 as [|y l Hy _ IH]; simpl; [done|]. by rewrite Hy, IH. Qed.

Lemma sort_by_id {A} (ltb : A -> A -> bool) l :
  StronglySorted (fun x y => ltb y x = false) l -> sort_by ltb l = l.
Proof.
  unfold sort_by. intros H.
  enough (forall acc, StronglySorted (fun x y => ltb y x = false) (acc ++ l) ->
    fold_left (fun acc x => insert_by ltb x acc) l acc = acc ++ l) as Hgo by (by apply (Hgo [])).
  clear H. induction l as [|x l IH]; intros acc Hs; simpl; [by rewrite app_nil_r|].
  rewrite insert_by_last.
  - rewrite IH; rewrite <- app_assoc; done.
  - clear IH. induction acc as [|y acc IHa]; [constructor|].
    apply StronglySorted_inv in Hs as [Hs Hy]. constructor; [|by apply IHa].
    rewrite Forall_forall in Hy. apply Hy. set_solver.
Qed.

(** Every character of a full match belongs to one of the pattern's classes. *)
Lemma re_match_class (P : Ascii.ascii -> Prop) r l :
  Forall (fun it => forall c, re_class it c = true -> P c) r ->
  re_match r l = true -> Forall P l.
Proof.
  intros Hr. revert l. induction Hr as [|[cls lo hi] r Hc Hr IH]; intros l.
  - by destruct l.
  - cbn [re_match]. rewrite existsb_exists. intros (k & _ & Hk).
    rewrite !andb_true_iff, forallb_True_spec in Hk. destruct Hk as [[_ Htake] Hdrop].
    rewrite <- (take_drop k l). apply Forall_app. split; [|by apply IH].
    eapply Forall_impl; [exact Htake|]. exact Hc.
Qed.

Lemma re_match_nonempty cls lo hi r l :
  (0 < lo)%nat -> re_match (Rep cls lo hi :: r) l = true -> l <> [].
Proof.
  intros Hlo. cbn [re_match]. rewrite existsb_exists. intros (k & Hk & H).
  apply in_seq in Hk. rewrite !andb_true_iff, Nat.leb_le in H. intros ->. simpl in H. lia.
Qed.

(** A full match is as long as the classes allow. *)
Lemma re_match_length r l :
  re_match r l = true ->
  (sum_list_with re_min r <= length l <= sum_list_with re_max r)%nat.
Proof.
  revert l. induction r as [|[cls lo hi] r IH]; intros l.
  - destruct l; [simpl; lia | done].
  - cbn [re_match sum_list_with re_min re_max]. rewrite existsb_exists. intros (k & Hk & H).
    apply in_seq in Hk. rewrite !andb_true_iff, Nat.leb_le in H. destruct H as [[Hkl _] Hd].
    apply IH in Hd. rewrite length_drop in Hd. lia.
Qed.

(** A fact about every character, checked by enumeration. *)
Lemma ascii_forall (p q : Ascii.ascii -> bool) :
  forallb (fun n => implb (p (Ascii.ascii_of_N (N.of_nat n))) (q (Ascii.ascii_of_N (N.of_nat n))))
    (seq 0 256) = true ->
  forall c, p c = true -> q c = true.
Proof.
  intros H c Hp. pose proof (ascii_ind (fun c => implb (p c) (q c)) H c) as Hc.
  cbv beta in Hc. by rewrite Hp in Hc.
Qed.
