(* ===== verification/PyValue.v ===== *)
(** * Untyped JSON values at the data boundaries

    What [json.loads] produces, with the two rules the code applies everywhere:
    [true]/[false] is never a number, and a number is usable only when it is
    finite ([jsonvalue.py]), and the unique-key rule of
    [private_state.decode_strict_json]. *)

From S2P Require Import Prelude Text.

(** Finite floats carry their exact value. *)
Inductive pyfloat := Fin (q : Q) | Inf (negative : bool) | NaN.

#[local] Unset Elimination Schemes.
Inductive json :=
  | JNull
  | JBool (b : bool)
  | JInt (z : Z)
  | JFloat (f : pyfloat)
  | JStr (s : string)
  | JList (l : list json)
  | JDict (kv : list (string * json)).
#[local] Set Elimination Schemes.

Definition is_null (v : json) : bool := match v with JNull => true | _ => false end.
Definition is_bool (v : json) : bool := match v with JBool _ => true | _ => false end.
(** [isinstance(v, int)] holds of [True] and [False] too. *)
Definition is_int (v : json) : bool := match v with JInt _ | JBool _ => true | _ => false end.
Definition is_float (v : json) : bool := match v with JFloat _ => true | _ => false end.
Definition is_str (v : json) : bool := match v with JStr _ => true | _ => false end.
Definition is_list (v : json) : bool := match v with JList _ => true | _ => false end.
Definition is_dict (v : json) : bool := match v with JDict _ => true | _ => false end.

(** An int at or beyond this magnitude makes [float(int)] raise
    [OverflowError]: halfway between the largest double and 2^1024. *)
Definition FLOAT_OVERFLOW : Z := 2 ^ 1024 - 2 ^ 970.

(** [float(v)] on the numbers; the caller has excluded other types. *)
Definition py_float (v : json) : result pyfloat :=
  match v with
  | JInt z =>
      if FLOAT_OVERFLOW <=? Z.abs z
      then Err (OverflowError "int too large to convert to float")
      else Ok (Fin (inject_Z z))
  | JBool b => Ok (Fin (if b then 1 else 0)%Q)
  | JFloat f => Ok f
  | _ => Err (TypeError "float() argument must be a string or a real number")
  end.

Definition isfinite (f : pyfloat) : bool := match f with Fin _ => true | _ => false end.

(** The exact comparison [v < 0] of a Python number. *)
Definition negative (v : json) : bool :=
  match v with
  | JInt z => z <? 0
  | JFloat (Fin q) => q_ltb q 0
  | JFloat (Inf neg) => neg
  | _ => false
  end.

Definition positive_num (v : json) : bool :=
  match v with
  | JInt z => 0 <? z
  | JFloat (Fin q) => q_ltb 0 q
  | JFloat (Inf neg) => negb neg
  | _ => false
  end.

(** [jsonvalue.as_int] and [jsonvalue.as_number]. *)
Definition as_int (v : json) : option Z :=
  if is_bool v || negb (is_int v) then None
  else match v with JInt z => Some z | _ => None end.

Definition as_number (v : json) : option Q :=
  if is_bool v || negb (is_int v || is_float v) then None
  else match py_float v with
       | Ok (Fin q) => Some q
       | Ok _ => None
       | Err _ => None
       end.

(** ** Dictionaries *)

(** [d.get(k)] with [None] for a missing key, and [k in d]. *)
Fixpoint assoc {A} (k : string) (kv : list (string * A)) : option A :=
  match kv with
  | [] => None
  | (k', v) :: kv' => if bool_decide (k = k') then Some v else assoc k kv'
  end.
Definition dict_get (k : string) (kv : list (string * json)) : json :=
  default JNull (assoc k kv).
Definition dict_has {A} (k : string) (kv : list (string * A)) : bool :=
  match assoc k kv with Some _ => true | None => false end.
(** [d[k] = v]: an assigned key keeps its place. *)
Fixpoint dict_set {A} (k : string) (v : A) (kv : list (string * A)) : list (string * A) :=
  match kv with
  | [] => [(k, v)]
  | (k', v') :: rest => if bool_decide (k' = k) then (k', v) :: rest else (k', v') :: dict_set k v rest
  end.
(** [set(d) == {...}]. *)
Definition same_keys {A} (kv : list (string * A)) (keys : list string) : bool :=
  forallb (fun k => bool_decide (k ∈ keys)) kv.*1 &&
  forallb (fun k => dict_has k kv) keys.

Lemma assoc_app {A} k (a b : list (string * A)) :
  assoc k (a ++ b) = match assoc k a with Some v => Some v | None => assoc k b end.
Proof. induction a as [|[k' v] a IH]; simpl; [done|]. by case_bool_decide. Qed.

Lemma assoc_Some_elem {A} k v (kv : list (string * A)) :
  assoc k kv = Some v -> (k, v) ∈ kv.
Proof.
  induction kv as [|[k' v'] kv IH]; simpl; [done|].
  case_bool_decide; intros H'; simplify_eq; [left | right; auto].
Qed.

Lemma assoc_None {A} k (kv : list (string * A)) : assoc k kv = None <-> k ∉ kv.*1.
Proof.
  induction kv as [|[k' v'] kv IH]; simpl; [set_solver|].
  case_bool_decide; set_solver.
Qed.

Lemma elem_assoc {A} k v (kv : list (string * A)) :
  NoDup kv.*1 -> (k, v) ∈ kv -> assoc k kv = Some v.
Proof.
  induction kv as [|[k' v'] kv IH]; simpl; [set_solver|].
  rewrite NoDup_cons. intros [Hni Hnd] [Heq|Hin]%elem_of_cons; simplify_eq.
  - by rewrite bool_decide_true.
  - rewrite bool_decide_false; [by apply IH|]. intros ->.
    apply Hni, list_elem_of_fmap. by exists (k', v).
Qed.

(** ** [decode_strict_json]

    The hooks [json.loads] calls: [parse_constant] rejects the non-finite
    literals, [object_pairs_hook] rejects a repeated key.  [lexed] is the
    parse tree before the hooks run. *)
Definition reject_constant (name : string) : result json :=
  Err (ValueError ("non-finite JSON number: " +:+ name)).

Fixpoint unique_object (acc : list (string * json)) (pairs : list (string * json))
  : result json :=
  match pairs with
  | [] => Ok (JDict acc)
  | (key, value) :: pairs' =>
      if dict_has key acc
      then Err (ValueError ("duplicate JSON object key: " +:+ key))
      else unique_object (acc ++ [(key, value)]) pairs'
  end.

(** Induction over a value and everything it contains. *)
Definition json_rect (P : json -> Type) (Q : list json -> Type) (R : list (string * json) -> Type)
  (fnull : P JNull) (fbool : forall b, P (JBool b)) (fint : forall z, P (JInt z))
  (ffloat : forall f, P (JFloat f)) (fstr : forall s, P (JStr s))
  (flist : forall l, Q l -> P (JList l)) (fdict : forall kv, R kv -> P (JDict kv))
  (lnil : Q []) (lcons : forall v l, P v -> Q l -> Q (v :: l))
  (dnil : R []) (dcons : forall k v kv, P v -> R kv -> R ((k, v) :: kv))
  : forall v, P v :=
  fix go v := match v with
  | JNull => fnull | JBool b => fbool b | JInt z => fint z | JFloat f => ffloat f
  | JStr s => fstr s
  | JList l => flist l ((fix gl l := match l return Q l with
                         | [] => lnil | v :: l => lcons v l (go v) (gl l) end) l)
  | JDict kv => fdict kv ((fix gd kv := match kv return R kv with
                         | [] => dnil | (k, v) :: kv => dcons k v kv (go v) (gd kv) end) kv)
  end.

(** A lexed document: a literal constant is kept by name until the hook runs. *)
Fixpoint decode_strict (v : json) : result json :=
  match v with
  | JFloat NaN => reject_constant "NaN"
  | JFloat (Inf true) => reject_constant "-Infinity"
  | JFloat (Inf false) => reject_constant "Infinity"
  | JList l =>
      l' ← (fix go l := match l with
             | [] => Ok []
             | v :: l => v' ← decode_strict v; l' ← go l; Ok (v' :: l')
             end) l;
      Ok (JList l')
  | JDict kv =>
      kv' ← (fix go kv := match kv with
             | [] => Ok []
             | (k, v) :: kv => v' ← decode_strict v; kv' ← go kv; Ok ((k, v') :: kv')
             end) kv;
      unique_object [] kv'
  | _ => Ok v
  end.

(** A value every reader may rely on: finite numbers, unique keys at every depth. *)
Fixpoint strict (v : json) : Prop :=
  match v with
  | JFloat f => isfinite f = true
  | JList l => (fix go l := match l with [] => True | v :: l => strict v /\ go l end) l
  | JDict kv =>
      NoDup kv.*1 /\
      (fix go kv := match kv with [] => True | (_, v) :: kv => strict v /\ go kv end) kv
  | _ => True
  end.

Lemma unique_object_ok acc kv v :
  NoDup acc.*1 -> unique_object acc kv = Ok v ->
  v = JDict (acc ++ kv) /\ NoDup (acc ++ kv).*1.
Proof.
  revert acc. induction kv as [|[k x] kv IH]; intros acc Hnd; simpl.
  - intros [= <-]. by rewrite app_nil_r.
  - unfold dict_has. destruct (assoc k acc) eqn:E; [done|]. intros H.
    apply assoc_None in E.
    apply IH in H as [-> H].
    + by rewrite <- app_assoc in H |- *.
    + rewrite fmap_app. apply NoDup_app. simpl. repeat split; [done | set_solver|].
      apply NoDup_singleton.
Qed.

Lemma unique_object_complete acc kv :
  NoDup (acc ++ kv).*1 -> unique_object acc kv = Ok (JDict (acc ++ kv)).
Proof.
  revert acc. induction kv as [|[k x] kv IH]; intros acc Hnd; simpl; [by rewrite app_nil_r|].
  assert (assoc k acc = None) as E.
  { apply assoc_None. rewrite fmap_app in Hnd. apply NoDup_app in Hnd as (_ & Hd & _).
    intros Hin. apply (Hd _ Hin). by left. }
  unfold dict_has. rewrite E. rewrite IH, <- app_assoc; [done|]. by rewrite <- app_assoc.
Qed.

(** The strict decoder is the identity on exactly the strict documents: it
    never rewrites a value, rejects a non-finite number or a repeated key at
    any depth, and accepts everything else. *)
Lemma decode_strict_spec (v w : json) : decode_strict v = Ok w <-> w = v /\ strict v.
Proof.
  revert w.
  refine (json_rect
    (fun v => forall w, decode_strict v = Ok w <-> w = v /\ strict v)
    (fun l => forall l',
       (fix go l := match l with
        | [] => Ok []
        | v :: l => v' ← decode_strict v; l' ← go l; Ok (v' :: l')
        end) l = Ok l' <->
       l' = l /\ (fix go l := match l with [] => True | v :: l => strict v /\ go l end) l)
    (fun kv => forall kv',
       (fix go kv := match kv with
        | [] => Ok []
        | (k, v) :: kv => v' ← decode_strict v; kv' ← go kv; Ok ((k, v') :: kv')
        end) kv = Ok kv' <->
       kv' = kv /\ (fix go kv := match kv with [] => True | (_, v) :: kv => strict v /\ go kv end) kv)
    _ _ _ _ _ _ _ _ _ _ _ v).
  - naive_solver.
  - naive_solver.
  - naive_solver.
  - intros [q|[]|] w; simpl; naive_solver.
  - naive_solver.
  - intros l IH w. simpl. rewrite bind_ok. setoid_rewrite IH. naive_solver.
  - intros kv IH w. simpl. rewrite bind_ok. setoid_rewrite IH. split.
    + intros (kv' & [-> Hs] & H).
      apply unique_object_ok in H as [-> Hnd]; [done | constructor].
    + intros (-> & Hnd & Hs). exists kv. split; [done|]. by apply unique_object_complete.
  - naive_solver.
  - intros x l IHx IHl l'. rewrite bind_ok. setoid_rewrite bind_ok.
    setoid_rewrite IHx. setoid_rewrite IHl. naive_solver.
  - naive_solver.
  - intros k x kv IHx IHl l'. rewrite bind_ok. setoid_rewrite bind_ok.
    setoid_rewrite IHx. setoid_rewrite IHl. naive_solver.
Qed.

(** [jsonvalue.as_number] never lets a bool or a non-finite value through. *)
Lemma as_number_bool b : as_number (JBool b) = None.
Proof. done. Qed.
