(* ===== verification/Numerals.v ===== *)
(** * Python numerals

    [int(str)], [float(str)] and [str(int)] on the text a remote probe or a
    configuration hands to the control plane. *)

From S2P Require Import Prelude Text PyValue.

Definition UNDERSCORE : Ascii.ascii := Ascii.ascii_of_N 95.
Definition PLUS : Ascii.ascii := Ascii.ascii_of_N 43.
Definition MINUS : Ascii.ascii := Ascii.ascii_of_N 45.
Definition DOT : Ascii.ascii := Ascii.ascii_of_N 46.

Definition digit_value (c : Ascii.ascii) : option Z :=
  if is_digit c then Some (Z.of_N (code c) - 48) else None.

(** One digit, then digits each of which may follow one underscore. *)
Fixpoint read_digits (l : list Ascii.ascii) : option (list Z) :=
  match l with
  | [] => None
  | c :: rest =>
      d ← digit_value c;
      match rest with
      | [] => Some [d]
      | c' :: rest' =>
          if bool_decide (c' = UNDERSCORE) then cons d <$> read_digits rest'
          else cons d <$> read_digits rest
      end
  end.

Definition value_of (digits : list Z) : Z := fold_left (fun v d => 10 * v + d) digits 0.

Definition read_sign (l : list Ascii.ascii) : bool * list Ascii.ascii :=
  match l with
  | c :: rest => if bool_decide (c = MINUS) then (true, rest)
                 else if bool_decide (c = PLUS) then (false, rest) else (false, l)
  | [] => (false, l)
  end.
Definition signed (neg : bool) (z : Z) : Z := if neg then - z else z.

(** The interpreter's limit on the digits [int] converts. *)
Definition MAX_INT_DIGITS : nat := N.to_nat 4300.

(** [int(s)]. *)
Definition py_int (s : string) : result Z :=
  let '(neg, body) := read_sign (chars (strip s)) in
  match read_digits body with
  | None => Err (ValueError "invalid literal for int() with base 10")
  | Some digits =>
      raise_if (MAX_INT_DIGITS <? length digits)%nat
        (ValueError "Exceeds the limit for integer string conversion") ;;
      Ok (signed neg (value_of digits))
  end.

(** ** [float(s)] *)
Definition lower (c : Ascii.ascii) : Ascii.ascii :=
  if is_upper c then Ascii.ascii_of_N (code c + 32) else c.
Definition lower_text (l : list Ascii.ascii) : string := unchars (lower <$> l).

(** Cut at the first character of the class; the separator is dropped. *)
Fixpoint cut_at (p : Ascii.ascii -> bool) (l : list Ascii.ascii)
  : list Ascii.ascii * option (list Ascii.ascii) :=
  match l with
  | [] => ([], None)
  | c :: rest => if p c then ([], Some rest)
                 else let '(a, b) := cut_at p rest in (c :: a, b)
  end.

Definition optional_digits (l : list Ascii.ascii) : option (list Z) :=
  match l with [] => Some [] | _ => read_digits l end.

(** [m * 10^e] as a double: rounding of representable magnitudes is left out,
    overflow gives an infinity and what is at most half the least subnormal
    gives zero. *)
Definition scale10 (m e : Z) : Q :=
  if 0 <=? e then inject_Z (m * 10 ^ e) else (m # Z.to_pos (10 ^ (- e)))%Q.
Definition UNDERFLOW : Q := (1 # Pos.pow 2 1075)%Q.
Definition decimal_float (neg : bool) (digits : list Z) (e : Z) : pyfloat :=
  let m := value_of digits in
  if m =? 0 then Fin 0
  else if 400 <? e then Inf neg
  else if e <? - (400 + Z.of_nat (length digits)) then Fin 0
  else let q := scale10 m e in
       if Qle_bool (inject_Z FLOAT_OVERFLOW) q then Inf neg
       else if Qle_bool q UNDERFLOW then Fin 0
       else Fin (if neg then - q else q).

Definition py_float_text (s : string) : result pyfloat :=
  let invalid := Err (ValueError "could not convert string to float") in
  let '(neg, body) := read_sign (chars (strip s)) in
  if bool_decide (lower_text body ∈ ["inf"; "infinity"]) then Ok (Inf neg)
  else if bool_decide (lower_text body = "nan") then Ok NaN
  else
    let '(mantissa, exponent) := cut_at (char_in "eE") body in
    let '(whole, fraction) := cut_at (fun c => bool_decide (c = DOT)) mantissa in
    match optional_digits whole, optional_digits (default [] fraction) with
    | Some ws, Some fs =>
        if bool_decide (ws ++ fs = []) then invalid
        else
          match exponent with
          | None => Ok (decimal_float neg (ws ++ fs) (- Z.of_nat (length fs)))
          | Some text =>
              let '(eneg, ebody) := read_sign text in
              match read_digits ebody with
              | Some es => Ok (decimal_float neg (ws ++ fs)
                                 (signed eneg (value_of es) - Z.of_nat (length fs)))
              | None => invalid
              end
          end
    | _, _ => invalid
    end.

(** ** [str(n)] for a natural number, and its reading back *)
Definition digit_char (d : nat) : Ascii.ascii := Ascii.ascii_of_nat (48 + d).

Fixpoint digits_go (fuel n : nat) (acc : list Ascii.ascii) : list Ascii.ascii :=
  match fuel with
  | O => acc
  | S fuel =>
      let acc := digit_char (n mod 10) :: acc in
      if (n / 10 =? 0)%nat then acc else digits_go fuel (n / 10) acc
  end.
(** [S n] steps are enough: every step divides [n] by ten. *)
Definition str_of_nat (n : nat) : string := unchars (digits_go (S n) n []).
Definition str_of_Z (z : Z) : string :=
  if z <? 0 then "-" +:+ str_of_nat (Z.to_nat (- z)) else str_of_nat (Z.to_nat z).

Lemma digit_char_facts d :
  (d < 10)%nat ->
  digit_value (digit_char d) = Some (Z.of_nat d) /\ is_space (digit_char d) = false /\
  digit_char d <> UNDERSCORE /\ digit_char d <> MINUS /\ digit_char d <> PLUS.
Proof. intros H. do 10 (destruct d as [|d]; [by vm_compute|]). lia. Qed.

Definition is_digit_char (c : Ascii.ascii) : Prop := exists d, (d < 10)%nat /\ c = digit_char d.

Lemma digits_go_chars fuel n acc :
  Forall is_digit_char acc -> Forall is_digit_char (digits_go fuel n acc).
Proof.
  revert n acc. induction fuel as [|fuel IH]; intros n acc H; simpl; [done|].
  assert (is_digit_char (digit_char (n mod 10))) as Hd.
  { exists (n mod 10)%nat. split; [|done]. apply Nat.mod_upper_bound. lia. }
  destruct (_ =? 0)%nat; [by constructor|]. apply IH. by constructor.
Qed.

Lemma read_digits_chars l :
  l <> [] -> Forall is_digit_char l ->
  exists ds, read_digits l = Some ds /\ length ds = length l /\
    Forall2 (fun c d => digit_value c = Some d) l ds.
Proof.
  intros Hne H. induction H as [|c l (d & Hd & ->) Hl IH]; [done|].
  destruct (digit_char_facts d Hd) as (Hv & _ & Hu & _).
  cbn [read_digits]. rewrite Hv. cbn [mbind option_bind].
  destruct l as [|c' l].
  - exists [Z.of_nat d]. repeat constructor. done.
  - destruct IH as (ds & Hr & Hlen & Hf); [done|].
    rewrite bool_decide_false; [|apply Forall_cons_iff in Hl as [(d' & Hd' & ->) _];
      by destruct (digit_char_facts d' Hd') as (_ & _ & ? & _)].
    exists (Z.of_nat d :: ds). rewrite Hr. split; [done|]. split; [simpl; by rewrite Hlen|].
    by constructor.
Qed.

(** The value the written digits denote. *)
Fixpoint chars_value (v : Z) (l : list Ascii.ascii) : Z :=
  match l with
  | [] => v
  | c :: l => chars_value (10 * v + default 0 (digit_value c)) l
  end.

Lemma chars_value_digits l ds v :
  Forall2 (fun c d => digit_value c = Some d) l ds ->
  fold_left (fun v d => 10 * v + d) ds v = chars_value v l.
Proof.
  intros H. revert v. induction H as [|c d l ds Hc _ IH]; intros v; simpl; [done|].
  rewrite Hc. apply IH.
Qed.

Lemma digits_go_value fuel n acc :
  (n < fuel)%nat -> chars_value 0 (digits_go fuel n acc) = chars_value (Z.of_nat n) acc.
Proof.
  revert n acc. induction fuel as [|fuel IH]; intros n acc Hn; [lia|]. cbn [digits_go].
  destruct (digit_char_facts (n mod 10)) as [Hv _]; [apply Nat.mod_upper_bound; lia|].
  assert (default 0 (digit_value (digit_char (n mod 10))) = Z.of_nat (n mod 10)) as Hd
    by (by rewrite Hv).
  pose proof (Nat.div_mod_eq n 10) as Hdm.
  destruct (Nat.eqb_spec (n / 10) 0) as [E|E]; cbn [chars_value].
  - rewrite Hd. f_equal. lia.
  - assert (n <> 0)%nat by (intros ->; by apply E).
    rewrite IH by (pose proof (Nat.div_lt n 10 ltac:(lia) ltac:(lia)); lia).
    cbn [chars_value]. rewrite Hd. f_equal. lia.
Qed.

Lemma digits_go_nonempty fuel n acc : acc <> [] -> digits_go fuel n acc <> [].
Proof.
  revert n acc. induction fuel as [|fuel IH]; intros n acc H; simpl; [done|].
  destruct (_ =? 0)%nat; [done | by apply IH].
Qed.

Lemma digits_go_length fuel n acc k :
  (n < 10 ^ k)%nat -> (0 < k)%nat -> (length (digits_go fuel n acc) <= k + length acc)%nat.
Proof.
  revert n acc k. induction fuel as [|fuel IH]; intros n acc k Hn Hk; cbn [digits_go]; [lia|].
  destruct (Nat.eqb_spec (n / 10) 0) as [E|E]; cbn [length]; [lia|].
  destruct k as [|[|k]]; [lia| |].
  - exfalso. apply E. apply Nat.div_small. by rewrite Nat.pow_1_r in Hn.
  - assert (n / 10 < 10 ^ S k)%nat as Hdiv
      by (apply Nat.Div0.div_lt_upper_bound; by rewrite <- Nat.pow_succ_r').
    pose proof (IH (n / 10)%nat (digit_char (n mod 10) :: acc) (S k) Hdiv ltac:(lia)) as H.
    cbn [length] in H. lia.
Qed.

Lemma drop_while_none {A} (p : A -> bool) l :
  Forall (fun x => p x = false) l -> drop_while p l = l.
Proof. destruct 1 as [|x l Hx _]; simpl; [done|]. by rewrite Hx. Qed.

Lemma strip_none s : Forall (fun c => is_space c = false) (chars s) -> strip s = s.
Proof.
  intros H. unfold strip, strip_by, lstrip_by, rstrip_by.
  rewrite (drop_while_none _ _ H), !chars_unchars, drop_while_none by (by apply Forall_rev).
  by rewrite rev_involutive, unchars_chars.
Qed.

Lemma small_pow n : (n < 10 ^ S n)%nat.
Proof.
  induction n as [|n IH]; [vm_compute; lia|].
  rewrite Nat.pow_succ_r' in IH |- *. simpl in *. lia.
Qed.

(** [int()] of a text of decimal digits. *)
Lemma py_int_digits l :
  l <> [] -> Forall is_digit_char l -> (length l <= MAX_INT_DIGITS)%nat ->
  py_int (unchars l) = Ok (chars_value 0 l).
Proof.
  intros Hne Hl Hlen0. unfold py_int.
  assert (strip (unchars l) = unchars l) as ->.
  { apply strip_none. rewrite chars_unchars. eapply Forall_impl; [exact Hl|].
    intros c (d & Hd & ->). by destruct (digit_char_facts d Hd) as (_ & ? & _). }
  rewrite chars_unchars.
  assert (read_sign l = (false, l)) as ->.
  { destruct Hl as [|c k (d & Hd & ->) _]; [done|].
    destruct (digit_char_facts d Hd) as (_ & _ & _ & Hm & Hp). cbn [read_sign].
    by rewrite !bool_decide_false. }
  destruct (read_digits_chars l Hne Hl) as (ds & -> & Hlen & Hf).
  destruct (Nat.ltb_spec MAX_INT_DIGITS (length ds)) as [H|H]; [lia|].
  cbn [raise_if mbind result_bind]. f_equal. unfold value_of, signed. by apply chars_value_digits.
Qed.

(** Reading back the decimal text of a number gives the number. *)
Lemma py_int_str n : (n < MAX_INT_DIGITS)%nat -> py_int (str_of_nat n) = Ok (Z.of_nat n).
Proof.
  intros Hn. unfold str_of_nat. rewrite py_int_digits.
  - f_equal. by rewrite digits_go_value by lia.
  - cbn [digits_go]. destruct (_ =? 0)%nat; [done | by apply digits_go_nonempty].
  - by apply digits_go_chars.
  - pose proof (digits_go_length (S n) n [] (S n) (small_pow n) ltac:(lia)). simpl in *. lia.
Qed.

(** The same for [pretty], the text of a number in messages. *)
Lemma pretty_char_digit (x : N) :
  (x < 10)%N -> pretty_N_char x = digit_char (N.to_nat x).
Proof.
  intros H. assert (exists n, x = N.of_nat n /\ (n < 10)%nat) as (n & -> & Hn)
    by (exists (N.to_nat x); lia).
  rewrite Nat2N.id. do 10 (destruct n as [|n]; [by vm_compute|]). lia.
Qed.

Lemma chars_value_app v l k : chars_value v (l ++ k) = chars_value (chars_value v l) k.
Proof. revert v. induction l as [|c l IH]; intros v; [done|]. apply IH. Qed.

Lemma pretty_go_digits x s :
  (0 < x)%N -> exists l, chars (pretty_N_go x s) = l ++ chars s /\ l <> [] /\ Forall is_digit_char l /\
    chars_value 0 l = Z.of_N x /\ forall k, (0 < k)%nat -> (x < 10 ^ N.of_nat k)%N -> (length l <= k)%nat.
Proof.
  revert s. induction (N.lt_wf_0 x) as [x _ IH]; intros s Hx.
  rewrite pretty_N_go_step by done.
  assert (x `mod` 10 < 10)%N as Hm by (apply N.mod_lt; lia).
  pose proof (N.div_mod x 10 ltac:(lia)) as Hdm. rewrite pretty_char_digit by done.
  assert (is_digit_char (digit_char (N.to_nat (x `mod` 10)%N))) as Hd by (eexists; split; [|done]; lia).
  destruct (digit_char_facts (N.to_nat (x `mod` 10)%N)) as [Hv _]; [lia|].
  destruct (N.eq_dec (x `div` 10)%N 0%N) as [E|E].
  - rewrite E, pretty_N_go_0. exists [digit_char (N.to_nat (x `mod` 10)%N)].
    split; [done|]. split; [done|]. split; [by repeat constructor|]. split; [|by cbn; lia].
    cbn [chars_value]. rewrite Hv. simpl. lia.
  - destruct (IH (x `div` 10)%N) with (s := String (digit_char (N.to_nat (x `mod` 10)%N)) s)
      as (l & Hl & Hne & Hall & Hval & Hlen); [apply N.div_lt; lia|lia|].
    exists (l ++ [digit_char (N.to_nat (x `mod` 10)%N)]). split; [rewrite Hl; by rewrite <- app_assoc|].
    split; [by destruct l|]. split; [apply Forall_app; by repeat constructor|]. split.
    + rewrite chars_value_app, Hval. cbn [chars_value]. rewrite Hv. simpl. lia.
    + intros [|[|k]] Hk Hlt; [lia| |].
      * exfalso. apply E. apply N.div_small. exact Hlt.
      * rewrite length_app. cbn [length]. rewrite Nat.add_1_r. apply le_n_S, Hlen; [lia|].
        apply N.Div0.div_lt_upper_bound. by rewrite <- N.pow_succ_r', <- Nat2N.inj_succ.
Qed.

Lemma py_int_pretty (z : Z) k :
  0 <= z < 10 ^ Z.of_nat k -> (0 < k <= MAX_INT_DIGITS)%nat -> py_int (pretty z) = Ok z.
Proof.
  intros [Hz Hlt] [Hk Hmax]. destruct z as [|p|p]; [by vm_compute| |lia].
  change (pretty (Z.pos p)) with (pretty_N_go (N.pos p) "").
  destruct (pretty_go_digits (N.pos p) "") as (l & Hl & Hne & Hall & Hval & Hlen); [lia|].
  rewrite <- (unchars_chars (pretty_N_go (N.pos p) "")), Hl. cbn [chars]. rewrite app_nil_r.
  rewrite py_int_digits; [by rewrite Hval|done|done|].
  etransitivity; [apply (Hlen k)|]; [done| |done].
  apply N2Z.inj_lt. by rewrite N2Z.inj_pow, nat_N_Z.
Qed.

Lemma pretty_digits z : 0 <= z -> Forall is_digit_char (chars (pretty z)).
Proof.
  intros Hz. destruct z as [|p|p]; [|change (pretty (Z.pos p)) with (pretty_N_go (N.pos p) "")|lia].
  - change (chars (pretty 0)) with [digit_char 0]. apply Forall_singleton. exists 0%nat. split; [lia|done].
  - destruct (pretty_go_digits (N.pos p) "") as (l & -> & _ & Hall & _); [lia|].
    cbn [chars]. by rewrite app_nil_r.
Qed.
