(* ===== verification/Diagnostics.v ===== *)
(** * Bounded diagnostics ([sshio.diagnostic_excerpt])

    Every remote or exception text that reaches durable state is first
    whitespace-normalized and bounded to a head/tail excerpt. *)

From S2P Require Import Prelude Text.
#[local] Open Scope nat_scope.

Definition MAX_DIAGNOSTIC_CHARS : nat := N.to_nat 4096.
Definition omitted_marker : string := " ...[omitted]... ".

(** [next((value for value in values if value), fallback)]. *)
Fixpoint first_truthy (values : list (option string)) (fallback : string) : string :=
  match values with
  | [] => fallback
  | Some v :: rest => if bool_decide (v = "") then first_truthy rest fallback else v
  | None :: rest => first_truthy rest fallback
  end.

Definition diagnostic_excerpt (values : list (option string)) (fallback : string)
    (limit : nat) : result string :=
  raise_if (limit <? 32) (ValueError "diagnostic limit must be at least 32 characters") ;;
  let raw := first_truthy values fallback in
  let raw :=
    if limit <? str_len raw then
      let remaining := limit - str_len omitted_marker in
      let head := remaining / 2 in
      str_take head raw +:+ omitted_marker
        +:+ str_drop (str_len raw - (remaining - head)) raw
    else raw in
  Ok (str_take limit (join " " (split_ws raw))).

(** The same, at the call sites whose limit is a constant above the minimum. *)
Definition excerpt (limit : nat) (text : string) : string :=
  default "" (ok_option (diagnostic_excerpt [Some text] "" limit)).

(** ** Whitespace normalization *)
Section words.
Let nonspace (c : Ascii.ascii) := is_space c = false.
Definition word_ok (w : list Ascii.ascii) : Prop :=
  w <> [] /\ Forall (fun c => is_space c = false) w.

Lemma split_ws_go_words cur l :
  Forall nonspace cur -> Forall word_ok (split_ws_go cur l).
Proof.
  revert cur. induction l as [|c l IH]; intros cur Hcur; simpl.
  - destruct cur; [constructor|].
    by constructor; [split | constructor].
  - destruct (is_space c) eqn:E.
    + destruct cur as [|b cur]; [by apply IH|].
      constructor; [done | by apply IH].
    + apply IH, Forall_app. split; [done | by repeat constructor].
Qed.

Lemma split_ws_go_skip cur w l :
  Forall nonspace w -> split_ws_go cur (w ++ l) = split_ws_go (cur ++ w) l.
Proof.
  intros Hw. revert cur. induction Hw as [|c w Hc _ IH]; intros cur; simpl.
  - by rewrite app_nil_r.
  - rewrite Hc, IH. by rewrite <- app_assoc.
Qed.

Lemma split_ws_go_word w l :
  word_ok w -> split_ws_go [] (w ++ Ascii.ascii_of_N 32 :: l) = w :: split_ws_go [] l.
Proof.
  intros [Hne Hw]. rewrite split_ws_go_skip by done. simpl. by destruct w.
Qed.
End words.

Lemma split_join ws :
  Forall word_ok ws -> split_ws_go [] (chars (join " " (unchars <$> ws))) = ws.
Proof.
  induction 1 as [|w ws Hw Hws IH]; [done|]. destruct ws as [|w' ws].
  - simpl. rewrite chars_unchars. destruct Hw as [Hne Hw].
    rewrite <- (app_nil_r w) at 1. rewrite split_ws_go_skip by done.
    simpl. by destruct w.
  - change (join " " (unchars <$> w :: w' :: ws))
      with (unchars w +:+ " " +:+ join " " (unchars <$> w' :: ws)).
    rewrite !chars_app, chars_unchars. change (chars " ") with [Ascii.ascii_of_N 32].
    change ([Ascii.ascii_of_N 32] ++ ?x) with (Ascii.ascii_of_N 32 :: x).
    rewrite split_ws_go_word by done. by rewrite IH.
Qed.

Lemma join_cons_length (w : string) ws :
  str_len (join " " (w :: ws)) <= str_len w + 1 + str_len (join " " ws).
Proof.
  destruct ws as [|w' ws]; simpl; [lia|].
  rewrite <- !chars_length, !chars_app, !length_app. simpl. lia.
Qed.

Lemma split_ws_go_length cur l :
  str_len (join " " (unchars <$> split_ws_go cur l)) <= length cur + length l.
Proof.
  revert cur. induction l as [|c l IH]; intros cur; cbn [split_ws_go length].
  - destruct cur as [|b cur]; [simpl; lia|].
    change (join " " (unchars <$> [b :: cur])) with (unchars (b :: cur)).
    rewrite str_len_unchars. lia.
  - destruct (is_space c).
    + pose proof (IH []) as IH0. cbn [length] in IH0.
      destruct cur as [|b cur]; [cbn [length]; lia|].
      rewrite fmap_cons, join_cons_length, str_len_unchars. cbn [length]. lia.
    + rewrite IH, length_app. cbn [length]. lia.
Qed.

Definition normalize_ws (s : string) : string := join " " (split_ws s).

Lemma normalize_ws_length s : str_len (normalize_ws s) <= str_len s.
Proof.
  unfold normalize_ws, split_ws. rewrite split_ws_go_length. simpl. by rewrite chars_length.
Qed.

Lemma normalize_ws_idem s : normalize_ws (normalize_ws s) = normalize_ws s.
Proof.
  unfold normalize_ws at 1. unfold split_ws. unfold normalize_ws, split_ws.
  rewrite split_join; [done|]. apply split_ws_go_words. constructor.
Qed.

Lemma str_take_all n s : str_len s <= n -> str_take n s = s.
Proof.
  intros H. unfold str_take. rewrite take_ge by (by rewrite chars_length).
  apply unchars_chars.
Qed.

Lemma str_take_length n s : str_len (str_take n s) <= n.
Proof. unfold str_take. rewrite str_len_unchars, length_take. lia. Qed.

(** ** What callers rely on *)
Lemma diagnostic_excerpt_bounded values fallback limit r :
  diagnostic_excerpt values fallback limit = Ok r -> str_len r <= limit.
Proof.
  unfold diagnostic_excerpt. rewrite bind_raise_ok. intros [_ [= <-]]. apply str_take_length.
Qed.

(** A text within the limit is only whitespace-normalized. *)
Lemma excerpt_short limit s :
  32 <= limit -> str_len s <= limit -> excerpt limit s = normalize_ws s.
Proof.
  intros Hl Hs. unfold excerpt, diagnostic_excerpt, raise_if.
  destruct (Nat.ltb_spec limit 32); [lia|]. simpl.
  case_bool_decide as E.
  - subst. destruct (Nat.ltb_spec limit (str_len "")); [simpl in *; lia|].
    apply str_take_all. pose proof (normalize_ws_length ""). unfold normalize_ws in *. lia.
  - destruct (Nat.ltb_spec limit (str_len s)); [lia|].
    apply str_take_all. pose proof (normalize_ws_length s). unfold normalize_ws in *. lia.
Qed.

(** The head/tail cut of an over-long text has exactly the limit's length. *)
Lemma head_tail_length limit s :
  32 <= limit -> limit < str_len s ->
  let rem := limit - str_len omitted_marker in
  str_len (str_take (rem / 2) s +:+ omitted_marker
             +:+ str_drop (str_len s - (rem - rem / 2)) s) = limit.
Proof.
  intros Hl Hs rem. assert (rem = limit - 17) as Hrem by done. clearbody rem.
  assert (rem / 2 <= rem) by (apply Nat.Div0.div_le_upper_bound; lia).
  rewrite <- !chars_length, !chars_app, !length_app.
  change (length (chars omitted_marker)) with 17.
  unfold str_take, str_drop. rewrite !chars_unchars, length_take, length_drop, chars_length. lia.
Qed.

Lemma excerpt_long limit s :
  32 <= limit -> limit < str_len s ->
  exists t, str_len t = limit /\ excerpt limit s = normalize_ws t.
Proof.
  intros Hl Hs. unfold excerpt, diagnostic_excerpt, raise_if.
  destruct (Nat.ltb_spec limit 32); [lia|]. simpl.
  rewrite bool_decide_false by (intros ->; simpl in Hs; lia).
  destruct (Nat.ltb_spec limit (str_len s)); [|lia].
  pose proof (head_tail_length limit s Hl Hs) as Hcut. cbv zeta in Hcut.
  eexists. split; [exact Hcut|]. apply str_take_all.
  etransitivity; [apply normalize_ws_length|]. by rewrite Hcut.
Qed.

Lemma excerpt_length limit s : 32 <= limit -> str_len (excerpt limit s) <= limit.
Proof.
  intros Hl. destruct (Nat.le_gt_cases (str_len s) limit).
  - rewrite excerpt_short by done. etransitivity; [apply normalize_ws_length | done].
  - destruct (excerpt_long limit s) as (t & <- & ->); [done..|]. apply normalize_ws_length.
Qed.

Lemma excerpt_idem limit s : 32 <= limit -> excerpt limit (excerpt limit s) = excerpt limit s.
Proof.
  intros Hl. rewrite excerpt_short by (done || by apply excerpt_length).
  destruct (Nat.le_gt_cases (str_len s) limit).
  - rewrite excerpt_short by done. apply normalize_ws_idem.
  - destruct (excerpt_long limit s) as (t & Ht & ->); [done..|]. apply normalize_ws_idem.
Qed.
