(* ===== verification/Layout.v ===== *)
(** * Runtime layout and remote paths ([layout.py], capsule check of [lifecycle.py])

    Node-side logical paths, their validation, their rendering as one shell
    word, and the per-layout location of a job's control, state and cancel
    files. *)

From S2P Require Import Prelude Text.

Definition SLASH : Ascii.ascii := Ascii.ascii_of_N 47.

Definition LEGACY_LAYOUT : string := "legacy-v0".
Definition ROLE_LAYOUT : string := "role-v1".
Definition MAX_NODE_PATH_BYTES : nat := N.to_nat 4096.
Definition MAX_NODE_PATH_COMPONENT_BYTES : nat := N.to_nat 255.

(** [PurePosixPath(p).parts]: an optional root, then the components that are
    neither empty nor ["."]. *)
Definition pure_root (p : string) : string :=
  if starts_with "//" p && negb (starts_with "///" p) then "//"
  else if starts_with "/" p then "/" else "".
Definition pure_components (p : string) : list string :=
  List.filter (fun c => negb (bool_decide (c = "") || bool_decide (c = "."))) (split_on SLASH p).
Definition pure_parts (p : string) : list string :=
  (if bool_decide (pure_root p = "") then [] else [pure_root p]) ++ pure_components p.
Definition pure_is_absolute (p : string) : bool := negb (bool_decide (pure_root p = "")).

Definition dotted (part : string) : bool := bool_decide (part ∈ [""; "."; ".."]).

Definition _validate_path_size (path : string) (parts : list string) : result unit :=
  raise_if (MAX_NODE_PATH_BYTES <? utf8_len path)%nat (ValueError "root exceeds 4096 bytes") ;;
  raise_if (existsb (fun part => MAX_NODE_PATH_COMPONENT_BYTES <? utf8_len part)%nat parts)
    (ValueError "root component exceeds 255 bytes").

Definition normalize_node_root (value : string) : result string :=
  raise_if (has_control value) (ValueError "root contains a control character") ;;
  let root := rstrip_by (char_in "/") (strip value) in
  raise_if (bool_decide (root ∈ [""; "/"; "~"]))
    (ValueError "root must name a dedicated directory") ;;
  parts ← (if starts_with "~/" root then
             let remainder := str_drop 2 root in
             raise_if (starts_with "/" remainder)
               (ValueError "root must not contain empty or absolute components") ;;
             Ok (pure_parts remainder)
           else if starts_with "/" root then Ok (drop 1 (pure_parts root))
           else Err (ValueError "root must be absolute or start with ~/"));
  raise_if (bool_decide (parts = []) || existsb dotted parts)
    (ValueError "root must not contain . or .. components") ;;
  _validate_path_size root parts ;;
  Ok root.

(** The loop of [node_path] over its relative components. *)
Fixpoint clean_parts (parts : list string) : result (list string) :=
  match parts with
  | [] => Ok []
  | raw :: rest =>
      raise_if (pure_is_absolute raw || bool_decide (pure_parts raw = []))
        (ValueError ("invalid node path component: " +:+ raw)) ;;
      raise_if (existsb dotted (pure_parts raw))
        (ValueError ("invalid node path component: " +:+ raw)) ;;
      clean ← clean_parts rest;
      Ok (pure_parts raw ++ clean)
  end.

Definition node_path (root : string) (parts : list string) : result string :=
  base ← normalize_node_root root;
  clean ← clean_parts parts;
  let joined := if bool_decide (clean = []) then base
                else base +:+ "/" +:+ join "/" clean in
  _validate_path_size joined (pure_parts joined) ;;
  Ok joined.

(** ** Shell rendering *)

(** [shlex.quote]. *)
Definition shell_safe (c : Ascii.ascii) : bool := is_alnum c || char_in "@%+=:,./-_" c.
Definition QUOTE : Ascii.ascii := Ascii.ascii_of_N 39.
Definition DQUOTE : Ascii.ascii := Ascii.ascii_of_N 34.
Definition quote_char (c : Ascii.ascii) : list Ascii.ascii :=
  if bool_decide (c = QUOTE) then [QUOTE; DQUOTE; QUOTE; DQUOTE; QUOTE] else [c].
Definition shlex_quote (s : string) : string :=
  if bool_decide (s = "") then unchars [QUOTE; QUOTE]
  else if forallb shell_safe (chars s) then s
  else unchars (QUOTE :: flat_map quote_char (chars s) ++ [QUOTE]).

Definition home_word : string := unchars (DQUOTE :: chars "$HOME" ++ [DQUOTE]).

Definition node_path_expression (path : string) : result string :=
  raise_if (has_control path) (ValueError "node path contains a control character") ;;
  if bool_decide (path = "~") then Ok home_word
  else if starts_with "~/" path then
    Ok (home_word +:+ "/" +:+ shlex_quote (str_drop 2 path))
  else if starts_with "/" path then Ok (shlex_quote path)
  else Ok (shlex_quote path).

Definition display_node_path (path : string) : string :=
  if starts_with "/" path || starts_with "~/" path then path else "~/" +:+ path.

(** ** Per-layout job files *)
Definition is_role (layout : option string) : bool := bool_decide (layout = Some ROLE_LAYOUT).

Definition job_control_dir (job_dir : string) (layout : option string) : string :=
  if is_role layout then job_dir +:+ "/.dt" else job_dir.
Definition job_payload_dir (job_dir : string) (layout : option string) : string :=
  let control := job_control_dir job_dir layout in
  if is_role layout then control +:+ "/payload" else control.
Definition job_state_dir (job_dir : string) (layout : option string) : string :=
  let control := job_control_dir job_dir layout in
  if is_role layout then control +:+ "/state" else control.
Definition job_meta_path (job_dir : string) (layout : option string) : string :=
  job_control_dir job_dir layout +:+ "/meta.json".
Definition job_command_path (job_dir : string) (layout : option string) : string :=
  job_control_dir job_dir layout +:+ "/" +:+
    (if is_role layout then "command.sh" else "cmd.sh").
Definition job_cancel_path (job_dir : string) (layout : option string) : string :=
  if is_role layout then job_state_dir job_dir layout +:+ "/cancel"
  else job_dir +:+ "/.dt-cancel".

(** ** [lifecycle.validate_job_capsule] *)
Definition last_two (parts : list string) : option (string * string) :=
  match rev parts with
  | last :: before :: _ => Some (before, last)
  | _ => None
  end.

Definition validate_job_capsule (path : string) (job_id : option string) : result string :=
  raise_if (has_control path) (ValueError "job capsule path contains a control character") ;;
  relative ← (if starts_with "~/" path then Ok (str_drop 2 path)
              else if starts_with "/" path then Ok (str_drop 1 path)
              else if starts_with "~" path
              then Err (ValueError "job capsule path has an unsupported home expression")
              else Ok path);
  let parts := split_on SLASH relative in
  match last_two parts with
  | None => Err (ValueError "job capsule path must name a dedicated nested directory")
  | Some (parent, leaf) =>
      raise_if (negb (bool_decide (parent = "jobs")) || existsb dotted parts)
        (ValueError "job capsule path must name a dedicated nested directory") ;;
      raise_if (match job_id with Some id => negb (bool_decide (leaf = id)) | None => false end)
        (ValueError "job capsule path does not match the task identity") ;;
      raise_if ((MAX_NODE_PATH_BYTES <? utf8_len path)%nat
                || existsb (fun part => MAX_NODE_PATH_COMPONENT_BYTES <? utf8_len part)%nat parts)
        (ValueError "job capsule path exceeds filesystem limits") ;;
      Ok path
  end.

(** ** A POSIX reading of the rendered word

    [sh_word home w] is the text a shell passes on for the single word [w]:
    single quotes are literal, double quotes expand [$HOME], every unquoted
    character must be one the shell does not interpret. *)
Definition DOLLAR : Ascii.ascii := Ascii.ascii_of_N 36.
Inductive sh_mode := Unquoted | Single | Double.

Fixpoint sh_word (home : list Ascii.ascii) (m : sh_mode) (l : list Ascii.ascii)
  : option (list Ascii.ascii) :=
  match m, l with
  | Unquoted, [] => Some []
  | _, [] => None
  | Unquoted, c :: l' =>
      if bool_decide (c = QUOTE) then sh_word home Single l'
      else if bool_decide (c = DQUOTE) then sh_word home Double l'
      else if shell_safe c then cons c <$> sh_word home Unquoted l'
      else None
  | Single, c :: l' =>
      if bool_decide (c = QUOTE) then sh_word home Unquoted l'
      else cons c <$> sh_word home Single l'
  | Double, c :: l' =>
      if bool_decide (c = DQUOTE) then sh_word home Unquoted l'
      else if bool_decide (c = DOLLAR) then
        match l' with
        | h :: o :: m :: e :: l4 =>
            if bool_decide (unchars [h; o; m; e] = "HOME")
            then app home <$> sh_word home Double l4 else None
        | _ => None
        end
      else if char_in "\`" c then None
      else cons c <$> sh_word home Double l'
  end.

Lemma shell_safe_not_quote c : shell_safe c = true -> c <> QUOTE /\ c <> DQUOTE.
Proof. intros H. split; intros ->; vm_compute in H; discriminate. Qed.

Lemma sh_word_safe home l r :
  forallb shell_safe l = true ->
  sh_word home Unquoted (l ++ r) = app l <$> sh_word home Unquoted r.
Proof.
  induction l as [|c l IH]; simpl; [by destruct (sh_word home Unquoted r)|].
  rewrite andb_true_iff. intros [Hc Hl].
  destruct (shell_safe_not_quote c Hc).
  rewrite !bool_decide_false by done. rewrite Hc, IH by done.
  by destruct (sh_word home Unquoted r).
Qed.

Lemma sh_word_quoted home l r :
  sh_word home Single (flat_map quote_char l ++ QUOTE :: r) = app l <$> sh_word home Unquoted r.
Proof.
  induction l as [|c l IH].
  - simpl. by destruct (sh_word home Unquoted r).
  - unfold quote_char at 1; fold quote_char. cbn [flat_map].
    unfold quote_char at 1. case_bool_decide as Hc.
    + subst c. simpl. rewrite IH. by destruct (sh_word home Unquoted r).
    + simpl. rewrite bool_decide_false by done. rewrite IH.
      by destruct (sh_word home Unquoted r).
Qed.

Lemma sh_word_quote home s :
  sh_word home Unquoted (chars (shlex_quote s)) = Some (chars s).
Proof.
  unfold shlex_quote. case_bool_decide as He; [by subst|].
  destruct (forallb shell_safe (chars s)) eqn:Hs.
  - rewrite <- (app_nil_r (chars s)) at 1. rewrite sh_word_safe by done. simpl.
    by rewrite app_nil_r.
  - rewrite chars_unchars. simpl. rewrite sh_word_quoted. simpl. by rewrite app_nil_r.
Qed.

(** ** Properties *)

(** The path a rendered expression must denote. *)
Definition expand_home (home path : string) : string :=
  if bool_decide (path = "~") then home
  else if starts_with "~/" path then home +:+ "/" +:+ str_drop 2 path
  else path.

Lemma home_word_expands home r :
  sh_word home Unquoted (chars home_word ++ r) = app home <$> sh_word home Unquoted r.
Proof. simpl. by destruct (sh_word home Unquoted r). Qed.

(** Rendering any path without a control character yields one shell word that
    a POSIX shell expands to exactly that path: quoting never suppresses the
    home expansion and never lets a character of the path be interpreted. *)
Lemma node_path_expression_word (home path : string) :
  has_control path = false ->
  exists w, node_path_expression path = Ok w /\
    sh_word (chars home) Unquoted (chars w) = Some (chars (expand_home home path)).
Proof.
  intros Hc. unfold node_path_expression, expand_home. rewrite Hc. simpl.
  case_bool_decide as Ht.
  - eexists. split; [done|]. rewrite <- (app_nil_r (chars home_word)), home_word_expands.
    simpl. by rewrite app_nil_r.
  - destruct (starts_with "~/" path) eqn:Hh.
    + eexists. split; [done|].
      rewrite !chars_app, home_word_expands.
      change (chars "/") with [SLASH].
      rewrite (sh_word_safe (chars home) [SLASH]) by done.
      rewrite sh_word_quote. done.
    + destruct (starts_with "/" path); (eexists; split; [done | apply sh_word_quote]).
Qed.

Lemma str_drop_app p t : str_drop (str_len p) (p +:+ t) = t.
Proof.
  unfold str_drop. rewrite chars_app, <- chars_length, drop_app_length. apply unchars_chars.
Qed.

Lemma split_on_prefix p t :
  SLASH ∉ chars p -> split_on SLASH (p +:+ String SLASH t) = p :: split_on SLASH t.
Proof.
  intros H. unfold split_on. rewrite chars_app. simpl.
  rewrite split_on_go_app by done. simpl. by rewrite unchars_chars.
Qed.

Lemma last_two_app parts a b : last_two parts = Some (a, b) -> exists l, parts = l ++ [a; b].
Proof.
  unfold last_two. intros H. destruct (rev parts) as [|x [|y l]] eqn:E; simplify_eq.
  exists (rev l). rewrite <- (rev_involutive parts), E. simpl. by rewrite <- app_assoc.
Qed.

Lemma intersperse_suffix {A} (sep : A) l (a b : list A) :
  exists p, intersperse sep (l ++ [a; b]) = p ++ a ++ sep :: b.
Proof.
  induction l as [|w l [p IH]]; [by exists []|].
  exists (w ++ sep :: p).
  replace (intersperse sep ((w :: l) ++ [a; b]))
    with (w ++ sep :: intersperse sep (l ++ [a; b])) by (by destruct l).
  rewrite IH. by rewrite <- !app_assoc.
Qed.

(** The relative part of a capsule path, as the three accepted forms give it. *)
Lemma capsule_relative path relative :
  (if starts_with "~/" path then Ok (str_drop 2 path)
   else if starts_with "/" path then Ok (str_drop 1 path)
   else if starts_with "~" path
   then Err (ValueError "job capsule path has an unsupported home expression")
   else Ok path) = Ok relative ->
  exists p, path = p +:+ relative /\
    (split_on SLASH path = split_on SLASH relative \/
     exists w, w <> ".." /\ split_on SLASH path = w :: split_on SLASH relative).
Proof.
  destruct (starts_with "~/" path) eqn:Hh.
  { apply starts_with_spec in Hh as [t ->]. intros [= <-].
    replace (str_drop 2 ("~/" +:+ t)) with t by (symmetry; apply (str_drop_app "~/" t)).
    exists "~/". split; [done|]. right. exists "~".
    split; [done|]. apply (split_on_prefix "~" t). by apply (bool_decide_unpack _). }
  destruct (starts_with "/" path) eqn:Hs.
  { apply starts_with_spec in Hs as [t ->]. intros [= <-].
    replace (str_drop 1 ("/" +:+ t)) with t by (symmetry; apply (str_drop_app "/" t)).
    exists "/". split; [done|]. right. exists "".
    split; [done|]. apply (split_on_prefix "" t). by apply (bool_decide_unpack _). }
  destruct (starts_with "~" path); [done|]. intros [= <-].
  exists "". split; [done | by left].
Qed.

(** An accepted capsule path is returned unchanged, ends in [jobs/JOB_ID] and
    contains no [..] component: a destructive command built from it stays
    inside the job's own directory. *)
Lemma validate_job_capsule_safe (path job_id p : string) :
  validate_job_capsule path (Some job_id) = Ok p ->
  p = path /\ has_control path = false /\
  ends_with ("jobs/" +:+ job_id) path = true /\
  Forall (fun part => part <> "..") (split_on SLASH path) /\
  (utf8_len path <= MAX_NODE_PATH_BYTES)%nat.
Proof.
  unfold validate_job_capsule. intros H. rewrite bind_raise_ok in H. destruct H as [Hc H].
  apply bind_ok in H as (relative & Hrel & H).
  destruct (last_two (split_on SLASH relative)) as [[parent leaf]|] eqn:Hlast; [|done].
  ok_inv H. simplify_eq. apply orb_false_iff in G as [Hjobs Hdots].
  apply negb_false_iff, bool_decide_eq_true in Hjobs. subst.
  apply negb_false_iff, bool_decide_eq_true in G0. subst.
  apply orb_false_iff in G1 as [Hsize _]. apply Nat.ltb_ge in Hsize.
  apply capsule_relative in Hrel as (pre & -> & Hparts).
  split; [done|]. split; [done|]. repeat split; [| |done].
  - apply last_two_app in Hlast as [l Hl]. apply ends_with_spec.
    unfold split_on in Hl. apply fmap_app_inv in Hl as (l1 & l2 & Hl1 & Hl2 & Hgo).
    destruct l2 as [|a [|b [|? ?]]]; try done. injection Hl2 as Ha Hb.
    destruct (intersperse_suffix SLASH l1 a b) as [q Hq].
    exists (pre +:+ unchars q). apply chars_inj.
    pose proof (intersperse_split SLASH (chars relative)) as Hrel. rewrite Hgo, Hq in Hrel.
    rewrite !chars_app, <- Hrel, chars_unchars, <- (chars_unchars b), Hb.
    change (chars "jobs/") with (chars "jobs" ++ [SLASH]).
    rewrite <- (chars_unchars a), Ha. by rewrite <- !app_assoc.
  - assert (Forall (fun part => part <> "..") (split_on SLASH relative)) as Hall.
    { rewrite existsb_False_spec in Hdots. eapply Forall_impl; [exact Hdots|].
      intros part Hp ->. by vm_compute in Hp. }
    destruct Hparts as [-> | (w & Hw & ->)]; [done | by constructor].
Qed.

Lemma dotdot_in_components p :
  existsb dotted (pure_components p) = false -> Forall (fun part => part <> "..") (split_on SLASH p).
Proof.
  rewrite existsb_False_spec. unfold pure_components. intros H.
  apply Forall_forall. intros part Hin ->.
  rewrite Forall_forall in H. specialize (H ".."). discriminate H.
  apply list_elem_of_In, filter_In. split; [by apply list_elem_of_In | done].
Qed.

Lemma pure_root_slash t : bool_decide (pure_root (String SLASH t) = "") = false.
Proof.
  unfold pure_root. destruct (_ && _); [done|].
  replace (starts_with "/" (String SLASH t)) with true; [done|].
  symmetry. apply (starts_with_app "/" t).
Qed.

Lemma pure_root_relative p :
  starts_with "/" p = false -> bool_decide (pure_root p = "") = true.
Proof.
  intros H. unfold pure_root. rewrite H.
  destruct (starts_with "//" p) eqn:E; [|done].
  apply starts_with_spec in E as [t ->].
  pose proof (starts_with_app "/" (String SLASH t)) as H'. by rewrite <- H', <- H.
Qed.

(** An accepted root is absolute or home-relative and bounded, and no
    component of it climbs out of the directory it names. *)
Lemma normalize_node_root_safe (value root : string) :
  normalize_node_root value = Ok root ->
  (starts_with "/" root || starts_with "~/" root) = true /\
  Forall (fun part => part <> "..") (split_on SLASH root) /\
  (utf8_len root <= MAX_NODE_PATH_BYTES)%nat.
Proof.
  unfold normalize_node_root. intros H. rewrite bind_raise_ok in H. destruct H as [Hc H].
  cbv zeta in H. set (r := rstrip_by (char_in "/") (strip value)) in *. clearbody r.
  rewrite bind_raise_ok in H. destruct H as [Hname H].
  apply bind_ok in H as (parts & Hparts & H). rewrite bind_raise_ok in H.
  destruct H as [Hdots H]. apply bind_ok in H as ([] & Hsize & [= ->]).
  apply orb_false_iff in Hdots as [_ Hdots].
  unfold _validate_path_size in Hsize. rewrite bind_raise_ok in Hsize.
  destruct Hsize as [Hsize _]. apply Nat.ltb_ge in Hsize.
  destruct (starts_with "~/" root) eqn:Hh.
  - rewrite orb_true_r. split; [done|]. split; [|done].
    rewrite bind_raise_ok in Hparts. destruct Hparts as [Habs [= <-]].
    apply starts_with_spec in Hh as [t ->].
    replace (str_drop 2 ("~/" +:+ t)) with t in * by (symmetry; apply (str_drop_app "~/" t)).
    unfold pure_parts in Hdots. rewrite pure_root_relative in Hdots by done.
    change ("~/" +:+ t) with ("~" +:+ String SLASH t).
    rewrite split_on_prefix by (by apply (bool_decide_unpack _)).
    constructor; [done | by apply dotdot_in_components].
  - destruct (starts_with "/" root) eqn:Hs; [|done]. split; [done|]. split; [|done].
    injection Hparts as <-. apply starts_with_spec in Hs as [t ->].
    unfold pure_parts in Hdots. change ("/" +:+ t) with (String SLASH t) in *.
    rewrite pure_root_slash in Hdots. by apply dotdot_in_components.
Qed.

(** The [.] half of the documented rule is not enforced: [PurePosixPath.parts]
    has already dropped every [.] component when the check reads it. *)
Lemma normalize_node_root_keeps_dot :
  normalize_node_root "/srv/./dt" = Ok "/srv/./dt" /\
  normalize_node_root "~/./dt" = Ok "~/./dt".
Proof. split; vm_compute; reflexivity. Qed.

(** Stripping the slash after the whitespace leaves a trailing blank that a
    second normalization removes: the function is not idempotent. *)
Lemma normalize_node_root_not_idempotent :
  normalize_node_root "/srv/dt /" = Ok "/srv/dt " /\
  normalize_node_root "/srv/dt " = Ok "/srv/dt".
Proof. split; vm_compute; reflexivity. Qed.

(** ** Concrete instances *)
Lemma node_path_expression_word_witness :
  exists w, node_path_expression "~/my jobs/a'b" = Ok w /\
    sh_word (chars "/home/u") Unquoted (chars w) = Some (chars "/home/u/my jobs/a'b").
Proof. apply (node_path_expression_word "/home/u" "~/my jobs/a'b"). reflexivity. Defined.

Lemma validate_job_capsule_safe_witness :
  validate_job_capsule "~/dt/jobs/j1" (Some "j1") = Ok "~/dt/jobs/j1" /\
  ends_with "jobs/j1" "~/dt/jobs/j1" = true.
Proof.
  assert (validate_job_capsule "~/dt/jobs/j1" (Some "j1") = Ok "~/dt/jobs/j1") as E
    by (vm_compute; reflexivity).
  split; [exact E|].
  exact (proj1 (proj2 (proj2 (validate_job_capsule_safe _ _ _ E)))).
Defined.

Lemma normalize_node_root_safe_witness :
  normalize_node_root " ~/dt/ " = Ok "~/dt" /\ (starts_with "/" "~/dt" || starts_with "~/" "~/dt") = true.
Proof.
  assert (normalize_node_root " ~/dt/ " = Ok "~/dt") as E by (vm_compute; reflexivity).
  split; [exact E|]. exact (proj1 (normalize_node_root_safe _ _ E)).
Defined.
