(* ===== verification/Shlex.v ===== *)
(** * Command lines as one string (Python's [shlex])

    The registry stores a job's command as [shlex.join(cmd)] and every later
    reader rebuilds the argument list with [shlex.split].  Both are the standard
    library's; [split] is its POSIX tokenizer, character by character. *)

From S2P Require Import Prelude Text Layout.

Definition BACKSLASH : Ascii.ascii := Ascii.ascii_of_N 92.
Definition SPACE : Ascii.ascii := Ascii.ascii_of_N 32.

(** [shlex.whitespace]: blank, tab, CR, LF. *)
Definition shlex_space (c : Ascii.ascii) : bool := bool_decide (code c ∈ [32; 9; 13; 10]%N).
Definition shlex_quotes (c : Ascii.ascii) : bool := bool_decide (c = QUOTE) || bool_decide (c = DQUOTE).

Definition shlex_join (split_command : list string) : string :=
  join " " (shlex_quote <$> split_command).

(** The tokenizer's state: between tokens, inside a token, inside quotes, or
    after a backslash (with the state it returns to). *)
Inductive shlex_state := Between | InWord | InQuotes (q : Ascii.ascii) | Escaping (q : option Ascii.ascii).

Section split.
(** [token] and [quoted] are the local variables of [read_token]; a token that
    ends is emitted when it has characters or had quotes. *)
Definition emit (token : list Ascii.ascii) (quoted : bool) (rest : list string) : list string :=
  if negb (bool_decide (token = [])) || quoted then unchars token :: rest else rest.

Fixpoint shlex_scan (st : shlex_state) (token : list Ascii.ascii) (quoted : bool)
    (l : list Ascii.ascii) : result (list string) :=
  match st, l with
  | (Between | InWord), [] => Ok (emit token quoted [])
  | InQuotes _, [] => Err (ValueError "No closing quotation")
  | Escaping _, [] => Err (ValueError "No escaped character")
  | (Between | InWord), c :: l =>
      if shlex_space c then emit token quoted <$> shlex_scan Between [] false l
      else if shlex_quotes c then shlex_scan (InQuotes c) token quoted l
      else if bool_decide (c = BACKSLASH) then shlex_scan (Escaping None) token quoted l
      else shlex_scan InWord (token ++ [c]) quoted l
  | InQuotes q, c :: l =>
      if bool_decide (c = q) then shlex_scan InWord token true l
      else if bool_decide (c = BACKSLASH) && bool_decide (q = DQUOTE)
      then shlex_scan (Escaping (Some q)) token true l
      else shlex_scan (InQuotes q) (token ++ [c]) true l
  | Escaping None, c :: l => shlex_scan InWord (token ++ [c]) quoted l
  | Escaping (Some q), c :: l =>
      let kept := if bool_decide (c = BACKSLASH) || bool_decide (c = q) then [c] else [BACKSLASH; c] in
      shlex_scan (InQuotes q) (token ++ kept) quoted l
  end.
End split.

Definition shlex_split (s : string) : result (list string) := shlex_scan Between [] false (chars s).

(** ** Joining and splitting *)
Lemma shell_safe_plain c :
  shell_safe c = true -> shlex_space c = false /\ shlex_quotes c = false /\ bool_decide (c = BACKSLASH) = false.
Proof.
  intros H. assert (negb (shlex_space c || shlex_quotes c || bool_decide (c = BACKSLASH)) = true) as Hn.
  { revert c H. apply (ascii_forall shell_safe). vm_compute. reflexivity. }
  apply negb_true_iff in Hn. apply orb_false_iff in Hn as [Hn ?]. by apply orb_false_iff in Hn as [? ?].
Qed.

Lemma scan_safe token quoted l r :
  forallb shell_safe l = true ->
  shlex_scan InWord token quoted (l ++ r) = shlex_scan InWord (token ++ l) quoted r.
Proof.
  revert token. induction l as [|c l IH]; intros token; [by rewrite app_nil_r|].
  intros [Hc Hl]%andb_true_iff. destruct (shell_safe_plain c Hc) as (H1 & H2 & H3).
  cbn [app shlex_scan]. rewrite H1, H2, H3, IH by done. by rewrite <- app_assoc.
Qed.

Lemma scan_between token quoted c l :
  shlex_scan Between token quoted (c :: l) = shlex_scan InWord token quoted (c :: l).
Proof. done. Qed.

Lemma scan_quoted token quoted l r :
  shlex_scan (InQuotes QUOTE) token quoted (flat_map quote_char l ++ QUOTE :: r)
  = shlex_scan InWord (token ++ l) true r.
Proof.
  revert token quoted. induction l as [|c l IH]; intros token quoted.
  { cbn [flat_map app shlex_scan]. by rewrite bool_decide_true, app_nil_r by done. }
  cbn [flat_map]. destruct (decide (c = QUOTE)) as [->|Hc].
  - change (quote_char QUOTE) with [QUOTE; DQUOTE; QUOTE; DQUOTE; QUOTE].
    transitivity (shlex_scan (InQuotes QUOTE) (token ++ [QUOTE]) true (flat_map quote_char l ++ QUOTE :: r)); [done|].
    rewrite IH. by rewrite <- app_assoc.
  - unfold quote_char at 1. rewrite (bool_decide_false (c = QUOTE)) by done.
    cbn [app shlex_scan]. rewrite (bool_decide_false (c = QUOTE)), (bool_decide_false (QUOTE = DQUOTE)), andb_false_r by done.
    rewrite IH. by rewrite <- app_assoc.
Qed.

(** A quoted argument is read back as one word, whatever follows it. *)
Lemma scan_quote s r : exists quoted,
  shlex_scan Between [] false (chars (shlex_quote s) ++ r) = shlex_scan InWord (chars s) quoted r /\
  emit (chars s) quoted = cons s.
Proof.
  unfold shlex_quote. case_bool_decide as He; [subst s; by exists true|].
  assert (chars s <> []) as Hne by (intros H; apply He; by apply chars_inj).
  destruct (forallb shell_safe (chars s)) eqn:Hs.
  - exists false. split.
    + rewrite <- (app_nil_l (chars s)) at 2. rewrite <- (scan_safe [] false (chars s) r) by done.
      by destruct (chars s).
    + unfold emit. rewrite bool_decide_false by done. by rewrite unchars_chars.
  - exists true. split.
    + rewrite chars_unchars. rewrite <- app_comm_cons, <- app_assoc. cbn [app].
      rewrite scan_between. change (shlex_scan InWord [] false (QUOTE :: ?l)) with (shlex_scan (InQuotes QUOTE) [] false l).
      apply scan_quoted.
    + unfold emit. rewrite orb_true_r. by rewrite unchars_chars.
Qed.

(** The argument list a registry row stores is the one every later reader rebuilds: no
    argument is split, merged, dropped or reinterpreted, the empty one included. *)
Lemma shlex_roundtrip command : shlex_split (shlex_join command) = Ok command.
Proof.
  unfold shlex_split, shlex_join. induction command as [|s [|t command] IH]; [done|..].
  - destruct (scan_quote s []) as (q & H & He). rewrite app_nil_r in H.
    cbn [fmap list_fmap join]. rewrite H. cbn. by rewrite He.
  - change (join " " (shlex_quote <$> s :: t :: command))
      with (shlex_quote s +:+ " " +:+ join " " (shlex_quote <$> t :: command)).
    revert IH. generalize (join " " (shlex_quote <$> t :: command)) as rest. intros rest IH.
    rewrite chars_app. destruct (scan_quote s (chars (" " +:+ rest))) as (q & H & He).
    rewrite H, chars_app. change (chars " " ++ chars rest) with (SPACE :: chars rest). cbn [shlex_scan].
    change (shlex_space SPACE) with true. cbv iota. rewrite IH. cbn. by rewrite He.
Qed.
