(* ===== verification/CustomEnv.v ===== *)
(** * The custom job environment ([custom_env.py])

    Validation of a caller's variables, their import by name, and the
    NUL-separated envelope that carries them to the node without shell syntax. *)

From S2P Require Import Prelude Text PyValue.

Definition MAX_CUSTOM_ENV_VARS : nat := 64.
Definition MAX_CUSTOM_ENV_VALUE_BYTES : nat := N.to_nat (16 * 1024).
Definition MAX_CUSTOM_ENV_TOTAL_BYTES : nat := N.to_nat (64 * 1024).

Definition _NAME_RE : list re_item :=
  [Rep (fun c => is_alpha c || char_in "_" c) 1 1;
   Rep (fun c => is_alnum c || char_in "_" c) 0 127].

Definition _RESERVED : list string :=
  ["HOME"; "PATH"; "USER"; "LOGNAME"; "SHELL"; "TMPDIR"; "BASH_ENV"; "ENV"; "BASHOPTS";
   "SHELLOPTS"; "CDPATH"; "GLOBIGNORE"; "IFS"; "LD_PRELOAD"; "LD_AUDIT"; "LD_LIBRARY_PATH";
   "TMUX"; "TMUX_TMPDIR"; "PWD"; "OLDPWD"; "SHLVL"; "UID"; "EUID"; "PPID"; "RANDOM";
   "SRANDOM"; "SECONDS"; "LINENO"; "OPTARG"; "OPTIND"; "FUNCNAME"; "GROUPS"; "DIRSTACK";
   "PIPESTATUS"; "HOSTNAME"; "HOSTTYPE"; "MACHTYPE"; "OSTYPE"; "PROMPT_COMMAND"; "PS0";
   "PS1"; "PS2"; "PS3"; "PS4"; "CUDA_VISIBLE_DEVICES"; "NVIDIA_VISIBLE_DEVICES";
   "ROCR_VISIBLE_DEVICES"; "VIRTUAL_ENV"; "UV_PROJECT_ENVIRONMENT"].

(** A Python dict of validated variables, in iteration order. *)
Abbreviation environment := (list (string * string)).

Definition name_reserved (name : string) : bool :=
  starts_with "DT_" name || starts_with "BASH" name || bool_decide (name ∈ _RESERVED).

Definition _validate_name (name : json) (position : option nat) : result string :=
  let label := match position with
               | Some p => "--env entry " +:+ pretty (N.of_nat p)
               | None => "custom env name"
               end in
  match name with
  | JStr n =>
      raise_if (negb (fullmatch _NAME_RE n))
        (CustomEnvironmentError (label +:+ " has an invalid variable name")) ;;
      raise_if (name_reserved n)
        (CustomEnvironmentError ("custom environment variable '" +:+ n +:+ "' is reserved")) ;;
      Ok n
  | _ => Err (CustomEnvironmentError (label +:+ " has an invalid variable name"))
  end.

(** The loop of [validate]; [total] and [acc] are its local variables. *)
Fixpoint validate_items (total : nat) (acc : environment) (items : list (string * json))
  : result environment :=
  match items with
  | [] => Ok acc
  | (raw_name, raw_value) :: rest =>
      name ← _validate_name (JStr raw_name) None;
      let variable := "custom environment variable '" +:+ name +:+ "'" in
      match raw_value with
      | JStr value =>
          raise_if (has_char NUL value)
            (CustomEnvironmentError (variable +:+ " contains a NUL byte")) ;;
          let value_bytes := utf8_len value in
          raise_if (MAX_CUSTOM_ENV_VALUE_BYTES <? value_bytes)%nat
            (CustomEnvironmentError (variable +:+ " exceeds the value size limit")) ;;
          let total := (total + (str_len name + value_bytes + 2))%nat in
          raise_if (MAX_CUSTOM_ENV_TOTAL_BYTES <? total)%nat
            (CustomEnvironmentError "custom environment exceeds the total size limit") ;;
          validate_items total (acc ++ [(name, value)]) rest
      | _ => Err (CustomEnvironmentError (variable +:+ " must have a string value"))
      end
  end.

Definition sort_env : environment -> environment :=
  sort_by (fun a b => str_ltb a.1 b.1).

Definition validate (values : json) : result environment :=
  match values with
  | JDict items =>
      raise_if (MAX_CUSTOM_ENV_VARS <? length items)%nat
        (CustomEnvironmentError "custom environment exceeds 64 variables") ;;
      result ← validate_items 0 [] items;
      Ok (sort_env result)
  | _ => Err (CustomEnvironmentError "custom environment must be a mapping")
  end.

Definition as_json (env : environment) : json := JDict (prod_map id JStr <$> env).

(** [parse]: [names] are the repeated [--env] options, [environ] the source. *)
Fixpoint parse_names (position : nat) (environ : environment) (acc : environment)
    (names : list json) : result environment :=
  match names with
  | [] => Ok acc
  | raw_name :: rest =>
      let entry := "--env entry " +:+ pretty (N.of_nat position) in
      raise_if (match raw_name with JStr n => has_char (Ascii.ascii_of_N 61) n | _ => true end)
        (CustomEnvironmentError (entry +:+ " must be a variable name, not KEY=VALUE")) ;;
      name ← _validate_name raw_name (Some position);
      raise_if (dict_has name acc)
        (CustomEnvironmentError ("duplicate custom environment variable '" +:+ name +:+ "'")) ;;
      match assoc name environ with
      | None =>
          Err (CustomEnvironmentError
                 ("custom environment variable '" +:+ name +:+ "' is not set"))
      | Some value => parse_names (S position) environ (acc ++ [(name, value)]) rest
      end
  end.

Definition parse (names : list json) (environ : environment) : result environment :=
  raise_if (MAX_CUSTOM_ENV_VARS <? length names)%nat
    (CustomEnvironmentError "--env exceeds 64 variables") ;;
  result ← parse_names 1 environ [] names;
  validate (as_json result).

Definition encode_pairs (env : environment) : string :=
  foldr (fun p rest => p.1 +:+ nul +:+ p.2 +:+ nul +:+ rest) "" env.

Definition encode_nul_pairs (values : json) : result string :=
  normalized ← validate values;
  Ok (encode_pairs normalized).

(** The loop of [decode_nul_pairs] over consecutive field pairs. *)
Fixpoint decode_fields (index : nat) (acc : environment) (fields : list (list Ascii.ascii))
  : result environment :=
  match fields with
  | name_bytes :: value_bytes :: rest =>
      match ascii_decode name_bytes, utf8_decode value_bytes with
      | Some name, Some value =>
          normalized_name ← _validate_name (JStr name) (Some (index / 2 + 1)%nat);
          raise_if (dict_has normalized_name acc)
            (CustomEnvironmentError
               ("duplicate custom environment variable '" +:+ normalized_name +:+ "'")) ;;
          decode_fields (index + 2) (acc ++ [(normalized_name, unchars value)]) rest
      | _, _ => Err (CustomEnvironmentError "custom environment envelope has invalid encoding")
      end
  | _ => Ok acc
  end.

Definition decode_nul_pairs (payload : list Ascii.ascii) : result environment :=
  raise_if (MAX_CUSTOM_ENV_TOTAL_BYTES <? length payload)%nat
    (CustomEnvironmentError "custom environment envelope exceeds 64 KiB") ;;
  match rev payload with
  | [] => Ok []
  | last :: front =>
      raise_if (negb (bool_decide (last = NUL)))
        (CustomEnvironmentError "custom environment envelope is truncated") ;;
      let fields := split_on_go NUL (rev front) in
      raise_if (negb (length fields mod 2 =? 0)%nat)
        (CustomEnvironmentError "custom environment envelope is truncated") ;;
      raise_if (MAX_CUSTOM_ENV_VARS <? length fields / 2)%nat
        (CustomEnvironmentError "custom environment exceeds 64 variables") ;;
      decoded ← decode_fields 0 [] fields;
      validate (as_json decoded)
  end.

(** ** What a validated environment satisfies *)
Definition pair_ok (p : string * string) : Prop :=
  fullmatch _NAME_RE p.1 = true /\ name_reserved p.1 = false /\
  has_char NUL p.2 = false /\ (utf8_len p.2 <= MAX_CUSTOM_ENV_VALUE_BYTES)%nat.

Definition env_total (env : environment) : nat :=
  sum_list_with (fun p => (str_len p.1 + utf8_len p.2 + 2)%nat) env.

Record env_ok (env : environment) : Prop := {
  env_ok_count : (length env <= MAX_CUSTOM_ENV_VARS)%nat;
  env_ok_pairs : Forall pair_ok env;
  env_ok_total : (env_total env <= MAX_CUSTOM_ENV_TOTAL_BYTES)%nat;
  env_ok_keys : NoDup env.*1;
  env_ok_sorted : StronglySorted (fun a b => str_ltb b.1 a.1 = false) env;
}.

#[local] Arguments _validate_name : simpl never.

Lemma validate_name_ok name position n :
  _validate_name (JStr name) position = Ok n <->
  n = name /\ fullmatch _NAME_RE name = true /\ name_reserved name = false.
Proof.
  unfold _validate_name. rewrite !bind_raise_ok, negb_false_iff. naive_solver.
Qed.

Lemma validate_items_ok total acc items env :
  validate_items total acc items = Ok env <->
  exists pairs, items = (prod_map id JStr <$> pairs) /\ env = acc ++ pairs /\
    Forall pair_ok pairs /\
    (pairs = [] \/ (total + env_total pairs <= MAX_CUSTOM_ENV_TOTAL_BYTES)%nat).
Proof.
  revert total acc. induction items as [|[n v] items IH]; intros total acc; cbn [validate_items].
  - split.
    + intros [= <-]. exists []. rewrite app_nil_r. repeat split; [constructor | by left].
    + intros ([|] & Hi & -> & _); [|done]. by rewrite app_nil_r.
  - rewrite bind_ok. split.
    + intros (name & (-> & Hre & Hres)%validate_name_ok & H).
      destruct v; try done. rewrite !bind_raise_ok, !Nat.ltb_ge in H.
      destruct H as (Hnul & Hval & Htot & H).
      apply IH in H as (pairs & -> & -> & Hall & Hsum).
      exists ((n, s) :: pairs). rewrite <- app_assoc. repeat split; [|].
      * constructor; [done | exact Hall].
      * right. unfold env_total in *. simpl. destruct Hsum as [-> | ?]; simpl in *; lia.
    + intros ([|[n' s] pairs] & Hi & -> & Hall & Hsum); [done|].
      injection Hi as -> -> ->.
      apply Forall_cons_iff in Hall as [(Hre & Hres & Hnul & Hval) Hall]. simpl in *.
      destruct Hsum as [?|Hsum]; [done|]. unfold env_total in Hsum. simpl in Hsum.
      exists n'. split; [by apply validate_name_ok|].
      rewrite !bind_raise_ok, !Nat.ltb_ge.
      repeat split; [done | done | lia|].
      apply IH. exists pairs. rewrite <- app_assoc. repeat split; [done|].
      right. unfold env_total. lia.
Qed.

Lemma sort_env_perm env : sort_env env ≡ₚ env.
Proof. apply sort_by_perm. Qed.

Lemma sort_env_sorted env : StronglySorted (fun a b => str_ltb b.1 a.1 = false) (sort_env env).
Proof.
  apply sort_by_sorted.
  - intros x y z. apply str_ltb_false_trans.
  - intros x y. apply str_ltb_asym.
Qed.

Lemma env_total_perm env env' : env ≡ₚ env' -> env_total env = env_total env'.
Proof. unfold env_total. induction 1; simpl; lia. Qed.

Lemma as_json_strict_keys (env : environment) : (prod_map id JStr <$> env).*1 = env.*1.
Proof. rewrite <- list_fmap_compose. by apply list_fmap_ext. Qed.

(** Validation succeeds exactly on the well-formed mappings and returns the
    same pairs sorted by name. *)
Lemma validate_ok (kv : list (string * json)) env :
  NoDup kv.*1 ->
  validate (JDict kv) = Ok env <->
  env_ok env /\ exists pairs, kv = (prod_map id JStr <$> pairs) /\ env = sort_env pairs.
Proof.
  intros Hkeys. unfold validate. rewrite bind_raise_ok, Nat.ltb_ge, bind_ok. split.
  - intros (Hlen & pairs & Hitems & [= <-]).
    apply validate_items_ok in Hitems as (p & -> & -> & Hall & Hsum). simpl.
    rewrite as_json_strict_keys in Hkeys. rewrite length_fmap in Hlen.
    split; [|by exists p].
    pose proof (sort_env_perm p) as Hp. split.
    + by rewrite Hp.
    + by rewrite Hp.
    + rewrite (env_total_perm _ _ Hp). destruct Hsum as [->|]; [simpl; unfold MAX_CUSTOM_ENV_TOTAL_BYTES; lia | lia].
    + by rewrite Hp.
    + apply sort_env_sorted.
  - intros (Hok & pairs & -> & ->). pose proof (sort_env_perm pairs) as Hp.
    destruct Hok as [Hc Hall Ht _ _]. rewrite Hp in Hc, Hall.
    rewrite (env_total_perm _ _ Hp) in Ht.
    split; [by rewrite length_fmap|]. exists pairs. split; [|done].
    apply validate_items_ok. exists pairs. repeat split; [done|]. by right.
Qed.

Lemma validate_as_json env : env_ok env -> validate (as_json env) = Ok env.
Proof.
  intros Hok. unfold as_json. apply validate_ok.
  - rewrite as_json_strict_keys. apply Hok.
  - split; [done|]. exists env. split; [done|]. symmetry. apply sort_by_id, Hok.
Qed.

(** ** The transport envelope *)
Definition env_fields (env : environment) : list (list Ascii.ascii) :=
  flat_map (fun p => [chars p.1; utf8_encode p.2]) env.

Lemma name_chars n :
  fullmatch _NAME_RE n = true -> Forall (fun c => (code c <? 128)%N = true /\ c <> NUL) (chars n).
Proof.
  intros H. eapply Forall_impl.
  - eapply (re_match_class (fun c => is_alnum c || char_in "_" c = true)); [|exact H].
    repeat apply Forall_cons_2; [| |constructor]; intros c; cbn [re_class]; [|done].
    apply (ascii_forall (fun c => is_alpha c || char_in "_" c)
             (fun c => is_alnum c || char_in "_" c)). vm_compute. reflexivity.
  - intros c Hc. split.
    + revert c Hc. apply (ascii_forall (fun c => is_alnum c || char_in "_" c)
        (fun c => code c <? 128)%N). vm_compute. reflexivity.
    + intros ->. by vm_compute in Hc.
Qed.

Lemma name_ascii n : fullmatch _NAME_RE n = true -> ascii_decode (chars n) = Some n.
Proof.
  intros H%name_chars. unfold ascii_decode.
  replace (forallb _ (chars n)) with true; [by rewrite unchars_chars|].
  symmetry. apply forallb_True_spec. eapply Forall_impl; [exact H|]. by intros c [? _].
Qed.

Lemma env_fields_no_nul env : Forall pair_ok env -> Forall (fun w => NUL ∉ w) (env_fields env).
Proof.
  induction 1 as [|[n v] env (Hre & _ & Hnul & _) _ IH]; simpl; [constructor|].
  constructor; [|constructor; [|done]].
  - apply name_chars in Hre. rewrite Forall_forall in Hre. intros Hin. by apply (Hre NUL).
  - apply utf8_encode_nul. unfold has_char in Hnul. by apply bool_decide_eq_false in Hnul.
Qed.

Lemma encode_pairs_payload env :
  Forall pair_ok env -> env <> [] ->
  utf8_encode (encode_pairs env) = intersperse NUL (env_fields env) ++ [NUL].
Proof.
  intros Hall Hne. induction Hall as [|[n v] env (Hre & _) Hall IH]; [done|].
  cbn [encode_pairs foldr fst snd]. rewrite !utf8_encode_app.
  fold (encode_pairs env). change (utf8_encode nul) with [NUL].
  assert (utf8_encode n = chars n) as ->.
  { apply utf8_encode_ascii. eapply Forall_impl; [by apply name_chars|]. by intros c [? _]. }
  destruct env as [|p env].
  - simpl. by rewrite <- !app_assoc.
  - rewrite IH by done. cbn [env_fields flat_map app].
    change (flat_map _ env) with (env_fields env).
    cbn [intersperse]. by repeat (rewrite <- app_assoc; simpl).
Qed.

Lemma env_fields_length env : length (env_fields env) = (length env * 2)%nat.
Proof. induction env as [|p env IH]; simpl; [done|]. rewrite IH. done. Qed.

Lemma decode_fields_ok index acc env :
  Forall pair_ok env -> NoDup (acc ++ env).*1 ->
  decode_fields index acc (env_fields env) = Ok (acc ++ env).
Proof.
  intros Hall. revert index acc.
  induction Hall as [|[n v] env (Hre & Hres & Hnul & Hval) Hall IH]; intros index acc Hnd.
  - simpl. by rewrite app_nil_r.
  - cbn [env_fields flat_map app decode_fields fst snd]. simpl in *.
    rewrite name_ascii, utf8_roundtrip by done.
    rewrite (proj2 (validate_name_ok n _ n)) by done. cbn [mbind result_bind].
    unfold dict_has.
    replace (assoc n acc) with (@None string).
    + simpl. fold (env_fields env). rewrite unchars_chars, IH; rewrite <- app_assoc; done.
    + symmetry. apply assoc_None. rewrite fmap_app, NoDup_app in Hnd.
      destruct Hnd as (_ & Hd & _). intros Hin. apply (Hd n Hin). by left.
Qed.

Lemma encode_pairs_length env :
  Forall pair_ok env -> length (utf8_encode (encode_pairs env)) = env_total env.
Proof.
  induction 1 as [|[n v] env (Hre & _) _ IH]; [done|].
  cbn [encode_pairs foldr fst snd]. rewrite !utf8_encode_app, !length_app.
  fold (encode_pairs env). rewrite IH. unfold env_total. simpl.
  rewrite !utf8_encode_length. change (utf8_len nul) with 1%nat.
  assert (utf8_len n = str_len n) as ->; [|lia].
  rewrite <- utf8_encode_length, utf8_encode_ascii, chars_length; [done|].
  eapply Forall_impl; [by apply name_chars|]. by intros c [? _].
Qed.

(** Whatever mapping is accepted for a job survives the transport to the node:
    encoding succeeds, fits the envelope bound, and decoding the UTF-8 bytes
    returns exactly the validated environment. *)
Lemma nul_pairs_roundtrip (kv : list (string * json)) (env : environment) :
  NoDup kv.*1 -> validate (JDict kv) = Ok env ->
  exists text, encode_nul_pairs (JDict kv) = Ok text /\
    decode_nul_pairs (utf8_encode text) = Ok env.
Proof.
  intros Hkeys Hv. exists (encode_pairs env). unfold encode_nul_pairs. rewrite Hv.
  split; [done|]. apply validate_ok in Hv as [Hok _]; [|done].
  pose proof (env_ok_pairs _ Hok) as Hall.
  unfold decode_nul_pairs. rewrite encode_pairs_length by done.
  destruct (Nat.ltb_spec MAX_CUSTOM_ENV_TOTAL_BYTES (env_total env)) as [Hlt|_].
  { pose proof (env_ok_total _ Hok). lia. }
  destruct env as [|p env']; [done|].
  set (e := p :: env') in *. rewrite encode_pairs_payload by done.
  rewrite rev_app_distr. cbn [rev app mbind result_bind raise_if].
  rewrite bool_decide_true by done. cbn [negb raise_if mbind result_bind].
  rewrite rev_involutive, split_intersperse by (done || by apply env_fields_no_nul).
  rewrite env_fields_length, Nat.Div0.mod_mul, Nat.div_mul by lia.
  cbn [Nat.eqb negb raise_if mbind result_bind].
  destruct (Nat.ltb_spec MAX_CUSTOM_ENV_VARS (length e)) as [Hlt|_].
  { pose proof (env_ok_count _ Hok). lia. }
  cbn [raise_if mbind result_bind].
  rewrite (decode_fields_ok 0 []) by (done || apply Hok). cbn [app mbind result_bind].
  by apply validate_as_json.
Qed.

Definition sample_env : list (string * json) :=
  [("SEED", JStr "7"); ("LANG", JStr "C.UTF-8")].

Lemma nul_pairs_roundtrip_witness :
  exists text, encode_nul_pairs (JDict sample_env) = Ok text /\
    decode_nul_pairs (utf8_encode text) = Ok [("LANG", "C.UTF-8"); ("SEED", "7")].
Proof.
  apply (nul_pairs_roundtrip sample_env).
  - apply (bool_decide_unpack _). vm_compute. exact I.
  - vm_compute. reflexivity.
Defined.

(** The empty environment. *)
Lemma env_ok_nil : env_ok [].
Proof. by split; [apply Nat.leb_le | constructor | apply Nat.leb_le | constructor | constructor]. Qed.
