(* ===== verification/JobEntry.v ===== *)
(** * The registry row ([jobs.JobEntry]) and its vocabularies

    The head-side record of one job, with the lifecycle statuses and typed
    result states it draws from.  Field names and order are the source's;
    dictionaries are association lists in iteration order. *)

From S2P Require Import Prelude Text PyValue.

(** ** Lifecycle statuses and typed results *)
Inductive job_status := Queued | Running | Finished | Killed | Lost | Failed | Skipped.

Inductive result_state_t :=
  | Success | ScientificReject | ExecutionFailure | InfraFailure | Cancelled
  | GuardTerminated | DependencySkipped.

#[export] Instance job_status_eq_dec : EqDecision job_status.
Proof. solve_decision. Defined.
#[export] Instance result_state_eq_dec : EqDecision result_state_t.
Proof. solve_decision. Defined.

Definition status_name (s : job_status) : string :=
  match s with
  | Queued => "queued" | Running => "running" | Finished => "finished" | Killed => "killed"
  | Lost => "lost" | Failed => "failed" | Skipped => "skipped"
  end.
Definition result_name (r : result_state_t) : string :=
  match r with
  | Success => "success" | ScientificReject => "scientific_reject"
  | ExecutionFailure => "execution_failure" | InfraFailure => "infra_failure"
  | Cancelled => "cancelled" | GuardTerminated => "guard_terminated"
  | DependencySkipped => "dependency_skipped"
  end.

Definition JOB_STATUSES : list job_status :=
  [Queued; Running; Finished; Killed; Lost; Failed; Skipped].
Definition RESULT_STATES : list result_state_t :=
  [Success; ScientificReject; ExecutionFailure; InfraFailure; Cancelled; GuardTerminated;
   DependencySkipped].

Definition status_of_name (s : string) : option job_status :=
  List.find (fun st => bool_decide (status_name st = s)) JOB_STATUSES.
Definition result_of_name (s : string) : option result_state_t :=
  List.find (fun r => bool_decide (result_name r = s)) RESULT_STATES.

Lemma status_of_name_spec s st : status_of_name s = Some st <-> s = status_name st.
Proof.
  split; [|intros ->; by destruct st].
  intros H. apply List.find_some in H as [_ H]. by apply bool_decide_eq_true in H.
Qed.

Lemma result_of_name_spec s r : result_of_name s = Some r <-> s = result_name r.
Proof.
  split; [|intros ->; by destruct r].
  intros H. apply List.find_some in H as [_ H]. by apply bool_decide_eq_true in H.
Qed.

#[export] Instance status_name_inj : Inj (=) (=) status_name.
Proof. by intros [] []. Qed.
#[export] Instance result_name_inj : Inj (=) (=) result_name.
Proof. by intros [] []. Qed.

(** [status in {"finished", "killed", "lost", "failed", "skipped"}]. *)
Definition is_terminal (s : job_status) : bool :=
  match s with Queued | Running => false | _ => true end.

(** ** The row *)
Record JobEntry := mkJobEntry {
  job_id : string;
  name : string;
  center : string;
  project : string;
  node : string;
  node_local : bool;
  job_dir : string;
  session : string;
  cmd : string;
  gpus : list Z;
  gpu_isolation : string;
  pgid : option Z;
  status : job_status;
  exit_code : option Z;
  git_sha : option string;
  git_dirty : bool;
  submodule_commits : option (list (string * string));
  snapshot_sha256 : option string;
  payload_sha256 : option string;
  artifact_manifest : option string;
  artifact_targets : option (list (string * string));
  max_hours : option Q;
  min_vram_mib : option Z;
  max_vram_mib : option Z;
  max_job_memory_mib : option Z;
  created_at : Q;
  finished_at : option Q;
  updated_at : option Q;
  gpus_requested : Z;
  require_path : option string;
  require_disk_gib : option Z;
  pin_node : option string;
  exclude_nodes : option (list string);
  reason : option string;
  dispatch_node : option string;
  dispatch_token : option string;
  dispatch_owner : option string;
  dispatch_claimed_at : option Q;
  placement_failures : list (string * string);
  placement_attempts : Z;
  placement_pattern : option string;
  placement_first_failed_at : option Q;
  placement_last_failed_at : option Q;
  env_hash : option string;
  snapshot_duration_s : option Q;
  launch_duration_s : option Q;
  launch_phases_s : list (string * Q);
  env_preexisting : option bool;
  setup_ran : option bool;
  env_mode : option string;
  env_source_job : option string;
  custom_env : list (string * string);
  custom_env_keys : list string;
  custom_env_loaded : bool;
  boot_id : option string;
  started_at : option Q;
  setup : option string;
  setup_inputs : option (list string);
  extras : list string;
  forked_from : option string;
  after_success : option string;
  after_complete : option string;
  after_result : option string;
  after_result_states : list result_state_t;
  request_id : option string;
  result_state : option result_state_t;
  rerun_of : option string;
  retry_limit : Z;
  retry_on : option string;
  retry_count : Z;
  retry_of : option string;
  retried_by : option string;
  rerun_source_snapshot_sha256 : option string;
  rerun_snapshot_changed : option bool;
  cache_source_job : option string;
  cache_source_job_dir : option string;
  cache_source_path : option string;
  cache_env : option string;
  cache_source_env_hash : option string;
  cache_mode : option string;
  storage_layout : option string;
  worker_root : option string;
  worker_roots : list (string * string);
  job_relpath : option string;
  recovered_at : option Q;
  code_pruned_at : option Q;
  terminal_finalized_at : option Q;
  legacy_cleanup_pending : bool;
}.

#[export] Instance eta_JobEntry : Eta JobEntry := fun e =>
  mkJobEntry
    (e.(job_id)) (e.(name)) (e.(center)) (e.(project)) (e.(node)) (e.(node_local))
    (e.(job_dir)) (e.(session)) (e.(cmd)) (e.(gpus)) (e.(gpu_isolation)) (e.(pgid))
    (e.(status)) (e.(exit_code)) (e.(git_sha)) (e.(git_dirty)) (e.(submodule_commits))
    (e.(snapshot_sha256)) (e.(payload_sha256)) (e.(artifact_manifest)) (e.(artifact_targets))
    (e.(max_hours)) (e.(min_vram_mib)) (e.(max_vram_mib)) (e.(max_job_memory_mib))
    (e.(created_at)) (e.(finished_at)) (e.(updated_at)) (e.(gpus_requested)) (e.(require_path))
    (e.(require_disk_gib)) (e.(pin_node)) (e.(exclude_nodes)) (e.(reason)) (e.(dispatch_node))
    (e.(dispatch_token)) (e.(dispatch_owner)) (e.(dispatch_claimed_at))
    (e.(placement_failures)) (e.(placement_attempts)) (e.(placement_pattern))
    (e.(placement_first_failed_at)) (e.(placement_last_failed_at)) (e.(env_hash))
    (e.(snapshot_duration_s)) (e.(launch_duration_s)) (e.(launch_phases_s))
    (e.(env_preexisting)) (e.(setup_ran)) (e.(env_mode)) (e.(env_source_job)) (e.(custom_env))
    (e.(custom_env_keys)) (e.(custom_env_loaded)) (e.(boot_id)) (e.(started_at)) (e.(setup))
    (e.(setup_inputs)) (e.(extras)) (e.(forked_from)) (e.(after_success)) (e.(after_complete))
    (e.(after_result)) (e.(after_result_states)) (e.(request_id)) (e.(result_state))
    (e.(rerun_of)) (e.(retry_limit)) (e.(retry_on)) (e.(retry_count)) (e.(retry_of))
    (e.(retried_by)) (e.(rerun_source_snapshot_sha256)) (e.(rerun_snapshot_changed))
    (e.(cache_source_job)) (e.(cache_source_job_dir)) (e.(cache_source_path)) (e.(cache_env))
    (e.(cache_source_env_hash)) (e.(cache_mode)) (e.(storage_layout)) (e.(worker_root))
    (e.(worker_roots)) (e.(job_relpath)) (e.(recovered_at)) (e.(code_pruned_at))
    (e.(terminal_finalized_at)) (e.(legacy_cleanup_pending)).

(** A row with only the required fields, every other at its dataclass default. *)
Definition new_entry (job_id name center project node : string) (node_local : bool)
    (job_dir session cmd : string) (created_at : Q) : JobEntry :=
  {| job_id := job_id; name := name; center := center; project := project; node := node;
     node_local := node_local; job_dir := job_dir; session := session; cmd := cmd;
     gpus := []; gpu_isolation := "advisory"; pgid := None; status := Running;
     exit_code := None; git_sha := None; git_dirty := false; submodule_commits := None;
     snapshot_sha256 := None; payload_sha256 := None; artifact_manifest := None;
     artifact_targets := None; max_hours := None; min_vram_mib := None; max_vram_mib := None;
     max_job_memory_mib := None; created_at := created_at; finished_at := None;
     updated_at := None; gpus_requested := 1; require_path := None; require_disk_gib := None;
     pin_node := None; exclude_nodes := None; reason := None; dispatch_node := None;
     dispatch_token := None; dispatch_owner := None; dispatch_claimed_at := None;
     placement_failures := []; placement_attempts := 0; placement_pattern := None;
     placement_first_failed_at := None; placement_last_failed_at := None; env_hash := None;
     snapshot_duration_s := None; launch_duration_s := None; launch_phases_s := [];
     env_preexisting := None; setup_ran := None; env_mode := None; env_source_job := None;
     custom_env := []; custom_env_keys := []; custom_env_loaded := true; boot_id := None;
     started_at := None; setup := None; setup_inputs := None; extras := [];
     forked_from := None; after_success := None; after_complete := None; after_result := None;
     after_result_states := []; request_id := None; result_state := None; rerun_of := None;
     retry_limit := 0; retry_on := None; retry_count := 0; retry_of := None;
     retried_by := None; rerun_source_snapshot_sha256 := None; rerun_snapshot_changed := None;
     cache_source_job := None; cache_source_job_dir := None; cache_source_path := None;
     cache_env := None; cache_source_env_hash := None; cache_mode := None;
     storage_layout := None; worker_root := None; worker_roots := []; job_relpath := None;
     recovered_at := None; code_pruned_at := None; terminal_finalized_at := None;
     legacy_cleanup_pending := false |}.

Definition test_entry : JobEntry :=
  new_entry "20260101-0000_base_0123456789abcdef" "base" "lab" "policy" "gpu-1" false
    "~/dt/worker/jobs/20260101-0000_base_0123456789abcdef" "dt-base" "python train.py" 100%Q.
