(* ===== verification/RegistryCodec.v ===== *)
(** * Decoding and encoding registry rows ([jobs/__init__.py])

    A registry document is untrusted JSON.  [_decode_entry] constructs the
    dataclass with whatever values the document holds, normalizes a few
    historical sentinels and runs five validators over the dynamically typed
    attributes; only then is the row a [JobEntry].  Here the attributes of the
    unvalidated object are a [row] of JSON values, the validators are the
    source's, and [typed_entry] is the statement that every attribute has its
    declared type. *)

From S2P Require Import Prelude Text PyValue Diagnostics Layout CustomEnv JobEntry.

Definition MAX_JOB_ID_LENGTH : nat := N.to_nat 240.
Definition JOB_ID_RE : list re_item := [Rep is_name_char 1 MAX_JOB_ID_LENGTH].
Definition MAX_JOB_COLLECTION_ITEMS : nat := N.to_nat 1024.
Definition MAX_JOB_DIAGNOSTIC_CHARS : nat := N.to_nat 4096.
Definition SHA256_RE : list re_item := [Rep is_hex 64 64].
Definition ENV_HASH_RE : list re_item := [Rep is_hex 12 12].
Definition TOKEN_RE : list re_item := [Rep is_hex 32 32].
Definition DISPATCH_OWNER_RE : list re_item :=
  [Rep (fun c => is_alnum c || char_in "-" c) 1 64; one ":"; Rep is_digit 1 10; one ":";
   Rep is_digit 1 20].
Definition REGISTRY_SCHEMA_VERSION : string := "dt_job_registry_v1".
Definition RETRY_ON_MODES : list string := ["infra"; "always"].
Definition MAX_RETRY_LIMIT : Z := 10.
Definition MAX_PROJECT_EXTRAS : nat := 64.
Definition MAX_SETUP_INPUTS : nat := N.to_nat 256.
Definition _CONFIG_ID_RE : list re_item :=
  [Rep is_alnum 1 1; Rep (fun c => is_alnum c || char_in "_.-" c) 0 63].

Definition valid_job_id (s : string) : bool := fullmatch JOB_ID_RE s.
Definition _valid_job_id (job_id : json) : bool :=
  match job_id with JStr s => valid_job_id s | _ => false end.
Definition _require_job_id (job_id : string) : result string :=
  if valid_job_id job_id then Ok job_id else Err (RegistryError "job identity is unsafe").
Definition is_config_id (value : json) : bool :=
  match value with JStr s => fullmatch _CONFIG_ID_RE s | _ => false end.

(** ** The unvalidated object

    Attribute name to value; assigning an attribute shadows the old value. *)
Abbreviation row := (list (string * json)).
Definition attr (r : row) (k : string) : json := dict_get k r.

Inductive field_default := Required | Default (v : json) | CurrentTime.

(** The dataclass fields in declaration order, with their defaults. *)
Definition job_fields : list (string * field_default) :=
  [("job_id", Required); ("name", Required); ("center", Required); ("project", Required);
   ("node", Required); ("node_local", Required); ("job_dir", Required); ("session", Required);
   ("cmd", Required); ("gpus", Default (JList []));
   ("gpu_isolation", Default (JStr "advisory")); ("pgid", Default JNull);
   ("status", Default (JStr "running")); ("exit_code", Default JNull);
   ("git_sha", Default JNull); ("git_dirty", Default (JBool false));
   ("submodule_commits", Default JNull); ("snapshot_sha256", Default JNull);
   ("payload_sha256", Default JNull); ("artifact_manifest", Default JNull);
   ("artifact_targets", Default JNull); ("max_hours", Default JNull);
   ("min_vram_mib", Default JNull); ("max_vram_mib", Default JNull);
   ("max_job_memory_mib", Default JNull); ("created_at", CurrentTime);
   ("finished_at", Default JNull); ("updated_at", Default JNull);
   ("gpus_requested", Default (JInt 1)); ("require_path", Default JNull);
   ("require_disk_gib", Default JNull); ("pin_node", Default JNull);
   ("exclude_nodes", Default JNull); ("reason", Default JNull);
   ("dispatch_node", Default JNull); ("dispatch_token", Default JNull);
   ("dispatch_owner", Default JNull); ("dispatch_claimed_at", Default JNull);
   ("placement_failures", Default (JDict [])); ("placement_attempts", Default (JInt 0));
   ("placement_pattern", Default JNull); ("placement_first_failed_at", Default JNull);
   ("placement_last_failed_at", Default JNull); ("env_hash", Default JNull);
   ("snapshot_duration_s", Default JNull); ("launch_duration_s", Default JNull);
   ("launch_phases_s", Default (JDict [])); ("env_preexisting", Default JNull);
   ("setup_ran", Default JNull); ("env_mode", Default JNull);
   ("env_source_job", Default JNull); ("custom_env", Default (JDict []));
   ("custom_env_keys", Default (JList [])); ("custom_env_loaded", Default (JBool true));
   ("boot_id", Default JNull); ("started_at", Default JNull); ("setup", Default JNull);
   ("setup_inputs", Default JNull); ("extras", Default (JList []));
   ("forked_from", Default JNull); ("after_success", Default JNull);
   ("after_complete", Default JNull); ("after_result", Default JNull);
   ("after_result_states", Default (JList [])); ("request_id", Default JNull);
   ("result_state", Default JNull); ("rerun_of", Default JNull);
   ("retry_limit", Default (JInt 0)); ("retry_on", Default JNull);
   ("retry_count", Default (JInt 0)); ("retry_of", Default JNull);
   ("retried_by", Default JNull); ("rerun_source_snapshot_sha256", Default JNull);
   ("rerun_snapshot_changed", Default JNull); ("cache_source_job", Default JNull);
   ("cache_source_job_dir", Default JNull); ("cache_source_path", Default JNull);
   ("cache_env", Default JNull); ("cache_source_env_hash", Default JNull);
   ("cache_mode", Default JNull); ("storage_layout", Default JNull);
   ("worker_root", Default JNull); ("worker_roots", Default (JDict []));
   ("job_relpath", Default JNull); ("recovered_at", Default JNull);
   ("code_pruned_at", Default JNull); ("terminal_finalized_at", Default JNull);
   ("legacy_cleanup_pending", Default (JBool false))].

Definition _INTERNAL_JOB_FIELDS : list string := ["custom_env_keys"; "custom_env_loaded"].
Definition _JOB_ENTRY_FIELDS : list string :=
  List.filter (fun n => negb (bool_decide (n ∈ _INTERNAL_JOB_FIELDS))) job_fields.*1.

(** [JobEntry( **payload)]: a missing required argument is a [TypeError]. *)
Fixpoint construct (now : Q) (payload : row) (decl : list (string * field_default))
  : result row :=
  match decl with
  | [] => Ok []
  | (n, d) :: rest =>
      v ← match assoc n payload, d with
          | Some v, _ => Ok v
          | None, Default v => Ok v
          | None, CurrentTime => Ok (JFloat (Fin now))
          | None, Required => Err (TypeError ("missing required argument: " +:+ n))
          end;
      r ← construct now payload rest;
      Ok ((n, v) :: r)
  end.

(** [_bound_entry_diagnostics] on the two attributes it may rewrite. *)
Definition bound_text (v : json) : json :=
  match v with JStr s => JStr (excerpt MAX_JOB_DIAGNOSTIC_CHARS s) | _ => v end.
Definition _bound_entry_diagnostics (r : row) : row :=
  let r := ("reason", bound_text (attr r "reason")) :: r in
  match attr r "placement_failures" with
  | JDict kv => ("placement_failures", JDict (prod_map id bound_text <$> kv)) :: r
  | _ => r
  end.

(** ** Value shapes the validators test *)
Definition opt (ok : json -> bool) (v : json) : bool := is_null v || ok v.
(** An [int] that is not a [bool], in a range. *)
Definition int_in (p : Z -> bool) (v : json) : bool :=
  match v with JInt z => p z | _ => false end.
Definition matches (re : list re_item) (v : json) : bool :=
  match v with JStr s => fullmatch re s | _ => false end.
Definition str_in (set : list string) (v : json) : bool :=
  match v with JStr s => bool_decide (s ∈ set) | _ => false end.
Definition str_dict (v : json) : bool :=
  match v with JDict kv => forallb (fun p => is_str p.2) kv | _ => false end.
Definition json_len (v : json) : nat :=
  match v with JList l => length l | JDict kv => length kv | _ => 0 end.
(** The distinctness test [len(set(l)) == len(l)] on a list of ints or strings. *)
Definition ints_of (l : list json) : list Z :=
  omap (fun v => match v with JInt z => Some z | _ => None end) l.
Definition strs_of (l : list json) : list string :=
  omap (fun v => match v with JStr s => Some s | _ => None end) l.

(** The test [value is not None and (isinstance(value, bool) or not
    isinstance(value, (int, float)) or not math.isfinite(float(value)) or
    bad(value))]; [float] may raise [OverflowError]. *)
Definition bad_number (bad : json -> bool) (v : json) : result bool :=
  if is_null v then Ok false
  else if is_bool v || negb (is_int v || is_float v) then Ok true
  else f ← py_float v; Ok (negb (isfinite f) || bad v).

(** [any(bad(v) for v in values)] with a test that may raise. *)
Fixpoint any_raising {A} (bad : A -> result bool) (values : list A) : result bool :=
  match values with
  | [] => Ok false
  | v :: rest => b ← bad v; if b : bool then Ok true else any_raising bad rest
  end.

(** ** The validators *)
Definition required_strings : list string :=
  ["job_id"; "name"; "center"; "project"; "node"; "job_dir"; "session"; "cmd"].
Definition lifecycle_timestamps : list string :=
  ["created_at"; "started_at"; "finished_at"; "updated_at"; "terminal_finalized_at";
   "dispatch_claimed_at"; "code_pruned_at"].

Definition gpus_ok (v : json) : bool :=
  match v with
  | JList l =>
      (length l <=? MAX_JOB_COLLECTION_ITEMS)%nat && forallb (int_in (fun z => 0 <=? z)) l
      && bool_decide (NoDup (ints_of l))
  | _ => false
  end.

Definition _validate_entry_lifecycle (r : row) : result unit :=
  raise_if (negb (forallb (fun k => is_str (attr r k)) required_strings))
    (ValueError "job registry has invalid required text fields") ;;
  raise_if (negb (str_in (status_name <$> JOB_STATUSES) (attr r "status")))
    (ValueError "job registry has an invalid lifecycle status") ;;
  raise_if (negb (is_bool (attr r "node_local") && is_bool (attr r "git_dirty")
                  && is_bool (attr r "legacy_cleanup_pending")))
    (ValueError "job registry has invalid boolean fields") ;;
  raise_if (negb (gpus_ok (attr r "gpus")))
    (ValueError "job registry has invalid GPU assignments") ;;
  raise_if (negb (opt (int_in (fun z => 0 <? z)) (attr r "pgid")))
    (ValueError "job registry has an invalid process group") ;;
  raise_if (negb (opt (int_in (fun z => (0 <=? z) && (z <=? 255))) (attr r "exit_code")))
    (ValueError "job registry has an invalid exit code") ;;
  raise_if (negb (int_in (fun z => 0 <=? z) (attr r "gpus_requested")))
    (ValueError "job registry has an invalid GPU request") ;;
  raise_if (negb (opt (str_in (result_name <$> RESULT_STATES)) (attr r "result_state")))
    (ValueError "job registry has an invalid typed result") ;;
  bad ← (if is_null (attr r "created_at") then Ok true
         else any_raising (fun k => bad_number negative (attr r k)) lifecycle_timestamps);
  raise_if bad (ValueError "job registry has invalid lifecycle timestamps").

Definition _validate_entry_collections (r : row) : result unit :=
  raise_if (negb (str_dict (attr r "placement_failures")))
    (ValueError "job registry has invalid placement failures") ;;
  raise_if (MAX_JOB_COLLECTION_ITEMS <? json_len (attr r "placement_failures"))%nat
    (ValueError "job registry has too many placement failures") ;;
  raise_if (negb (str_dict (attr r "worker_roots")))
    (ValueError "job registry has invalid worker roots") ;;
  raise_if (MAX_JOB_COLLECTION_ITEMS <? json_len (attr r "worker_roots"))%nat
    (ValueError "job registry has too many worker roots") ;;
  let bounded_str_dict v :=
    (json_len v <=? MAX_JOB_COLLECTION_ITEMS)%nat && str_dict v in
  raise_if (negb (opt bounded_str_dict (attr r "submodule_commits")))
    (ValueError "job registry has invalid submodule commits") ;;
  raise_if (negb (opt bounded_str_dict (attr r "artifact_targets")))
    (ValueError "job registry has invalid artifact targets") ;;
  raise_if (match attr r "extras" with
            | JList l => (MAX_PROJECT_EXTRAS <? length l)%nat || negb (forallb is_config_id l)
            | _ => true
            end)
    (ValueError "job registry has invalid project extras").

Definition optional_text : list string :=
  ["git_sha"; "snapshot_sha256"; "payload_sha256"; "artifact_manifest"; "require_path";
   "pin_node"; "reason"; "dispatch_node"; "dispatch_token"; "env_hash"; "env_mode";
   "env_source_job"; "boot_id"; "setup"; "forked_from"; "after_success"; "after_complete";
   "after_result"; "request_id"; "rerun_of"; "rerun_source_snapshot_sha256";
   "cache_source_job"; "cache_source_job_dir"; "cache_source_path"; "cache_env";
   "cache_source_env_hash"; "cache_mode"; "storage_layout"; "worker_root"; "job_relpath";
   "retry_of"; "retried_by"].

(** [entry.retry_on not in RETRY_ON_MODES]: hashing a list or dict raises. *)
Definition bad_retry_on (v : json) : result bool :=
  match v with
  | JNull => Ok false
  | JList _ | JDict _ => Err (TypeError "unhashable type")
  | _ => Ok (negb (str_in RETRY_ON_MODES v))
  end.

(** Returns the row because the last statement normalizes two attributes. *)
Definition _validate_entry_provenance (r : row) : result row :=
  raise_if (negb (forallb (fun k => opt is_str (attr r k)) optional_text))
    (ValueError "job registry has invalid optional text fields") ;;
  let ordinal_ok v := int_in (fun z => (0 <=? z) && (z <=? MAX_RETRY_LIMIT)) v in
  raise_if (negb (ordinal_ok (attr r "retry_limit") && ordinal_ok (attr r "retry_count")))
    (ValueError "job registry has an invalid retry policy") ;;
  bad ← bad_retry_on (attr r "retry_on");
  raise_if bad (ValueError "job registry has an invalid retry trigger") ;;
  raise_if (match attr r "legacy_cleanup_pending" with
            | JBool true =>
                negb (str_in [ROLE_LAYOUT] (attr r "storage_layout"))
                || negb (str_in ["finished"; "killed"] (attr r "status"))
                || str_in ["-"] (attr r "node")
                || is_null (attr r "worker_root")
                || negb (match attr r "job_relpath", attr r "job_id" with
                         | JStr p, JStr id => bool_decide (p = "jobs/" +:+ id)
                         | _, _ => false
                         end)
            | _ => false
            end)
    (ValueError "job registry has an invalid pending legacy cleanup") ;;
  raise_if (negb (is_null (attr r "terminal_finalized_at")) && negb (str_in ["lost"] (attr r "status")))
    (ValueError "only a lost job may carry terminal finality") ;;
  raise_if (negb (opt (matches TOKEN_RE) (attr r "dispatch_token")))
    (ValueError "job registry has an invalid dispatch token") ;;
  raise_if (xorb (is_null (attr r "dispatch_node")) (is_null (attr r "dispatch_token")))
    (ValueError "job registry has an incomplete dispatch attempt identity") ;;
  raise_if (negb (is_null (attr r "dispatch_node")) && negb (str_in ["queued"] (attr r "status")))
    (ValueError "only queued jobs may retain a dispatch attempt identity") ;;
  raise_if (negb (opt (matches DISPATCH_OWNER_RE) (attr r "dispatch_owner")))
    (ValueError "job registry has an invalid dispatch owner identity") ;;
  Ok (if is_null (attr r "dispatch_token")
      then ("dispatch_owner", JNull) :: ("dispatch_claimed_at", JNull) :: r
      else r).

Definition _validate_entry_limits (r : row) : result unit :=
  raise_if (negb (forallb (fun k => opt (matches SHA256_RE) (attr r k))
              ["snapshot_sha256"; "payload_sha256"; "artifact_manifest";
               "rerun_source_snapshot_sha256"]))
    (ValueError "job registry has an invalid SHA-256 identity") ;;
  raise_if (negb (forallb (fun k => opt (matches ENV_HASH_RE) (attr r k))
              ["env_hash"; "cache_source_env_hash"]))
    (ValueError "job registry has an invalid environment identity") ;;
  raise_if (negb (forallb (fun k => opt is_bool (attr r k))
              ["env_preexisting"; "setup_ran"; "rerun_snapshot_changed"]))
    (ValueError "job registry has invalid optional boolean fields") ;;
  bad ← any_raising (fun k => bad_number negative (attr r k))
          ["snapshot_duration_s"; "launch_duration_s"; "recovered_at";
           "placement_first_failed_at"; "placement_last_failed_at"];
  raise_if bad (ValueError "job registry has invalid non-negative measurements") ;;
  bad ← bad_number (fun v => negb (positive_num v)) (attr r "max_hours");
  raise_if bad (ValueError "job registry has an invalid runtime limit") ;;
  raise_if (negb (forallb (fun k => opt (int_in (fun z => 0 <? z)) (attr r k))
              ["min_vram_mib"; "max_vram_mib"; "max_job_memory_mib"]))
    (ValueError "job registry has invalid positive resource limits") ;;
  raise_if (negb (is_null (attr r "min_vram_mib")) && int_in (Z.eqb 0) (attr r "gpus_requested"))
    (ValueError "job registry has a GPU memory requirement on a CPU job") ;;
  raise_if (negb (opt (int_in (fun z => 0 <=? z)) (attr r "require_disk_gib")))
    (ValueError "job registry has an invalid disk requirement") ;;
  raise_if (negb (int_in (fun z => 0 <=? z) (attr r "placement_attempts")))
    (ValueError "job registry has an invalid placement attempt count") ;;
  raise_if (negb (opt (fun v => match v with
                                | JStr s => (str_len s <=? MAX_JOB_DIAGNOSTIC_CHARS)%nat
                                | _ => false
                                end) (attr r "placement_pattern")))
    (ValueError "job registry has an invalid placement pattern").

Definition setup_input_ok (raw_path : json) : result unit :=
  match raw_path with
  | JStr p =>
      raise_if (bool_decide (p = "")) (ValueError "job registry has invalid setup inputs") ;;
      raise_if (pure_is_absolute p || bool_decide (".." ∈ pure_parts p))
        (ValueError "job registry has unsafe setup inputs")
  | _ => Err (ValueError "job registry has invalid setup inputs")
  end.

(** [normalize_node_root] on a value the text checks left a [str]. *)
Definition worker_root_ok (v : json) : result unit :=
  match v with
  | JStr root =>
      match normalize_node_root root with
      | Ok _ => Ok tt
      | Err e => if is_value_error e
                 then Err (ValueError "job registry has an invalid worker root") else Err e
      end
  | _ => Err (TypeError "argument of type is not iterable")
  end.

Definition _validate_entry_contracts (r : row) : result unit :=
  match attr r "launch_phases_s" with
  | JDict phases =>
      bad ← any_raising (fun p => if is_null p.2 then Ok true else bad_number negative p.2) phases;
      raise_if bad (ValueError "job registry has invalid launch phases")
  | _ => Err (ValueError "job registry has invalid launch phases")
  end ;;
  raise_if (MAX_JOB_COLLECTION_ITEMS <? json_len (attr r "launch_phases_s"))%nat
    (ValueError "job registry has too many launch phases") ;;
  raise_if (negb (opt (fun v => match v with
                      | JList l => (length l <=? MAX_JOB_COLLECTION_ITEMS)%nat
                                   && forallb is_config_id l
                      | _ => false
                      end) (attr r "exclude_nodes")))
    (ValueError "job registry has invalid excluded nodes") ;;
  match attr r "setup_inputs" with
  | JNull => Ok tt
  | JList l =>
      raise_if (MAX_SETUP_INPUTS <? length l)%nat
        (ValueError "job registry has invalid setup inputs") ;;
      for_each setup_input_ok l
  | _ => Err (ValueError "job registry has invalid setup inputs")
  end ;;
  raise_if (match attr r "after_result_states" with
            | JList l =>
                (length RESULT_STATES <? length l)%nat || negb (forallb is_str l)
                || negb (bool_decide (NoDup (strs_of l)))
                || negb (forallb (str_in (result_name <$> RESULT_STATES)) l)
            | _ => true
            end)
    (ValueError "job registry has invalid dependency result states") ;;
  raise_if (negb (opt (str_in ["sync"; "reuse"]) (attr r "env_mode")))
    (ValueError "job registry has an invalid environment mode") ;;
  raise_if (negb (opt (str_in ["shared"; "clone"]) (attr r "cache_mode")))
    (ValueError "job registry has an invalid cache mode") ;;
  raise_if (negb (opt (str_in [LEGACY_LAYOUT; ROLE_LAYOUT]) (attr r "storage_layout")))
    (ValueError "job registry has an invalid storage layout") ;;
  (if is_null (attr r "worker_root") then Ok tt else worker_root_ok (attr r "worker_root")) ;;
  for_each (fun p => worker_root_ok p.2)
    (match attr r "worker_roots" with JDict kv => kv | _ => [] end) ;;
  raise_if (negb (opt (fun v => match v with
                      | JStr p => negb (pure_is_absolute p || bool_decide (pure_parts p = [])
                                        || bool_decide (".." ∈ pure_parts p))
                      | _ => false
                      end) (attr r "job_relpath")))
    (ValueError "job registry has an invalid relative job path") ;;
  raise_if (negb (str_in ["advisory"] (attr r "gpu_isolation")))
    (ValueError "job registry requests unsupported physical GPU isolation").

(** ** Reading the declared types *)
Definition as_str (v : json) : option string := match v with JStr s => Some s | _ => None end.
Definition as_bool (v : json) : option bool := match v with JBool b => Some b | _ => None end.
Definition as_num (v : json) : option Q :=
  match v with JInt z => Some (inject_Z z) | JFloat (Fin q) => Some q | _ => None end.
Definition as_int' (v : json) : option Z := match v with JInt z => Some z | _ => None end.
Definition as_opt {A} (f : json -> option A) (v : json) : option (option A) :=
  match v with JNull => Some None | _ => Some <$> f v end.
Definition as_list {A} (f : json -> option A) (v : json) : option (list A) :=
  match v with JList l => mapM f l | _ => None end.
Definition as_map {A} (f : json -> option A) (v : json) : option (list (string * A)) :=
  match v with
  | JDict kv => mapM (fun p => (fun x => (p.1, x)) <$> f p.2) kv
  | _ => None
  end.
Definition as_status (v : json) : option job_status := s ← as_str v; status_of_name s.
Definition as_result (v : json) : option result_state_t := s ← as_str v; result_of_name s.

Definition of_num (q : Q) : json := JFloat (Fin q).
Definition of_opt {A} (f : A -> json) (o : option A) : json :=
  match o with None => JNull | Some a => f a end.
Definition of_list {A} (f : A -> json) (l : list A) : json := JList (f <$> l).
Definition of_map {A} (f : A -> json) (kv : list (string * A)) : json :=
  JDict (prod_map id f <$> kv).
Definition of_status (s : job_status) : json := JStr (status_name s).
Definition of_result (r : result_state_t) : json := JStr (result_name r).

(** Every attribute has its declared type. *)
Definition typed_entry (r : row) : option JobEntry :=
  job_id_ ← as_str (attr r "job_id");
  name_ ← as_str (attr r "name");
  center_ ← as_str (attr r "center");
  project_ ← as_str (attr r "project");
  node_ ← as_str (attr r "node");
  node_local_ ← as_bool (attr r "node_local");
  job_dir_ ← as_str (attr r "job_dir");
  session_ ← as_str (attr r "session");
  cmd_ ← as_str (attr r "cmd");
  gpus_ ← as_list as_int' (attr r "gpus");
  gpu_isolation_ ← as_str (attr r "gpu_isolation");
  pgid_ ← as_opt as_int' (attr r "pgid");
  status_ ← as_status (attr r "status");
  exit_code_ ← as_opt as_int' (attr r "exit_code");
  git_sha_ ← as_opt as_str (attr r "git_sha");
  git_dirty_ ← as_bool (attr r "git_dirty");
  submodule_commits_ ← as_opt (as_map as_str) (attr r "submodule_commits");
  snapshot_sha256_ ← as_opt as_str (attr r "snapshot_sha256");
  payload_sha256_ ← as_opt as_str (attr r "payload_sha256");
  artifact_manifest_ ← as_opt as_str (attr r "artifact_manifest");
  artifact_targets_ ← as_opt (as_map as_str) (attr r "artifact_targets");
  max_hours_ ← as_opt as_num (attr r "max_hours");
  min_vram_mib_ ← as_opt as_int' (attr r "min_vram_mib");
  max_vram_mib_ ← as_opt as_int' (attr r "max_vram_mib");
  max_job_memory_mib_ ← as_opt as_int' (attr r "max_job_memory_mib");
  created_at_ ← as_num (attr r "created_at");
  finished_at_ ← as_opt as_num (attr r "finished_at");
  updated_at_ ← as_opt as_num (attr r "updated_at");
  gpus_requested_ ← as_int' (attr r "gpus_requested");
  require_path_ ← as_opt as_str (attr r "require_path");
  require_disk_gib_ ← as_opt as_int' (attr r "require_disk_gib");
  pin_node_ ← as_opt as_str (attr r "pin_node");
  exclude_nodes_ ← as_opt (as_list as_str) (attr r "exclude_nodes");
  reason_ ← as_opt as_str (attr r "reason");
  dispatch_node_ ← as_opt as_str (attr r "dispatch_node");
  dispatch_token_ ← as_opt as_str (attr r "dispatch_token");
  dispatch_owner_ ← as_opt as_str (attr r "dispatch_owner");
  dispatch_claimed_at_ ← as_opt as_num (attr r "dispatch_claimed_at");
  placement_failures_ ← as_map as_str (attr r "placement_failures");
  placement_attempts_ ← as_int' (attr r "placement_attempts");
  placement_pattern_ ← as_opt as_str (attr r "placement_pattern");
  placement_first_failed_at_ ← as_opt as_num (attr r "placement_first_failed_at");
  placement_last_failed_at_ ← as_opt as_num (attr r "placement_last_failed_at");
  env_hash_ ← as_opt as_str (attr r "env_hash");
  snapshot_duration_s_ ← as_opt as_num (attr r "snapshot_duration_s");
  launch_duration_s_ ← as_opt as_num (attr r "launch_duration_s");
  launch_phases_s_ ← as_map as_num (attr r "launch_phases_s");
  env_preexisting_ ← as_opt as_bool (attr r "env_preexisting");
  setup_ran_ ← as_opt as_bool (attr r "setup_ran");
  env_mode_ ← as_opt as_str (attr r "env_mode");
  env_source_job_ ← as_opt as_str (attr r "env_source_job");
  custom_env_ ← as_map as_str (attr r "custom_env");
  custom_env_keys_ ← as_list as_str (attr r "custom_env_keys");
  custom_env_loaded_ ← as_bool (attr r "custom_env_loaded");
  boot_id_ ← as_opt as_str (attr r "boot_id");
  started_at_ ← as_opt as_num (attr r "started_at");
  setup_ ← as_opt as_str (attr r "setup");
  setup_inputs_ ← as_opt (as_list as_str) (attr r "setup_inputs");
  extras_ ← as_list as_str (attr r "extras");
  forked_from_ ← as_opt as_str (attr r "forked_from");
  after_success_ ← as_opt as_str (attr r "after_success");
  after_complete_ ← as_opt as_str (attr r "after_complete");
  after_result_ ← as_opt as_str (attr r "after_result");
  after_result_states_ ← as_list as_result (attr r "after_result_states");
  request_id_ ← as_opt as_str (attr r "request_id");
  result_state_ ← as_opt as_result (attr r "result_state");
  rerun_of_ ← as_opt as_str (attr r "rerun_of");
  retry_limit_ ← as_int' (attr r "retry_limit");
  retry_on_ ← as_opt as_str (attr r "retry_on");
  retry_count_ ← as_int' (attr r "retry_count");
  retry_of_ ← as_opt as_str (attr r "retry_of");
  retried_by_ ← as_opt as_str (attr r "retried_by");
  rerun_source_snapshot_sha256_ ← as_opt as_str (attr r "rerun_source_snapshot_sha256");
  rerun_snapshot_changed_ ← as_opt as_bool (attr r "rerun_snapshot_changed");
  cache_source_job_ ← as_opt as_str (attr r "cache_source_job");
  cache_source_job_dir_ ← as_opt as_str (attr r "cache_source_job_dir");
  cache_source_path_ ← as_opt as_str (attr r "cache_source_path");
  cache_env_ ← as_opt as_str (attr r "cache_env");
  cache_source_env_hash_ ← as_opt as_str (attr r "cache_source_env_hash");
  cache_mode_ ← as_opt as_str (attr r "cache_mode");
  storage_layout_ ← as_opt as_str (attr r "storage_layout");
  worker_root_ ← as_opt as_str (attr r "worker_root");
  worker_roots_ ← as_map as_str (attr r "worker_roots");
  job_relpath_ ← as_opt as_str (attr r "job_relpath");
  recovered_at_ ← as_opt as_num (attr r "recovered_at");
  code_pruned_at_ ← as_opt as_num (attr r "code_pruned_at");
  terminal_finalized_at_ ← as_opt as_num (attr r "terminal_finalized_at");
  legacy_cleanup_pending_ ← as_bool (attr r "legacy_cleanup_pending");
  Some (mkJobEntry
    job_id_ name_ center_ project_ node_ node_local_ job_dir_ session_ cmd_ gpus_
    gpu_isolation_ pgid_ status_ exit_code_ git_sha_ git_dirty_ submodule_commits_
    snapshot_sha256_ payload_sha256_ artifact_manifest_ artifact_targets_ max_hours_
    min_vram_mib_ max_vram_mib_ max_job_memory_mib_ created_at_ finished_at_ updated_at_
    gpus_requested_ require_path_ require_disk_gib_ pin_node_ exclude_nodes_ reason_
    dispatch_node_ dispatch_token_ dispatch_owner_ dispatch_claimed_at_ placement_failures_
    placement_attempts_ placement_pattern_ placement_first_failed_at_ placement_last_failed_at_
    env_hash_ snapshot_duration_s_ launch_duration_s_ launch_phases_s_ env_preexisting_
    setup_ran_ env_mode_ env_source_job_ custom_env_ custom_env_keys_ custom_env_loaded_
    boot_id_ started_at_ setup_ setup_inputs_ extras_ forked_from_ after_success_
    after_complete_ after_result_ after_result_states_ request_id_ result_state_ rerun_of_
    retry_limit_ retry_on_ retry_count_ retry_of_ retried_by_ rerun_source_snapshot_sha256_
    rerun_snapshot_changed_ cache_source_job_ cache_source_job_dir_ cache_source_path_
    cache_env_ cache_source_env_hash_ cache_mode_ storage_layout_ worker_root_ worker_roots_
    job_relpath_ recovered_at_ code_pruned_at_ terminal_finalized_at_ legacy_cleanup_pending_).

(** [dataclasses.asdict]. *)
Definition to_row (e : JobEntry) : row :=
  [("job_id", JStr e.(job_id));
   ("name", JStr e.(name));
   ("center", JStr e.(center));
   ("project", JStr e.(project));
   ("node", JStr e.(node));
   ("node_local", JBool e.(node_local));
   ("job_dir", JStr e.(job_dir));
   ("session", JStr e.(session));
   ("cmd", JStr e.(cmd));
   ("gpus", of_list JInt e.(gpus));
   ("gpu_isolation", JStr e.(gpu_isolation));
   ("pgid", of_opt JInt e.(pgid));
   ("status", of_status e.(status));
   ("exit_code", of_opt JInt e.(exit_code));
   ("git_sha", of_opt JStr e.(git_sha));
   ("git_dirty", JBool e.(git_dirty));
   ("submodule_commits", of_opt (of_map JStr) e.(submodule_commits));
   ("snapshot_sha256", of_opt JStr e.(snapshot_sha256));
   ("payload_sha256", of_opt JStr e.(payload_sha256));
   ("artifact_manifest", of_opt JStr e.(artifact_manifest));
   ("artifact_targets", of_opt (of_map JStr) e.(artifact_targets));
   ("max_hours", of_opt of_num e.(max_hours));
   ("min_vram_mib", of_opt JInt e.(min_vram_mib));
   ("max_vram_mib", of_opt JInt e.(max_vram_mib));
   ("max_job_memory_mib", of_opt JInt e.(max_job_memory_mib));
   ("created_at", of_num e.(created_at));
   ("finished_at", of_opt of_num e.(finished_at));
   ("updated_at", of_opt of_num e.(updated_at));
   ("gpus_requested", JInt e.(gpus_requested));
   ("require_path", of_opt JStr e.(require_path));
   ("require_disk_gib", of_opt JInt e.(require_disk_gib));
   ("pin_node", of_opt JStr e.(pin_node));
   ("exclude_nodes", of_opt (of_list JStr) e.(exclude_nodes));
   ("reason", of_opt JStr e.(reason));
   ("dispatch_node", of_opt JStr e.(dispatch_node));
   ("dispatch_token", of_opt JStr e.(dispatch_token));
   ("dispatch_owner", of_opt JStr e.(dispatch_owner));
   ("dispatch_claimed_at", of_opt of_num e.(dispatch_claimed_at));
   ("placement_failures", of_map JStr e.(placement_failures));
   ("placement_attempts", JInt e.(placement_attempts));
   ("placement_pattern", of_opt JStr e.(placement_pattern));
   ("placement_first_failed_at", of_opt of_num e.(placement_first_failed_at));
   ("placement_last_failed_at", of_opt of_num e.(placement_last_failed_at));
   ("env_hash", of_opt JStr e.(env_hash));
   ("snapshot_duration_s", of_opt of_num e.(snapshot_duration_s));
   ("launch_duration_s", of_opt of_num e.(launch_duration_s));
   ("launch_phases_s", of_map of_num e.(launch_phases_s));
   ("env_preexisting", of_opt JBool e.(env_preexisting));
   ("setup_ran", of_opt JBool e.(setup_ran));
   ("env_mode", of_opt JStr e.(env_mode));
   ("env_source_job", of_opt JStr e.(env_source_job));
   ("custom_env", of_map JStr e.(custom_env));
   ("custom_env_keys", of_list JStr e.(custom_env_keys));
   ("custom_env_loaded", JBool e.(custom_env_loaded));
   ("boot_id", of_opt JStr e.(boot_id));
   ("started_at", of_opt of_num e.(started_at));
   ("setup", of_opt JStr e.(setup));
   ("setup_inputs", of_opt (of_list JStr) e.(setup_inputs));
   ("extras", of_list JStr e.(extras));
   ("forked_from", of_opt JStr e.(forked_from));
   ("after_success", of_opt JStr e.(after_success));
   ("after_complete", of_opt JStr e.(after_complete));
   ("after_result", of_opt JStr e.(after_result));
   ("after_result_states", of_list of_result e.(after_result_states));
   ("request_id", of_opt JStr e.(request_id));
   ("result_state", of_opt of_result e.(result_state));
   ("rerun_of", of_opt JStr e.(rerun_of));
   ("retry_limit", JInt e.(retry_limit));
   ("retry_on", of_opt JStr e.(retry_on));
   ("retry_count", JInt e.(retry_count));
   ("retry_of", of_opt JStr e.(retry_of));
   ("retried_by", of_opt JStr e.(retried_by));
   ("rerun_source_snapshot_sha256", of_opt JStr e.(rerun_source_snapshot_sha256));
   ("rerun_snapshot_changed", of_opt JBool e.(rerun_snapshot_changed));
   ("cache_source_job", of_opt JStr e.(cache_source_job));
   ("cache_source_job_dir", of_opt JStr e.(cache_source_job_dir));
   ("cache_source_path", of_opt JStr e.(cache_source_path));
   ("cache_env", of_opt JStr e.(cache_env));
   ("cache_source_env_hash", of_opt JStr e.(cache_source_env_hash));
   ("cache_mode", of_opt JStr e.(cache_mode));
   ("storage_layout", of_opt JStr e.(storage_layout));
   ("worker_root", of_opt JStr e.(worker_root));
   ("worker_roots", of_map JStr e.(worker_roots));
   ("job_relpath", of_opt JStr e.(job_relpath));
   ("recovered_at", of_opt of_num e.(recovered_at));
   ("code_pruned_at", of_opt of_num e.(code_pruned_at));
   ("terminal_finalized_at", of_opt of_num e.(terminal_finalized_at));
   ("legacy_cleanup_pending", JBool e.(legacy_cleanup_pending))].

(** ** Decoding *)

(** The statements of [_decode_entry] between construction and validation:
    bounded diagnostics, the internal fields, and empty environment hashes. *)
Definition prepare_row (env : environment) (include_private : bool) (r : row) : row :=
  let r := _bound_entry_diagnostics r in
  let r := ("custom_env_keys", of_list JStr (sort_strings env.*1)) :: r in
  let r := ("custom_env_loaded", JBool include_private) :: r in
  let r := if str_in [""] (attr r "env_hash") then ("env_hash", JNull) :: r else r in
  if str_in [""] (attr r "cache_source_env_hash")
  then ("cache_source_env_hash", JNull) :: r else r.

(** The statements after validation: rows written before these fields existed
    get the legacy layout and the file's modification time
    ([registry_updated_at or entry.created_at]). *)
Definition fill_sentinels (registry_updated_at : option Q) (r : row) : row :=
  let r := if is_null (attr r "storage_layout")
           then ("storage_layout", JStr LEGACY_LAYOUT) :: r else r in
  if is_null (attr r "updated_at")
  then ("updated_at", match registry_updated_at with
                      | Some t => if Qeq_bool t 0 then attr r "created_at" else of_num t
                      | None => attr r "created_at"
                      end) :: r
  else r.

(** [_decode_entry].  [now] is the clock the [created_at] default reads. *)
Definition _decode_entry (now : Q) (raw : json) (registry_updated_at : option Q)
    (expected_job_id : option string) (include_private : bool) : result JobEntry :=
  match raw with
  | JDict doc =>
      let raw_job_id := dict_get "job_id" doc in
      raise_if (negb (_valid_job_id raw_job_id))
        (ValueError "job registry identity is unsafe") ;;
      raise_if (match expected_job_id with Some id => negb (str_in [id] raw_job_id)
                | None => false end)
        (ValueError "job registry identity does not match its filename") ;;
      let payload := List.filter (fun p => bool_decide (p.1 ∈ _JOB_ENTRY_FIELDS)) doc in
      env ← match validate (default (JDict []) (assoc "custom_env" payload)) with
            | Ok env => Ok env
            | Err e => Err (ValueError (exn_message e))
            end;
      let payload := ("custom_env", as_json (if include_private then env else [])) :: payload in
      r ← construct now payload job_fields;
      let r := prepare_row env include_private r in
      _validate_entry_lifecycle r ;;
      _validate_entry_collections r ;;
      r ← _validate_entry_provenance r;
      _validate_entry_limits r ;;
      _validate_entry_contracts r ;;
      let r := fill_sentinels registry_updated_at r in
      match typed_entry r with
      | Some e => Ok e
      | None => Err (TypeError "attribute without its declared type")
      end
  | _ => Err (TypeError "job registry entry must be a JSON object")
  end.

(** The [except] clauses: a [RegistryError] passes through, every other
    exception the decoder can raise becomes one. *)
Definition as_registry_error {A} (m : result A) : result A :=
  match m with
  | Ok a => Ok a
  | Err (RegistryError d) => Err (RegistryError d)
  | Err e => Err (RegistryError ("invalid job registry record: "
                    +:+ excerpt MAX_JOB_DIAGNOSTIC_CHARS (exn_message e)))
  end.

Definition decode_registry_document (now : Q) (raw : json) (registry_updated_at : option Q)
    (expected_job_id : option string) (include_private : bool) : result JobEntry :=
  as_registry_error (
    document ← match raw with
      | JDict doc =>
          if dict_has "schema_version" doc then
            raise_if (negb (str_in [REGISTRY_SCHEMA_VERSION] (dict_get "schema_version" doc)))
              (RegistryError "unsupported job registry schema") ;;
            raise_if (negb (same_keys doc ["schema_version"; "job"]))
              (RegistryError "job registry envelope has unknown fields") ;;
            let document := dict_get "job" doc in
            raise_if (negb (is_dict document))
              (RegistryError "job registry envelope has an invalid job record") ;;
            Ok document
          else Ok raw
      | _ => Ok raw
      end;
    _decode_entry now document registry_updated_at expected_job_id include_private).

(** ** Encoding *)
Definition bound_entry (e : JobEntry) : JobEntry :=
  e <| reason := excerpt MAX_JOB_DIAGNOSTIC_CHARS <$> e.(reason) |>
    <| placement_failures :=
         prod_map id (excerpt MAX_JOB_DIAGNOSTIC_CHARS) <$> e.(placement_failures) |>.

(** [asdict] less the internal fields: the flat document. *)
Definition flat_document (e : JobEntry) : row :=
  List.filter (fun p => negb (bool_decide (p.1 ∈ _INTERNAL_JOB_FIELDS))) (to_row e).

Definition envelope (e : JobEntry) : json :=
  JDict [("schema_version", JStr REGISTRY_SCHEMA_VERSION); ("job", JDict (flat_document e))].

Definition MAX_JOB_RECORD_BYTES : nat := N.to_nat (8 * 1024 * 1024).

Section encoding.
(** The size of [json.dumps(document, indent=1)] in UTF-8. *)
Context (encoded_size : json -> nat).

(** Returns the published document and the entry, whose diagnostics the call
    has bounded in place. *)
Definition encode_registry_entry (now : Q) (entry : JobEntry) : result (json * JobEntry) :=
  let entry := bound_entry entry in
  _ ← decode_registry_document now (JDict (flat_document entry)) None
        (Some entry.(job_id)) true;
  raise_if (MAX_JOB_RECORD_BYTES <? encoded_size (envelope entry))%nat
    (RegistryError "job registry record exceeds its size limit") ;;
  Ok (envelope entry, entry).
End encoding.

(** ** The row invariant

    What a decoded row satisfies beyond its types: the conditions of the five
    validators, stated on the typed record. *)
Definition opt_b {A} (p : A -> bool) (o : option A) : bool :=
  match o with None => true | Some a => p a end.
Definition q_nonneg (q : Q) : bool := negb (q_ltb q 0).
Definition in_set (set : list string) (s : string) : bool := bool_decide (s ∈ set).

Definition valid_lifecycle (e : JobEntry) : bool :=
  valid_job_id e.(job_id)
  && (length e.(gpus) <=? MAX_JOB_COLLECTION_ITEMS)%nat
  && forallb (Z.leb 0) e.(gpus) && bool_decide (NoDup e.(gpus))
  && opt_b (Z.ltb 0) e.(pgid)
  && opt_b (fun z => (0 <=? z) && (z <=? 255)) e.(exit_code)
  && (0 <=? e.(gpus_requested))
  && q_nonneg e.(created_at)
  && forallb (opt_b q_nonneg)
       [e.(started_at); e.(finished_at); e.(updated_at); e.(terminal_finalized_at);
        e.(dispatch_claimed_at); e.(code_pruned_at)].

Definition valid_collections (e : JobEntry) : bool :=
  let short {A} (l : list A) := (length l <=? MAX_JOB_COLLECTION_ITEMS)%nat in
  short e.(placement_failures) && short e.(worker_roots)
  && opt_b short e.(submodule_commits) && opt_b short e.(artifact_targets)
  && (length e.(extras) <=? MAX_PROJECT_EXTRAS)%nat
  && forallb (fullmatch _CONFIG_ID_RE) e.(extras).

Definition valid_provenance (e : JobEntry) : bool :=
  let ordinal z := (0 <=? z) && (z <=? MAX_RETRY_LIMIT) in
  ordinal e.(retry_limit) && ordinal e.(retry_count)
  && opt_b (in_set RETRY_ON_MODES) e.(retry_on)
  && implb e.(legacy_cleanup_pending)
       (bool_decide (e.(storage_layout) = Some ROLE_LAYOUT)
        && bool_decide (e.(status) ∈ [Finished; Killed])
        && negb (bool_decide (e.(node) = "-"))
        && bool_decide (is_Some e.(worker_root))
        && bool_decide (e.(job_relpath) = Some ("jobs/" +:+ e.(job_id))))
  && implb (bool_decide (is_Some e.(terminal_finalized_at))) (bool_decide (e.(status) = Lost))
  && opt_b (fullmatch TOKEN_RE) e.(dispatch_token)
  && eqb (bool_decide (is_Some e.(dispatch_node))) (bool_decide (is_Some e.(dispatch_token)))
  && implb (bool_decide (is_Some e.(dispatch_node))) (bool_decide (e.(status) = Queued))
  && opt_b (fullmatch DISPATCH_OWNER_RE) e.(dispatch_owner)
  && implb (bool_decide (e.(dispatch_token) = None))
       (bool_decide (e.(dispatch_owner) = None) && bool_decide (e.(dispatch_claimed_at) = None)).

Definition valid_limits (e : JobEntry) : bool :=
  forallb (opt_b (fullmatch SHA256_RE))
    [e.(snapshot_sha256); e.(payload_sha256); e.(artifact_manifest);
     e.(rerun_source_snapshot_sha256)]
  && forallb (opt_b (fullmatch ENV_HASH_RE)) [e.(env_hash); e.(cache_source_env_hash)]
  && forallb (opt_b q_nonneg)
       [e.(snapshot_duration_s); e.(launch_duration_s); e.(recovered_at);
        e.(placement_first_failed_at); e.(placement_last_failed_at)]
  && opt_b (fun q => q_ltb 0 q) e.(max_hours)
  && forallb (opt_b (Z.ltb 0)) [e.(min_vram_mib); e.(max_vram_mib); e.(max_job_memory_mib)]
  && implb (bool_decide (is_Some e.(min_vram_mib))) (negb (0 =? e.(gpus_requested)))
  && opt_b (Z.leb 0) e.(require_disk_gib)
  && (0 <=? e.(placement_attempts))
  && opt_b (fun s => str_len s <=? MAX_JOB_DIAGNOSTIC_CHARS)%nat e.(placement_pattern).

Definition root_valid (s : string) : bool := is_ok (normalize_node_root s).

Definition valid_contracts (e : JobEntry) : bool :=
  forallb (fun p => q_nonneg p.2) e.(launch_phases_s)
  && (length e.(launch_phases_s) <=? MAX_JOB_COLLECTION_ITEMS)%nat
  && opt_b (fun l => (length l <=? MAX_JOB_COLLECTION_ITEMS)%nat
                     && forallb (fullmatch _CONFIG_ID_RE) l) e.(exclude_nodes)
  && opt_b (fun l => (length l <=? MAX_SETUP_INPUTS)%nat
                     && forallb (fun p => is_ok (setup_input_ok (JStr p))) l) e.(setup_inputs)
  && (length e.(after_result_states) <=? length RESULT_STATES)%nat
  && bool_decide (NoDup e.(after_result_states))
  && opt_b (in_set ["sync"; "reuse"]) e.(env_mode)
  && opt_b (in_set ["shared"; "clone"]) e.(cache_mode)
  && opt_b (in_set [LEGACY_LAYOUT; ROLE_LAYOUT]) e.(storage_layout)
  && opt_b root_valid e.(worker_root)
  && forallb (fun p => root_valid p.2) e.(worker_roots)
  && opt_b (fun p => negb (pure_is_absolute p || bool_decide (pure_parts p = [])
                           || bool_decide (".." ∈ pure_parts p))) e.(job_relpath)
  && bool_decide (e.(gpu_isolation) = "advisory").

Definition bounded_text (s : string) : bool :=
  bool_decide (excerpt MAX_JOB_DIAGNOSTIC_CHARS s = s).
Definition valid_diagnostics (e : JobEntry) : bool :=
  opt_b bounded_text e.(reason) && forallb (fun p => bounded_text p.2) e.(placement_failures).

Record wf_entry (e : JobEntry) : Prop := {
  wf_lifecycle : valid_lifecycle e = true;
  wf_collections : valid_collections e = true;
  wf_provenance : valid_provenance e = true;
  wf_limits : valid_limits e = true;
  wf_contracts : valid_contracts e = true;
  wf_diagnostics : valid_diagnostics e = true;
  wf_environment : env_ok e.(custom_env);
  wf_environment_keys :
    e.(custom_env_loaded) = true -> e.(custom_env_keys) = e.(custom_env).*1;
}.

(** A row as decoding returns it: the two sentinels are filled in. *)
Definition complete (registry_updated_at : option Q) (e : JobEntry) : JobEntry :=
  let e := match e.(storage_layout) with
           | None => e <| storage_layout := Some LEGACY_LAYOUT |>
           | Some _ => e
           end in
  match e.(updated_at) with
  | Some _ => e
  | None => e <| updated_at := Some match registry_updated_at with
                                    | Some t => if Qeq_bool t 0 then e.(created_at) else t
                                    | None => e.(created_at)
                                    end |>
  end.

(** A concrete well-formed row. *)
Lemma test_entry_wf : wf_entry test_entry.
Proof. by split; [vm_compute; reflexivity..| exact env_ok_nil | intros _; reflexivity]. Qed.
