(* ===== verification/CodecFacts.v ===== *)
(** * What the five validators establish

    One lemma per validator of the registry codec: attributes that pass have
    their declared type and satisfy that validator's part of the row invariant
    [wf_entry].  [CodecSound] and [CodecRoundtrip] assemble them. *)

From S2P Require Import Prelude Text PyValue Diagnostics Layout CustomEnv JobEntry RegistryCodec.

(** ** Readers invert writers *)
Lemma as_num_of q : as_num (of_num q) = Some q.
Proof. done. Qed.
Lemma as_status_of s : as_status (of_status s) = Some s.
Proof. by destruct s. Qed.
Lemma as_result_of r : as_result (of_result r) = Some r.
Proof. by destruct r. Qed.

Lemma as_opt_of {A} (f : json -> option A) (g : A -> json) o :
  (forall a, f (g a) = Some a) -> (forall a, g a <> JNull) -> as_opt f (of_opt g o) = Some o.
Proof.
  intros Hf Hg. destruct o as [a|]; [|done]. simpl. unfold as_opt.
  specialize (Hg a). rewrite Hf. by destruct (g a).
Qed.

Lemma mapM_of {A B} (f : A -> option B) (g : B -> A) l :
  (forall b, f (g b) = Some b) -> mapM f (g <$> l) = Some l.
Proof.
  intros H. induction l as [|b l IH]; [done|]. rewrite fmap_cons. simpl.
  rewrite H. simpl. by rewrite IH.
Qed.

Lemma as_list_of {A} (f : json -> option A) (g : A -> json) l :
  (forall a, f (g a) = Some a) -> as_list f (of_list g l) = Some l.
Proof. intros H. by apply mapM_of. Qed.

Lemma as_map_of {A} (f : json -> option A) (g : A -> json) (kv : list (string * A)) :
  (forall a, f (g a) = Some a) -> as_map f (of_map g kv) = Some kv.
Proof. intros H. apply mapM_of. intros [k a]. simpl. by rewrite H. Qed.

(** ** Readers accept what the validators tested *)
Lemma mapM_total {A B} (f : A -> option B) (P : B -> Prop) l :
  Forall (fun a => exists b, f a = Some b /\ P b) l ->
  exists l', mapM f l = Some l' /\ Forall P l' /\ length l' = length l.
Proof.
  induction 1 as [|a l (b & Hb & HP) _ (l' & Hl & HPs & Hlen)]; [by exists []|].
  exists (b :: l'). simpl. rewrite Hb. simpl. rewrite Hl. simpl.
  split; [done|]. split; [by constructor | by f_equal].
Qed.

Section readers.
Implicit Types v : json.

Lemma is_str_as v : is_str v = true -> exists s, as_str v = Some s /\ v = JStr s.
Proof. destruct v; try done. by eexists. Qed.
Lemma is_bool_as v : is_bool v = true -> exists b, as_bool v = Some b /\ v = JBool b.
Proof. destruct v; try done. by eexists. Qed.
Lemma int_in_as p v : int_in p v = true -> exists z, as_int' v = Some z /\ p z = true.
Proof. destruct v; try done. simpl. by eexists. Qed.
Lemma matches_as re v : matches re v = true -> exists s, as_str v = Some s /\ fullmatch re s = true.
Proof. destruct v; try done. simpl. by eexists. Qed.
Lemma str_in_as set v : str_in set v = true -> exists s, v = JStr s /\ s ∈ set.
Proof. destruct v; try done. simpl. rewrite bool_decide_eq_true. by eexists. Qed.

Lemma status_as v :
  str_in (status_name <$> JOB_STATUSES) v = true ->
  exists st, as_status v = Some st /\ v = JStr (status_name st).
Proof.
  intros (s & -> & (st & -> & _)%list_elem_of_fmap)%str_in_as.
  exists st. split; [apply as_status_of | done].
Qed.

Lemma result_as v :
  str_in (result_name <$> RESULT_STATES) v = true ->
  exists st, as_result v = Some st /\ v = JStr (result_name st).
Proof.
  intros (s & -> & (st & -> & _)%list_elem_of_fmap)%str_in_as.
  exists st. split; [apply as_result_of | done].
Qed.

Lemma opt_as {A} (ok : json -> bool) (f : json -> option A) (p : A -> bool) v :
  (forall v, ok v = true -> exists a, f v = Some a /\ p a = true) ->
  opt ok v = true -> exists o, as_opt f v = Some o /\ opt_b p o = true.
Proof.
  intros H. unfold opt. destruct (is_null v) eqn:Hn; simpl.
  - intros _. exists None. by destruct v.
  - intros Ho. destruct (H v Ho) as (a & Ha & Hp). exists (Some a). split; [|done].
    destruct v; simpl; by rewrite ?Ha.
Qed.
End readers.

(** ** The typing judgement

    [typed r e]: attribute by attribute, the dynamic object [r] reads as the
    typed record [e]. *)
Record typed (r : row) (e : JobEntry) : Prop := {
  t_job_id : as_str (attr r "job_id") = Some e.(job_id);
  t_name : as_str (attr r "name") = Some e.(name);
  t_center : as_str (attr r "center") = Some e.(center);
  t_project : as_str (attr r "project") = Some e.(project);
  t_node : as_str (attr r "node") = Some e.(node);
  t_node_local : as_bool (attr r "node_local") = Some e.(node_local);
  t_job_dir : as_str (attr r "job_dir") = Some e.(job_dir);
  t_session : as_str (attr r "session") = Some e.(session);
  t_cmd : as_str (attr r "cmd") = Some e.(cmd);
  t_gpus : as_list as_int' (attr r "gpus") = Some e.(gpus);
  t_gpu_isolation : as_str (attr r "gpu_isolation") = Some e.(gpu_isolation);
  t_pgid : as_opt as_int' (attr r "pgid") = Some e.(pgid);
  t_status : as_status (attr r "status") = Some e.(status);
  t_exit_code : as_opt as_int' (attr r "exit_code") = Some e.(exit_code);
  t_git_sha : as_opt as_str (attr r "git_sha") = Some e.(git_sha);
  t_git_dirty : as_bool (attr r "git_dirty") = Some e.(git_dirty);
  t_submodule_commits : as_opt (as_map as_str) (attr r "submodule_commits") = Some e.(submodule_commits);
  t_snapshot_sha256 : as_opt as_str (attr r "snapshot_sha256") = Some e.(snapshot_sha256);
  t_payload_sha256 : as_opt as_str (attr r "payload_sha256") = Some e.(payload_sha256);
  t_artifact_manifest : as_opt as_str (attr r "artifact_manifest") = Some e.(artifact_manifest);
  t_artifact_targets : as_opt (as_map as_str) (attr r "artifact_targets") = Some e.(artifact_targets);
  t_max_hours : as_opt as_num (attr r "max_hours") = Some e.(max_hours);
  t_min_vram_mib : as_opt as_int' (attr r "min_vram_mib") = Some e.(min_vram_mib);
  t_max_vram_mib : as_opt as_int' (attr r "max_vram_mib") = Some e.(max_vram_mib);
  t_max_job_memory_mib : as_opt as_int' (attr r "max_job_memory_mib") = Some e.(max_job_memory_mib);
  t_created_at : as_num (attr r "created_at") = Some e.(created_at);
  t_finished_at : as_opt as_num (attr r "finished_at") = Some e.(finished_at);
  t_updated_at : as_opt as_num (attr r "updated_at") = Some e.(updated_at);
  t_gpus_requested : as_int' (attr r "gpus_requested") = Some e.(gpus_requested);
  t_require_path : as_opt as_str (attr r "require_path") = Some e.(require_path);
  t_require_disk_gib : as_opt as_int' (attr r "require_disk_gib") = Some e.(require_disk_gib);
  t_pin_node : as_opt as_str (attr r "pin_node") = Some e.(pin_node);
  t_exclude_nodes : as_opt (as_list as_str) (attr r "exclude_nodes") = Some e.(exclude_nodes);
  t_reason : as_opt as_str (attr r "reason") = Some e.(reason);
  t_dispatch_node : as_opt as_str (attr r "dispatch_node") = Some e.(dispatch_node);
  t_dispatch_token : as_opt as_str (attr r "dispatch_token") = Some e.(dispatch_token);
  t_dispatch_owner : as_opt as_str (attr r "dispatch_owner") = Some e.(dispatch_owner);
  t_dispatch_claimed_at : as_opt as_num (attr r "dispatch_claimed_at") = Some e.(dispatch_claimed_at);
  t_placement_failures : as_map as_str (attr r "placement_failures") = Some e.(placement_failures);
  t_placement_attempts : as_int' (attr r "placement_attempts") = Some e.(placement_attempts);
  t_placement_pattern : as_opt as_str (attr r "placement_pattern") = Some e.(placement_pattern);
  t_placement_first_failed_at : as_opt as_num (attr r "placement_first_failed_at") = Some e.(placement_first_failed_at);
  t_placement_last_failed_at : as_opt as_num (attr r "placement_last_failed_at") = Some e.(placement_last_failed_at);
  t_env_hash : as_opt as_str (attr r "env_hash") = Some e.(env_hash);
  t_snapshot_duration_s : as_opt as_num (attr r "snapshot_duration_s") = Some e.(snapshot_duration_s);
  t_launch_duration_s : as_opt as_num (attr r "launch_duration_s") = Some e.(launch_duration_s);
  t_launch_phases_s : as_map as_num (attr r "launch_phases_s") = Some e.(launch_phases_s);
  t_env_preexisting : as_opt as_bool (attr r "env_preexisting") = Some e.(env_preexisting);
  t_setup_ran : as_opt as_bool (attr r "setup_ran") = Some e.(setup_ran);
  t_env_mode : as_opt as_str (attr r "env_mode") = Some e.(env_mode);
  t_env_source_job : as_opt as_str (attr r "env_source_job") = Some e.(env_source_job);
  t_custom_env : as_map as_str (attr r "custom_env") = Some e.(custom_env);
  t_custom_env_keys : as_list as_str (attr r "custom_env_keys") = Some e.(custom_env_keys);
  t_custom_env_loaded : as_bool (attr r "custom_env_loaded") = Some e.(custom_env_loaded);
  t_boot_id : as_opt as_str (attr r "boot_id") = Some e.(boot_id);
  t_started_at : as_opt as_num (attr r "started_at") = Some e.(started_at);
  t_setup : as_opt as_str (attr r "setup") = Some e.(setup);
  t_setup_inputs : as_opt (as_list as_str) (attr r "setup_inputs") = Some e.(setup_inputs);
  t_extras : as_list as_str (attr r "extras") = Some e.(extras);
  t_forked_from : as_opt as_str (attr r "forked_from") = Some e.(forked_from);
  t_after_success : as_opt as_str (attr r "after_success") = Some e.(after_success);
  t_after_complete : as_opt as_str (attr r "after_complete") = Some e.(after_complete);
  t_after_result : as_opt as_str (attr r "after_result") = Some e.(after_result);
  t_after_result_states : as_list as_result (attr r "after_result_states") = Some e.(after_result_states);
  t_request_id : as_opt as_str (attr r "request_id") = Some e.(request_id);
  t_result_state : as_opt as_result (attr r "result_state") = Some e.(result_state);
  t_rerun_of : as_opt as_str (attr r "rerun_of") = Some e.(rerun_of);
  t_retry_limit : as_int' (attr r "retry_limit") = Some e.(retry_limit);
  t_retry_on : as_opt as_str (attr r "retry_on") = Some e.(retry_on);
  t_retry_count : as_int' (attr r "retry_count") = Some e.(retry_count);
  t_retry_of : as_opt as_str (attr r "retry_of") = Some e.(retry_of);
  t_retried_by : as_opt as_str (attr r "retried_by") = Some e.(retried_by);
  t_rerun_source_snapshot_sha256 : as_opt as_str (attr r "rerun_source_snapshot_sha256") = Some e.(rerun_source_snapshot_sha256);
  t_rerun_snapshot_changed : as_opt as_bool (attr r "rerun_snapshot_changed") = Some e.(rerun_snapshot_changed);
  t_cache_source_job : as_opt as_str (attr r "cache_source_job") = Some e.(cache_source_job);
  t_cache_source_job_dir : as_opt as_str (attr r "cache_source_job_dir") = Some e.(cache_source_job_dir);
  t_cache_source_path : as_opt as_str (attr r "cache_source_path") = Some e.(cache_source_path);
  t_cache_env : as_opt as_str (attr r "cache_env") = Some e.(cache_env);
  t_cache_source_env_hash : as_opt as_str (attr r "cache_source_env_hash") = Some e.(cache_source_env_hash);
  t_cache_mode : as_opt as_str (attr r "cache_mode") = Some e.(cache_mode);
  t_storage_layout : as_opt as_str (attr r "storage_layout") = Some e.(storage_layout);
  t_worker_root : as_opt as_str (attr r "worker_root") = Some e.(worker_root);
  t_worker_roots : as_map as_str (attr r "worker_roots") = Some e.(worker_roots);
  t_job_relpath : as_opt as_str (attr r "job_relpath") = Some e.(job_relpath);
  t_recovered_at : as_opt as_num (attr r "recovered_at") = Some e.(recovered_at);
  t_code_pruned_at : as_opt as_num (attr r "code_pruned_at") = Some e.(code_pruned_at);
  t_terminal_finalized_at : as_opt as_num (attr r "terminal_finalized_at") = Some e.(terminal_finalized_at);
  t_legacy_cleanup_pending : as_bool (attr r "legacy_cleanup_pending") = Some e.(legacy_cleanup_pending);
}.

Lemma bind_Some_eq {A B} (o : option A) a (f : A -> option B) (r : option B) :
  o = Some a -> f a = r -> o ≫= f = r.
Proof. by intros ->. Qed.

Lemma typed_entry_complete r e : typed r e -> typed_entry r = Some e.
Proof.
  intros T. destruct T. unfold typed_entry.
  repeat (eapply bind_Some_eq; [eassumption|]; cbv beta).
  by destruct e.
Qed.

(** ** Numbers and collections *)
Lemma q_nonneg_int z : (z <? 0) = false -> q_nonneg (inject_Z z) = true.
Proof.
  intros H%Z.ltb_ge. unfold q_nonneg. rewrite negb_true_iff. apply q_ltb_ge.
  unfold Qle. simpl. lia.
Qed.

Lemma bad_number_as v :
  bad_number negative v = Ok false ->
  exists o, as_opt as_num v = Some o /\ opt_b q_nonneg o = true.
Proof.
  unfold bad_number. destruct v as [|b|z|f|s|l|kv]; simpl; try done.
  - by exists None.
  - case_match; [done|]. simpl. intros [= Hz]. eexists. split; [done|]. by apply q_nonneg_int.
  - destruct f as [q| |]; simpl; try done. intros [= H].
    eexists. split; [done|]. simpl. unfold q_nonneg. by rewrite H.
Qed.

Lemma bad_number_positive_as v :
  bad_number (fun v => negb (positive_num v)) v = Ok false ->
  exists o, as_opt as_num v = Some o /\ opt_b (q_ltb 0) o = true.
Proof.
  unfold bad_number. destruct v as [|b|z|f|s|l|kv]; simpl; try done.
  - by exists None.
  - case_match; [done|]. simpl. intros [= Hz]. apply negb_false_iff, Z.ltb_lt in Hz.
    eexists. split; [done|]. simpl. apply q_ltb_lt. unfold Qlt. simpl. lia.
  - destruct f as [q| |]; simpl; try done. intros [= H]. apply negb_false_iff in H.
    eexists. split; [done|]. done.
Qed.

Lemma any_raising_false {A} (bad : A -> result bool) l :
  any_raising bad l = Ok false <-> Forall (fun a => bad a = Ok false) l.
Proof.
  induction l as [|a l IH]; simpl; [split; [constructor | done]|].
  rewrite bind_ok, Forall_cons_iff, <- IH. split.
  - by intros ([] & ? & ?).
  - intros [? ?]. by exists false.
Qed.

Lemma bind_bad_ok {B} (m : result bool) e (k : result B) b :
  (bad ← m; raise_if bad e ;; k) = Ok b <-> m = Ok false /\ k = Ok b.
Proof. destruct m as [[]|]; naive_solver. Qed.

Lemma bad_raise_ok (m : result bool) e :
  (bad ← m; raise_if bad e) = Ok tt <-> m = Ok false.
Proof. destruct m as [[]|]; naive_solver. Qed.

Lemma str_dict_as v :
  str_dict v = true ->
  exists kv, as_map as_str v = Some kv /\ length kv = json_len v.
Proof.
  destruct v; try done. simpl. intros H%forallb_True_spec.
  destruct (mapM_total (fun p : string * json => (fun x => (p.1, x)) <$> as_str p.2)
    (fun _ => True) kv) as (l & Hl & _ & Hlen).
  - eapply Forall_impl; [exact H|]. intros [k v] (s & -> & _)%is_str_as. by eexists.
  - by exists l.
Qed.

Lemma list_as {A} (ok : json -> bool) (f : json -> option A) (P : A -> Prop) l :
  (forall v, ok v = true -> exists a, f v = Some a /\ P a) ->
  forallb ok l = true ->
  exists l', as_list f (JList l) = Some l' /\ Forall P l' /\ length l' = length l.
Proof.
  intros H Hall%forallb_True_spec. apply mapM_total.
  eapply Forall_impl; [exact Hall|]. exact H.
Qed.

Lemma ints_of_as l : forall l', mapM as_int' l = Some l' -> ints_of l = l'.
Proof.
  induction l as [|v l IH]; intros l'; simpl; [by intros [= <-]|].
  destruct v; try done. simpl. destruct (mapM as_int' l) as [k|]; [|done].
  intros [= <-]. unfold ints_of. simpl. f_equal. by apply IH.
Qed.

Lemma results_of_as l : forall l', mapM as_result l = Some l' -> strs_of l = result_name <$> l'.
Proof.
  induction l as [|v l IH]; intros l'; [by intros [= <-]|].
  change (mapM as_result (v :: l))
    with (r ← as_result v; rs ← mapM as_result l; Some (r :: rs)).
  intros (r & Hr & (rs & Hrs & [= <-])%bind_Some)%bind_Some.
  destruct v as [| | | |s| |]; try done.
  apply result_of_name_spec in Hr as ->. unfold strs_of. simpl.
  f_equal. by apply IH.
Qed.

(** ** What each validator establishes

    [has f p v]: the value reads as [f] says and the result satisfies [p]. *)
Definition has {A} (f : json -> option A) (p : A -> bool) (v : json) : Prop :=
  exists a, f v = Some a /\ p a = true.
Definition any {A} (_ : A) : bool := true.

Lemma has_intro {A} (f : json -> option A) a v : f v = Some a -> has f any v.
Proof. by exists a. Qed.

Lemma has_opt {A} (ok : json -> bool) (f : json -> option A) (p : A -> bool) v :
  (forall v, ok v = true -> has f p v) -> opt ok v = true -> has (as_opt f) (opt_b p) v.
Proof. apply opt_as. Qed.

Lemma has_str v : is_str v = true -> has as_str any v.
Proof. intros (s & ? & _)%is_str_as. by exists s. Qed.
Lemma has_bool v : is_bool v = true -> has as_bool any v.
Proof. intros (b & ? & _)%is_bool_as. by exists b. Qed.
Lemma has_int p v : int_in p v = true -> has as_int' p v.
Proof. apply int_in_as. Qed.
Lemma has_match re v : matches re v = true -> has as_str (fullmatch re) v.
Proof. apply matches_as. Qed.
Lemma has_status v : str_in (status_name <$> JOB_STATUSES) v = true -> has as_status any v.
Proof. intros (s & ? & _)%status_as. by exists s. Qed.
Lemma has_result v : str_in (result_name <$> RESULT_STATES) v = true -> has as_result any v.
Proof. intros (s & ? & _)%result_as. by exists s. Qed.
Lemma has_in set v : str_in set v = true -> has as_str (in_set set) v.
Proof. intros (s & -> & ?)%str_in_as. exists s. split; [done|]. by apply bool_decide_eq_true. Qed.
Lemma has_config_id v : is_config_id v = true -> has as_str (fullmatch _CONFIG_ID_RE) v.
Proof. destruct v; try done. by eexists. Qed.

Lemma has_opt_str v : opt is_str v = true -> has (as_opt as_str) (opt_b any) v.
Proof. apply has_opt, has_str. Qed.
Lemma has_opt_match re v :
  opt (matches re) v = true -> has (as_opt as_str) (opt_b (fullmatch re)) v.
Proof. apply has_opt, has_match. Qed.
Lemma has_opt_in set v : opt (str_in set) v = true -> has (as_opt as_str) (opt_b (in_set set)) v.
Proof. apply has_opt, has_in. Qed.
Lemma has_opt_int p v : opt (int_in p) v = true -> has (as_opt as_int') (opt_b p) v.
Proof. apply has_opt, has_int. Qed.
Lemma has_opt_bool v : opt is_bool v = true -> has (as_opt as_bool) (opt_b any) v.
Proof. apply has_opt, has_bool. Qed.

Lemma has_list {A} (ok : json -> bool) (f : json -> option A) (p : A -> bool) l :
  (forall v, ok v = true -> has f p v) -> forallb ok l = true ->
  exists l', as_list f (JList l) = Some l' /\ forallb p l' = true /\ length l' = length l.
Proof.
  intros H Hall. destruct (list_as ok f (fun a => p a = true) l H Hall) as (l' & ? & ? & ?).
  exists l'. by rewrite forallb_True_spec.
Qed.

(** A text map no longer than the collection limit. *)
Definition short {A} (l : list A) : bool := (length l <=? MAX_JOB_COLLECTION_ITEMS)%nat.

Lemma has_str_dict v :
  str_dict v = true -> (MAX_JOB_COLLECTION_ITEMS <? json_len v)%nat = false ->
  has (as_map as_str) short v.
Proof.
  intros (kv & Hkv & Hlen)%str_dict_as Hb. exists kv. split; [done|].
  unfold short. rewrite Hlen. apply Nat.leb_le. by apply Nat.ltb_ge in Hb.
Qed.

Definition gpus_valid (l : list Z) : bool :=
  short l && forallb (Z.leb 0) l && bool_decide (NoDup l).

Lemma has_gpus v : gpus_ok v = true -> has (as_list as_int') gpus_valid v.
Proof.
  unfold gpus_ok. destruct v as [| | | | |l|]; try done.
  rewrite !andb_true_iff. intros [[Hlen Hall] Hnd].
  destruct (has_list (int_in (fun z => 0 <=? z)) as_int' (Z.leb 0) l) as (l' & Hl & Hp & Hl');
    [apply has_int | done|].
  exists l'. split; [done|]. unfold gpus_valid, short.
  rewrite Hl', Hlen, Hp. simpl. by rewrite (ints_of_as l l' Hl) in Hnd.
Qed.

Lemma has_number v : bad_number negative v = Ok false -> has (as_opt as_num) (opt_b q_nonneg) v.
Proof. apply bad_number_as. Qed.

Lemma has_number_present v :
  is_null v = false -> bad_number negative v = Ok false -> has as_num q_nonneg v.
Proof.
  intros Hn (o & Ho & Hp)%bad_number_as. destruct o as [q|].
  - exists q. split; [|done]. by destruct v; simpl in *; simplify_option_eq.
  - destruct v as [| | | [| |] | | |]; simpl in *; simplify_option_eq; done.
Qed.

Lemma Forall_has {A} (ok : json -> bool) (f : json -> option A) (p : A -> bool) (r : row) ks :
  (forall v, ok v = true -> has f p v) ->
  forallb (fun k => ok (attr r k)) ks = true -> Forall (fun k => has f p (attr r k)) ks.
Proof.
  intros H Hall%forallb_True_spec. eapply Forall_impl; [exact Hall|]. intros k. apply H.
Qed.

Record lifecycle_facts (r : row) : Prop := {
  lf_text : Forall (fun k => has as_str any (attr r k)) required_strings;
  lf_status : has as_status any (attr r "status");
  lf_node_local : has as_bool any (attr r "node_local");
  lf_git_dirty : has as_bool any (attr r "git_dirty");
  lf_cleanup : has as_bool any (attr r "legacy_cleanup_pending");
  lf_gpus : has (as_list as_int') gpus_valid (attr r "gpus");
  lf_pgid : has (as_opt as_int') (opt_b (Z.ltb 0)) (attr r "pgid");
  lf_exit : has (as_opt as_int') (opt_b (fun z => (0 <=? z) && (z <=? 255))) (attr r "exit_code");
  lf_requested : has as_int' (Z.leb 0) (attr r "gpus_requested");
  lf_result : has (as_opt as_result) (opt_b any) (attr r "result_state");
  lf_created : has as_num q_nonneg (attr r "created_at");
  lf_times : Forall (fun k => has (as_opt as_num) (opt_b q_nonneg) (attr r k))
               (drop 1 lifecycle_timestamps);
}.

Lemma lifecycle_sound r : _validate_entry_lifecycle r = Ok tt -> lifecycle_facts r.
Proof.
  unfold _validate_entry_lifecycle.
  rewrite !bind_raise_ok, bad_raise_ok, !negb_false_iff, !andb_true_iff.
  intros (Htext & Hst & [[Hnl Hgd] Hlc] & Hg & Hp & He & Hr & Hres & Htime).
  destruct (is_null (attr r "created_at")) eqn:Hc; [done|].
  apply any_raising_false in Htime. apply Forall_cons_iff in Htime as [Hcr Hrest].
  split.
  - by apply (Forall_has is_str); [apply has_str|].
  - by apply has_status.
  - by apply has_bool.
  - by apply has_bool.
  - by apply has_bool.
  - by apply has_gpus.
  - by eapply has_opt; [apply has_int|].
  - by eapply has_opt; [apply has_int|].
  - by apply has_int.
  - by eapply has_opt; [apply has_result|].
  - by apply has_number_present.
  - eapply Forall_impl; [exact Hrest|]. intros k. apply has_number.
Qed.

Record collections_facts (r : row) : Prop := {
  cf_failures : has (as_map as_str) short (attr r "placement_failures");
  cf_roots : has (as_map as_str) short (attr r "worker_roots");
  cf_submodules : has (as_opt (as_map as_str)) (opt_b short) (attr r "submodule_commits");
  cf_targets : has (as_opt (as_map as_str)) (opt_b short) (attr r "artifact_targets");
  cf_extras : has (as_list as_str)
    (fun l => (length l <=? MAX_PROJECT_EXTRAS)%nat && forallb (fullmatch _CONFIG_ID_RE) l)
    (attr r "extras");
}.

Lemma has_bounded_dict v :
  opt (fun v => (json_len v <=? MAX_JOB_COLLECTION_ITEMS)%nat && str_dict v) v = true ->
  has (as_opt (as_map as_str)) (opt_b short) v.
Proof.
  apply has_opt. clear v. intros v [Hl Hd]%andb_true_iff. apply has_str_dict; [done|].
  apply Nat.ltb_ge. by apply Nat.leb_le.
Qed.

Lemma collections_sound r : _validate_entry_collections r = Ok tt -> collections_facts r.
Proof.
  unfold _validate_entry_collections.
  rewrite !bind_raise_ok, raise_if_ok, !negb_false_iff.
  intros (Hf & Hfl & Hr & Hrl & Hs & Ht & Hx). split.
  - by apply has_str_dict.
  - by apply has_str_dict.
  - by apply has_bounded_dict.
  - by apply has_bounded_dict.
  - destruct (attr r "extras") as [| | | | |l|]; try done.
    apply orb_false_iff in Hx as [Hlen Hall%negb_false_iff].
    destruct (has_list is_config_id as_str (fullmatch _CONFIG_ID_RE) l) as (l' & ? & Hp & Hl');
      [apply has_config_id | done|].
    exists l'. split; [done|]. rewrite Hl', Hp, andb_true_r. apply Nat.leb_le.
    by apply Nat.ltb_ge in Hlen.
Qed.

Definition ordinal_valid (z : Z) : bool := (0 <=? z) && (z <=? MAX_RETRY_LIMIT).

(** The cross-field conditions are kept as the validator tests them. *)
Record provenance_facts (r : row) : Prop := {
  pf_text : Forall (fun k => has (as_opt as_str) (opt_b any) (attr r k)) optional_text;
  pf_limit : has as_int' ordinal_valid (attr r "retry_limit");
  pf_count : has as_int' ordinal_valid (attr r "retry_count");
  pf_retry_on : has (as_opt as_str) (opt_b (in_set RETRY_ON_MODES)) (attr r "retry_on");
  pf_cleanup : attr r "legacy_cleanup_pending" = JBool true ->
    str_in [ROLE_LAYOUT] (attr r "storage_layout") = true /\
    str_in ["finished"; "killed"] (attr r "status") = true /\
    str_in ["-"] (attr r "node") = false /\ is_null (attr r "worker_root") = false /\
    exists id, attr r "job_id" = JStr id /\ attr r "job_relpath" = JStr ("jobs/" +:+ id);
  pf_final : is_null (attr r "terminal_finalized_at") = false ->
    str_in ["lost"] (attr r "status") = true;
  pf_token : has (as_opt as_str) (opt_b (fullmatch TOKEN_RE)) (attr r "dispatch_token");
  pf_pair : is_null (attr r "dispatch_node") = is_null (attr r "dispatch_token");
  pf_queued : is_null (attr r "dispatch_node") = false ->
    str_in ["queued"] (attr r "status") = true;
  pf_owner : has (as_opt as_str) (opt_b (fullmatch DISPATCH_OWNER_RE)) (attr r "dispatch_owner");
  pf_claim : is_null (attr r "dispatch_token") = true ->
    attr r "dispatch_owner" = JNull /\ attr r "dispatch_claimed_at" = JNull;
}.

Lemma has_retry_on v : bad_retry_on v = Ok false ->
  has (as_opt as_str) (opt_b (in_set RETRY_ON_MODES)) v.
Proof.
  destruct v as [| | | |s| |]; simpl; try done.
  - by exists None.
  - intros [= H%negb_false_iff]. by exists (Some s).
Qed.

(** What the provenance guards establish before the owner is normalized. *)
Lemma provenance_guards r rp :
  _validate_entry_provenance r = Ok rp ->
  (is_null (attr r "dispatch_token") = false -> rp = r /\ provenance_facts r) /\
  (is_null (attr r "dispatch_token") = true ->
   rp = ("dispatch_owner", JNull) :: ("dispatch_claimed_at", JNull) :: r /\ provenance_facts rp).
Proof.
  unfold _validate_entry_provenance.
  rewrite !bind_raise_ok, bind_bad_ok, !bind_raise_ok, !negb_false_iff, andb_true_iff.
  intros (Ht & [Hl%has_int Hc%has_int] & Hro%has_retry_on & Hcl & Hfin & Htok & Hpair & Hq & Hown
          & [= Hrp]).
  apply (Forall_has _ _ _ _ _ has_opt_str) in Ht.
  apply has_opt_match in Htok, Hown.
  apply xorb_eq in Hpair.
  assert (forall a b, negb a && negb b = false -> a = false -> b = true) as Himp by by intros [] [].
  pose proof (Himp _ _ Hfin) as Hfin'. pose proof (Himp _ _ Hq) as Hq'.
  assert (forall v : json, v = JBool true -> attr r "legacy_cleanup_pending" = v ->
    str_in [ROLE_LAYOUT] (attr r "storage_layout") = true /\
    str_in ["finished"; "killed"] (attr r "status") = true /\
    str_in ["-"] (attr r "node") = false /\ is_null (attr r "worker_root") = false /\
    exists id, attr r "job_id" = JStr id /\ attr r "job_relpath" = JStr ("jobs/" +:+ id)) as Hcl'.
  { intros v -> Hb. rewrite Hb, !orb_false_iff, !negb_false_iff in Hcl.
    destruct Hcl as ((((Hlay & Hst) & Hn) & Hw) & Hp). repeat split; try done.
    destruct (attr r "job_relpath") as [| | | |p| |]; try done.
    destruct (attr r "job_id") as [| | | |id| |]; try done.
    apply bool_decide_eq_true in Hp as ->. by exists id. }
  clear Hcl. split; intros Hnull; rewrite Hnull in Hrp; subst rp; (split; [done|]); split; try done.
  all: try (by intros Hv; congruence). all: try exact Hfin'. all: try exact Hq'.
  all: try (intros Hv; exact (Hcl' _ eq_refl Hv)).
  - unfold optional_text in *.
    repeat (apply Forall_cons_iff in Ht as [? Ht]). repeat constructor; assumption.
  - exact (ex_intro _ None (conj eq_refl eq_refl)).
Qed.

(** Normalization only ever clears the claim's owner and its time. *)
Lemma provenance_attr r rp k :
  _validate_entry_provenance r = Ok rp ->
  attr rp k = attr r k \/ attr rp k = JNull /\ k ∈ ["dispatch_owner"; "dispatch_claimed_at"].
Proof.
  intros [H1 H2]%provenance_guards.
  destruct (is_null (attr r "dispatch_token")).
  - destruct H2 as [-> _]; [done|]. unfold attr, dict_get. simpl.
    repeat case_bool_decide; set_solver.
  - destruct H1 as [-> _]; [done|]. by left.
Qed.

Lemma provenance_sound r rp : _validate_entry_provenance r = Ok rp -> provenance_facts rp.
Proof.
  intros [H1 H2]%provenance_guards. destruct (is_null (attr r "dispatch_token")).
  - by apply H2.
  - by destruct H1 as [-> ?].
Qed.

(** The facts of the earlier validators survive the normalization. *)
Lemma lifecycle_normalized r rp :
  _validate_entry_provenance r = Ok rp -> lifecycle_facts r -> lifecycle_facts rp.
Proof.
  intros H F. assert (forall k, k ∉ ["dispatch_owner"; "dispatch_claimed_at"] -> attr rp k = attr r k)
    as Hk by (intros k ?; destruct (provenance_attr r rp k H) as [|[]]; done).
  destruct F. split; try (rewrite Hk; [done|set_solver]).
  - eapply Forall_impl; [|intros k; exact id].
    apply Forall_forall. intros k Hin. rewrite Forall_forall in lf_text0.
    rewrite Hk; [by apply lf_text0|]. intros Hx. revert Hin Hx. unfold required_strings. clear. set_solver.
  - eapply Forall_impl; [exact lf_times0|]. simpl. intros k Hf.
    destruct (provenance_attr r rp k H) as [->|[-> _]]; [done|]. by exists None.
Qed.

Lemma collections_normalized r rp :
  _validate_entry_provenance r = Ok rp -> collections_facts r -> collections_facts rp.
Proof.
  intros H F. assert (forall k, k ∉ ["dispatch_owner"; "dispatch_claimed_at"] -> attr rp k = attr r k)
    as Hk by (intros k ?; destruct (provenance_attr r rp k H) as [|[]]; done).
  destruct F. split; rewrite Hk; (done || set_solver).
Qed.

Record limits_facts (r : row) : Prop := {
  mf_sha : Forall (fun k => has (as_opt as_str) (opt_b (fullmatch SHA256_RE)) (attr r k))
    ["snapshot_sha256"; "payload_sha256"; "artifact_manifest"; "rerun_source_snapshot_sha256"];
  mf_hash : Forall (fun k => has (as_opt as_str) (opt_b (fullmatch ENV_HASH_RE)) (attr r k))
    ["env_hash"; "cache_source_env_hash"];
  mf_bools : Forall (fun k => has (as_opt as_bool) (opt_b any) (attr r k))
    ["env_preexisting"; "setup_ran"; "rerun_snapshot_changed"];
  mf_measures : Forall (fun k => has (as_opt as_num) (opt_b q_nonneg) (attr r k))
    ["snapshot_duration_s"; "launch_duration_s"; "recovered_at"; "placement_first_failed_at";
     "placement_last_failed_at"];
  mf_hours : has (as_opt as_num) (opt_b (q_ltb 0)) (attr r "max_hours");
  mf_resources : Forall (fun k => has (as_opt as_int') (opt_b (Z.ltb 0)) (attr r k))
    ["min_vram_mib"; "max_vram_mib"; "max_job_memory_mib"];
  mf_cpu : is_null (attr r "min_vram_mib") = true \/ int_in (Z.eqb 0) (attr r "gpus_requested") = false;
  mf_disk : has (as_opt as_int') (opt_b (Z.leb 0)) (attr r "require_disk_gib");
  mf_attempts : has as_int' (Z.leb 0) (attr r "placement_attempts");
  mf_pattern : has (as_opt as_str) (opt_b (fun s => str_len s <=? MAX_JOB_DIAGNOSTIC_CHARS)%nat)
    (attr r "placement_pattern");
}.

Lemma limits_sound r : _validate_entry_limits r = Ok tt -> limits_facts r.
Proof.
  unfold _validate_entry_limits.
  rewrite !bind_raise_ok, !bind_bad_ok, !bind_raise_ok, raise_if_ok, !negb_false_iff.
  intros (Hsha & Hhash & Hb & Hm & Hh & Hr & Hcpu & Hd & Ha & Hp). split.
  - by apply (Forall_has _ _ _ _ _ (has_opt_match SHA256_RE)).
  - by apply (Forall_has _ _ _ _ _ (has_opt_match ENV_HASH_RE)).
  - by apply (Forall_has _ _ _ _ _ has_opt_bool).
  - apply any_raising_false in Hm. eapply Forall_impl; [exact Hm|]. intros k. apply has_number.
  - by apply bad_number_positive_as.
  - by apply (Forall_has _ _ _ _ _ (has_opt_int _)).
  - by apply andb_false_iff in Hcpu as [H%negb_false_iff|]; [left|right].
  - by apply has_opt_int.
  - by apply has_int.
  - revert Hp. apply has_opt. intros [| | | |s| |]; try done. by exists s.
Qed.

(** *** Contracts *)
Lemma has_phases v :
  match v with
  | JDict phases =>
      bad ← any_raising (fun p => if is_null p.2 then Ok true else bad_number negative p.2) phases;
      raise_if bad (ValueError "job registry has invalid launch phases")
  | _ => Err (ValueError "job registry has invalid launch phases")
  end = Ok tt ->
  (MAX_JOB_COLLECTION_ITEMS <? json_len v)%nat = false ->
  has (as_map as_num) (fun kv => forallb (fun p => q_nonneg p.2) kv && short kv) v.
Proof.
  destruct v as [| | | | | |kv]; try done. rewrite bad_raise_ok, any_raising_false.
  intros Hall Hlen%Nat.ltb_ge.
  destruct (mapM_total (fun p : string * json => (fun x => (p.1, x)) <$> as_num p.2)
    (fun p => q_nonneg p.2 = true) kv) as (l & Hl & HP & Hl').
  - eapply Forall_impl; [exact Hall|]. intros [k v] Hp. simpl in Hp.
    destruct (is_null v) eqn:Hn; [done|].
    destruct (has_number_present v Hn Hp) as (q & Hq & ?).
    exists (k, q). simpl. by rewrite Hq.
  - exists l. split; [done|]. apply andb_true_iff. split; [by apply forallb_True_spec|].
    unfold short. rewrite Hl'. by apply Nat.leb_le.
Qed.

Lemma has_exclusions v :
  opt (fun v => match v with
                | JList l => (length l <=? MAX_JOB_COLLECTION_ITEMS)%nat && forallb is_config_id l
                | _ => false
                end) v = true ->
  has (as_opt (as_list as_str)) (opt_b (fun l => short l && forallb (fullmatch _CONFIG_ID_RE) l)) v.
Proof.
  apply has_opt. clear v. intros [| | | | |l|]; try done. intros [Hlen Hall]%andb_true_iff.
  destruct (has_list is_config_id as_str (fullmatch _CONFIG_ID_RE) l) as (l' & ? & Hp & Hl');
    [apply has_config_id | done|].
  exists l'. split; [done|]. unfold short. by rewrite Hl', Hlen, Hp.
Qed.

Definition input_valid (p : string) : bool := is_ok (setup_input_ok (JStr p)).
Definition inputs_valid (l : list string) : bool :=
  (length l <=? MAX_SETUP_INPUTS)%nat && forallb input_valid l.

Lemma has_inputs v :
  match v with
  | JNull => Ok tt
  | JList l =>
      raise_if (MAX_SETUP_INPUTS <? length l)%nat
        (ValueError "job registry has invalid setup inputs") ;;
      for_each setup_input_ok l
  | _ => Err (ValueError "job registry has invalid setup inputs")
  end = Ok tt -> has (as_opt (as_list as_str)) (opt_b inputs_valid) v.
Proof.
  destruct v as [| | | | |l|]; try done; [by exists None|].
  rewrite bind_raise_ok, for_each_ok. intros [Hlen%Nat.ltb_ge Hall].
  destruct (has_list (fun v => is_ok (setup_input_ok v)) as_str input_valid l) as (l' & Hl' & Hp & Hn).
  - intros [| | | |s| |] H; try done. by exists s.
  - apply forallb_True_spec. eapply Forall_impl; [exact Hall|]. by intros v ->.
  - exists (Some l'). split; [|].
    + change (as_opt (as_list as_str) (JList l)) with (Some <$> as_list as_str (JList l)).
      by rewrite Hl'.
    + simpl. unfold inputs_valid. rewrite Hn, Hp, andb_true_r. by apply Nat.leb_le.
Qed.

Definition results_valid (l : list result_state_t) : bool :=
  (length l <=? length RESULT_STATES)%nat && bool_decide (NoDup l).

Lemma has_results v :
  match v with
  | JList l =>
      (length RESULT_STATES <? length l)%nat || negb (forallb is_str l)
      || negb (bool_decide (NoDup (strs_of l)))
      || negb (forallb (str_in (result_name <$> RESULT_STATES)) l)
  | _ => true
  end = false -> has (as_list as_result) results_valid v.
Proof.
  destruct v as [| | | | |l|]; try done.
  rewrite !orb_false_iff, !negb_false_iff. intros (((Hlen & _) & Hnd) & Hall).
  destruct (has_list _ as_result any l has_result Hall) as (l' & Hl' & _ & Hn).
  exists l'. split; [done|]. unfold results_valid. apply andb_true_iff. split.
  - rewrite Hn. by apply Nat.leb_le, Nat.ltb_ge.
  - apply bool_decide_eq_true in Hnd. rewrite (results_of_as l l' Hl') in Hnd.
    apply bool_decide_eq_true. by apply NoDup_fmap_1 in Hnd.
Qed.

Lemma worker_root_sound v : worker_root_ok v = Ok tt -> exists s, v = JStr s /\ root_valid s = true.
Proof.
  destruct v as [| | | |s| |]; try done. simpl. unfold root_valid.
  destruct (normalize_node_root s) as [|e] eqn:E; [intros _; exists s; by rewrite E|].
  by destruct (is_value_error e).
Qed.

Lemma has_root v :
  (if is_null v then Ok tt else worker_root_ok v) = Ok tt ->
  has (as_opt as_str) (opt_b root_valid) v.
Proof.
  destruct (is_null v) eqn:Hn.
  - intros _. exists None. by destruct v.
  - intros (s & -> & ?)%worker_root_sound. by exists (Some s).
Qed.

Lemma roots_of_as kv : forall kv',
  mapM (fun p : string * json => (fun x => (p.1, x)) <$> as_str p.2) kv = Some kv' ->
  Forall (fun p => worker_root_ok p.2 = Ok tt) kv ->
  forallb (fun p => root_valid p.2) kv' = true.
Proof.
  induction kv as [|[k v] kv IH]; intros kv'; [by intros [= <-]|].
  intros (p & Hp & (rest & Hrest & [= <-])%bind_Some)%bind_Some.
  intros [(s & Hv & Hs)%worker_root_sound Hall]%Forall_cons_iff.
  simpl in Hv. subst v. simpl in Hp. simplify_eq. simpl. rewrite Hs. by apply IH.
Qed.

Lemma has_roots v kv :
  for_each (fun p => worker_root_ok p.2) (match v with JDict kv => kv | _ => [] end) = Ok tt ->
  as_map as_str v = Some kv -> forallb (fun p => root_valid p.2) kv = true.
Proof.
  destruct v as [| | | | | |l]; try done. rewrite for_each_ok. intros H Hl.
  by eapply roots_of_as.
Qed.

Definition relpath_valid (p : string) : bool :=
  negb (pure_is_absolute p || bool_decide (pure_parts p = []) || bool_decide (".." ∈ pure_parts p)).

Record contracts_facts (r : row) : Prop := {
  kf_phases : has (as_map as_num) (fun kv => forallb (fun p => q_nonneg p.2) kv && short kv)
    (attr r "launch_phases_s");
  kf_excluded : has (as_opt (as_list as_str))
    (opt_b (fun l => short l && forallb (fullmatch _CONFIG_ID_RE) l)) (attr r "exclude_nodes");
  kf_inputs : has (as_opt (as_list as_str)) (opt_b inputs_valid) (attr r "setup_inputs");
  kf_results : has (as_list as_result) results_valid (attr r "after_result_states");
  kf_env_mode : has (as_opt as_str) (opt_b (in_set ["sync"; "reuse"])) (attr r "env_mode");
  kf_cache_mode : has (as_opt as_str) (opt_b (in_set ["shared"; "clone"])) (attr r "cache_mode");
  kf_layout : has (as_opt as_str) (opt_b (in_set [LEGACY_LAYOUT; ROLE_LAYOUT]))
    (attr r "storage_layout");
  kf_root : has (as_opt as_str) (opt_b root_valid) (attr r "worker_root");
  kf_roots : forall kv, as_map as_str (attr r "worker_roots") = Some kv ->
    forallb (fun p => root_valid p.2) kv = true;
  kf_relpath : has (as_opt as_str) (opt_b relpath_valid) (attr r "job_relpath");
  kf_isolation : has as_str (in_set ["advisory"]) (attr r "gpu_isolation");
}.

Lemma then_ok {B} (m : result unit) (k : result B) b :
  (m ;; k) = Ok b <-> m = Ok tt /\ k = Ok b.
Proof. destruct m as [[]|]; naive_solver. Qed.

Lemma contracts_sound r : _validate_entry_contracts r = Ok tt -> contracts_facts r.
Proof.
  unfold _validate_entry_contracts.
  rewrite !then_ok, !raise_if_ok, !negb_false_iff.
  intros (Hp & Hlen & Hx & Hi & Hr & He & Hc & Hl & Hroot & Hroots & Hrel & Hiso). split.
  - by apply has_phases.
  - by apply has_exclusions.
  - by apply has_inputs.
  - by apply has_results.
  - by apply has_opt_in.
  - by apply has_opt_in.
  - by apply has_opt_in.
  - by apply has_root.
  - intros kv. by apply has_roots.
  - revert Hrel. apply has_opt. intros [| | | |s| |]; try done. by exists s.
  - by apply has_in.
Qed.
