(* ===== verification/CodecSound.v ===== *)
(** * The decoder only returns rows satisfying the row invariant

    [decode_sound]: whatever the document, a row [decode_registry_document]
    returns has every attribute at its declared type and satisfies
    [wf_entry]. *)

From S2P Require Import Prelude Text PyValue Diagnostics Layout CustomEnv JobEntry RegistryCodec CodecFacts.

(** ** From the validators' facts to a typed row *)
Record row_facts (r : row) : Prop := {
  rf_lifecycle : lifecycle_facts r;
  rf_collections : collections_facts r;
  rf_provenance : provenance_facts r;
  rf_limits : limits_facts r;
  rf_contracts : contracts_facts r;
  rf_env : exists env, as_map as_str (attr r "custom_env") = Some env;
  rf_keys : exists keys, as_list as_str (attr r "custom_env_keys") = Some keys;
  rf_loaded : exists b, as_bool (attr r "custom_env_loaded") = Some b;
}.

Ltac split_facts :=
  repeat match goal with
  | H : Forall _ (_ :: _) |- _ => apply Forall_cons_iff in H as [? H]
  | H : has _ _ _ |- _ => destruct H as (? & ? & _)
  | H : exists _, _ = Some _ |- _ => destruct H as [? ?]
  end.

Lemma row_typed r : row_facts r -> exists e, typed r e.
Proof.
  intros [[] [] [] [] [] Henv Hkeys Hloaded].
  unfold required_strings, lifecycle_timestamps, optional_text in *. simpl in *.
  split_facts. eexists (mkJobEntry _ _ _ _ _ _ _ _ _ _ _ _ _ _ _ _ _ _ _ _ _ _ _ _ _ _ _ _ _ _
    _ _ _ _ _ _ _ _ _ _ _ _ _ _ _ _ _ _ _ _ _ _ _ _ _ _ _ _ _ _ _ _ _ _ _ _ _ _ _ _ _ _ _ _ _ _
    _ _ _ _ _ _ _ _ _ _ _ _).
  split; eassumption.
Qed.

(** ** The validators' conditions on the typed row *)
Lemma has_inv {A} (f : json -> option A) p v a : has f p v -> f v = Some a -> p a = true.
Proof. intros (b & Hb & Hp) Ha. by simplify_eq. Qed.

Lemma has_opt_some {A} (f : json -> option A) v o :
  as_opt f v = Some o -> is_null v = bool_decide (o = None).
Proof.
  destruct v; simpl.
  1: by intros [= <-].
  all: intros (a & _ & ->)%fmap_Some; done.
Qed.

Lemma Forall_has_inv {A} (f : json -> option A) p (r : row) k ks a :
  Forall (fun k => has f p (attr r k)) ks -> f (attr r k) = Some a ->
  bool_decide (k ∈ ks) = true -> p a = true.
Proof.
  rewrite Forall_forall. intros H Ha Hk%bool_decide_eq_true. revert Ha. apply has_inv. by apply H.
Qed.

(** Discharge one conjunct of a validity condition from the matching fact. *)
Ltac by_fact F T :=
  first [ exact (has_inv _ _ _ _ F T) | exact (Forall_has_inv _ _ _ _ _ _ F T eq_refl) ].

Section typed_validity.
Context (r : row) (e : JobEntry) (T : typed r e).

Lemma status_names s : str_in s (attr r "status") = true -> status_name e.(status) ∈ s.
Proof.
  pose proof (t_status _ _ T) as Hs. unfold as_status in Hs.
  destruct (attr r "status") as [| | | |n| |]; try done. simpl in *.
  apply status_of_name_spec in Hs as ->. apply bool_decide_eq_true.
Qed.

Lemma lifecycle_valid : lifecycle_facts r -> valid_job_id e.(job_id) = true ->
  valid_lifecycle e = true.
Proof.
  intros F Hid. unfold valid_lifecycle.
  assert (gpus_valid e.(gpus) = true) as Hg by by_fact (lf_gpus r F) (t_gpus r e T).
  unfold gpus_valid, short in Hg. destruct_andb. split_andb; try done.
  - by_fact (lf_pgid r F) (t_pgid r e T).
  - by_fact (lf_exit r F) (t_exit_code r e T).
  - by_fact (lf_requested r F) (t_gpus_requested r e T).
  - by_fact (lf_created r F) (t_created_at r e T).
  - simpl. split_andb; [..|done].
    + by_fact (lf_times r F) (t_started_at r e T).
    + by_fact (lf_times r F) (t_finished_at r e T).
    + by_fact (lf_times r F) (t_updated_at r e T).
    + by_fact (lf_times r F) (t_terminal_finalized_at r e T).
    + by_fact (lf_times r F) (t_dispatch_claimed_at r e T).
    + by_fact (lf_times r F) (t_code_pruned_at r e T).
Qed.

Lemma collections_valid : collections_facts r -> valid_collections e = true.
Proof.
  intros F. unfold valid_collections.
  pose proof (has_inv _ _ _ _ (cf_extras r F) (t_extras r e T)) as Hx. simpl in Hx.
  destruct_andb. split_andb; try done.
  - by_fact (cf_failures r F) (t_placement_failures r e T).
  - by_fact (cf_roots r F) (t_worker_roots r e T).
  - by_fact (cf_submodules r F) (t_submodule_commits r e T).
  - by_fact (cf_targets r F) (t_artifact_targets r e T).
Qed.

Lemma limits_valid : limits_facts r -> valid_limits e = true.
Proof.
  intros F. unfold valid_limits. simpl. split_andb; try done.
  - by_fact (mf_sha r F) (t_snapshot_sha256 r e T).
  - by_fact (mf_sha r F) (t_payload_sha256 r e T).
  - by_fact (mf_sha r F) (t_artifact_manifest r e T).
  - by_fact (mf_sha r F) (t_rerun_source_snapshot_sha256 r e T).
  - by_fact (mf_hash r F) (t_env_hash r e T).
  - by_fact (mf_hash r F) (t_cache_source_env_hash r e T).
  - by_fact (mf_measures r F) (t_snapshot_duration_s r e T).
  - by_fact (mf_measures r F) (t_launch_duration_s r e T).
  - by_fact (mf_measures r F) (t_recovered_at r e T).
  - by_fact (mf_measures r F) (t_placement_first_failed_at r e T).
  - by_fact (mf_measures r F) (t_placement_last_failed_at r e T).
  - by_fact (mf_hours r F) (t_max_hours r e T).
  - by_fact (mf_resources r F) (t_min_vram_mib r e T).
  - by_fact (mf_resources r F) (t_max_vram_mib r e T).
  - by_fact (mf_resources r F) (t_max_job_memory_mib r e T).
  - pose proof (mf_cpu r F) as Hc. rewrite (has_opt_some _ _ _ (t_min_vram_mib r e T)) in Hc.
    pose proof (t_gpus_requested r e T) as Hg.
    destruct Hc as [Hc%bool_decide_eq_true|Hc]; [by rewrite Hc|].
    destruct (attr r "gpus_requested"); simplify_eq/=. by rewrite Hc, implb_true_r.
  - by_fact (mf_disk r F) (t_require_disk_gib r e T).
  - by_fact (mf_attempts r F) (t_placement_attempts r e T).
  - by_fact (mf_pattern r F) (t_placement_pattern r e T).
Qed.

Lemma contracts_valid : contracts_facts r -> valid_contracts e = true.
Proof.
  intros F. unfold valid_contracts.
  assert (forallb (fun p => q_nonneg p.2) e.(launch_phases_s) && short e.(launch_phases_s) = true)
    as [? ?]%andb_true_iff by by_fact (kf_phases r F) (t_launch_phases_s r e T).
  assert (results_valid e.(after_result_states) = true) as [? ?]%andb_true_iff
    by by_fact (kf_results r F) (t_after_result_states r e T).
  split_andb; try done.
  - by_fact (kf_excluded r F) (t_exclude_nodes r e T).
  - by_fact (kf_inputs r F) (t_setup_inputs r e T).
  - by_fact (kf_env_mode r F) (t_env_mode r e T).
  - by_fact (kf_cache_mode r F) (t_cache_mode r e T).
  - by_fact (kf_layout r F) (t_storage_layout r e T).
  - by_fact (kf_root r F) (t_worker_root r e T).
  - apply (kf_roots r F). apply (t_worker_roots r e T).
  - by_fact (kf_relpath r F) (t_job_relpath r e T).
  - assert (in_set ["advisory"] e.(gpu_isolation) = true) as Hi
      by by_fact (kf_isolation r F) (t_gpu_isolation r e T).
    apply bool_decide_eq_true in Hi. apply bool_decide_eq_true. set_solver.
Qed.

Lemma null_is_Some {A} (f : json -> option A) v o :
  as_opt f v = Some o -> bool_decide (is_Some o) = negb (is_null v).
Proof.
  intros H. rewrite (has_opt_some _ _ _ H). destruct o; [done|].
  by rewrite bool_decide_false by (by intros [? [=]]).
Qed.

Lemma cleanup_valid : provenance_facts r -> e.(legacy_cleanup_pending) = true ->
  bool_decide (e.(storage_layout) = Some ROLE_LAYOUT)
  && bool_decide (e.(status) ∈ [Finished; Killed])
  && negb (bool_decide (e.(node) = "-")) && bool_decide (is_Some e.(worker_root))
  && bool_decide (e.(job_relpath) = Some ("jobs/" +:+ e.(job_id))) = true.
Proof.
  intros F Hl. pose proof (t_legacy_cleanup_pending r e T) as Hb. rewrite Hl in Hb.
  destruct (pf_cleanup r F) as (Hlay & Hst & Hn & Hw & id & Hid & Hp).
  { destruct (attr r "legacy_cleanup_pending"); simplify_eq/=. done. }
  pose proof (t_job_id r e T) as Hjid. rewrite Hid in Hjid. injection Hjid as <-.
  pose proof (t_job_relpath r e T) as Hjp. rewrite Hp in Hjp. injection Hjp as <-.
  pose proof (t_storage_layout r e T) as Hsl.
  apply str_in_as in Hlay as (s & Hs & Hin). rewrite Hs in Hsl. injection Hsl as <-.
  apply list_elem_of_singleton in Hin as ->.
  pose proof (t_node r e T) as Hnode.
  destruct (attr r "node") as [| | | |n| |]; try done. injection Hnode as <-.
  apply status_names in Hst.
  split_andb; try by apply bool_decide_eq_true.
  - apply bool_decide_eq_true. destruct (e.(status)); set_solver.
  - simpl in Hn. apply negb_true_iff, bool_decide_eq_false. apply bool_decide_eq_false in Hn.
    set_solver.
  - by rewrite (null_is_Some _ _ _ (t_worker_root r e T)), Hw.
Qed.

Lemma status_only st : str_in [status_name st] (attr r "status") = true -> e.(status) = st.
Proof. intros H%status_names. apply list_elem_of_singleton in H. by apply (inj status_name). Qed.

Lemma provenance_valid : provenance_facts r -> valid_provenance e = true.
Proof.
  intros F. unfold valid_provenance.
  pose proof (has_inv _ _ _ _ (pf_limit r F) (t_retry_limit r e T)) as Hlim.
  pose proof (has_inv _ _ _ _ (pf_count r F) (t_retry_count r e T)) as Hcnt.
  unfold ordinal_valid in *. cbv zeta. destruct_andb. split_andb; try done.
  - by_fact (pf_retry_on r F) (t_retry_on r e T).
  - destruct (e.(legacy_cleanup_pending)) eqn:Hl; [|done]. by apply cleanup_valid.
  - rewrite (null_is_Some _ _ _ (t_terminal_finalized_at r e T)).
    destruct (is_null _) eqn:Hn; [done|]. simpl. apply bool_decide_eq_true.
    apply (status_only Lost). by apply (pf_final r F).
  - by_fact (pf_token r F) (t_dispatch_token r e T).
  - rewrite (null_is_Some _ _ _ (t_dispatch_node r e T)), (null_is_Some _ _ _ (t_dispatch_token r e T)).
    rewrite (pf_pair r F). apply eqb_reflx.
  - rewrite (null_is_Some _ _ _ (t_dispatch_node r e T)).
    destruct (is_null _) eqn:Hn; [done|]. simpl. apply bool_decide_eq_true.
    apply (status_only Queued). by apply (pf_queued r F).
  - by_fact (pf_owner r F) (t_dispatch_owner r e T).
  - rewrite <- (has_opt_some _ _ _ (t_dispatch_token r e T)).
    destruct (is_null (attr r "dispatch_token")) eqn:Hn; [|done]. simpl.
    destruct (pf_claim r F Hn) as [Ho Hc].
    rewrite <- (has_opt_some _ _ _ (t_dispatch_owner r e T)), Ho.
    by rewrite <- (has_opt_some _ _ _ (t_dispatch_claimed_at r e T)), Hc.
Qed.
End typed_validity.

(** ** The object [JobEntry( **payload)] builds *)
Lemma construct_assoc now payload decl r k :
  construct now payload decl = Ok r ->
  assoc k r = match assoc k decl with
              | None => None
              | Some d =>
                  match assoc k payload with
                  | Some v => Some v
                  | None => match d with
                            | Default v => Some v
                            | CurrentTime => Some (JFloat (Fin now))
                            | Required => None
                            end
                  end
              end.
Proof.
  revert r. induction decl as [|[n d] decl IH]; intros r; [by intros [= <-]|].
  cbn [construct]. rewrite bind_ok. setoid_rewrite bind_ok.
  intros (v & Hv & r' & Hr' & [= <-]). simpl. case_bool_decide as Hk; [subst k|by apply IH].
  destruct (assoc n payload); [by simplify_eq|]. destruct d; by simplify_eq.
Qed.

Lemma assoc_filter_key {A} (P : string -> bool) k (kv : list (string * A)) :
  P k = true -> assoc k (List.filter (fun p => P p.1) kv) = assoc k kv.
Proof.
  intros Hk. induction kv as [|[n v] kv IH]; [done|]. simpl.
  destruct (P n) eqn:Hn; simpl; [by rewrite IH|].
  rewrite bool_decide_false by (intros ->; congruence). done.
Qed.

Lemma bound_text_fixed v s :
  as_str (bound_text v) = Some s -> bounded_text s = true.
Proof.
  destruct v as [| | | |t| |]; try done. intros [= <-]. unfold bounded_text.
  rewrite bool_decide_eq_true. apply excerpt_idem. apply Nat.leb_le. reflexivity.
Qed.

Lemma bounded_map_fixed (kv : list (string * json)) : forall l,
  mapM (fun p : string * json => (fun x => (p.1, x)) <$> as_str p.2)
    (prod_map id bound_text <$> kv) = Some l ->
  forallb (fun p => bounded_text p.2) l = true.
Proof.
  induction kv as [|[k v] kv IH]; intros l; [by intros [= <-]|].
  rewrite fmap_cons. intros (p & Hp & (rest & Hrest & [= <-])%bind_Some)%bind_Some.
  apply fmap_Some in Hp as (s & Hs & ->). simpl in *.
  rewrite (bound_text_fixed v s Hs). by apply IH.
Qed.

Lemma as_map_of_env env : as_map as_str (as_json env) = Some env.
Proof. by apply (as_map_of as_str JStr). Qed.

Lemma env_keys_sorted env : env_ok env -> sort_strings env.*1 = env.*1.
Proof.
  intros H. apply sort_by_id. destruct H as [_ _ _ _ H].
  induction H as [|p l _ IH Hall]; simpl; constructor; [done|]. by apply Forall_fmap.
Qed.

Lemma validate_strict_ok (v : json) env :
  strict v -> validate v = Ok env -> env_ok env.
Proof.
  destruct v as [| | | | | |kv]; try done. simpl. intros [Hnd _] H.
  by apply validate_ok in H as [? _].
Qed.

Lemma strict_assoc k kv v : strict (JDict kv) -> assoc k kv = Some v -> strict v.
Proof.
  intros [_ Hs]. induction kv as [|[n x] kv IH]; [done|]. simpl in *. destruct Hs as [? ?].
  case_bool_decide; [by intros [= <-] | by apply IH].
Qed.

(** ** The row the validators see *)
Section prepared.
Context (now : Q) (doc : row) (env : environment) (include_private : bool) (r0 : row).
Let shown : environment := if include_private then env else [].
Let payload : row :=
  ("custom_env", as_json shown)
  :: List.filter (fun p => bool_decide (p.1 ∈ _JOB_ENTRY_FIELDS)) doc.
Context (Hr0 : construct now payload job_fields = Ok r0).
Let r : row := prepare_row env include_private r0.

Ltac prepared_attr :=
  unfold r, prepare_row, _bound_entry_diagnostics, attr, dict_get;
  repeat case_match; reflexivity.

Lemma prepared_env : attr r "custom_env" = as_json shown.
Proof.
  transitivity (attr r0 "custom_env"); [prepared_attr|].
  unfold attr, dict_get. by rewrite (construct_assoc _ _ _ _ _ Hr0).
Qed.
Lemma prepared_keys : attr r "custom_env_keys" = of_list JStr (sort_strings env.*1).
Proof. prepared_attr. Qed.
Lemma prepared_loaded : attr r "custom_env_loaded" = JBool include_private.
Proof. prepared_attr. Qed.
Lemma prepared_reason : attr r "reason" = bound_text (attr r0 "reason").
Proof. prepared_attr. Qed.
Lemma prepared_failures :
  attr r "placement_failures"
  = match attr r0 "placement_failures" with
    | JDict kv => JDict (prod_map id bound_text <$> kv)
    | v => v
    end.
Proof.
  unfold r, prepare_row, _bound_entry_diagnostics.
  change (attr (_ :: r0) "placement_failures") with (attr r0 "placement_failures").
  destruct (attr r0 "placement_failures") eqn:E; repeat case_match; first [reflexivity | exact E].
Qed.

Lemma prepared_job_id s :
  dict_get "job_id" doc = JStr s -> attr r "job_id" = JStr s.
Proof.
  intros Hs. transitivity (attr r0 "job_id"); [prepared_attr|].
  assert (assoc "job_id" payload = assoc "job_id" doc) as Hp.
  { exact (assoc_filter_key (fun n : string => bool_decide (n ∈ _JOB_ENTRY_FIELDS))
      "job_id" doc eq_refl). }
  unfold attr, dict_get. rewrite (construct_assoc _ _ _ _ _ Hr0), Hp.
  unfold dict_get in Hs. change (assoc "job_id" job_fields) with (Some Required).
  destruct (assoc "job_id" doc) as [v|]; [exact Hs | discriminate Hs].
Qed.
End prepared.

(** ** Validity under the sentinel fill *)
Definition mtime_ok (o : option Q) : bool := opt_b q_nonneg o.

Lemma typed_layout r e s :
  typed r e -> typed (("storage_layout", JStr s) :: r) (e <| storage_layout := Some s |>).
Proof. intros []. by split. Qed.

Lemma typed_updated r e v q :
  typed r e -> as_opt as_num v = Some (Some q) ->
  typed (("updated_at", v) :: r) (e <| updated_at := Some q |>).
Proof. intros [] ?. by split. Qed.

Lemma as_num_present v q : as_num v = Some q -> as_opt as_num v = Some (Some q).
Proof. by destruct v; intros; simplify_eq/=; rewrite ?H. Qed.

Lemma typed_complete reg r e : typed r e -> typed (fill_sentinels reg r) (complete reg e).
Proof.
  intros T. unfold fill_sentinels, complete.
  rewrite (has_opt_some _ _ _ (t_storage_layout r e T)).
  assert (exists r' e', typed r' e' /\
    r' = (if bool_decide (e.(storage_layout) = None)
          then ("storage_layout", JStr LEGACY_LAYOUT) :: r else r) /\
    e' = match e.(storage_layout) with
         | None => e <| storage_layout := Some LEGACY_LAYOUT |>
         | Some _ => e
         end) as (r' & e' & T' & <- & <-).
  { destruct (e.(storage_layout)); [by exists r, e|].
    eexists _, _. split; [by apply typed_layout | done]. }
  rewrite (has_opt_some _ _ _ (t_updated_at r' e' T')).
  destruct (e'.(updated_at)); [done|]. rewrite bool_decide_true by done.
  apply typed_updated; [done|].
  pose proof (as_num_present _ _ (t_created_at r' e' T')) as Hc.
  destruct reg as [t|]; [destruct (Qeq_bool t 0)|]; done.
Qed.

(** The validity conditions read neither sentinel except through the layout
    set and the timestamp bound. *)
Lemma wf_layout_updated e l u :
  wf_entry e ->
  in_set [LEGACY_LAYOUT; ROLE_LAYOUT] l = true ->
  (e.(legacy_cleanup_pending) = true -> l = ROLE_LAYOUT) ->
  opt_b q_nonneg u = true ->
  wf_entry (e <| storage_layout := Some l |> <| updated_at := u |>).
Proof.
  intros [Hl Hc Hp Hm Hk Hd He Hkeys] Hin Hcl Hu. split; try done.
  - revert Hl. unfold valid_lifecycle. simpl. rewrite Hu, !andb_true_iff. tauto.
  - revert Hp. unfold valid_provenance. simpl. rewrite !andb_true_iff.
    destruct (e.(legacy_cleanup_pending)); [|tauto]. rewrite (Hcl eq_refl). simpl.
    rewrite !andb_true_iff. tauto.
  - revert Hk. unfold valid_contracts. simpl. rewrite Hin, !andb_true_iff. tauto.
Qed.

Lemma complete_eq reg e :
  complete reg e = e <| storage_layout := Some (default LEGACY_LAYOUT e.(storage_layout)) |>
                     <| updated_at := (complete reg e).(updated_at) |>.
Proof. unfold complete. by destruct e as [], storage_layout, updated_at. Qed.

Lemma complete_updated reg e :
  exists u, (complete reg e).(updated_at) = Some u /\
    (e.(updated_at) = Some u \/ u = e.(created_at) \/ reg = Some u).
Proof.
  assert (forall e', e'.(updated_at) = e.(updated_at) -> e'.(created_at) = e.(created_at) ->
    exists u, match e'.(updated_at) with
      | Some _ => e'
      | None => e' <| updated_at := Some match reg with
                                         | Some t => if Qeq_bool t 0 then e'.(created_at) else t
                                         | None => e'.(created_at)
                                         end |>
      end.(updated_at) = Some u /\
      (e.(updated_at) = Some u \/ u = e.(created_at) \/ reg = Some u)) as H.
  { intros e' <- <-. destruct (e'.(updated_at)) as [u|] eqn:E; [exists u; auto|].
    eexists. split; [reflexivity|]. destruct reg as [t|]; [destruct (Qeq_bool t 0)|]; auto. }
  unfold complete. apply H; by destruct e as [], storage_layout.
Qed.

Lemma wf_created e : wf_entry e -> q_nonneg e.(created_at) = true.
Proof. intros [H _]. unfold valid_lifecycle in H. by destruct_andb. Qed.

Lemma wf_updated e : wf_entry e -> opt_b q_nonneg e.(updated_at) = true.
Proof. intros [H _]. unfold valid_lifecycle in H. simpl in H. by destruct_andb. Qed.

Lemma wf_layout e : wf_entry e -> opt_b (in_set [LEGACY_LAYOUT; ROLE_LAYOUT]) e.(storage_layout) = true.
Proof. intros [_ _ _ _ H _]. unfold valid_contracts in H. by destruct_andb. Qed.

Lemma wf_cleanup_layout e :
  wf_entry e -> e.(legacy_cleanup_pending) = true -> e.(storage_layout) = Some ROLE_LAYOUT.
Proof.
  intros [_ _ H _] Hc. unfold valid_provenance in H. rewrite Hc in H. cbn [implb] in H.
  destruct_andb. by eapply bool_decide_eq_true.
Qed.

Lemma wf_complete reg e : mtime_ok reg = true -> wf_entry e -> wf_entry (complete reg e).
Proof.
  intros Hreg W. rewrite complete_eq. apply wf_layout_updated; [done|..].
  - pose proof (wf_layout e W). by destruct (e.(storage_layout)).
  - intros Hc. by rewrite (wf_cleanup_layout e W Hc).
  - destruct (complete_updated reg e) as (u & -> & [Hu|[->|Hu]]).
    + pose proof (wf_updated e W) as H. by rewrite Hu in H.
    + by apply wf_created.
    + by rewrite Hu in Hreg.
Qed.

(** ** Soundness *)
Lemma decode_entry_inv now doc reg expected include e :
  _decode_entry now (JDict doc) reg expected include = Ok e ->
  exists id env r0 r rp,
    dict_get "job_id" doc = JStr id /\ valid_job_id id = true /\
    (forall want, expected = Some want -> id = want) /\
    validate (default (JDict []) (assoc "custom_env"
      (List.filter (fun p => bool_decide (p.1 ∈ _JOB_ENTRY_FIELDS)) doc))) = Ok env /\
    construct now (("custom_env", as_json (if include then env else []))
      :: List.filter (fun p => bool_decide (p.1 ∈ _JOB_ENTRY_FIELDS)) doc) job_fields = Ok r0 /\
    r = prepare_row env include r0 /\
    _validate_entry_lifecycle r = Ok tt /\ _validate_entry_collections r = Ok tt /\
    _validate_entry_provenance r = Ok rp /\ _validate_entry_limits rp = Ok tt /\
    _validate_entry_contracts rp = Ok tt /\
    typed_entry (fill_sentinels reg rp) = Some e.
Proof.
  unfold _decode_entry. rewrite !bind_raise_ok. intros (Hid & Hexp & (env & Henv & H)%bind_ok).
  apply bind_ok in H as (r0 & Hr0 & H). rewrite !then_ok in H.
  destruct H as (Hl & Hc & (rp & Hp & H)%bind_ok). rewrite !then_ok in H.
  destruct H as (Hm & Hk & H).
  apply negb_false_iff in Hid. unfold _valid_job_id in Hid.
  destruct (dict_get "job_id" doc) as [| | | |id| |] eqn:E; try done.
  exists id, env, r0, (prepare_row env include r0), rp. repeat split; try done.
  - intros want ->. apply negb_false_iff, bool_decide_eq_true in Hexp. by apply list_elem_of_singleton in Hexp.
  - by destruct (validate _).
  - by destruct (typed_entry _); simplify_eq.
Qed.

(** The only strictness decoding relies on: the environment's keys are unique. *)
Definition env_strict (doc : row) : Prop :=
  forall v, assoc "custom_env" doc = Some v -> strict v.

Lemma strict_env_strict doc : strict (JDict doc) -> env_strict doc.
Proof. intros Hs v. by apply strict_assoc. Qed.

Lemma strict_custom_env doc :
  env_strict doc ->
  strict (default (JDict []) (assoc "custom_env"
    (List.filter (fun p => bool_decide (p.1 ∈ _JOB_ENTRY_FIELDS)) doc))).
Proof.
  intros Hs.
  replace (assoc "custom_env" (List.filter _ doc)) with (assoc "custom_env" doc)
    by (symmetry; exact (assoc_filter_key (fun n : string => bool_decide (n ∈ _JOB_ENTRY_FIELDS))
          "custom_env" doc eq_refl)).
  destruct (assoc "custom_env" doc) as [v|] eqn:E; [by apply Hs|].
  simpl. split; [constructor | done].
Qed.

Section decoded_row.
Context (now : Q) (doc : row) (env : environment) (include : bool) (r0 rp : row) (e : JobEntry).
Let r := prepare_row env include r0.
Context (Hr0 : construct now (("custom_env", as_json (if include then env else []))
  :: List.filter (fun p => bool_decide (p.1 ∈ _JOB_ENTRY_FIELDS)) doc) job_fields = Ok r0).
Context (Hp : _validate_entry_provenance r = Ok rp) (T : typed rp e).

Lemma decoded_attr k : bool_decide (k ∈ ["dispatch_owner"; "dispatch_claimed_at"]) = false ->
  attr rp k = attr r k.
Proof.
  intros Hk%bool_decide_eq_false. by destruct (provenance_attr r rp k Hp) as [|[_ ?]].
Qed.

Lemma decoded_env : e.(custom_env) = if include then env else [].
Proof.
  pose proof (t_custom_env rp e T) as H. rewrite (decoded_attr "custom_env" eq_refl) in H.
  unfold r in H. rewrite (prepared_env now doc env include r0 Hr0), as_map_of_env in H. by simplify_eq.
Qed.

Lemma decoded_keys : e.(custom_env_keys) = sort_strings env.*1.
Proof.
  pose proof (t_custom_env_keys rp e T) as H. rewrite (decoded_attr "custom_env_keys" eq_refl) in H.
  unfold r in H. rewrite prepared_keys, (as_list_of as_str JStr) in H by done. by simplify_eq.
Qed.

Lemma decoded_loaded : e.(custom_env_loaded) = include.
Proof.
  pose proof (t_custom_env_loaded rp e T) as H.
  rewrite (decoded_attr "custom_env_loaded" eq_refl) in H.
  unfold r in H. rewrite prepared_loaded in H. simpl in H. by simplify_eq.
Qed.

Lemma decoded_diagnostics : valid_diagnostics e = true.
Proof.
  unfold valid_diagnostics. split_andb.
  - pose proof (t_reason rp e T) as H. rewrite (decoded_attr "reason" eq_refl) in H.
    unfold r in H. rewrite prepared_reason in H.
    destruct (e.(reason)) as [s|]; [|done].
    apply (bound_text_fixed (attr r0 "reason")).
    destruct (attr r0 "reason"); simpl in *; simplify_eq; done.
  - pose proof (t_placement_failures rp e T) as H.
    rewrite (decoded_attr "placement_failures" eq_refl) in H.
    unfold r in H. rewrite prepared_failures in H.
    destruct (attr r0 "placement_failures") as [| | | | | |kv]; try done.
    by eapply bounded_map_fixed.
Qed.

Lemma decoded_job_id id : dict_get "job_id" doc = JStr id -> e.(job_id) = id.
Proof.
  intros Hid. pose proof (t_job_id rp e T) as H. rewrite (decoded_attr "job_id" eq_refl) in H.
  unfold r in H. rewrite (prepared_job_id now doc env include r0 Hr0 id Hid) in H.
  simpl in H. by simplify_eq.
Qed.

Lemma decoded_wf id :
  dict_get "job_id" doc = JStr id -> valid_job_id id = true -> env_ok env ->
  row_facts rp -> wf_entry e.
Proof.
  intros Hid Hval Hok [Fl Fc Fp Fm Fk _ _ _]. split.
  - eapply lifecycle_valid; [done..|]. by rewrite (decoded_job_id id Hid).
  - by eapply collections_valid.
  - by eapply provenance_valid.
  - by eapply limits_valid.
  - by eapply contracts_valid.
  - apply decoded_diagnostics.
  - rewrite decoded_env. destruct include; [done | apply env_ok_nil].
  - rewrite decoded_env, decoded_keys, decoded_loaded. intros ->. by apply env_keys_sorted.
Qed.
End decoded_row.

Lemma decoded_facts now (doc : row) (env : environment) (include : bool) r0 rp :
  construct now (("custom_env", as_json (if include then env else []))
    :: List.filter (fun p => bool_decide (p.1 ∈ _JOB_ENTRY_FIELDS)) doc) job_fields = Ok r0 ->
  _validate_entry_provenance (prepare_row env include r0) = Ok rp ->
  _validate_entry_lifecycle (prepare_row env include r0) = Ok tt ->
  _validate_entry_collections (prepare_row env include r0) = Ok tt ->
  _validate_entry_limits rp = Ok tt -> _validate_entry_contracts rp = Ok tt ->
  exists e, typed rp e /\ row_facts rp.
Proof.
  intros Hr0 Hp Hl Hc Hm Hk.
  assert (forall k, bool_decide (k ∈ ["dispatch_owner"; "dispatch_claimed_at"]) = false ->
    attr rp k = attr (prepare_row env include r0) k) as Hat by (intros; by eapply decoded_attr).
  assert (row_facts rp) as F.
  { split.
    - eapply lifecycle_normalized; [done|]. by apply lifecycle_sound.
    - eapply collections_normalized; [done|]. by apply collections_sound.
    - by eapply provenance_sound.
    - by apply limits_sound.
    - by apply contracts_sound.
    - rewrite Hat, (prepared_env now doc env include r0 Hr0), as_map_of_env by reflexivity. eauto.
    - rewrite Hat, prepared_keys, (as_list_of as_str JStr) by reflexivity. eauto.
    - rewrite Hat, prepared_loaded by reflexivity. eauto. }
  destruct (row_typed rp F) as [e T]. by exists e.
Qed.

(** The stages compose back: what each stage returns is what decoding returns. *)
Lemma decode_entry_intro now doc reg expected (include : bool) id env r0 rp e :
  dict_get "job_id" doc = JStr id -> valid_job_id id = true ->
  (forall want, expected = Some want -> id = want) ->
  validate (default (JDict []) (assoc "custom_env"
    (List.filter (fun p => bool_decide (p.1 ∈ _JOB_ENTRY_FIELDS)) doc))) = Ok env ->
  construct now (("custom_env", as_json (if include then env else []))
    :: List.filter (fun p => bool_decide (p.1 ∈ _JOB_ENTRY_FIELDS)) doc) job_fields = Ok r0 ->
  _validate_entry_lifecycle (prepare_row env include r0) = Ok tt ->
  _validate_entry_collections (prepare_row env include r0) = Ok tt ->
  _validate_entry_provenance (prepare_row env include r0) = Ok rp ->
  _validate_entry_limits rp = Ok tt -> _validate_entry_contracts rp = Ok tt ->
  typed_entry (fill_sentinels reg rp) = Some e ->
  _decode_entry now (JDict doc) reg expected include = Ok e.
Proof.
  intros Hid Hv Hexp He Hr Hl Hc Hp Hm Hk Ht. unfold _decode_entry. rewrite Hid.
  cbn [_valid_job_id str_in]. rewrite Hv. cbn [negb raise_if mbind result_bind].
  replace (match expected with Some id0 => _ | None => false end) with false.
  2:{ destruct expected as [want|]; [|done]. rewrite (Hexp want eq_refl).
      by rewrite bool_decide_true by by apply list_elem_of_singleton. }
  cbn [negb raise_if mbind result_bind]. rewrite He. cbn [mbind result_bind]. rewrite Hr.
  cbn [mbind result_bind]. rewrite Hl, Hc. cbn [mbind result_bind]. rewrite Hp.
  cbn [mbind result_bind]. rewrite Hm, Hk. cbn [mbind result_bind]. by rewrite Ht.
Qed.

(** The row behind a decoded one, before the sentinels are filled in, does not
    depend on the modification time. *)
Lemma decode_entry_core now doc reg expected include e :
  env_strict doc ->
  _decode_entry now (JDict doc) reg expected include = Ok e ->
  exists e0, wf_entry e0 /\ (forall want, expected = Some want -> e0.(job_id) = want) /\
    e0.(custom_env_loaded) = include /\ e = complete reg e0 /\
    forall reg', _decode_entry now (JDict doc) reg' expected include = Ok (complete reg' e0).
Proof.
  intros Hstrict H.
  apply decode_entry_inv in H as
    (id & env & r0 & r & rp & Hid & Hval & Hexp & Henv & Hr0 & -> & Hl & Hc & Hp & Hm & Hk & He).
  destruct (decoded_facts now doc env include r0 rp Hr0 Hp Hl Hc Hm Hk) as [e0 [T F]].
  assert (forall reg', typed_entry (fill_sentinels reg' rp) = Some (complete reg' e0)) as T'.
  { intros reg'. by apply typed_entry_complete, typed_complete. }
  exists e0. split; [|split; [|split; [by eapply decoded_loaded|split]]].
  - pose proof (validate_strict_ok _ _ (strict_custom_env doc Hstrict) Henv).
    by eapply (decoded_wf now doc env include r0 rp e0 Hr0 Hp T id).
  - intros want Hw. rewrite <- (Hexp want Hw). by eapply decoded_job_id.
  - pose proof (T' reg). by simplify_eq.
  - intros reg'. by eapply decode_entry_intro.
Qed.

Lemma complete_job_id reg e : (complete reg e).(job_id) = e.(job_id).
Proof. by rewrite complete_eq. Qed.
Lemma complete_loaded reg e : (complete reg e).(custom_env_loaded) = e.(custom_env_loaded).
Proof. by rewrite complete_eq. Qed.
Lemma complete_sentinels reg e :
  is_Some (complete reg e).(storage_layout) /\ is_Some (complete reg e).(updated_at).
Proof.
  split; [by rewrite complete_eq|]. by destruct (complete_updated reg e) as (u & -> & _).
Qed.
