(* ===== verification/CodecRoundtrip.v ===== *)
(** * Every well-formed row survives the registry round trip

    [decode_entry_published] and [decode_envelope]: encoding a row that satisfies the invariant and decoding
    the published document gives the row back, with the two sentinels filled
    in.  [represents r e] says the dynamic object [r] holds exactly the typed
    row [e]; the validators accept such an object. *)

From S2P Require Import Prelude Text PyValue Diagnostics Layout CustomEnv JobEntry RegistryCodec CodecFacts CodecSound.

Definition represents (r : row) (e : JobEntry) : Prop :=
  Forall (fun p => attr r p.1 = p.2) (to_row e).

(** ** The tests on written values *)
Lemma opt_of {A} (ok : json -> bool) (p : A -> bool) (g : A -> json) o :
  (forall a, ok (g a) = p a) -> (forall a, is_null (g a) = false) ->
  opt ok (of_opt g o) = opt_b p o.
Proof. intros H Hn. destruct o as [a|]; [|done]. unfold opt. simpl. by rewrite Hn, H. Qed.

Lemma opt_int_of p o : opt (int_in p) (of_opt JInt o) = opt_b p o.
Proof. by apply opt_of. Qed.
Lemma opt_str_of o : opt is_str (of_opt JStr o) = true.
Proof. by destruct o. Qed.
Lemma opt_bool_of o : opt is_bool (of_opt JBool o) = true.
Proof. by destruct o. Qed.
Lemma opt_match_of re o : opt (matches re) (of_opt JStr o) = opt_b (fullmatch re) o.
Proof. by apply opt_of. Qed.
Lemma opt_in_of set o : opt (str_in set) (of_opt JStr o) = opt_b (in_set set) o.
Proof. by apply opt_of. Qed.
Lemma is_null_of {A} (g : A -> json) o :
  (forall a, is_null (g a) = false) -> is_null (of_opt g o) = bool_decide (o = None).
Proof. intros H. destruct o; simpl; [by rewrite H|done]. Qed.
Lemma status_of_str st : str_in (status_name <$> JOB_STATUSES) (of_status st) = true.
Proof. by destruct st. Qed.
Lemma result_of_str o : opt (str_in (result_name <$> RESULT_STATES)) (of_opt of_result o) = true.
Proof. by destruct o as [[]|]. Qed.

Lemma forallb_of {A} (ok : json -> bool) (p : A -> bool) (g : A -> json) l :
  (forall a, ok (g a) = p a) -> forallb ok (g <$> l) = forallb p l.
Proof. intros H. induction l as [|a l IH]; [done|]. simpl. rewrite H. f_equal. exact IH. Qed.

Lemma ints_of_written l : ints_of (JInt <$> l) = l.
Proof. induction l as [|z l IH]; [done|]. unfold ints_of in *. simpl. f_equal. exact IH. Qed.
Lemma strs_of_written {A} (g : A -> string) l : strs_of ((fun a => JStr (g a)) <$> l) = g <$> l.
Proof. induction l as [|z l IH]; [done|]. unfold strs_of in *. simpl. f_equal. exact IH. Qed.

Lemma gpus_ok_of l : gpus_ok (of_list JInt l) = gpus_valid l.
Proof.
  unfold gpus_ok, gpus_valid, short, of_list.
  by rewrite length_fmap, ints_of_written, (forallb_of _ (Z.leb 0)).
Qed.

Lemma str_dict_of kv : str_dict (of_map JStr kv) = true.
Proof. induction kv as [|[k s] kv IH]; [done|]. exact IH. Qed.
Lemma json_len_of {A} (g : A -> json) kv : json_len (of_map g kv) = length kv.
Proof. apply length_fmap. Qed.

Lemma bad_number_of o : bad_number negative (of_opt of_num o) = Ok (negb (opt_b q_nonneg o)).
Proof.
  destruct o as [q|]; [|done]. unfold bad_number. simpl. unfold q_nonneg. by rewrite negb_involutive.
Qed.
Lemma bad_positive_of o :
  bad_number (fun v => negb (positive_num v)) (of_opt of_num o) = Ok (negb (opt_b (fun q => q_ltb 0 q) o)).
Proof. by destruct o. Qed.
Lemma bad_number_num q : bad_number negative (of_num q) = Ok (negb (q_nonneg q)).
Proof. exact (bad_number_of (Some q)). Qed.

Lemma bad_retry_on_of o :
  bad_retry_on (of_opt JStr o) = Ok (negb (opt_b (in_set RETRY_ON_MODES) o)).
Proof. by destruct o. Qed.
Lemma status_str_of s st : str_in [status_name s] (of_status st) = bool_decide (st = s).
Proof. by destruct s, st. Qed.

Lemma phases_of kv :
  forallb (fun p => q_nonneg p.2) kv = true ->
  match of_map of_num kv with
  | JDict phases =>
      bad ← any_raising (fun p => if is_null p.2 then Ok true else bad_number negative p.2) phases;
      raise_if bad (ValueError "job registry has invalid launch phases")
  | _ => Err (ValueError "job registry has invalid launch phases")
  end = Ok tt.
Proof.
  intros H%forallb_True_spec. simpl. rewrite bad_raise_ok, any_raising_false.
  apply Forall_fmap. eapply Forall_impl; [exact H|]. intros [k q] Hq. simpl in *.
  change (bad_number negative (of_num q) = Ok false). by rewrite bad_number_num, Hq.
Qed.

Lemma inputs_of o :
  opt_b (fun l => (length l <=? MAX_SETUP_INPUTS)%nat
                  && forallb (fun p => is_ok (setup_input_ok (JStr p))) l) o = true ->
  match of_opt (of_list JStr) o with
  | JNull => Ok tt
  | JList l =>
      raise_if (MAX_SETUP_INPUTS <? length l)%nat
        (ValueError "job registry has invalid setup inputs") ;;
      for_each setup_input_ok l
  | _ => Err (ValueError "job registry has invalid setup inputs")
  end = Ok tt.
Proof.
  destruct o as [l|]; [|done]. cbn [opt_b of_opt of_list].
  intros [Hl H%forallb_True_spec]%andb_true_iff.
  rewrite bind_raise_ok, length_fmap, Nat.ltb_antisym, Hl, for_each_ok. split; [done|].
  apply Forall_fmap. eapply Forall_impl; [exact H|]. intros p.
  unfold compose. by destruct (setup_input_ok (JStr p)) as [[]|].
Qed.

Lemma results_of l :
  (length l <=? length RESULT_STATES)%nat = true -> bool_decide (NoDup l) = true ->
  match of_list of_result l with
  | JList l =>
      (length RESULT_STATES <? length l)%nat || negb (forallb is_str l)
      || negb (bool_decide (NoDup (strs_of l)))
      || negb (forallb (str_in (result_name <$> RESULT_STATES)) l)
  | _ => true
  end = false.
Proof.
  intros Hl Hnd%bool_decide_eq_true. unfold of_list.
  change (of_result <$> l) with ((fun a => JStr (result_name a)) <$> l).
  rewrite strs_of_written, length_fmap, Nat.ltb_antisym, Hl.
  rewrite !(forallb_of _ (fun _ => true)) by (done || by intros []).
  rewrite bool_decide_true by (by apply NoDup_fmap_2; [apply _|]).
  replace (forallb (fun _ => true) l) with true; [done|]. clear; by induction l.
Qed.

Lemma worker_root_of root : root_valid root = true -> worker_root_ok (JStr root) = Ok tt.
Proof. unfold root_valid. simpl. by destruct (normalize_node_root root). Qed.

Lemma worker_roots_of kv :
  forallb (fun p => root_valid p.2) kv = true ->
  for_each (fun p => worker_root_ok p.2)
    match of_map JStr kv with JDict kv => kv | _ => [] end = Ok tt.
Proof.
  intros H%forallb_True_spec. simpl. rewrite for_each_ok. apply Forall_fmap.
  eapply Forall_impl; [exact H|]. intros [k root]. apply worker_root_of.
Qed.

(** Rewrite every attribute of a represented row to the value it holds. *)
Ltac read_attrs R :=
  repeat (apply Forall_cons_iff in R as [? R]); cbn [fst snd] in *;
  repeat match goal with H : attr ?r ?k = _ |- context [attr ?r ?k] => rewrite H end;
  repeat match goal with H : attr _ _ = _ |- _ => clear H end.

(** The invariant's conjuncts decide every remaining test. *)
Ltac pass_tests :=
  change (fun z : Z => 0 <? z) with (Z.ltb 0); change (fun z : Z => 0 <=? z) with (Z.leb 0);
  cbn [int_in is_str is_bool forallb];
  repeat match goal with H : _ = true |- _ => rewrite ?H; clear H end; reflexivity.

Lemma cleanup_facts e :
  valid_provenance e = true -> e.(legacy_cleanup_pending) = true ->
  e.(storage_layout) = Some ROLE_LAYOUT /\ e.(status) ∈ [Finished; Killed] /\ e.(node) <> "-" /\
  is_Some e.(worker_root) /\ e.(job_relpath) = Some ("jobs/" +:+ e.(job_id)).
Proof.
  intros V Hl. unfold valid_provenance in V. rewrite Hl in V. cbv zeta in V. cbn [implb] in V.
  destruct_andb.
  repeat match goal with
  | H : bool_decide _ = true |- _ => apply bool_decide_eq_true in H
  | H : negb (bool_decide _) = true |- _ => apply negb_true_iff, bool_decide_eq_false in H
  end. done.
Qed.

Section accepts.
Context (r : row) (e : JobEntry) (R : represents r e).

Lemma lifecycle_accepts : valid_lifecycle e = true -> _validate_entry_lifecycle r = Ok tt.
Proof using R.
  intros V. unfold valid_lifecycle in V. simpl in V. destruct_andb.
  unfold _validate_entry_lifecycle, required_strings, lifecycle_timestamps. cbn [forallb any_raising].
  unfold represents, to_row in R. read_attrs R.
  rewrite status_of_str, gpus_ok_of, !opt_int_of, result_of_str, !bad_number_of, bad_number_num.
  unfold gpus_valid, short. pass_tests.
Qed.

Lemma collections_accepts : valid_collections e = true -> _validate_entry_collections r = Ok tt.
Proof using R.
  intros V. unfold valid_collections in V. cbv zeta in V. destruct_andb.
  unfold _validate_entry_collections. unfold represents, to_row in R. read_attrs R.
  cbv zeta. rewrite !str_dict_of, !json_len_of.
  rewrite !(opt_of _ short (of_map JStr)) by
    (done || (intros kv; by rewrite json_len_of, str_dict_of, andb_true_r)).
  rewrite !Nat.ltb_antisym. unfold of_list.
  rewrite length_fmap, (forallb_of is_config_id (fullmatch _CONFIG_ID_RE)) by done.
  rewrite Nat.ltb_antisym. unfold short. pass_tests.
Qed.

Lemma limits_accepts : valid_limits e = true -> _validate_entry_limits r = Ok tt.
Proof using R.
  intros V. unfold valid_limits in V. cbn [forallb] in V. destruct_andb.
  unfold _validate_entry_limits. cbn [forallb any_raising].
  unfold represents, to_row in R. read_attrs R.
  rewrite !opt_match_of, !opt_bool_of, !bad_number_of, bad_positive_of, !opt_int_of.
  rewrite (opt_of _ (fun s => str_len s <=? MAX_JOB_DIAGNOSTIC_CHARS)%nat JStr) by done.
  rewrite is_null_of by done.
  assert (negb (bool_decide (e.(min_vram_mib) = None)) && (0 =? e.(gpus_requested)) = false) as Hcpu.
  { destruct (e.(min_vram_mib)); [|done]. destruct (0 =? _); [|done]. by simpl in *. }
  rewrite <- (Z.eqb_sym _ 0) in Hcpu. cbn [int_in]. rewrite <- (Z.eqb_sym _ 0), Hcpu.
  pass_tests.
Qed.

Lemma cleanup_accepts :
  valid_provenance e = true ->
  match attr r "legacy_cleanup_pending" with
  | JBool true =>
      negb (str_in [ROLE_LAYOUT] (attr r "storage_layout"))
      || negb (str_in ["finished"; "killed"] (attr r "status"))
      || str_in ["-"] (attr r "node")
      || is_null (attr r "worker_root")
      || negb (match attr r "job_relpath", attr r "job_id" with
               | JStr p, JStr id => bool_decide (p = "jobs/" +:+ id)
               | _, _ => false
               end)
  | _ => false
  end = false.
Proof using R.
  intros V. unfold represents, to_row in R. read_attrs R.
  destruct (e.(legacy_cleanup_pending)) eqn:Hl; [|done].
  destruct (cleanup_facts e V Hl) as (-> & Hst & Hn & [root ->] & ->).
  cbn [of_opt is_null str_in].
  rewrite (bool_decide_true (_ = _)) by done.
  rewrite (bool_decide_false (_ ∈ ["-"])) by (by intros ?%list_elem_of_singleton).
  by apply elem_of_cons in Hst as [-> | ->%list_elem_of_singleton].
Qed.

(** Clearing the owner of an absent claim leaves the represented row as it is. *)
Lemma represents_cleared :
  e.(dispatch_owner) = None -> e.(dispatch_claimed_at) = None ->
  represents (("dispatch_owner", JNull) :: ("dispatch_claimed_at", JNull) :: r) e.
Proof using R.
  intros Ho Hc. unfold represents, to_row in *. rewrite Ho, Hc in *.
  repeat (apply Forall_cons_iff in R as [? R]). by repeat constructor.
Qed.

Lemma provenance_accepts :
  valid_provenance e = true ->
  exists rp, _validate_entry_provenance r = Ok rp /\ represents rp e.
Proof using R.
  intros V. exists (if is_null (attr r "dispatch_token")
    then ("dispatch_owner", JNull) :: ("dispatch_claimed_at", JNull) :: r else r).
  pose proof (cleanup_accepts V) as Hcl. pose proof represents_cleared as Hclear.
  unfold _validate_entry_provenance. cbv zeta. rewrite Hcl. clear Hcl.
  pose proof R as R'. unfold valid_provenance in V. cbv zeta in V. destruct_andb.
  unfold optional_text. cbn [forallb]. unfold represents, to_row in R. read_attrs R.
  rewrite !opt_str_of, !opt_match_of, !is_null_of, bad_retry_on_of by done.
  change "lost" with (status_name Lost). change "queued" with (status_name Queued).
  rewrite !status_str_of. cbn [int_in forallb]. split.
  - destruct (e.(terminal_finalized_at)), (e.(dispatch_node)), (e.(dispatch_token)); try done;
      simpl in *; pass_tests.
  - destruct (e.(dispatch_token)); [done|]. simpl in *. destruct_andb.
    apply Hclear; by eapply bool_decide_eq_true.
Qed.

Lemma contracts_accepts : valid_contracts e = true -> _validate_entry_contracts r = Ok tt.
Proof using R.
  intros V. unfold valid_contracts in V. destruct_andb.
  unfold _validate_entry_contracts. unfold represents, to_row in R. read_attrs R.
  rewrite !then_ok, !raise_if_ok, !json_len_of, !opt_in_of, !negb_false_iff.
  repeat apply conj; try done.
  - by apply phases_of.
  - by rewrite Nat.ltb_antisym, H11.
  - rewrite (opt_of _ (fun l => (length l <=? MAX_JOB_COLLECTION_ITEMS)%nat
                                && forallb (fullmatch _CONFIG_ID_RE) l)); [done| |done].
    intros l. unfold of_list. by rewrite length_fmap, (forallb_of _ (fullmatch _CONFIG_ID_RE)).
  - by apply inputs_of.
  - by apply results_of.
  - destruct (e.(worker_root)) as [root|]; [|done]. by apply worker_root_of.
  - by apply worker_roots_of.
  - etransitivity; [by apply opt_of | exact H1].
  - apply bool_decide_eq_true in H0 as ->. done.
Qed.
End accepts.

(** ** The object the decoder builds from a published row *)
Lemma represents_typed r e : represents r e -> typed r e.
Proof.
  intros R. unfold represents, to_row in R.
  repeat (apply Forall_cons_iff in R as [? R]); cbn [fst snd] in *.
  split; match goal with H : attr r ?k = _ |- context [attr r ?k] => rewrite H end;
    first [ reflexivity | apply as_status_of
          | by apply as_list_of | apply (as_list_of as_result of_result); apply as_result_of
          | by apply as_map_of
          | apply as_opt_of; [|done];
            first [ done | by intros ?; apply as_list_of | by intros ?; apply as_map_of
                  | apply as_result_of ] ].
Qed.

(** Construction only fails on a missing required field. *)
Definition supplied (payload : row) (d : string * field_default) : bool :=
  match assoc d.1 payload, d.2 with None, Required => false | _, _ => true end.

Lemma construct_total now payload decl :
  forallb (supplied payload) decl = true -> exists r, construct now payload decl = Ok r.
Proof.
  induction decl as [|[n d] decl IH]; [by eexists|]. cbn [forallb construct].
  intros [Hd H]%andb_true_iff. destruct (IH H) as [r Hr]. unfold supplied in Hd. cbn [fst snd] in Hd.
  destruct (assoc n payload) as [v|]; [|destruct d]; simpl; try done; rewrite Hr; by eexists.
Qed.

(** The payload the constructor receives for a published row. *)
Definition published (e : JobEntry) : row :=
  ("custom_env", as_json e.(custom_env))
  :: List.filter (fun p => bool_decide (p.1 ∈ _JOB_ENTRY_FIELDS)) (flat_document e).

Lemma published_construct now e : exists r0, construct now (published e) job_fields = Ok r0.
Proof. by apply construct_total. Qed.

Lemma published_attr now e r0 k v :
  construct now (published e) job_fields = Ok r0 ->
  is_Some (assoc k job_fields) -> assoc k (published e) = Some v -> attr r0 k = v.
Proof.
  intros Hr0 [d Hd] Hv. unfold attr, dict_get. by rewrite (construct_assoc _ _ _ _ _ Hr0), Hd, Hv.
Qed.

(** The attributes preparation may rewrite. *)
Definition prepared_fields : list string :=
  ["reason"; "placement_failures"; "custom_env_keys"; "custom_env_loaded"].

Lemma attr_skip k n v (r : row) : bool_decide (k = n) = false -> attr ((n, v) :: r) k = attr r k.
Proof. intros H. unfold attr, dict_get. simpl. by rewrite H. Qed.

Lemma prepare_attr env include r k :
  bool_decide (k ∈ prepared_fields) = false ->
  str_in [""] (attr r "env_hash") = false -> str_in [""] (attr r "cache_source_env_hash") = false ->
  attr (prepare_row env include r) k = attr r k.
Proof.
  intros Hk%bool_decide_eq_false He Hc. unfold prepared_fields in Hk.
  rewrite !not_elem_of_cons in Hk. destruct Hk as (? & ? & ? & ? & _).
  unfold prepare_row, _bound_entry_diagnostics. cbv zeta.
  rewrite (attr_skip "placement_failures" "reason") by reflexivity.
  destruct (attr r "placement_failures") as [| | | | | |kv];
    rewrite !(attr_skip "env_hash"), He by reflexivity;
    rewrite !(attr_skip "cache_source_env_hash"), Hc by reflexivity;
    by rewrite !attr_skip by (by apply bool_decide_eq_false).
Qed.

Lemma wf_hash e :
  wf_entry e -> str_in [""] (of_opt JStr e.(env_hash)) = false /\
                str_in [""] (of_opt JStr e.(cache_source_env_hash)) = false.
Proof.
  intros [_ _ _ H _ _ _ _]. unfold valid_limits in H. cbn [forallb] in H. destruct_andb.
  assert (forall o, opt_b (fullmatch ENV_HASH_RE) o = true -> str_in [""] (of_opt JStr o) = false) as Hh.
  { intros [s|] Hs; [|done]. apply bool_decide_eq_false. intros ->%list_elem_of_singleton. done. }
  split; by apply Hh.
Qed.

Lemma wf_reason e : wf_entry e -> bound_text (of_opt JStr e.(reason)) = of_opt JStr e.(reason).
Proof.
  intros [_ _ _ _ _ H _ _]. unfold valid_diagnostics in H. destruct_andb.
  destruct (e.(reason)) as [s|]; [|done]. simpl in *. f_equal. by eapply bool_decide_eq_true.
Qed.

Lemma wf_failures e :
  wf_entry e ->
  prod_map id bound_text <$> (prod_map id JStr <$> e.(placement_failures))
  = prod_map id JStr <$> e.(placement_failures).
Proof.
  intros [_ _ _ _ _ H _ _]. unfold valid_diagnostics in H. destruct_andb.
  induction (e.(placement_failures)) as [|[k s] l IH]; [done|]. rewrite !fmap_cons.
  match goal with H : forallb _ _ = true |- _ => apply andb_true_iff in H as [Hs Hl] end.
  rewrite IH by done. unfold prod_map. simpl in *. apply bool_decide_eq_true in Hs. by rewrite Hs.
Qed.

Lemma published_represents now e r0 :
  wf_entry e -> e.(custom_env_loaded) = true ->
  construct now (published e) job_fields = Ok r0 ->
  represents (prepare_row e.(custom_env) true r0) e.
Proof.
  intros W Hload Hr0.
  destruct (wf_hash e W) as [He Hc].
  rewrite <- (published_attr now e r0 "env_hash" _ Hr0 (mk_is_Some _ _ eq_refl) eq_refl) in He.
  rewrite <- (published_attr now e r0 "cache_source_env_hash" _ Hr0 (mk_is_Some _ _ eq_refl) eq_refl) in Hc.
  assert (forall k v, bool_decide (k ∈ prepared_fields) = false -> is_Some (assoc k job_fields) ->
    assoc k (published e) = Some v -> attr (prepare_row e.(custom_env) true r0) k = v) as Hk.
  { intros k v Hk Hd Hv. rewrite prepare_attr by done. by eapply published_attr. }
  unfold represents, to_row.
  repeat (apply Forall_cons_iff; split; cbn [fst snd];
    [try (apply Hk; [reflexivity | by eexists | reflexivity])|]); [..|constructor].
  - rewrite prepared_reason, (published_attr now e r0 "reason" _ Hr0 (mk_is_Some _ _ eq_refl) eq_refl).
    by apply wf_reason.
  - rewrite prepared_failures,
      (published_attr now e r0 "placement_failures" _ Hr0 (mk_is_Some _ _ eq_refl) eq_refl).
    unfold of_map. by rewrite wf_failures.
  - rewrite prepared_keys, env_keys_sorted by apply W.
    by rewrite (wf_environment_keys e W Hload).
  - by rewrite prepared_loaded, Hload.
Qed.

(** ** The round trip *)
Lemma published_env e :
  assoc "custom_env" (List.filter (fun p => bool_decide (p.1 ∈ _JOB_ENTRY_FIELDS))
    (flat_document e)) = Some (as_json e.(custom_env)).
Proof. reflexivity. Qed.

Lemma wf_job_id e : wf_entry e -> valid_job_id e.(job_id) = true.
Proof. intros W. pose proof (wf_lifecycle e W) as H. unfold valid_lifecycle in H. by destruct_andb. Qed.

Lemma decode_entry_published now reg e :
  wf_entry e -> e.(custom_env_loaded) = true ->
  _decode_entry now (JDict (flat_document e)) reg (Some e.(job_id)) true = Ok (complete reg e).
Proof.
  intros W Hload.
  destruct (published_construct now e) as [r0 Hr0].
  pose proof (published_represents now e r0 W Hload Hr0) as R.
  destruct (provenance_accepts _ e R (wf_provenance e W)) as (rp & Hp & Rp).
  eapply (decode_entry_intro now (flat_document e)).
  - reflexivity.
  - by apply wf_job_id.
  - by intros want [= <-].
  - rewrite published_env. cbn [default]. by apply validate_as_json, W.
  - exact Hr0.
  - by apply (lifecycle_accepts _ e R), W.
  - by apply (collections_accepts _ e R), W.
  - exact Hp.
  - by apply (limits_accepts _ e Rp), W.
  - by apply (contracts_accepts _ e Rp), W.
  - apply typed_entry_complete, typed_complete. by apply represents_typed.
Qed.

(** Reading a published envelope. *)
Lemma decode_envelope now reg e :
  wf_entry e -> e.(custom_env_loaded) = true ->
  decode_registry_document now (envelope e) reg (Some e.(job_id)) true = Ok (complete reg e).
Proof.
  intros W Hl. pose proof (decode_entry_published now reg e W Hl) as H.
  unfold decode_registry_document, envelope. revert H. generalize (flat_document e). intros doc H.
  change (as_registry_error (_decode_entry now (JDict doc) reg (Some e.(job_id)) true)
    = Ok (complete reg e)). by rewrite H.
Qed.
