(* ===== verification/CodecSpec.v ===== *)
(** * What the registry codec promises its callers

    The contract of [decode_registry_document] and [encode_registry_entry]:
    soundness, the round trip, readability of whatever was published, and the
    error discipline. *)

From S2P Require Import Prelude Text PyValue Diagnostics Layout CustomEnv JobEntry RegistryCodec CodecFacts CodecSound CodecRoundtrip.

#[local] Arguments _decode_entry : simpl never.

(** The envelope is transparent: a decoded document is a flat row or its wrapping. *)
Lemma decode_document_inv now raw reg expected include e :
  strict raw ->
  decode_registry_document now raw reg expected include = Ok e ->
  exists doc, env_strict doc /\
    (forall reg', decode_registry_document now raw reg' expected include
       = as_registry_error (_decode_entry now (JDict doc) reg' expected include)) /\
    _decode_entry now (JDict doc) reg expected include = Ok e.
Proof.
  intros Hs. unfold decode_registry_document.
  destruct raw as [| | | | | |doc]; try done.
  destruct (dict_has "schema_version" doc) eqn:Hv.
  - destruct (negb (str_in _ _)); [done|]. destruct (negb (same_keys _ _)); [done|].
    destruct (dict_get "job" doc) as [| | | | | |job] eqn:Hj; try done. cbn [is_dict negb].
    intros H'. exists job. split; [|split].
    + apply strict_env_strict. unfold dict_get in Hj.
      destruct (assoc "job" doc) as [v|] eqn:E; [|done]. simpl in Hj. subst v.
      by eapply strict_assoc.
    + done.
    + change (as_registry_error (_decode_entry now (JDict job) reg expected include) = Ok e) in H'.
      destruct (_decode_entry _ _ _ _ _) as [|[]]; by simplify_eq/=.
  - intros H'. exists doc. split; [by apply strict_env_strict|]. split; [done|].
    change (as_registry_error (_decode_entry now (JDict doc) reg expected include) = Ok e) in H'.
    destruct (_decode_entry _ _ _ _ _) as [|[]]; by simplify_eq/=.
Qed.

(** Whatever strict JSON the decoder accepts is a well-formed row with the expected
    identity and both sentinels present. *)
Lemma decode_sound now raw reg expected include e :
  strict raw -> mtime_ok reg = true ->
  decode_registry_document now raw reg expected include = Ok e ->
  wf_entry e /\ (forall want, expected = Some want -> e.(job_id) = want) /\
  e.(custom_env_loaded) = include /\ is_Some e.(storage_layout) /\ is_Some e.(updated_at).
Proof.
  intros Hs Hreg (doc & Henv & _ & H)%decode_document_inv; [|done].
  apply decode_entry_core in H as (e0 & W & Hid & Hl & -> & _); [|done].
  rewrite complete_job_id, complete_loaded. destruct (complete_sentinels reg e0).
  split; [by apply wf_complete|done].
Qed.

Definition sample_document : json :=
  JDict [("job_id", JStr "j1"); ("name", JStr "base"); ("center", JStr "lab");
         ("project", JStr "policy"); ("node", JStr "gpu-1"); ("node_local", JBool false);
         ("job_dir", JStr "~/dt/jobs/j1"); ("session", JStr "dt-base");
         ("cmd", JStr "python train.py"); ("created_at", JInt 100);
         ("custom_env", JDict [("SEED", JStr "7")])].

Lemma sample_strict : strict sample_document.
Proof. split; [|by repeat split; repeat constructor; set_solver]. apply (bool_decide_unpack _). done. Qed.

Lemma decode_sound_witness :
  match decode_registry_document 0%Q sample_document (Some 5%Q) (Some "j1") true with
  | Ok e => wf_entry e
  | Err _ => False
  end.
Proof.
  destruct (decode_registry_document 0%Q sample_document (Some 5%Q) (Some "j1") true) as [e|] eqn:E.
  - apply (decode_sound 0%Q sample_document (Some 5%Q) (Some "j1") true e sample_strict eq_refl E).
  - revert E. vm_compute. discriminate.
Defined.

(** ** Errors *)
Lemma as_registry_error_kind {A} (m : result A) x :
  as_registry_error m = Err x -> exists d, x = RegistryError d.
Proof. destruct m as [|[]]; simpl; intros [= <-]; by eexists. Qed.

(** Whatever the document, the only exception that leaves the decoder is [RegistryError]. *)
Lemma decode_errors now raw reg expected include x :
  decode_registry_document now raw reg expected include = Err x -> exists d, x = RegistryError d.
Proof. apply as_registry_error_kind. Qed.

(** ** Encoding *)
Section encoding.
Context (encoded_size : json -> nat).

Lemma bound_entry_fixed e : valid_diagnostics e = true -> bound_entry e = e.
Proof.
  unfold valid_diagnostics. intros [Hr Hf]%andb_true_iff.
  assert (excerpt MAX_JOB_DIAGNOSTIC_CHARS <$> e.(reason) = e.(reason)) as Hr'.
  { destruct (e.(reason)) as [s|]; [|done]. simpl in *. f_equal. by eapply bool_decide_eq_true. }
  assert (prod_map id (excerpt MAX_JOB_DIAGNOSTIC_CHARS) <$> e.(placement_failures)
          = e.(placement_failures)) as Hf'.
  { clear Hr Hr'. induction (e.(placement_failures)) as [|[k s] l IH]; [done|].
    simpl in *. apply andb_true_iff in Hf as [Hs%bool_decide_eq_true Hl].
    unfold prod_map. simpl. rewrite Hs. f_equal. by apply IH. }
  unfold bound_entry. rewrite Hr', Hf'. by destruct e.
Qed.

Lemma excerpt_bounded_text s : bounded_text (excerpt MAX_JOB_DIAGNOSTIC_CHARS s) = true.
Proof. apply bool_decide_eq_true, excerpt_idem. apply Nat.leb_le. reflexivity. Qed.

Lemma bound_entry_diagnostics e : valid_diagnostics (bound_entry e) = true.
Proof.
  apply andb_true_iff. split.
  - change (opt_b bounded_text (excerpt MAX_JOB_DIAGNOSTIC_CHARS <$> e.(reason)) = true).
    destruct (e.(reason)); [apply excerpt_bounded_text | done].
  - change (forallb (fun p => bounded_text p.2)
      (prod_map id (excerpt MAX_JOB_DIAGNOSTIC_CHARS) <$> e.(placement_failures)) = true).
    apply forallb_True_spec, Forall_fmap, Forall_forall. intros [k s] _. apply excerpt_bounded_text.
Qed.

Lemma encode_inv now e doc e' :
  encode_registry_entry encoded_size now e = Ok (doc, e') ->
  e' = bound_entry e /\ doc = envelope e' /\ (encoded_size doc <= MAX_JOB_RECORD_BYTES)%nat /\
  exists d, decode_registry_document now (JDict (flat_document e')) None (Some e'.(job_id)) true = Ok d.
Proof.
  unfold encode_registry_entry. intros (d & Hd & H)%bind_ok.
  apply bind_raise_ok in H as [Hsize%Nat.ltb_ge [= <- <-]]. eauto.
Qed.

Lemma flat_no_schema e : dict_has "schema_version" (flat_document e) = false.
Proof. reflexivity. Qed.

Lemma flat_env_strict e : NoDup e.(custom_env).*1 -> env_strict (flat_document e).
Proof.
  intros Hnd v Hv. change (Some (as_json e.(custom_env)) = Some v) in Hv. injection Hv as <-.
  split; [by rewrite as_json_strict_keys|].
  induction (e.(custom_env)) as [|[k s] l IH]; [done|]. simpl. split; [done|].
  apply IH. by inversion Hnd.
Qed.

(** Decoding the flat document is decoding its envelope. *)
Lemma decode_flat now reg expected include e :
  decode_registry_document now (JDict (flat_document e)) reg expected include
  = decode_registry_document now (envelope e) reg expected include.
Proof.
  unfold decode_registry_document, envelope. rewrite flat_no_schema.
  generalize (flat_document e). intros doc. reflexivity.
Qed.

(** Every document the encoder publishes is within the size limit and decodes, under
    the same identity, to a well-formed row. *)
Lemma encode_published_readable now entry doc entry' :
  NoDup entry.(custom_env).*1 ->
  encode_registry_entry encoded_size now entry = Ok (doc, entry') ->
  (encoded_size doc <= MAX_JOB_RECORD_BYTES)%nat /\ entry'.(job_id) = entry.(job_id) /\
  forall reg, mtime_ok reg = true -> exists e,
    decode_registry_document now doc reg (Some entry.(job_id)) true = Ok e /\
    wf_entry e /\ e.(job_id) = entry.(job_id).
Proof.
  intros Hnd (-> & -> & Hsize & d & Hd)%encode_inv. split; [done|]. split; [done|].
  change ((bound_entry entry).(job_id)) with entry.(job_id) in Hd.
  rewrite decode_flat in Hd. intros reg Hreg. revert Hd.
  assert (env_strict (flat_document (bound_entry entry))) as Hs by (by apply flat_env_strict).
  unfold envelope. revert Hs. generalize (flat_document (bound_entry entry)). intros row Hs Hd.
  change (as_registry_error (_decode_entry now (JDict row) None (Some entry.(job_id)) true) = Ok d) in Hd.
  change (exists e, as_registry_error (_decode_entry now (JDict row) reg (Some entry.(job_id)) true)
    = Ok e /\ wf_entry e /\ e.(job_id) = entry.(job_id)).
  destruct (_decode_entry now (JDict row) None _ true) as [d0|[]] eqn:E; try done.
  apply decode_entry_core in E as (e0 & W & Hid & _ & _ & H); [|done].
  exists (complete reg e0). rewrite H, complete_job_id. split; [done|].
  split; [by apply wf_complete | by apply Hid].
Qed.

(** C35. A well-formed row encodes to its envelope, and decoding that envelope returns the
    row, with only absent sentinels filled in. *)
Lemma registry_roundtrip now reg e :
  wf_entry e -> e.(custom_env_loaded) = true ->
  (encoded_size (envelope e) <= MAX_JOB_RECORD_BYTES)%nat ->
  encode_registry_entry encoded_size now e = Ok (envelope e, e) /\
  decode_registry_document now (envelope e) reg (Some e.(job_id)) true = Ok (complete reg e).
Proof.
  intros W Hl Hsize. split; [|by apply decode_envelope].
  unfold encode_registry_entry. rewrite bound_entry_fixed by apply W.
  rewrite decode_flat, decode_envelope by done. cbn [mbind result_bind].
  apply Nat.ltb_ge in Hsize. by rewrite Hsize.
Qed.
End encoding.

(** ** Concrete instances *)
Lemma registry_roundtrip_witness :
  decode_registry_document 9%Q (envelope test_entry) (Some 5%Q) (Some test_entry.(job_id)) true
  = Ok (complete (Some 5%Q) test_entry).
Proof.
  apply (registry_roundtrip (fun _ => 0%nat) 9%Q (Some 5%Q) test_entry test_entry_wf eq_refl).
  apply Nat.le_0_l.
Defined.

Lemma encode_published_readable_witness :
  exists e, decode_registry_document 9%Q (envelope test_entry) (Some 5%Q)
              (Some test_entry.(job_id)) true = Ok e.
Proof.
  assert (encode_registry_entry (fun _ => 0%nat) 9%Q test_entry = Ok (envelope test_entry, test_entry))
    as E by (vm_compute; reflexivity).
  destruct (encode_published_readable (fun _ => 0%nat) 9%Q test_entry _ _ (NoDup_nil_2) E)
    as (_ & _ & H).
  destruct (H (Some 5%Q) eq_refl) as (e & He & _). exact (ex_intro _ e He).
Defined.

Lemma decode_errors_witness :
  exists d, decode_registry_document 0%Q (JList []) None None true = Err (RegistryError d).
Proof.
  destruct (decode_registry_document 0%Q (JList []) None None true) as [e|x] eqn:E;
    [vm_compute in E; discriminate|].
  destruct (decode_errors _ _ _ _ _ _ E) as [d ->]. exact (ex_intro _ d eq_refl).
Defined.
