(* ===== verification/CodecCanonical.v ===== *)
(** * Publishing normalizes, and nothing else

    [encode_registry_entry] validates a row but publishes it as it is; the
    decoder normalizes a few historical sentinels.  [canonical e] is the row a
    reader gets back, and [published_canonical] says so for every row the
    encoder accepts, well formed or not. *)

From S2P Require Import Prelude Text PyValue Diagnostics Layout CustomEnv JobEntry RegistryCodec CodecFacts CodecSound CodecRoundtrip CodecSpec.

Definition drop_empty (o : option string) : option string :=
  if bool_decide (o = Some "") then None else o.

Definition canonical (e : JobEntry) : JobEntry :=
  let env := sort_env e.(custom_env) in
  let e := e <| custom_env := env |> <| custom_env_keys := sort_strings env.*1 |>
             <| custom_env_loaded := true |> <| env_hash := drop_empty e.(env_hash) |>
             <| cache_source_env_hash := drop_empty e.(cache_source_env_hash) |> in
  match e.(dispatch_token) with
  | None => e <| dispatch_owner := None |> <| dispatch_claimed_at := None |>
  | Some _ => e
  end.

(** ** The clock is read only for a missing creation time *)
Lemma construct_now now now' payload decl :
  is_Some (assoc "created_at" payload) ->
  Forall (fun d => d.2 = CurrentTime -> d.1 = "created_at") decl ->
  construct now payload decl = construct now' payload decl.
Proof.
  intros [v Hv]. induction 1 as [|[n d] decl Hd _ IH]; [done|]. cbn [construct fst snd] in *.
  rewrite IH. destruct d; [done..|]. by rewrite (Hd eq_refl), Hv.
Qed.

Lemma job_fields_clock : Forall (fun d => d.2 = CurrentTime -> d.1 = "created_at") job_fields.
Proof. by repeat constructor. Qed.

Lemma decode_entry_now now now' doc reg expected include :
  is_Some (assoc "created_at" doc) ->
  _decode_entry now (JDict doc) reg expected include
  = _decode_entry now' (JDict doc) reg expected include.
Proof.
  intros Hv. unfold _decode_entry.
  assert (forall p, construct now (p :: List.filter (fun p => bool_decide (p.1 ∈ _JOB_ENTRY_FIELDS)) doc) job_fields
    = construct now' (p :: List.filter (fun p => bool_decide (p.1 ∈ _JOB_ENTRY_FIELDS)) doc) job_fields) as Hc.
  { intros [n v0]. apply construct_now; [|apply job_fields_clock].
    cbn [assoc]. case_bool_decide; [by eexists|].
    pose proof (assoc_filter_key (fun n : string => bool_decide (n ∈ _JOB_ENTRY_FIELDS))
      "created_at" doc eq_refl) as Hf. rewrite <- Hf in Hv. exact Hv. }
  destruct (raise_if _ _); cbn [mbind result_bind]; [|reflexivity].
  destruct (raise_if _ _); cbn [mbind result_bind]; [|reflexivity].
  destruct (validate _) as [env|]; cbn [mbind result_bind]; [|reflexivity].
  by rewrite Hc.
Qed.

(** ** What a published row is read back as *)
Lemma hash_steps (r : row) :
  let r2 := if str_in [""] (attr r "env_hash") then ("env_hash", JNull) :: r else r in
  let r3 := if str_in [""] (attr r2 "cache_source_env_hash")
            then ("cache_source_env_hash", JNull) :: r2 else r2 in
  attr r3 "env_hash" = (if str_in [""] (attr r "env_hash") then JNull else attr r "env_hash") /\
  attr r3 "cache_source_env_hash"
  = (if str_in [""] (attr r "cache_source_env_hash") then JNull else attr r "cache_source_env_hash").
Proof.
  cbv zeta. destruct (str_in [""] (attr r "env_hash")) eqn:Eh;
    rewrite ?(attr_skip "cache_source_env_hash" "env_hash") by reflexivity;
    destruct (str_in [""] (attr r "cache_source_env_hash")) eqn:Ec;
    rewrite ?(attr_skip "cache_source_env_hash" "env_hash"),
      ?(attr_skip "env_hash" "cache_source_env_hash") by reflexivity;
    split; reflexivity.
Qed.

Lemma prepare_hashes env include r :
  attr (prepare_row env include r) "env_hash"
  = (if str_in [""] (attr r "env_hash") then JNull else attr r "env_hash") /\
  attr (prepare_row env include r) "cache_source_env_hash"
  = (if str_in [""] (attr r "cache_source_env_hash") then JNull else attr r "cache_source_env_hash").
Proof.
  unfold prepare_row. cbv zeta.
  set (r1 := ("custom_env_loaded", _) :: _).
  assert (forall k, bool_decide (k ∈ prepared_fields) = false -> attr r1 k = attr r k) as Hk.
  { intros k Hk%bool_decide_eq_false. unfold prepared_fields in Hk.
    rewrite !not_elem_of_cons in Hk. destruct Hk as (? & ? & ? & ? & _).
    unfold r1, _bound_entry_diagnostics. cbv zeta.
    destruct (attr _ "placement_failures"); by rewrite !attr_skip by (by apply bool_decide_eq_false). }
  rewrite <- (Hk "env_hash"), <- (Hk "cache_source_env_hash") by reflexivity.
  clearbody r1. apply hash_steps.
Qed.

Definition payload_of (env : environment) (e : JobEntry) : row :=
  ("custom_env", as_json env)
  :: List.filter (fun p => bool_decide (p.1 ∈ _JOB_ENTRY_FIELDS)) (flat_document e).

Lemma payload_attr now env e r0 k v :
  construct now (payload_of env e) job_fields = Ok r0 ->
  is_Some (assoc k job_fields) -> assoc k (payload_of env e) = Some v -> attr r0 k = v.
Proof.
  intros Hr0 [d Hd] Hv. unfold attr, dict_get. by rewrite (construct_assoc _ _ _ _ _ Hr0), Hd, Hv.
Qed.

(** The attributes the decoder may rewrite before validation. *)
Definition rewritten : list string :=
  ["reason"; "placement_failures"; "custom_env_keys"; "custom_env_loaded"; "env_hash";
   "cache_source_env_hash"].

Lemma prepared_other env include r0 k :
  bool_decide (k ∈ rewritten) = false -> attr (prepare_row env include r0) k = attr r0 k.
Proof.
  intros Hk%bool_decide_eq_false. unfold rewritten in Hk.
  rewrite !not_elem_of_cons in Hk. destruct Hk as (? & ? & ? & ? & ? & ? & _).
  unfold prepare_row, _bound_entry_diagnostics. cbv zeta.
  rewrite (attr_skip "placement_failures" "reason") by reflexivity.
  destruct (attr r0 "placement_failures");
    repeat case_match; by rewrite !attr_skip by (by apply bool_decide_eq_false).
Qed.

Section canonical_row.
Context (now : Q) (e : JobEntry) (env : environment) (r0 : row).
Context (Hr0 : construct now (payload_of env e) job_fields = Ok r0).
Let r := prepare_row env true r0.

Lemma empty_hash v o :
  v = of_opt JStr o -> (if str_in [""] v then JNull else v) = of_opt JStr (drop_empty o).
Proof.
  intros ->. by destruct o as [[|c s]|].
Qed.

Lemma prepared_hash : attr r "env_hash" = of_opt JStr (drop_empty e.(env_hash)).
Proof using Hr0.
  unfold r. rewrite (proj1 (prepare_hashes _ _ _)). apply empty_hash.
  by apply (payload_attr now env e r0 "env_hash" _ Hr0 (mk_is_Some _ _ eq_refl)).
Qed.

Lemma prepared_cache_hash :
  attr r "cache_source_env_hash" = of_opt JStr (drop_empty e.(cache_source_env_hash)).
Proof using Hr0.
  unfold r. rewrite (proj2 (prepare_hashes _ _ _)). apply empty_hash.
  by apply (payload_attr now env e r0 "cache_source_env_hash" _ Hr0 (mk_is_Some _ _ eq_refl)).
Qed.
End canonical_row.

Lemma canonical_fields e :
  (canonical e).(dispatch_owner) = match e.(dispatch_token) with None => None | _ => e.(dispatch_owner) end /\
  (canonical e).(dispatch_claimed_at)
  = match e.(dispatch_token) with None => None | _ => e.(dispatch_claimed_at) end.
Proof. unfold canonical. cbv zeta. simpl. by destruct (e.(dispatch_token)). Qed.

Lemma canonical_flat e :
  canonical e =
    (e <| custom_env := sort_env e.(custom_env) |>
       <| custom_env_keys := sort_strings (sort_env e.(custom_env)).*1 |>
       <| custom_env_loaded := true |> <| env_hash := drop_empty e.(env_hash) |>
       <| cache_source_env_hash := drop_empty e.(cache_source_env_hash) |>
       <| dispatch_owner := (canonical e).(dispatch_owner) |>
       <| dispatch_claimed_at := (canonical e).(dispatch_claimed_at) |>).
Proof. unfold canonical. cbv zeta. simpl. by destruct (e.(dispatch_token)). Qed.

Lemma fixed_reason e :
  valid_diagnostics e = true -> bound_text (of_opt JStr e.(reason)) = of_opt JStr e.(reason).
Proof.
  intros [H _]%andb_true_iff. destruct (e.(reason)) as [s|]; [|done].
  cbn [opt_b of_opt bound_text] in *. f_equal. by eapply bool_decide_eq_true.
Qed.

Lemma fixed_failures e :
  valid_diagnostics e = true ->
  prod_map id bound_text <$> (prod_map id JStr <$> e.(placement_failures))
  = prod_map id JStr <$> e.(placement_failures).
Proof.
  intros [_ H]%andb_true_iff.
  induction (e.(placement_failures)) as [|[k s] l IH]; [done|]. rewrite !fmap_cons.
  apply andb_true_iff in H as [Hs%bool_decide_eq_true Hl].
  rewrite IH by done. cbn [prod_map id fst snd bound_text] in *. unfold prod_map. simpl.
  change (excerpt MAX_JOB_DIAGNOSTIC_CHARS s = s) in Hs. by rewrite Hs.
Qed.

#[local] Opaque prepare_row construct _validate_entry_provenance.

(** The validated object holds the canonical row. *)
Lemma published_represents_canonical now e r0 rp :
  valid_diagnostics e = true ->
  construct now (payload_of (sort_env e.(custom_env)) e) job_fields = Ok r0 ->
  _validate_entry_provenance (prepare_row (sort_env e.(custom_env)) true r0) = Ok rp ->
  represents rp (canonical e).
Proof.
  intros Hd Hr0 Hp. set (env := sort_env e.(custom_env)) in *.
  set (r := prepare_row env true r0) in *.
  assert (forall k v, bool_decide (k ∈ "dispatch_owner" :: "dispatch_claimed_at" :: rewritten) = false ->
    is_Some (assoc k job_fields) -> assoc k (payload_of env e) = Some v -> attr rp k = v) as Hk.
  { intros k v Hk%bool_decide_eq_false Hf Hv.
    apply not_elem_of_cons in Hk as [? Hk]. apply not_elem_of_cons in Hk as [? Hk].
    destruct (provenance_attr r rp k Hp) as [->|[_ Hin]];
      [|exfalso; apply elem_of_cons in Hin as [Hin|Hin%list_elem_of_singleton]; contradiction].
    unfold r. rewrite prepared_other by (by apply bool_decide_eq_false). by eapply payload_attr. }
  assert (forall k, bool_decide (k ∈ ["dispatch_owner"; "dispatch_claimed_at"]) = false ->
    attr rp k = attr r k) as Hr.
  { intros k Hk'%bool_decide_eq_false.
    destruct (provenance_attr r rp k Hp) as [Heq|[_ ?]]; [exact Heq | contradiction]. }
  destruct (provenance_guards r rp Hp) as [Hkeep Hclear].
  assert (attr r "dispatch_token" = of_opt JStr e.(dispatch_token)) as Htok.
  { unfold r. rewrite prepared_other by reflexivity.
    apply (payload_attr now env e r0 "dispatch_token" _ Hr0 (mk_is_Some _ _ eq_refl)). reflexivity. }
  assert (attr rp "dispatch_owner" = of_opt JStr (canonical e).(dispatch_owner) /\
    attr rp "dispatch_claimed_at" = of_opt of_num (canonical e).(dispatch_claimed_at)) as [Ho Hcl].
  { destruct (canonical_fields e) as [-> ->]. rewrite Htok in Hkeep, Hclear.
    destruct (e.(dispatch_token)) as [t|].
    - destruct Hkeep as [-> _]; [reflexivity|]. unfold r. rewrite !prepared_other by reflexivity.
      split.
      + apply (payload_attr now env e r0 "dispatch_owner" _ Hr0 (mk_is_Some _ _ eq_refl)). reflexivity.
      + apply (payload_attr now env e r0 "dispatch_claimed_at" _ Hr0 (mk_is_Some _ _ eq_refl)).
        reflexivity.
    - destruct Hclear as [-> _]; [reflexivity|]. split; reflexivity. }
  pose proof (payload_attr now env e r0 "reason" _ Hr0 (mk_is_Some _ _ eq_refl) eq_refl) as Hreason.
  pose proof (payload_attr now env e r0 "placement_failures" _ Hr0 (mk_is_Some _ _ eq_refl) eq_refl)
    as Hfail.
  rewrite canonical_flat. revert Ho Hcl.
  generalize (canonical e).(dispatch_owner), (canonical e).(dispatch_claimed_at).
  intros owner claimed Ho Hcl. unfold represents, to_row.
  repeat (apply Forall_cons_iff; split; cbn [fst snd];
    [first [exact Ho | exact Hcl | apply Hk; [reflexivity | eexists; reflexivity | reflexivity]
      | idtac]|]); [..|constructor].
  all: rewrite Hr by reflexivity; unfold r.
  - rewrite prepared_reason, Hreason. etransitivity; [exact (fixed_reason e Hd) | reflexivity].
  - rewrite prepared_failures, Hfail.
    etransitivity; [exact (f_equal JDict (fixed_failures e Hd)) | reflexivity].
  - apply (prepared_hash now e env r0 Hr0).
  - apply prepared_keys.
  - apply prepared_loaded.
  - apply (prepared_cache_hash now e env r0 Hr0).
Qed.

#[local] Transparent prepare_row construct _validate_entry_provenance.

Lemma as_json_inj env env' : as_json env = as_json env' -> env = env'.
Proof.
  intros H. pose proof (as_map_of_env env) as Ha. rewrite H, as_map_of_env in Ha. by injection Ha.
Qed.

(** The row behind an accepted publication is the canonical one. *)
Lemma published_canonical now reg expected e d :
  valid_diagnostics e = true -> NoDup e.(custom_env).*1 ->
  _decode_entry now (JDict (flat_document e)) reg expected true = Ok d ->
  wf_entry (canonical e) /\ d = complete reg (canonical e).
Proof.
  intros Hd Hnd H.
  apply decode_entry_inv in H as
    (id & env & r0 & r & rp & Hid & Hval & Hexp & Henv & Hr0 & -> & Hl & Hc & Hp & Hm & Hk & He).
  rewrite published_env in Henv. cbn [default] in Henv.
  apply validate_ok in Henv as [Hok (pairs & Hpairs & ->)]; [|by rewrite as_json_strict_keys].
  assert (pairs = e.(custom_env)) as ->.
  { symmetry. apply as_json_inj. exact (f_equal JDict Hpairs). }
  pose proof (represents_typed _ _ (published_represents_canonical now e r0 rp Hd Hr0 Hp)) as T.
  destruct (decoded_facts now (flat_document e) (sort_env e.(custom_env)) true r0 rp Hr0 Hp Hl Hc Hm Hk) as (_ & _ & F).
  split; [exact (decoded_wf now (flat_document e) (sort_env e.(custom_env)) true r0 rp _ Hr0 Hp T id Hid Hval Hok F)|].
  pose proof (typed_entry_complete _ _ (typed_complete reg rp _ T)) as Ht.
  rewrite Ht in He. injection He as <-. reflexivity.
Qed.

(** Conversely, decoding is deterministic in the clock and total in the
    modification time once one decoding succeeds. *)
Lemma published_decodes now now' reg reg' expected e d :
  valid_diagnostics e = true -> NoDup e.(custom_env).*1 ->
  _decode_entry now (JDict (flat_document e)) reg expected true = Ok d ->
  _decode_entry now' (JDict (flat_document e)) reg' expected true
  = Ok (complete reg' (canonical e)).
Proof.
  intros Hd Hnd H. rewrite (decode_entry_now now' now) by (by eexists).
  destruct (decode_entry_core now _ reg expected true d (flat_env_strict e Hnd) H)
    as (e0 & _ & _ & _ & _ & Hall).
  rewrite (Hall reg'). f_equal.
  exact (proj2 (published_canonical now reg' expected e _ Hd Hnd (Hall reg'))).
Qed.

(** ** A published document is strict JSON

    A Python dictionary never repeats a key; the association lists that model
    them carry that as a condition. *)
Record unique_keys (e : JobEntry) : Prop := {
  uk_submodules : forall kv, e.(submodule_commits) = Some kv -> NoDup kv.*1;
  uk_targets : forall kv, e.(artifact_targets) = Some kv -> NoDup kv.*1;
  uk_failures : NoDup e.(placement_failures).*1;
  uk_phases : NoDup e.(launch_phases_s).*1;
  uk_env : NoDup e.(custom_env).*1;
  uk_roots : NoDup e.(worker_roots).*1;
}.

Definition strict_all (kv : list (string * json)) : Prop := Forall (fun p => strict p.2) kv.

Lemma strict_dict kv : strict (JDict kv) <-> NoDup kv.*1 /\ strict_all kv.
Proof.
  simpl. apply and_iff_compat_l. unfold strict_all.
  induction kv as [|[k v] kv IH]; [split; [constructor|done]|]. rewrite Forall_cons_iff, IH. done.
Qed.
Lemma strict_list l : strict (JList l) <-> Forall strict l.
Proof.
  simpl. induction l as [|v l IH]; [split; [constructor|done]|]. by rewrite Forall_cons_iff, IH.
Qed.

Lemma strict_of_opt {A} (g : A -> json) o : (forall a, o = Some a -> strict (g a)) -> strict (of_opt g o).
Proof. destruct o; [|done]. intros H. by apply H. Qed.
Lemma strict_of_list {A} (g : A -> json) l : (forall a, strict (g a)) -> strict (of_list g l).
Proof. intros H. apply strict_list, Forall_fmap, Forall_forall. intros a _. apply H. Qed.
Lemma strict_of_map {A} (g : A -> json) kv :
  NoDup kv.*1 -> (forall a, strict (g a)) -> strict (of_map g kv).
Proof.
  intros Hnd H. apply strict_dict. split.
  - replace ((prod_map id g <$> kv).*1) with (kv.*1); [done|].
    rewrite <- list_fmap_compose. by apply list_fmap_ext.
  - apply Forall_fmap, Forall_forall. intros [k a] _. apply H.
Qed.

Lemma strict_all_filter P kv : strict_all kv -> strict_all (List.filter P kv).
Proof.
  intros H. apply Forall_forall. intros p Hp. apply list_elem_of_In, List.filter_In in Hp as [Hp _].
  rewrite <- list_elem_of_In in Hp. unfold strict_all in H. rewrite Forall_forall in H. by apply H.
Qed.

Lemma strict_row e : unique_keys e -> strict_all (to_row e).
Proof.
  intros [H1 H2 H3 H4 H5 H6]. unfold strict_all, to_row.
  repeat (apply Forall_cons_iff; split; cbn [snd]); [..|constructor].
  all: first
    [ exact I | reflexivity
    | apply strict_of_opt; intros; first [exact I | reflexivity
        | by (apply strict_of_list; intros)
        | by (apply strict_of_map; [by auto | intros; exact I])]
    | by (apply strict_of_list; intros)
    | by (apply strict_of_map; [done | intros; first [exact I | reflexivity]]) ].
Qed.

Lemma strict_flat e : unique_keys e -> strict (JDict (flat_document e)).
Proof.
  intros H. apply strict_dict. split; [|by apply strict_all_filter, strict_row].
  apply (bool_decide_unpack _). vm_compute. exact I.
Qed.

Lemma strict_envelope e : unique_keys e -> strict (envelope e).
Proof.
  intros H. apply strict_dict. split; [apply (bool_decide_unpack _); reflexivity|].
  apply Forall_cons_iff. split; [exact I|]. apply Forall_cons_iff.
  split; [by apply strict_flat | constructor].
Qed.

(** ** A row decoded from strict JSON has unique keys *)
Lemma as_map_keys {A} (f : json -> option A) kv : forall l,
  mapM (fun p : string * json => (fun x => (p.1, x)) <$> f p.2) kv = Some l -> l.*1 = kv.*1.
Proof.
  induction kv as [|[k v] kv IH]; intros l; [by intros [= <-]|].
  intros (p & Hp & (rest & Hrest & [= <-])%bind_Some)%bind_Some.
  apply fmap_Some in Hp as (x & _ & ->). simpl. f_equal. by apply IH.
Qed.

Lemma as_map_unique {A} (f : json -> option A) v l : strict v -> as_map f v = Some l -> NoDup l.*1.
Proof.
  destruct v as [| | | | | |kv]; try done. intros [Hnd _] H. by rewrite (as_map_keys f kv l H).
Qed.

Section unique.
Context (now : Q) (doc : row) (env : environment) (include : bool) (r0 rp : row).
Let payload : row := ("custom_env", as_json (if include then env else []))
  :: List.filter (fun p => bool_decide (p.1 ∈ _JOB_ENTRY_FIELDS)) doc.
Context (Hdoc : strict (JDict doc)) (Hr0 : construct now payload job_fields = Ok r0).
Context (Hp : _validate_entry_provenance (prepare_row env include r0) = Ok rp).

(** Every attribute holds strict JSON. *)
Lemma constructed_strict k d :
  bool_decide (k = "custom_env") = false ->
  assoc k job_fields = Some (Default d) -> strict d -> strict (attr r0 k).
Proof using Hdoc Hr0.
  intros Hk Hd Hs. unfold attr, dict_get. rewrite (construct_assoc _ _ _ _ _ Hr0), Hd.
  unfold payload. cbn [assoc]. rewrite Hk.
  destruct (assoc k (List.filter _ doc)) as [v|] eqn:E; [|exact Hs]. simpl.
  apply assoc_Some_elem in E. apply list_elem_of_In, List.filter_In in E as [E _].
  rewrite <- list_elem_of_In in E. apply strict_dict in Hdoc as [_ Hall].
  unfold strict_all in Hall. rewrite Forall_forall in Hall. exact (Hall _ E).
Qed.

Lemma read_strict k d :
  bool_decide (k ∈ "custom_env" :: "dispatch_owner" :: "dispatch_claimed_at" :: rewritten) = false ->
  assoc k job_fields = Some (Default d) -> strict d -> strict (attr rp k).
Proof using Hdoc Hr0 Hp.
  intros Hk%bool_decide_eq_false Hd Hs.
  apply not_elem_of_cons in Hk as [? Hk]. apply not_elem_of_cons in Hk as [? Hk].
  apply not_elem_of_cons in Hk as [? Hk].
  destruct (provenance_attr _ rp k Hp) as [->|[_ Hin]].
  - rewrite prepared_other by (by apply bool_decide_eq_false).
    eapply constructed_strict; [by apply bool_decide_eq_false | done..].
  - exfalso. apply elem_of_cons in Hin as [Hin|Hin%list_elem_of_singleton]; contradiction.
Qed.

Lemma failures_unique l : as_map as_str (attr rp "placement_failures") = Some l -> NoDup l.*1.
Proof using Hdoc Hr0 Hp.
  destruct (provenance_attr _ rp "placement_failures" Hp) as [->|[-> _]]; [|done].
  rewrite prepared_failures.
  assert (strict (attr r0 "placement_failures")) as Hs.
  { eapply constructed_strict; [reflexivity..|]. split; constructor. }
  destruct (attr r0 "placement_failures") as [| | | | | |kv]; try done.
  intros H. rewrite (as_map_keys _ _ _ H).
  replace ((prod_map id bound_text <$> kv).*1) with kv.*1; [exact (proj1 Hs)|].
  rewrite <- list_fmap_compose. by apply list_fmap_ext.
Qed.
End unique.

Lemma decode_unique_keys now doc reg expected include e :
  strict (JDict doc) -> _decode_entry now (JDict doc) reg expected include = Ok e -> unique_keys e.
Proof.
  intros Hdoc H. pose proof H as Hcopy. apply decode_entry_inv in H as
    (jid & env & r0 & r & rp & Hid & Hval & Hexp & Henv & Hr0 & -> & Hl & Hc & Hp & Hm & Hk & He).
  destruct (decoded_facts now doc env include r0 rp Hr0 Hp Hl Hc Hm Hk) as (e0 & T & _).
  rewrite (typed_entry_complete _ _ (typed_complete reg rp e0 T)) in He. injection He as <-.
  assert (env_ok env) as Hok.
  { exact (validate_strict_ok _ _ (strict_custom_env doc (strict_env_strict doc Hdoc)) Henv). }
  pose proof (decoded_env now doc env include r0 rp e0 Hr0 Hp T) as Hce.
  assert (forall k d, bool_decide (k ∈ "custom_env" :: "dispatch_owner" :: "dispatch_claimed_at" :: rewritten) = false ->
    assoc k job_fields = Some (Default d) -> strict d -> strict (attr rp k)) as Hs
    by exact (fun k d => read_strict now doc env include r0 rp Hdoc Hr0 Hp k d).
  rewrite complete_eq. split; cbn.
  - intros kv Hkv. pose proof (t_submodule_commits rp e0 T) as Ht. rewrite Hkv in Ht.
    destruct (attr rp "submodule_commits") as [| | | | | |kv'] eqn:E; try done.
    apply fmap_Some in Ht as (x & Hx & [= ->]).
    eapply as_map_unique; [|exact Hx]. rewrite <- E. by eapply Hs.
  - intros kv Hkv. pose proof (t_artifact_targets rp e0 T) as Ht. rewrite Hkv in Ht.
    destruct (attr rp "artifact_targets") as [| | | | | |kv'] eqn:E; try done.
    apply fmap_Some in Ht as (x & Hx & [= ->]).
    eapply as_map_unique; [|exact Hx]. rewrite <- E. by eapply Hs.
  - exact (failures_unique now doc env include r0 rp Hdoc Hr0 Hp _ (t_placement_failures rp e0 T)).
  - eapply as_map_unique; [|exact (t_launch_phases_s rp e0 T)].
    eapply Hs; [reflexivity..|]. split; constructor.
  - rewrite Hce. destruct include; [apply Hok | constructor].
  - eapply as_map_unique; [|exact (t_worker_roots rp e0 T)].
    eapply Hs; [reflexivity..|]. split; constructor.
Qed.
