(* ===== verification/Lifecycle.v ===== *)
(** * Job lifecycle decisions ([jobs/__init__.py])

    The pure decisions over one registry row: safe names and identities, the
    effective typed result, when a terminal verdict is settled, the fence that
    makes a lost verdict final, terminal transitions, slot occupancy and the
    automatic-retry gate. *)

From S2P Require Import Prelude Text PyValue Diagnostics CustomEnv JobEntry RegistryCodec CodecSound CodecSpec.

Definition MAX_SAFE_NAME_LENGTH : nat := 64.
Definition SAFE_NAME_DIGEST_LENGTH : nat := 12.
Definition LOST_RECHECK_S : Q := 300.
Definition CANCEL_UNVERIFIED_PREFIX : string :=
  "dequeue raced with dispatch; cancellation unverified: ".
Definition UNCERTAIN_LAUNCH_PREFIX : string := "launch outcome uncertain: ".

(** ** Names and identities *)

(** [NAME_RE.sub("-", name)]: every maximal run of other characters becomes one dash. *)
Definition DASH : Ascii.ascii := Ascii.ascii_of_N 45.
Fixpoint sub_runs (in_run : bool) (l : list Ascii.ascii) : list Ascii.ascii :=
  match l with
  | [] => []
  | c :: l =>
      if is_name_char c then c :: sub_runs false l
      else if in_run then sub_runs true l else DASH :: sub_runs true l
  end.
Definition is_edge (c : Ascii.ascii) : bool := char_in "-_" c.

Section naming.
(** [hashlib.sha256(data).hexdigest()]. *)
Context (sha256_hexdigest : list Ascii.ascii -> string).

Definition sanitize_name (name : string) : string :=
  let clean := strip_by is_edge (unchars (sub_runs false (chars name))) in
  if bool_decide (clean = "") then "job"
  else if (str_len clean <=? MAX_SAFE_NAME_LENGTH)%nat then clean
  else
    let digest := str_take SAFE_NAME_DIGEST_LENGTH (sha256_hexdigest (utf8_encode name)) in
    let prefix_length := (MAX_SAFE_NAME_LENGTH - SAFE_NAME_DIGEST_LENGTH - 1)%nat in
    let prefix := rstrip_by is_edge (str_take prefix_length clean) in
    let prefix := if bool_decide (prefix = "") then "job" else prefix in
    prefix +:+ "-" +:+ digest.

(** [stamp] is [datetime.now().strftime("%Y%m%d-%H%M")] and [suffix] is
    [secrets.token_hex(8)]. *)
Definition new_job_id (stamp suffix name : string) : string :=
  stamp +:+ "_" +:+ sanitize_name name +:+ "_" +:+ suffix.
End naming.

(** ** Decisions over one row *)
Definition effective_result_state (entry : JobEntry) : option result_state_t :=
  match entry.(result_state) with
  | Some r => Some r
  | None =>
      match entry.(status) with
      | Finished =>
          match entry.(exit_code) with
          | Some 0 => Some Success
          | Some _ => Some ExecutionFailure
          | None => Some InfraFailure
          end
      | Killed => Some Cancelled
      | Lost | Failed => Some InfraFailure
      | Skipped => Some DependencySkipped
      | Queued | Running => None
      end
  end.

Definition is_uncertain_launch (entry : JobEntry) : bool :=
  bool_decide (entry.(status) = Failed)
  && starts_with UNCERTAIN_LAUNCH_PREFIX (default "" entry.(reason)).

Definition dependency_settled (entry : JobEntry) : bool :=
  if negb (is_terminal entry.(status)) then false
  else if is_uncertain_launch entry then false
  else if negb (bool_decide (entry.(status) = Lost)) then true
  else bool_decide (is_Some entry.(terminal_finalized_at)).

(** [a or b] on numbers: a missing or zero [a] gives [b]. *)
Definition or_number (a : option Q) (b : Q) : Q :=
  match a with Some q => if Qeq_bool q 0 then b else q | None => b end.

(** [entry.finished_at or entry.updated_at or entry.created_at]. *)
Definition observed_at (entry : JobEntry) : Q :=
  or_number entry.(finished_at) (or_number entry.(updated_at) entry.(created_at)).

(** The decision of [_finalize_dependency_terminal_entry]: [None] when the row
    is returned as it is, [Some row] when [row] is saved. *)
Definition finalize_row (now : Q) (entry : JobEntry) : result (option JobEntry) :=
  raise_if (q_ltb now 0)
    (ValueError "dependency finalization time must be finite and non-negative") ;;
  Ok (if negb (bool_decide (entry.(status) = Lost)) then None
      else if bool_decide (is_Some entry.(terminal_finalized_at)) then None
      else if Qle_bool (now - observed_at entry) LOST_RECHECK_S then None
      else Some (entry <| terminal_finalized_at := Some now |>)).

(** [finished_at] is the argument, [now] the clock read when it is [None]. *)
Definition transition_terminal (entry : JobEntry) (status_ result_state_ : string)
    (reason_ : option string) (finished_at_ : option Q) (now : Q) : result JobEntry :=
  match status_of_name status_ with
  | Some st =>
      raise_if (negb (is_terminal st)) (ValueError "status is not a terminal job status") ;;
      match result_of_name result_state_ with
      | Some rs =>
          Ok (entry <| status := st |> <| result_state := Some rs |> <| reason := reason_ |>
                    <| finished_at := Some (default now finished_at_) |>
                    <| terminal_finalized_at := None |>)
      | None => Err (ValueError "result is not a typed result state")
      end
  | None => Err (ValueError "status is not a terminal job status")
  end.

Definition lost_reconciling (entry : JobEntry) (now : Q) : bool :=
  if negb (bool_decide (entry.(status) = Lost))
     || bool_decide (is_Some entry.(terminal_finalized_at)) then false
  else Qle_bool (now - observed_at entry) LOST_RECHECK_S.

Definition occupies_quota (entry : JobEntry) (now : Q) : bool :=
  if bool_decide (entry.(status) = Running) || is_uncertain_launch entry then true
  else if bool_decide (entry.(status) = Queued)
          && (bool_decide (is_Some entry.(dispatch_node))
              || bool_decide (is_Some entry.(dispatch_token))) then true
  else lost_reconciling entry now.

Definition retry_blocked_reason (entry : JobEntry) : option string :=
  if entry.(retry_limit) <=? 0 then Some "no retry budget"
  else match entry.(retried_by) with
  | Some by_ => Some ("already retried by " +:+ by_)
  | None =>
  if entry.(retry_limit) <=? entry.(retry_count) then
    Some ("retry budget exhausted (" +:+ pretty entry.(retry_count) +:+ "/"
          +:+ pretty entry.(retry_limit) +:+ ")")
  else if negb (bool_decide (entry.(status) ∈ [Failed; Lost; Finished])) then
    Some "not a retryable terminal state"
  else if is_uncertain_launch entry then
    Some "launch outcome is uncertain; a retry could double-run"
  else if bool_decide (entry.(status) = Lost)
          && bool_decide (entry.(terminal_finalized_at) = None) then
    Some "lost verdict is not yet fenced for irreversible consumers"
  else match effective_result_state entry with
  | Some InfraFailure => None
  | Some ExecutionFailure =>
      (* [entry.retry_on or "infra"] *)
      if bool_decide (entry.(retry_on) = Some "always") then None
      else Some "application exit is excluded by retry_on=infra"
  | _ => Some "result is not retryable"
  end
  end.

Definition retry_pending_fence (entry : JobEntry) : bool :=
  bool_decide (entry.(status) = Lost) && bool_decide (entry.(terminal_finalized_at) = None)
  && (0 <? entry.(retry_limit)) && bool_decide (entry.(retried_by) = None)
  && (entry.(retry_count) <? entry.(retry_limit)).

(** ** Safe names *)
Definition name_chars_ok (s : string) : Prop := Forall (fun c => is_name_char c = true) (chars s).

Lemma sub_runs_ok b l : Forall (fun c => is_name_char c = true) (sub_runs b l).
Proof.
  revert b. induction l as [|c l IH]; intros b; simpl; [constructor|].
  destruct (is_name_char c) eqn:E; [by constructor|]. destruct b; [apply IH|by constructor].
Qed.

Lemma sub_runs_id b l : Forall (fun c => is_name_char c = true) l -> sub_runs b l = l.
Proof.
  intros H. revert b. induction H as [|c l Hc _ IH]; intros b; simpl; [done|]. by rewrite Hc, IH.
Qed.

Lemma drop_while_suffix {A} (p : A -> bool) l : exists pre, l = pre ++ drop_while p l.
Proof.
  induction l as [|x l [pre IH]]; [by exists []|]. simpl. destruct (p x); [|by exists []].
  exists (x :: pre). simpl. by f_equal.
Qed.

Lemma Forall_drop_while {A} (P : A -> Prop) p l : Forall P l -> Forall P (drop_while p l).
Proof.
  destruct (drop_while_suffix p l) as [pre Hp]. intros H. rewrite Hp in H.
  by apply Forall_app in H as [_ ?].
Qed.

Lemma drop_while_length {A} (p : A -> bool) l : (length (drop_while p l) <= length l)%nat.
Proof.
  destruct (drop_while_suffix p l) as [pre Hp].
  apply (f_equal length) in Hp. rewrite length_app in Hp. lia.
Qed.

Lemma rstrip_ok p s : name_chars_ok s -> name_chars_ok (rstrip_by p s).
Proof.
  unfold name_chars_ok, rstrip_by. rewrite chars_unchars. intros H.
  apply Forall_rev, Forall_drop_while. by apply Forall_rev.
Qed.
Lemma lstrip_ok p s : name_chars_ok s -> name_chars_ok (lstrip_by p s).
Proof. unfold name_chars_ok, lstrip_by. rewrite chars_unchars. apply Forall_drop_while. Qed.
Lemma take_ok n s : name_chars_ok s -> name_chars_ok (str_take n s).
Proof. unfold name_chars_ok, str_take. rewrite chars_unchars. apply Forall_take. Qed.
Lemma app_ok s t : name_chars_ok s -> name_chars_ok t -> name_chars_ok (s +:+ t).
Proof. unfold name_chars_ok. rewrite chars_app. intros. by apply Forall_app. Qed.
Lemma rstrip_length p s : (str_len (rstrip_by p s) <= str_len s)%nat.
Proof.
  unfold rstrip_by. rewrite str_len_unchars, length_rev, drop_while_length, length_rev.
  by rewrite chars_length.
Qed.
Lemma take_length_le n s : (str_len (str_take n s) <= n)%nat.
Proof. unfold str_take. rewrite str_len_unchars. apply firstn_le_length. Qed.
Lemma str_len_app s t : str_len (s +:+ t) = (str_len s + str_len t)%nat.
Proof. by rewrite <- !chars_length, chars_app, length_app. Qed.
Lemma str_nonempty s : s <> "" -> (1 <= str_len s)%nat.
Proof. destruct s; [done|]. simpl. lia. Qed.

(** A name the rest of the system may embed in paths, sessions and file names. *)
Definition safe_name (s : string) : Prop :=
  name_chars_ok s /\ (1 <= str_len s <= MAX_SAFE_NAME_LENGTH)%nat.

Lemma name_literal_ok s : forallb is_name_char (chars s) = true -> name_chars_ok s.
Proof. intros H. by apply forallb_True_spec. Qed.

Lemma hex_name_char c : is_hex c = true -> is_name_char c = true.
Proof.
  apply (ascii_forall is_hex is_name_char). reflexivity.
Qed.

Section naming_facts.
Context (sha256_hexdigest : list Ascii.ascii -> string).
(** A SHA-256 hexdigest is 64 lower-case hexadecimal digits. *)
Context (sha256_hex : forall data, fullmatch SHA256_RE (sha256_hexdigest data) = true).

Lemma digest_ok name :
  let digest := str_take SAFE_NAME_DIGEST_LENGTH (sha256_hexdigest (utf8_encode name)) in
  name_chars_ok digest /\ str_len digest = SAFE_NAME_DIGEST_LENGTH.
Proof using sha256_hex.
  pose proof (sha256_hex (utf8_encode name)) as H. unfold SHA256_RE in H.
  apply fullmatch_single in H as [Hlen Hall]. split.
  - apply take_ok. eapply Forall_impl; [exact Hall|]. intros c. apply hex_name_char.
  - unfold str_take. rewrite str_len_unchars, length_take, chars_length.
    unfold SAFE_NAME_DIGEST_LENGTH. lia.
Qed.

Lemma sanitize_name_safe name : safe_name (sanitize_name sha256_hexdigest name).
Proof using sha256_hex.
  unfold sanitize_name.
  assert (name_chars_ok (strip_by is_edge (unchars (sub_runs false (chars name))))) as Hclean.
  { apply rstrip_ok, lstrip_ok. unfold name_chars_ok. rewrite chars_unchars. apply sub_runs_ok. }
  set (clean := strip_by _ _) in *. clearbody clean.
  case_bool_decide as Hne; [split; [by apply name_literal_ok | vm_compute; lia]|].
  destruct (Nat.leb_spec (str_len clean) MAX_SAFE_NAME_LENGTH) as [Hlen|Hlen].
  { split; [done|]. split; [by apply str_nonempty | done]. }
  destruct (digest_ok name) as [Hd Hdl].
  set (digest := str_take _ (sha256_hexdigest _)) in *. clearbody digest.
  set (prefix := rstrip_by _ _). assert (name_chars_ok prefix) as Hp by (by apply rstrip_ok, take_ok).
  assert (str_len prefix <= 51)%nat as Hpl.
  { etransitivity; [apply rstrip_length | apply take_length_le]. }
  clearbody prefix. split.
  - apply app_ok; [case_bool_decide; [by apply name_literal_ok|done]|].
    apply app_ok; [by apply name_literal_ok | done].
  - rewrite !str_len_app, Hdl. unfold SAFE_NAME_DIGEST_LENGTH, MAX_SAFE_NAME_LENGTH in *.
    case_bool_decide; simpl; lia.
Qed.
End naming_facts.

(** ** Sanitizing is idempotent *)
Definition head_ok (l : list Ascii.ascii) : Prop := forall c k, l = c :: k -> is_edge c = false.

Lemma drop_while_head l : head_ok (drop_while is_edge l).
Proof.
  induction l as [|x l IH]; [by intros c k|]. simpl.
  destruct (is_edge x) eqn:E; [done|]. by intros c k [= <- _].
Qed.
Lemma drop_while_id l : head_ok l -> drop_while is_edge l = l.
Proof. destruct l as [|c l]; [done|]. intros H. simpl. by rewrite (H c l eq_refl). Qed.

(** Neither end is a dash or an underscore. *)
Definition trimmed (s : string) : Prop := head_ok (chars s) /\ head_ok (rev (chars s)).

Lemma trimmed_strip s : trimmed s -> strip_by is_edge s = s.
Proof.
  intros [Hh Hr]. unfold strip_by, rstrip_by, lstrip_by.
  by rewrite chars_unchars, (drop_while_id _ Hh), (drop_while_id _ Hr), rev_involutive, unchars_chars.
Qed.

Lemma head_ok_app l k : l <> [] -> head_ok l -> head_ok (l ++ k).
Proof. destruct l as [|c l]; [done|]. intros _ H x y [= <- _]. by apply (H c l). Qed.
Lemma head_ok_prefix l k : head_ok (l ++ k) -> head_ok l.
Proof. destruct l as [|c l]; [by intros _ ? ?|]. intros H x y [= <- _]. by apply (H c (l ++ k)). Qed.

Lemma trimmed_strip_by s : trimmed (strip_by is_edge s).
Proof.
  unfold strip_by, rstrip_by, lstrip_by, trimmed. rewrite !chars_unchars, rev_involutive. split.
  - set (l := drop_while is_edge (chars s)). assert (head_ok l) as Hl by apply drop_while_head.
    destruct (drop_while_suffix is_edge (rev l)) as [pre Hpre].
    apply (f_equal (@rev _)) in Hpre. rewrite rev_involutive, rev_app_distr in Hpre.
    rewrite Hpre in Hl. by apply head_ok_prefix in Hl.
  - apply drop_while_head.
Qed.

Lemma rstrip_prefix s : exists t, chars s = chars (rstrip_by is_edge s) ++ t.
Proof.
  unfold rstrip_by. rewrite chars_unchars.
  destruct (drop_while_suffix is_edge (rev (chars s))) as [pre Hpre].
  exists (rev pre). rewrite <- rev_app_distr, <- Hpre. by rewrite rev_involutive.
Qed.

Lemma hex_not_edge c : is_hex c = true -> is_edge c = false.
Proof.
  intros H. apply negb_true_iff. revert H. apply (ascii_forall is_hex (fun c => negb (is_edge c))).
  reflexivity.
Qed.

Section sanitize_idempotent.
Context (sha256_hexdigest : list Ascii.ascii -> string).
Context (sha256_hex : forall data, fullmatch SHA256_RE (sha256_hexdigest data) = true).

Lemma digest_trimmed data :
  head_ok (rev (chars (str_take SAFE_NAME_DIGEST_LENGTH (sha256_hexdigest data)))).
Proof using sha256_hex.
  pose proof (sha256_hex data) as H. apply fullmatch_single in H as [_ Hall].
  unfold str_take. rewrite chars_unchars. intros c k Hc. apply hex_not_edge.
  assert (Forall (fun c => is_hex c = true) (rev (take SAFE_NAME_DIGEST_LENGTH
    (chars (sha256_hexdigest data))))) as Hr by (by apply Forall_rev, Forall_take).
  rewrite Hc in Hr. by apply Forall_cons_iff in Hr as [? _].
Qed.

Lemma sanitize_name_trimmed name : trimmed (sanitize_name sha256_hexdigest name).
Proof using sha256_hex.
  unfold sanitize_name.
  pose proof (trimmed_strip_by (unchars (sub_runs false (chars name)))) as Hclean.
  set (clean := strip_by _ _) in *. clearbody clean.
  case_bool_decide; [split; intros c k [= <- _]; reflexivity|].
  destruct (_ <=? _)%nat; [done|].
  destruct (digest_ok sha256_hexdigest sha256_hex name) as [_ Hdl].
  pose proof (digest_trimmed (utf8_encode name)) as Hd.
  set (digest := str_take _ (sha256_hexdigest _)) in *. clearbody digest.
  set (prefix := rstrip_by _ _).
  assert (head_ok (chars prefix)) as Hp.
  { destruct (rstrip_prefix (str_take (MAX_SAFE_NAME_LENGTH - SAFE_NAME_DIGEST_LENGTH - 1) clean))
      as [t Ht]. fold prefix in Ht. destruct Hclean as [Hh _].
    rewrite <- (take_drop (MAX_SAFE_NAME_LENGTH - SAFE_NAME_DIGEST_LENGTH - 1) (chars clean)) in Hh.
    apply head_ok_prefix in Hh. unfold str_take in Ht. rewrite chars_unchars in Ht.
    rewrite Ht in Hh. by apply head_ok_prefix in Hh. }
  clearbody prefix. split.
  - rewrite chars_app. apply head_ok_app.
    + case_bool_decide as Hpe; [done|]. intros E. apply Hpe. by apply chars_inj.
    + case_bool_decide; [intros c k [= <- _]; reflexivity | done].
  - rewrite !chars_app, !rev_app_distr. rewrite <- app_assoc. apply head_ok_app; [|done].
    intros E. apply (f_equal length) in E. rewrite length_rev, chars_length, Hdl in E. done.
Qed.

(** Sanitizing a sanitized name changes nothing. *)
Lemma sanitize_name_idempotent name :
  sanitize_name sha256_hexdigest (sanitize_name sha256_hexdigest name)
  = sanitize_name sha256_hexdigest name.
Proof using sha256_hex.
  destruct (sanitize_name_safe sha256_hexdigest sha256_hex name) as [Hok [Hpos Hlen]].
  pose proof (sanitize_name_trimmed name) as Htrim.
  set (s := sanitize_name _ name) in *. clearbody s. unfold sanitize_name at 1.
  rewrite sub_runs_id, unchars_chars, trimmed_strip by done.
  rewrite bool_decide_false by (intros ->; simpl in Hpos; lia).
  apply Nat.leb_le in Hlen. by rewrite Hlen.
Qed.

(** Every generated identity is a valid, filename-safe registry identity. *)
Lemma new_job_id_valid stamp suffix name :
  fullmatch [Rep is_digit 8 8; one "-"; Rep is_digit 4 4] stamp = true ->
  fullmatch [Rep is_hex 16 16] suffix = true ->
  valid_job_id (new_job_id sha256_hexdigest stamp suffix name) = true.
Proof using sha256_hex.
  intros Hstamp Hsuffix%fullmatch_single.
  destruct (sanitize_name_safe sha256_hexdigest sha256_hex name) as [Hok [Hpos Hlen]].
  assert (name_chars_ok stamp /\ str_len stamp = 13%nat) as [Hs Hsl].
  { split.
    - eapply (re_match_class (fun c => is_name_char c = true)); [|exact Hstamp].
      repeat apply Forall_cons_2; [| | |constructor]; simpl; intros c;
        apply (ascii_forall _ is_name_char); reflexivity.
    - apply re_match_length in Hstamp. rewrite chars_length in Hstamp. simpl in Hstamp. lia. }
  apply fullmatch_single. unfold new_job_id.
  unfold MAX_SAFE_NAME_LENGTH, MAX_JOB_ID_LENGTH in *. rewrite !str_len_app. split.
  - simpl. rewrite Hsl. destruct Hsuffix. lia.
  - apply app_ok; [done|]. apply app_ok; [by apply name_literal_ok|]. apply app_ok; [done|].
    apply app_ok; [by apply name_literal_ok|].
    eapply Forall_impl; [apply Hsuffix|]. intros c. apply hex_name_char.
Qed.
End sanitize_idempotent.

(** ** Settled verdicts *)
Lemma settled_inv e :
  dependency_settled e = true <->
  is_terminal e.(status) = true /\ is_uncertain_launch e = false /\
  (e.(status) = Lost -> is_Some e.(terminal_finalized_at)).
Proof.
  unfold dependency_settled.
  destruct (is_terminal e.(status)) eqn:Ht; simpl; [|naive_solver].
  destruct (is_uncertain_launch e) eqn:Hu; [naive_solver|].
  destruct (bool_decide (e.(status) = Lost)) eqn:Hl; simpl.
  - apply bool_decide_eq_true in Hl. rewrite bool_decide_eq_true. naive_solver.
  - apply bool_decide_eq_false in Hl. naive_solver.
Qed.

Lemma terminal_result e : is_terminal e.(status) = true -> is_Some (effective_result_state e).
Proof.
  unfold effective_result_state. destruct (e.(result_state)); [done|].
  destruct (e.(status)); try done. intros _. by destruct (e.(exit_code)) as [[]|].
Qed.

(** The claim of a well-formed row implies it is queued. *)
Lemma wf_claim e : wf_entry e -> e.(dispatch_node) <> None -> e.(status) = Queued.
Proof.
  intros W Hn. pose proof (wf_provenance e W) as H. unfold valid_provenance in H. cbv zeta in H.
  destruct_andb. destruct (e.(dispatch_node)); [|done].
  repeat match goal with H : implb (bool_decide (is_Some (Some _))) _ = true |- _ =>
    apply bool_decide_eq_true in H end. done.
Qed.

(** A settled verdict is the end of the job's life: it has a typed result,
    owns no execution slot at any later time, and finalizing it changes
    nothing. *)
Lemma settled_is_final e now :
  dependency_settled e = true -> (0 <= now)%Q ->
  is_Some (effective_result_state e) /\ occupies_quota e now = false /\
  retry_pending_fence e = false /\ finalize_row now e = Ok None.
Proof.
  intros (Ht & Hu & Hl)%settled_inv Hnow. split; [by apply terminal_result|].
  unfold occupies_quota, retry_pending_fence, finalize_row, lost_reconciling.
  apply q_ltb_ge in Hnow. rewrite Hnow, Hu. simpl.
  destruct (e.(status)); try done.
  destruct (Hl eq_refl) as [t ->]. done.
Qed.

(** ** The lost fence *)
Lemma wf_finalized e t :
  wf_entry e -> e.(status) = Lost -> q_nonneg t = true ->
  wf_entry (e <| terminal_finalized_at := Some t |>).
Proof.
  intros [Hl Hc Hp Hm Hk Hd He Hkeys] Hst Ht. split; try done.
  - revert Hl. unfold valid_lifecycle. simpl. rewrite Ht, !andb_true_iff. tauto.
  - revert Hp. unfold valid_provenance. simpl. rewrite Hst, !andb_true_iff. simpl. tauto.
Qed.

(** A lost row is in exactly one of three phases: still inside its recovery
    window (owns a slot, nothing may act on it), already fenced, or fenced by
    this call. *)
Lemma lost_fence e now :
  wf_entry e -> e.(status) = Lost -> (0 <= now)%Q ->
  (lost_reconciling e now = true /\ finalize_row now e = Ok None /\
   dependency_settled e = false /\ occupies_quota e now = true) \/
  (is_Some e.(terminal_finalized_at) /\ finalize_row now e = Ok None /\
   dependency_settled e = true) \/
  (exists e', finalize_row now e = Ok (Some e') /\ e' = e <| terminal_finalized_at := Some now |> /\
   e.(terminal_finalized_at) = None /\ (LOST_RECHECK_S < now - observed_at e)%Q /\
   wf_entry e' /\ dependency_settled e' = true /\ lost_reconciling e now = false).
Proof.
  intros W Hst Hnow. pose proof Hnow as Hn%q_ltb_ge.
  assert (is_uncertain_launch e = false) as Hu by (unfold is_uncertain_launch; by rewrite Hst).
  unfold lost_reconciling, finalize_row, occupies_quota, dependency_settled, lost_reconciling.
  rewrite Hn, Hu, Hst. simpl.
  destruct (e.(terminal_finalized_at)) as [t|] eqn:Hf; [right; left; done|]. simpl.
  destruct (Qle_bool (now - observed_at e) LOST_RECHECK_S) eqn:Hw; [left; done|].
  right; right. eexists. split; [done|]. split; [done|]. split; [done|].
  split; [by apply q_leb_gt|]. split; [apply wf_finalized; [done..|]; unfold q_nonneg; by rewrite Hn|].
  split; [|done]. simpl. unfold is_uncertain_launch. simpl. by rewrite Hst.
Qed.

(** ** The retry gate *)
Lemma retry_allowed_iff e :
  retry_blocked_reason e = None <->
  e.(retry_count) < e.(retry_limit) /\ 0 < e.(retry_limit) /\ e.(retried_by) = None /\
  e.(status) ∈ [Failed; Lost; Finished] /\ dependency_settled e = true /\
  (effective_result_state e = Some InfraFailure \/
   effective_result_state e = Some ExecutionFailure /\ e.(retry_on) = Some "always").
Proof.
  unfold retry_blocked_reason. rewrite settled_inv.
  destruct (Z.leb_spec e.(retry_limit) 0); [naive_solver lia|].
  destruct (e.(retried_by)); [naive_solver|].
  destruct (Z.leb_spec e.(retry_limit) e.(retry_count)); [naive_solver lia|].
  destruct (bool_decide (e.(status) ∈ _)) eqn:Hs; simpl;
    [|apply bool_decide_eq_false in Hs; naive_solver].
  destruct (is_uncertain_launch e); [naive_solver|].
  assert (is_terminal e.(status) = true) as Ht by (by destruct (e.(status))).
  apply bool_decide_eq_true in Hs.
  destruct (bool_decide (e.(status) = Lost) && bool_decide (e.(terminal_finalized_at) = None)) eqn:Hl.
  - apply andb_true_iff in Hl as [Hl%bool_decide_eq_true Hf%bool_decide_eq_true].
    rewrite Hf. split; [done|]. intros (_ & _ & _ & _ & (_ & _ & Hx) & _). by destruct (Hx Hl).
  - assert (e.(status) = Lost -> is_Some e.(terminal_finalized_at)) as Hx.
    { intros Hst. rewrite bool_decide_true in Hl by done. simpl in Hl.
      apply bool_decide_eq_false in Hl. by apply not_eq_None_Some. }
    destruct (effective_result_state e) as [[]|];
      try (split; [done | by intros (_ & _ & _ & _ & _ & [[=] | [[=] _]])]).
    + destruct (bool_decide (e.(retry_on) = Some "always")) eqn:Hmode;
        [apply bool_decide_eq_true in Hmode | apply bool_decide_eq_false in Hmode].
      * split; [intros _ | done]. repeat split; try done. by right.
      * split; [done|]. by intros (_ & _ & _ & _ & _ & [[=] | [_ Hm]]).
    + split; [intros _ | done]. repeat split; try done. by left.
Qed.

(** ** Terminal transitions *)
Lemma transition_inv e st rs why fin now e' :
  transition_terminal e st rs why fin now = Ok e' <->
  exists s r, st = status_name s /\ rs = result_name r /\ is_terminal s = true /\
    e' = (e <| status := s |> <| result_state := Some r |> <| reason := why |>
           <| finished_at := Some (default now fin) |> <| terminal_finalized_at := None |>).
Proof.
  unfold transition_terminal. split.
  - destruct (status_of_name st) as [s|] eqn:Hs; [|done]. apply status_of_name_spec in Hs.
    rewrite bind_raise_ok. intros [Ht%negb_false_iff H].
    destruct (result_of_name rs) as [r|] eqn:Hr; [|done]. apply result_of_name_spec in Hr.
    injection H as <-. by exists s, r.
  - intros (s & r & -> & -> & Ht & ->).
    rewrite (proj2 (status_of_name_spec _ s) eq_refl), (proj2 (result_of_name_spec _ r) eq_refl).
    by rewrite Ht.
Qed.

(** A terminal transition of a row that holds no dispatch claim and owes no
    legacy cleanup keeps the row well formed, makes its typed result the one
    requested and withdraws any previous finality. *)
Lemma transition_terminal_wf e st rs why fin now e' :
  wf_entry e -> e.(dispatch_node) = None -> e.(legacy_cleanup_pending) = false ->
  q_nonneg (default now fin) = true ->
  transition_terminal e st rs why fin now = Ok e' ->
  wf_entry (bound_entry e') /\ is_terminal e'.(status) = true /\ status_name e'.(status) = st /\
  result_name <$> effective_result_state e' = Some rs /\ e'.(terminal_finalized_at) = None.
Proof.
  intros [Hl Hc Hp Hm Hk Hd He Hkeys] Hnode Hpend Hfin (s & r & -> & -> & Ht & ->)%transition_inv.
  split; [|done]. split; try done.
  - revert Hl. unfold valid_lifecycle. simpl. rewrite Hfin, !andb_true_iff. tauto.
  - revert Hc. unfold valid_collections. simpl. by rewrite length_fmap.
  - revert Hp. unfold valid_provenance. simpl. rewrite Hnode, Hpend, !andb_true_iff. simpl. tauto.
  - apply bound_entry_diagnostics.
Qed.

(** ** Concrete instances *)

(** A digest function of the documented shape: 64 hexadecimal digits. *)
Definition sample_digest (_ : list Ascii.ascii) : string := unchars (replicate 64 (Ascii.ascii_of_N 97)).

Lemma sample_digest_hex data : fullmatch SHA256_RE (sample_digest data) = true.
Proof. reflexivity. Qed.

Definition long_name : string := unchars (replicate 80 (Ascii.ascii_of_N 120)).

Lemma sanitize_name_safe_witness : safe_name (sanitize_name sample_digest long_name).
Proof. apply (sanitize_name_safe sample_digest sample_digest_hex long_name). Defined.

Lemma sanitize_name_idempotent_witness :
  sanitize_name sample_digest (sanitize_name sample_digest long_name)
  = sanitize_name sample_digest long_name.
Proof. apply (sanitize_name_idempotent sample_digest sample_digest_hex long_name). Defined.

Lemma new_job_id_valid_witness :
  valid_job_id (new_job_id sample_digest "20260101-0000" "0123456789abcdef" "my run!") = true.
Proof.
  apply (new_job_id_valid sample_digest sample_digest_hex); vm_compute; reflexivity.
Defined.

Definition failed_entry : JobEntry :=
  test_entry <| status := Failed |> <| exit_code := Some 1 |> <| finished_at := Some 150%Q |>.

Lemma settled_is_final_witness : finalize_row 200%Q failed_entry = Ok None.
Proof.
  apply (settled_is_final failed_entry 200%Q); [reflexivity|]. by apply Qle_bool_iff.
Defined.

Definition lost_sample : JobEntry := test_entry <| status := Lost |> <| updated_at := Some 100%Q |>.
Lemma lost_sample_wf : wf_entry lost_sample.
Proof. by split; [vm_compute; reflexivity..| exact env_ok_nil | intros _; reflexivity]. Qed.

Lemma lost_fence_witness :
  exists e', finalize_row 1000%Q lost_sample = Ok (Some e') /\ dependency_settled e' = true.
Proof.
  destruct (lost_fence lost_sample 1000%Q lost_sample_wf eq_refl) as [H | [H | H]].
  - by apply Qle_bool_iff.
  - destruct H as [H _]. vm_compute in H. discriminate.
  - destruct H as [[t H] _]. vm_compute in H. discriminate.
  - destruct H as (e' & H & _ & _ & _ & _ & Hs & _). exact (ex_intro _ e' (conj H Hs)).
Defined.

Lemma transition_terminal_wf_witness :
  exists e', transition_terminal test_entry "failed" "infra_failure" (Some "node lost") None 150%Q
             = Ok e' /\ wf_entry (bound_entry e').
Proof.
  destruct (transition_terminal test_entry "failed" "infra_failure" (Some "node lost") None 150%Q)
    as [e'|x] eqn:E; [|vm_compute in E; discriminate].
  exists e'. split; [reflexivity|].
  exact (proj1 (transition_terminal_wf test_entry "failed" "infra_failure" (Some "node lost") None
    150%Q e' test_entry_wf eq_refl eq_refl eq_refl E)).
Defined.
