(* ===== verification/Registry.v ===== *)
(** * The registry store ([jobs/__init__.py])

    Two compatible registry directories hold one document per job.  The store
    is explicit state; an operation returns its result and the store it leaves,
    so the effect of a failing call is visible too. *)

From S2P Require Import Prelude Text PyValue Diagnostics Layout CustomEnv JobEntry RegistryCodec Lifecycle.

(** ** The store *)

(** What one directory entry [<job id>.json] is: a symlink or special file; a
    regular file [read_bounded] refuses (oversized, unstable); a regular file
    whose bytes lex as JSON, or do not ([None]). *)
Inductive file :=
  | SpecialFile
  | UnreadableFile
  | StoredFile (text : option json) (mtime : Q).

Inductive dir_kind := Absent | PrivateDir | UnsafeDir.

(** [revision] stands for the directory's [mtime_ns]/[ctime_ns], which every
    creation, rename and unlink inside it advances.  The keys of [files] are
    the stems of the visible [*.json] names. *)
Record directory := mkDirectory {
  kind : dir_kind;
  device : Z;
  inode : Z;
  revision : Z;
  files : gmap string file;
}.
#[export] Instance eta_directory : Eta directory := fun d =>
  mkDirectory d.(kind) d.(device) d.(inode) d.(revision) d.(files).

(** [head_role] is [cfg.layout == ROLE_LAYOUT]; [legacy_path] and [role_path]
    are [cfg.legacy_registry_dir()] and the role layout's [registry_path()].
    [index_file] is the active index: absent, not JSON, or a JSON value. *)
Record registry := mkRegistry {
  head_role : bool;
  legacy_path : string;
  role_path : string;
  legacy_dir : directory;
  role_dir : directory;
  index_file : option (option json);
}.
#[export] Instance eta_registry : Eta registry := fun r =>
  mkRegistry r.(head_role) r.(legacy_path) r.(role_path) r.(legacy_dir) r.(role_dir) r.(index_file).

Inductive slot := LegacySlot | RoleSlot.
#[export] Instance slot_eq_dec : EqDecision slot.
Proof. solve_decision. Defined.

Definition slot_layout (s : slot) : string :=
  match s with LegacySlot => LEGACY_LAYOUT | RoleSlot => ROLE_LAYOUT end.
Definition slot_dir (r : registry) (s : slot) : directory :=
  match s with LegacySlot => r.(legacy_dir) | RoleSlot => r.(role_dir) end.
Definition slot_path (r : registry) (s : slot) : string :=
  match s with LegacySlot => r.(legacy_path) | RoleSlot => r.(role_path) end.
Definition set_dir (s : slot) (d : directory) (r : registry) : registry :=
  match s with LegacySlot => r <| legacy_dir := d |> | RoleSlot => r <| role_dir := d |> end.

(** The slot of [cfg.registry_path()], and the two directories in the order
    each reader visits them, a directory both names share visited once. *)
Definition current_slot (r : registry) : slot := if r.(head_role) then RoleSlot else LegacySlot.
Definition resolve_order (r : registry) : list slot :=
  if r.(head_role) then [RoleSlot; LegacySlot] else [LegacySlot].
Definition scan_order (r : registry) : list slot :=
  if r.(head_role) then [LegacySlot; RoleSlot] else [LegacySlot].

(** ** State and errors *)
Definition M (A : Type) : Type := registry -> result A * registry.
#[export] Instance M_ret : MRet M := fun A a r => (Ok a, r).
#[export] Instance M_bind : MBind M := fun A B f m r =>
  match m r with
  | (Ok a, r') => f a r'
  | (Err e, r') => (Err e, r')
  end.
#[export] Instance M_fmap : FMap M := fun A B f m r =>
  match m r with
  | (Ok a, r') => (Ok (f a), r')
  | (Err e, r') => (Err e, r')
  end.
Definition lift {A} (x : result A) : M A := fun r => (x, r).
Definition get : M registry := fun r => (Ok r, r).
Definition modify (f : registry -> registry) : M unit := fun r => (Ok tt, f r).

(** ** Resolution *)
Record location := mkLocation { l_slot : slot; l_exists : bool }.

(** [_require_private_directory(directory, create=False)]. *)
Definition _require_private_directory (d : directory) : result bool :=
  match d.(kind) with
  | UnsafeDir => Err (RegistryError "registry directory is unsafe")
  | Absent => Ok false
  | PrivateDir => Ok true
  end.

Fixpoint registry_locations_in (r : registry) (job_id : string) (slots : list slot)
  : result (list location) :=
  match slots with
  | [] => Ok []
  | s :: rest =>
      exists_ ← _require_private_directory (slot_dir r s);
      if exists_ : bool then
        match (slot_dir r s).(files) !! job_id with
        | None => registry_locations_in r job_id rest
        | Some SpecialFile => Err (RegistryError "cannot safely open registry record")
        | Some _ => locations ← registry_locations_in r job_id rest; Ok (mkLocation s true :: locations)
        end
      else registry_locations_in r job_id rest
  end.
Definition _registry_locations (r : registry) (job_id : string) : result (list location) :=
  registry_locations_in r job_id (resolve_order r).

(** [directory.mkdir(parents=True, exist_ok=True)] on an absent directory. *)
Definition make_dir (d : directory) : directory :=
  match d.(kind) with
  | Absent => d <| kind := PrivateDir |> <| revision := d.(revision) + 1 |> <| files := ∅ |>
  | _ => d
  end.

Definition resolve_registry_record (job_id : string) (create : bool) : M (option location) :=
  job_id ← lift (_require_job_id job_id);
  r ← get;
  locations ← lift (_registry_locations r job_id);
  match locations with
  | _ :: _ :: _ => lift (Err (RegistryError "split-brain registry row"))
  | [found] => mret (Some found)
  | [] =>
      if create then
        let s := current_slot r in
        modify (fun r => set_dir s (make_dir (slot_dir r s)) r) ;;
        r ← get;
        _ ← lift (_require_private_directory (slot_dir r s));
        mret (Some (mkLocation s false))
      else mret None
  end.

(** ** Reading one row *)

(** [_decode_entry_result]; [found] is what [read_bounded] returned. *)
Definition _decode_entry_result (now : Q) (found : option (option json * Q))
    (expected_job_id : string) (include_private : bool) : result JobEntry :=
  match found with
  | None => Err (RegistryError "registry record disappeared")
  | Some (text, mtime) =>
      raw ← match text with
            | None => Err (RegistryError "registry record is malformed")
            | Some lexed =>
                match decode_strict lexed with
                | Ok raw => Ok raw
                | Err _ => Err (RegistryError "registry record is malformed")
                end
            end;
      match decode_registry_document now raw (Some mtime) (Some expected_job_id) include_private with
      | Err (RegistryError d) =>
          Err (RegistryError ("registry record is invalid: "
                 +:+ excerpt MAX_JOB_DIAGNOSTIC_CHARS d))
      | other => other
      end
  end.

(** [read_bounded]: [PrivateStateError] is the [Err]. *)
Definition read_bounded (f : option file) : result (option (option json * Q)) :=
  match f with
  | None => Ok None
  | Some SpecialFile | Some UnreadableFile =>
      Err (RegistryError "cannot safely open registry record")
  | Some (StoredFile text mtime) => Ok (Some (text, mtime))
  end.

Definition _read_entry_path (now : Q) (s : slot) (job_id : string) (include_private : bool)
    (r : registry) : result JobEntry :=
  found ← read_bounded ((slot_dir r s).(files) !! job_id);
  _decode_entry_result now found job_id include_private.

Definition load (now : Q) (job_id : string) : M (option JobEntry) :=
  if negb (valid_job_id job_id) then mret None
  else
    location ← resolve_registry_record job_id false;
    match location with
    | None => mret None
    | Some l =>
        r ← get;
        entry ← lift (_read_entry_path now l.(l_slot) job_id true r);
        mret (Some entry)
    end.
