(* ===== verification/ActiveIndex.v ===== *)
(** * The derived active index ([jobs/active_index.py])

    The index lists the jobs a scheduler may still have to act on.  It is a
    cache of a full scan, fenced by the revisions of the registry directories:
    a reader uses it only while the recorded revisions are the current ones. *)

From S2P Require Import Prelude Text PyValue Diagnostics Layout CustomEnv JobEntry RegistryCodec Lifecycle Registry.

Definition ACTIVE_INDEX_SCHEMA_VERSION : string := "dt_job_active_index_v1".
Definition MAX_ACTIVE_INDEX_BYTES : nat := N.to_nat (8 * 1024 * 1024).
Definition MAX_ACTIVE_INDEX_ITEMS : nat := N.to_nat 200000.
Definition ACTIVE_INDEX_REBUILD_RACE : string := "registry changed during active-index rebuild".

Record RegistryDamage := mkDamage { d_path : string; d_detail : string }.
#[export] Instance damage_eq_dec : EqDecision RegistryDamage.
Proof. solve_decision. Defined.
Definition transient (d : RegistryDamage) : bool :=
  bool_decide (d.(d_path) = "registry") && bool_decide (d.(d_detail) = ACTIVE_INDEX_REBUILD_RACE).

Record _ActiveIndex := mkIndex { job_ids : list string; damage : list RegistryDamage }.

(** ** Python equality of JSON values *)
Definition number_of (v : json) : option pyfloat :=
  match v with
  | JBool b => Some (Fin (if b then 1 else 0)%Q)
  | JInt z => Some (Fin (inject_Z z))
  | JFloat f => Some f
  | _ => None
  end.
Definition float_eqb (a b : pyfloat) : bool :=
  match a, b with
  | Fin p, Fin q => Qeq_bool p q
  | Inf s, Inf t => Bool.eqb s t
  | _, _ => false
  end.

Fixpoint json_eqb (a b : json) : bool :=
  match a, b with
  | JNull, JNull => true
  | JStr s, JStr t => bool_decide (s = t)
  | JList l, JList k =>
      (fix go l k := match l, k with
       | [], [] => true
       | x :: l, y :: k => json_eqb x y && go l k
       | _, _ => false
       end) l k
  | JDict l, JDict k =>
      (length l =? length k)%nat &&
      (fix go l := match l with
       | [] => true
       | (n, x) :: l => match assoc n k with Some y => json_eqb x y | None => false end && go l
       end) l
  | _, _ =>
      match number_of a, number_of b with
      | Some x, Some y => float_eqb x y
      | _, _ => false
      end
  end.

(** ** Directory revisions *)
Definition revision_of (r : registry) (s : slot) : result json :=
  let d := slot_dir r s in
  match d.(kind) with
  | Absent => Ok (JDict [("path", JStr (slot_path r s)); ("exists", JBool false)])
  | UnsafeDir => Err (RegistryError "registry directory is unsafe")
  | PrivateDir =>
      Ok (JDict [("path", JStr (slot_path r s)); ("exists", JBool true);
                 ("device", JInt d.(device)); ("inode", JInt d.(inode));
                 ("mtime_ns", JInt d.(revision)); ("ctime_ns", JInt d.(revision))])
  end.

Fixpoint revisions_in (r : registry) (slots : list slot) : result (list json) :=
  match slots with
  | [] => Ok []
  | s :: rest => v ← revision_of r s; vs ← revisions_in r rest; Ok (v :: vs)
  end.
Definition _registry_directory_revisions (r : registry) : result json :=
  JList <$> revisions_in r (scan_order r).

(** ** Membership *)
Definition _active_index_member (entry : JobEntry) (now : Q) : bool :=
  if bool_decide (entry.(status) = Queued) || occupies_quota entry now then true
  else match retry_blocked_reason entry with
       | None => true
       | Some _ => retry_pending_fence entry
       end.

(** ** Reading and writing the index *)
Definition damage_item (v : json) : option RegistryDamage :=
  match v with
  | JDict kv =>
      match dict_get "path" kv, dict_get "detail" kv with
      | JStr path, JStr detail => Some (mkDamage path (excerpt MAX_JOB_DIAGNOSTIC_CHARS detail))
      | _, _ => None
      end
  | _ => None
  end.

(** [_read_active_index]; every exception it can meet makes the read a miss. *)
Definition _read_active_index (r : registry) : option _ActiveIndex :=
  match r.(index_file) with
  | Some (Some lexed) =>
      match decode_strict lexed, _registry_directory_revisions r with
      | Ok (JDict raw), Ok revisions =>
          if negb (str_in [ACTIVE_INDEX_SCHEMA_VERSION] (dict_get "schema_version" raw))
             || negb (json_eqb (dict_get "registry_revisions" raw) revisions) then None
          else match dict_get "job_ids" raw, dict_get "damage" raw with
          | JList raw_ids, JList raw_damage =>
              if (MAX_ACTIVE_INDEX_ITEMS <? length raw_ids)%nat
                 || negb (forallb _valid_job_id raw_ids)
                 || negb (bool_decide (NoDup (strs_of raw_ids)))
                 || (MAX_ACTIVE_INDEX_ITEMS <? length raw_damage)%nat then None
              else damage ← mapM damage_item raw_damage;
                   Some (mkIndex (sort_strings (strs_of raw_ids)) damage)
          | _, _ => None
          end
      | _, _ => None
      end
  | _ => None
  end.

Definition damage_json (d : RegistryDamage) : json :=
  JDict [("path", JStr d.(d_path));
         ("detail", JStr (excerpt MAX_JOB_DIAGNOSTIC_CHARS d.(d_detail)))].

Definition index_document (revisions : json) (job_ids : list string)
    (damage : list RegistryDamage) : json :=
  JDict [("schema_version", JStr ACTIVE_INDEX_SCHEMA_VERSION);
         ("registry_revisions", revisions);
         ("job_ids", JList (JStr <$> sort_strings job_ids));
         ("damage", JList (damage_json <$> damage))].

Section writing.
(** The size of [json.dumps(document)] in UTF-8, and whether [atomic_write]
    of the index succeeds. *)
Context (encoded_size : json -> nat) (index_writable : bool).

(** [job_ids] is the set, in any order, without repetition. *)
Definition _write_active_index (job_ids : list string) (damage : list RegistryDamage)
    (registry_revisions : option json) : M unit :=
  r ← get;
  lift (raise_if ((MAX_ACTIVE_INDEX_ITEMS <? length job_ids)%nat
                  || (MAX_ACTIVE_INDEX_ITEMS <? length damage)%nat)
    (RegistryError "active registry index exceeds its item limit")) ;;
  revisions ← match registry_revisions with
              | Some given => mret given
              | None => lift (_registry_directory_revisions r)
              end;
  let document := index_document revisions job_ids damage in
  lift (raise_if (MAX_ACTIVE_INDEX_BYTES <? encoded_size document)%nat
    (RegistryError "active registry index exceeds its size limit")) ;;
  lift (raise_if (negb index_writable)
    (RegistryError "cannot publish active registry index")) ;;
  modify (fun r => r <| index_file := Some (Some document) |>).

(** [set.discard] and [set.add] on a list without repetition. *)
Definition discard (x : string) (l : list string) : list string :=
  List.filter (fun y => negb (bool_decide (x = y))) l.
Definition set_add (x : string) (l : list string) : list string :=
  if bool_decide (x ∈ l) then l else l ++ [x].

(** [_refresh_active_index_after_mutation]: one of [entry] and
    [removed_job_id] is given.  A failing write leaves the old index, whose
    revisions no longer match. *)
Definition _refresh_active_index_after_mutation (now : Q) (previous : option _ActiveIndex)
    (entry : option JobEntry) (removed_job_id : option string) : M unit :=
  match previous with
  | None => mret tt
  | Some index =>
      let changed_job_id :=
        match removed_job_id with Some id => Some id | None => (fun e => e.(job_id)) <$> entry end in
      let damage := List.filter (fun d =>
        match changed_job_id with
        | None => true
        | Some id => negb (bool_decide (d.(d_path) = id +:+ ".json"))
        end) index.(damage) in
      let ids := match removed_job_id with
                 | Some id => discard id index.(job_ids)
                 | None => index.(job_ids)
                 end in
      let ids := match entry with
                 | None => ids
                 | Some e => if _active_index_member e now then set_add e.(job_id) ids
                             else discard e.(job_id) ids
                 end in
      fun r => match _write_active_index ids damage None r with
               | (Err (RegistryError _), r') => (Ok tt, r')
               | other => other
               end
  end.
End writing.

(** ** Scanning *)
Definition visible_names (d : directory) : list string := sort_strings (map_to_list d.(files)).*1.

(** The directories a scan reads, and the damage of those it cannot. *)
Definition scan_directories (r : registry) : list slot * list RegistryDamage :=
  foldr (fun s acc =>
    match _require_private_directory (slot_dir r s) with
    | Ok true => (s :: acc.1, acc.2)
    | Ok false => acc
    | Err e => (acc.1, mkDamage (slot_path r s) (exn_message e) :: acc.2)
    end) ([], []) (scan_order r).

Definition occupied (r : registry) (name : string) (s : slot) : bool :=
  bool_decide (is_Some ((slot_dir r s).(files) !! name)).

Definition split_brain_damage (r : registry) (name : string) (sources : list slot) : RegistryDamage :=
  mkDamage (name +:+ ".json")
    (excerpt MAX_JOB_DIAGNOSTIC_CHARS
      ("split-brain registry row: exists in " +:+ join ", " (slot_path r <$> sources)
       +:+ "; run dt migrate to reconcile")).

(** [" ".join(str(exc).split()) or type(exc).__name__]. *)
Definition row_damage (name : string) (e : exn) : RegistryDamage :=
  let text := normalize_ws (exn_message e) in
  mkDamage (name +:+ ".json")
    (excerpt MAX_JOB_DIAGNOSTIC_CHARS (if bool_decide (text = "") then exn_name e else text)).

(** One name of one directory: an entry, a damage report, or nothing (the
    report of a split brain is made at its first source). *)
Definition scan_name (now : Q) (r : registry) (slots : list slot) (s : slot) (name : string)
  : list JobEntry * list RegistryDamage :=
  let sources := List.filter (occupied r name) slots in
  if (1 <? length sources)%nat then
    if bool_decide (head sources = Some s) then ([], [split_brain_damage r name sources])
    else ([], [])
  else
    match _read_entry_path now s name false r with
    | Ok e => ([e], [])
    | Err e => ([], [row_damage name e])
    end.

Definition scan_slot (now : Q) (r : registry) (slots : list slot) (s : slot)
  : list JobEntry * list RegistryDamage :=
  let parts := scan_name now r slots s <$> visible_names (slot_dir r s) in
  (concat parts.*1, concat parts.*2).

(** [iter_all]: the rows and the damage appended to the caller's list.  The
    directory order of [scandir] is unspecified; this is the sorted one. *)
Definition iter_all (now : Q) (r : registry) : list JobEntry * list RegistryDamage :=
  let '(slots, damage) := scan_directories r in
  let parts := scan_slot now r slots <$> slots in
  (concat parts.*1, damage ++ concat parts.*2).

Definition by_job_id : list JobEntry -> list JobEntry :=
  sort_by (fun a b => str_ltb a.(job_id) b.(job_id)).

(** The same scan retaining only the rows a scheduler may act on. *)
Definition _stream_active_registry (now : Q) (r : registry) : list JobEntry * list RegistryDamage :=
  let '(rows, damage) := iter_all now r in
  (by_job_id (List.filter (fun e => _active_index_member e now) rows), damage).
