(* ===== verification/RegistryOps.v ===== *)
(** * Registry operations ([jobs/__init__.py])

    Writing and removing rows, the full scans, the indexed read and the
    queries derived from it. *)

From S2P Require Import Prelude Text PyValue Diagnostics Layout CustomEnv JobEntry RegistryCodec Lifecycle Registry ActiveIndex.

Section operations.
(** [encoded_size] is the UTF-8 size of a dumped document;
    [index_writable] tells whether publishing the derived index succeeds. *)
Context (encoded_size : json -> nat) (index_writable : bool).

(** [atomic_write(path, encoded)] through a rename inside the directory. *)
Definition put_file (s : slot) (job_id : string) (text : json) (mtime : Q) (r : registry)
  : registry :=
  let d := slot_dir r s in
  set_dir s (d <| files := <[job_id := StoredFile (Some text) mtime]> d.(files) |>
               <| revision := d.(revision) + 1 |>) r.
Definition drop_file (s : slot) (job_id : string) (r : registry) : registry :=
  let d := slot_dir r s in
  set_dir s (d <| files := delete job_id d.(files) |> <| revision := d.(revision) + 1 |>) r.

(** The part of [save] before anything is written: what the caller's row
    becomes and the document to publish.  [existing] is the stored row. *)
Definition fill_layout (head_role : bool) (existing : option JobEntry) (entry : JobEntry)
  : JobEntry :=
  match entry.(storage_layout), existing with
  | Some _, _ => entry
  | None, Some e => entry <| storage_layout := e.(storage_layout) |>
  | None, None => if head_role then entry <| storage_layout := Some ROLE_LAYOUT |> else entry
  end.

Definition check_finality (existing : option JobEntry) (entry : JobEntry) : result unit :=
  match existing with
  | Some e =>
      raise_if (bool_decide (is_Some e.(terminal_finalized_at))
                && (negb (bool_decide (entry.(status) = Lost))
                    || negb (match entry.(terminal_finalized_at), e.(terminal_finalized_at) with
                             | Some a, Some b => Qeq_bool a b
                             | None, None => true
                             | _, _ => false
                             end)))
        (RegistryError "a finalized lost result cannot be reopened")
  | None => Ok tt
  end.

(** The row whose document is published: with the stored private mapping
    when the caller's scan discarded it. *)
Definition persisted_row (existing : option JobEntry) (entry : JobEntry) : result JobEntry :=
  if entry.(custom_env_loaded) then Ok entry
  else match existing with
       | None => Err (RegistryError
           "cannot preserve unloaded custom environment: registry row vanished")
       | Some current =>
           let keys := sort_strings current.(custom_env).*1 in
           raise_if (negb (bool_decide (keys = entry.(custom_env_keys))))
             (RegistryError
                "custom environment changed while the registry row was being updated") ;;
           Ok (entry <| custom_env := current.(custom_env) |> <| custom_env_keys := keys |>
                     <| custom_env_loaded := true |>)
       end.

Definition stamp (now : Q) (entry : JobEntry) : JobEntry :=
  let entry := entry <| updated_at := Some now |> in
  if entry.(custom_env_loaded)
  then entry <| custom_env_keys := sort_strings entry.(custom_env).*1 |> else entry.

(** [save] returns the caller's row as the call leaves it.  [now] is the
    clock and [writable] whether [atomic_write] of the record succeeds. *)
Definition save (now : Q) (writable : bool) (entry : JobEntry) : M JobEntry :=
  job_id ← lift (_require_job_id entry.(job_id));
  location ← resolve_registry_record job_id true;
  match location with
  | None => lift (Err (RegistryError "unreachable"))
  | Some l =>
      r ← get;
      existing ← (if l.(l_exists)
                  then Some <$> lift (_read_entry_path now l.(l_slot) job_id true r)
                  else mret None);
      lift (check_finality existing entry) ;;
      let entry := fill_layout r.(head_role) existing entry in
      lift (raise_if (bool_decide (l.(l_slot) = LegacySlot)
                      && bool_decide (entry.(storage_layout) = Some ROLE_LAYOUT))
        (RegistryError "legacy registry authority cannot store a role-layout row")) ;;
      persisted ← lift (persisted_row existing entry);
      let loaded := entry.(custom_env_loaded) in
      let entry := stamp now entry in
      let persisted := if loaded then entry else persisted <| updated_at := Some now |> in
      encoded ← lift (encode_registry_entry encoded_size now persisted);
      let '(document, persisted) := encoded in
      r ← get;
      let previous_index := _read_active_index r in
      lift (raise_if (negb writable) (RegistryError "cannot publish registry record")) ;;
      modify (put_file l.(l_slot) job_id document now) ;;
      resolved ← resolve_registry_record job_id false;
      lift (raise_if (negb match resolved with
                           | Some l' => bool_decide (l'.(l_slot) = l.(l_slot))
                           | None => false
                           end)
        (RegistryError "registry authority changed while the record was saved")) ;;
      _refresh_active_index_after_mutation encoded_size index_writable now previous_index
        (Some persisted) None ;;
      let entry := if loaded then persisted else entry in
      match entry.(dispatch_token) with
      | None => mret entry
      | Some _ =>
          r ← get;
          verified ← lift (_read_entry_path now l.(l_slot) job_id true r);
          lift (raise_if (negb (bool_decide (verified.(dispatch_token) = entry.(dispatch_token))
                                && bool_decide (verified.(dispatch_node) = entry.(dispatch_node))))
            (RegistryError "dispatch reservation could not be read back")) ;;
          mret entry
      end
  end.

(** [removable] tells whether the rename and unlink become durable; when
    they do not, the record is moved back. *)
Definition remove_record (now : Q) (removable : bool) (job_id : string) : M unit :=
  job_id ← lift (_require_job_id job_id);
  location ← resolve_registry_record job_id false;
  match location with
  | None => mret tt
  | Some l =>
      r ← get;
      _ ← lift (_read_entry_path now l.(l_slot) job_id true r);
      let previous_index := _read_active_index r in
      lift (raise_if (negb removable) (RegistryError "cannot durably remove registry record")) ;;
      modify (drop_file l.(l_slot) job_id) ;;
      resolved ← resolve_registry_record job_id false;
      lift (raise_if (bool_decide (is_Some resolved))
        (RegistryError "registry authority reappeared while the record was removed")) ;;
      _refresh_active_index_after_mutation encoded_size index_writable now previous_index
        None (Some job_id)
  end.

(** [finalize_dependency_terminal] and its lock-holding variant: both reload
    the row and apply the fence to it. *)
Definition finalize_dependency_terminal (now : Q) (writable : bool) (job_id : string)
  : M (option JobEntry) :=
  found ← load now job_id;
  match found with
  | None => mret None
  | Some entry =>
      decision ← lift (finalize_row now entry);
      match decision with
      | None => mret (Some entry)
      | Some fenced => saved ← save now writable fenced; mret (Some saved)
      end
  end.

(** ** Full scans *)

(** [list_all]: conflicts are found from the names first, then each
    unconflicted row of each directory is decoded. *)
Definition conflicted_names (r : registry) (slots : list slot) : list string :=
  List.filter (fun n => (1 <? length (List.filter (occupied r n) slots))%nat)
    (remove_dups (concat ((fun s => visible_names (slot_dir r s)) <$> slots))).

Definition read_listed (now : Q) (r : registry) (conflicted : list string) (s : slot) (n : string)
  : list JobEntry * list RegistryDamage :=
  if bool_decide (n ∈ conflicted) then ([], [])
  else match _read_entry_path now s n false r with
       | Ok e => ([e], [])
       | Err e => ([], [row_damage n e])
       end.

Definition list_all (now : Q) (r : registry) : list JobEntry * list RegistryDamage :=
  let '(slots, damage) := scan_directories r in
  let conflicted := conflicted_names r slots in
  let conflicts :=
    (fun n => split_brain_damage r n (List.filter (occupied r n) slots))
    <$> sort_strings conflicted in
  let parts := concat ((fun s => read_listed now r conflicted s <$> visible_names (slot_dir r s))
                       <$> slots) in
  (by_job_id (concat parts.*1), damage ++ conflicts ++ concat parts.*2).

(** ** The indexed read *)

(** The scan of [rebuild]: the revisions are read before and after it, from
    stores that may differ when a writer commits meanwhile.  The third
    component is the revision to publish under, when the scan was stable. *)
Definition rebuild_scan (now : Q) (before during after : registry)
  : list JobEntry * list RegistryDamage * option json :=
  let '(active, found) := _stream_active_registry now during in
  match _registry_directory_revisions before, _registry_directory_revisions after with
  | Ok b, Ok a =>
      if json_eqb b a then (active, found, Some a)
      else (active, found ++ [mkDamage "registry" ACTIVE_INDEX_REBUILD_RACE], None)
  | Err _, Ok _ => (active, found, None)
  | _, Err e =>
      (active, found ++ [mkDamage "registry" (excerpt MAX_JOB_DIAGNOSTIC_CHARS (exn_message e))],
       None)
  end.

(** The publication, under the mutation lock: only while the revisions are
    still the ones the scan ended with. *)
Definition rebuild_publish (active : list JobEntry) (found : list RegistryDamage) (after : json)
  : M unit := fun r =>
  match _registry_directory_revisions r with
  | Ok current =>
      if json_eqb current after
      then match _write_active_index encoded_size index_writable
                   (job_id <$> active) found (Some after) r with
           | (Err (RegistryError _), r') => (Ok tt, r')
           | other => other
           end
      else (Ok tt, r)
  | Err _ => (Ok tt, r)
  end.

Definition rebuild (now : Q) (publish_index : bool)
  : M (list JobEntry * list RegistryDamage) :=
  r ← get;
  let '(active, found, stable) := rebuild_scan now r r r in
  match stable with
  | Some after => if publish_index then rebuild_publish active found after else mret tt
  | None => mret tt
  end ;;
  mret (active, found).

(** The loop over the indexed identities; [None] asks for a rebuild. *)
Fixpoint load_indexed (now : Q) (ids : list string) (r : registry) : option (list JobEntry) :=
  match ids with
  | [] => Some []
  | id :: rest =>
      match (load now id r).1 with
      | Ok (Some entry) =>
          entries ← load_indexed now rest r;
          Some (if _active_index_member entry now then entry :: entries else entries)
      | _ => None
      end
  end.

(** The rows and the damage appended to the caller's list. *)
Definition active_entries (now : Q) (publish_index : bool)
  : M (list JobEntry * list RegistryDamage) :=
  r ← get;
  match _read_active_index r with
  | None => rebuild now publish_index
  | Some index =>
      match load_indexed now index.(job_ids) r with
      | None => rebuild now publish_index
      | Some entries => mret (entries, index.(damage))
      end
  end.

(** ** Queries *)

(** [quota_occupancy] with [entries] given, and read from the registry. *)
Definition occupancy (now : Q) (entries : list JobEntry) (damage : list RegistryDamage) : nat :=
  (length (List.filter (fun e => occupies_quota e now) entries) + length damage)%nat.
Definition quota_occupancy (now : Q) : M nat :=
  found ← active_entries now true; mret (occupancy now found.1 found.2).

Definition by_created_at : list JobEntry -> list JobEntry :=
  sort_by (fun a b => q_ltb a.(created_at) b.(created_at)).
Definition is_queued (e : JobEntry) : bool := bool_decide (e.(status) = Queued).
Definition queued_entries (now : Q) : M (list JobEntry) :=
  found ← active_entries now true; mret (by_created_at (List.filter is_queued found.1)).

(** [with_dependency_predecessors]: the loop carries the known identities
    and the joined list. *)
Definition join_predecessor (now : Q) (r : registry) (acc : list string * list JobEntry)
    (dependency : option string) : list string * list JobEntry :=
  match dependency with
  | None => acc
  | Some id =>
      if bool_decide (id ∈ acc.1) then acc
      else match (load now id r).1 with
           | Ok (Some predecessor) => (id :: acc.1, acc.2 ++ [predecessor])
           | _ => (id :: acc.1, acc.2)
           end
  end.
Definition dependencies (e : JobEntry) : list (option string) :=
  [e.(after_success); e.(after_complete); e.(after_result)].
Definition with_dependency_predecessors (now : Q) (entries : list JobEntry) (r : registry)
  : list JobEntry :=
  (fold_left (join_predecessor now r)
     (flat_map dependencies (List.filter is_queued entries))
     (job_id <$> entries, entries)).2.
End operations.
