(* ===== verification/RegistryFacts.v ===== *)
(** * Facts about the registry store

    Resolution is pure and never picks between two authorities; reading a row
    is decoding the document of its single location; a save publishes exactly
    one document and reads back as its canonical row. *)

From S2P Require Import Prelude Text PyValue Diagnostics Layout CustomEnv JobEntry RegistryCodec CodecFacts CodecSound CodecRoundtrip CodecSpec CodecCanonical Lifecycle Registry ActiveIndex RegistryOps.

(** ** The state monad *)
Lemma M_bind_ok {A B} (m : M A) (f : A -> M B) r b r' :
  (m ≫= f) r = (Ok b, r') <-> exists a r1, m r = (Ok a, r1) /\ f a r1 = (Ok b, r').
Proof.
  unfold mbind, M_bind. destruct (m r) as [[a|e] r1]; split.
  - by exists a, r1.
  - by intros (a' & r1' & [= <- <-] & H).
  - done.
  - by intros (a' & r1' & [=] & H).
Qed.
Lemma lift_ok {A} (x : result A) r a r' : lift x r = (Ok a, r') <-> x = Ok a /\ r' = r.
Proof. unfold lift. naive_solver. Qed.
Lemma get_ok r a r' : get r = (Ok a, r') <-> a = r /\ r' = r.
Proof. unfold get. naive_solver. Qed.
Lemma modify_ok f r u r' : modify f r = (Ok u, r') <-> r' = f r.
Proof. unfold modify. destruct u. naive_solver. Qed.
Lemma M_ret_ok {A} (a : A) r b r' : (mret a : M A) r = (Ok b, r') <-> b = a /\ r' = r.
Proof. unfold mret, M_ret. naive_solver. Qed.

(** ** Where a job's document lives *)
Definition has_record (r : registry) (job_id : string) (s : slot) : result bool :=
  exists_ ← _require_private_directory (slot_dir r s);
  if exists_ : bool then
    match (slot_dir r s).(files) !! job_id with
    | None => Ok false
    | Some SpecialFile => Err (RegistryError "cannot safely open registry record")
    | Some _ => Ok true
    end
  else Ok false.

Lemma locations_in_cons r job_id s rest :
  registry_locations_in r job_id (s :: rest) =
  (here ← has_record r job_id s;
   locations ← registry_locations_in r job_id rest;
   Ok (if here : bool then mkLocation s true :: locations else locations)).
Proof.
  unfold has_record. cbn [registry_locations_in].
  destruct (_require_private_directory _) as [[]|]; simpl;
    [|by destruct (registry_locations_in r job_id rest)|done].
  destruct (_ !! job_id) as [[]|]; simpl; try done; by destruct (registry_locations_in r job_id rest).
Qed.

(** The single authority of a job, if it is well defined. *)
Definition authority (r : registry) (job_id : string) : result (option slot) :=
  locations ← _registry_locations r job_id;
  match locations with
  | [] => Ok None
  | [found] => Ok (Some found.(l_slot))
  | _ => Err (RegistryError "split-brain registry row")
  end.

Lemma locations_exist r job_id slots locations :
  registry_locations_in r job_id slots = Ok locations ->
  Forall (fun l => l.(l_exists) = true) locations.
Proof.
  revert locations. induction slots as [|s slots IH]; intros locations; [by intros [= <-]|].
  rewrite locations_in_cons, bind_ok. intros (here & _ & H).
  apply bind_ok in H as (rest & Hrest & [= <-]). apply IH in Hrest.
  destruct here; [by constructor | done].
Qed.

Lemma resolve_eq job_id r :
  valid_job_id job_id = true ->
  resolve_registry_record job_id false r =
  (match authority r job_id with
   | Ok o => Ok (option_map (fun s => mkLocation s true) o)
   | Err e => Err e
   end, r).
Proof.
  intros Hv. unfold resolve_registry_record, authority, _require_job_id, lift, get.
  rewrite Hv. unfold _registry_locations, mbind, M_bind, result_bind, mret, M_ret. cbv beta iota.
  destruct (registry_locations_in r job_id (resolve_order r)) as [locations|] eqn:E; [|done].
  pose proof (locations_exist _ _ _ _ E) as Hall.
  destruct locations as [|[s ex] [|? ?]]; try done.
  apply Forall_cons_iff in Hall as [Hx _]. simpl in Hx. by subst ex.
Qed.

(** [holds_only r s id]: every directory other than [s] is readable and free
    of [id], so a document written at [s] is its only authority. *)
Definition holds_only (r : registry) (s : slot) (job_id : string) : Prop :=
  (slot_dir r s).(kind) = PrivateDir /\ s ∈ resolve_order r /\
  forall s', s' ∈ resolve_order r -> s' <> s -> has_record r job_id s' = Ok false.

Lemma authority_order r job_id :
  authority r job_id =
  (locations ← registry_locations_in r job_id (resolve_order r);
   match locations with
   | [] => Ok None
   | [found] => Ok (Some found.(l_slot))
   | _ => Err (RegistryError "split-brain registry row")
   end).
Proof. done. Qed.

(** The two shapes of the order. *)
Lemma resolve_order_cases r :
  (r.(head_role) = true /\ resolve_order r = [RoleSlot; LegacySlot]) \/
  (r.(head_role) = false /\ resolve_order r = [LegacySlot]).
Proof. unfold resolve_order. destruct (r.(head_role)); [by left | by right]. Qed.

Lemma authority_some r job_id s :
  authority r job_id = Ok (Some s) <->
  holds_only r s job_id /\ has_record r job_id s = Ok true.
Proof.
  rewrite authority_order. unfold holds_only.
  assert (forall s, has_record r job_id s = Ok true -> (slot_dir r s).(kind) = PrivateDir) as Hk.
  { intros s' H. unfold has_record in H. unfold _require_private_directory in H.
    destruct ((slot_dir r s').(kind)); done. }
  destruct (resolve_order_cases r) as [[_ ->]|[_ ->]]; rewrite !locations_in_cons;
    cbn [registry_locations_in].
  - destruct (has_record r job_id RoleSlot) as [[]|e1] eqn:E1;
      destruct (has_record r job_id LegacySlot) as [[]|e2] eqn:E2; cbn [mbind result_bind]; split;
      try done.
    all: try (intros [= <-]; split; [split; [by apply Hk|split; [set_solver|]]|done];
              intros [] _ Hne; congruence).
    all: intros [(_ & Hs & Hall) Hs'].
    all: destruct s; try reflexivity; try congruence; exfalso.
    all: try (specialize (Hall LegacySlot ltac:(set_solver) ltac:(done)); congruence).
    all: try (specialize (Hall RoleSlot ltac:(set_solver) ltac:(done)); congruence).
  - destruct (has_record r job_id LegacySlot) as [[]|e2] eqn:E2; cbn [mbind result_bind]; split;
      try done.
    all: try (intros [= <-]; split; [split; [by apply Hk|split; [set_solver|]]|done];
              intros [] Hin Hne; [congruence | set_solver]).
    all: intros [(_ & Hs & Hall) Hs']; destruct s; try reflexivity; try congruence; set_solver.
Qed.

Lemma authority_none r job_id :
  authority r job_id = Ok None <->
  forall s, s ∈ resolve_order r -> has_record r job_id s = Ok false.
Proof.
  rewrite authority_order.
  destruct (resolve_order_cases r) as [[_ ->]|[_ ->]]; rewrite !locations_in_cons;
    cbn [registry_locations_in].
  - destruct (has_record r job_id RoleSlot) as [[]|e1] eqn:E1;
      destruct (has_record r job_id LegacySlot) as [[]|e2] eqn:E2; cbn [mbind result_bind]; split;
      try done.
    all: try (intros H; pose proof (H RoleSlot ltac:(set_solver));
              pose proof (H LegacySlot ltac:(set_solver)); congruence).
    intros _ []; done.
  - destruct (has_record r job_id LegacySlot) as [[]|e2] eqn:E2; cbn [mbind result_bind]; split;
      try done.
    all: try (intros H; pose proof (H LegacySlot ltac:(set_solver)); congruence).
    intros _ [] Hin; [done | set_solver].
Qed.

Lemma resolve_eq' job_id r :
  resolve_registry_record job_id false r =
  (if valid_job_id job_id then
     match authority r job_id with
     | Ok o => Ok (option_map (fun s => mkLocation s true) o)
     | Err e => Err e
     end
   else Err (RegistryError "job identity is unsafe"), r).
Proof.
  destruct (valid_job_id job_id) eqn:Hv; [by apply resolve_eq|].
  unfold resolve_registry_record, _require_job_id, lift, mbind, M_bind. by rewrite Hv.
Qed.

(** [load] decodes the document of the single authority. *)
Lemma load_eq now job_id r :
  load now job_id r =
  (if valid_job_id job_id then
     match authority r job_id with
     | Ok None => Ok None
     | Ok (Some s) => Some <$> _read_entry_path now s job_id true r
     | Err e => Err e
     end
   else Ok None, r).
Proof.
  unfold load. destruct (valid_job_id job_id) eqn:Hv; [|done]. cbn [negb].
  unfold mbind, M_bind. rewrite resolve_eq by done.
  destruct (authority r job_id) as [[s|]|e]; [|done|done]. cbn [option_map l_slot].
  unfold get, lift. cbv beta iota. by destruct (_read_entry_path now s job_id true r).
Qed.

Lemma load_state now job_id r : (load now job_id r).2 = r.
Proof. by rewrite load_eq. Qed.

(** ** Stores that agree on every other job *)
Record agrees_except (job_id : string) (r r' : registry) : Prop := {
  ae_role : r'.(head_role) = r.(head_role);
  ae_record : forall id s, id <> job_id -> has_record r' id s = has_record r id s;
  ae_file : forall id s, id <> job_id -> has_record r id s = Ok true ->
    (slot_dir r' s).(files) !! id = (slot_dir r s).(files) !! id;
}.

Lemma ae_refl job_id r : agrees_except job_id r r.
Proof. by split. Qed.

Lemma ae_trans job_id r1 r2 r3 :
  agrees_except job_id r1 r2 -> agrees_except job_id r2 r3 -> agrees_except job_id r1 r3.
Proof.
  intros [A1 B1 C1] [A2 B2 C2]. split.
  - by rewrite A2.
  - intros id s Hne. by rewrite B2, B1.
  - intros id s Hne H. rewrite C2, C1; [done..|]. by rewrite B1.
Qed.

Lemma slot_dir_set r s d s' :
  slot_dir (set_dir s d r) s' = if decide (s = s') then d else slot_dir r s'.
Proof. by destruct s, s'. Qed.

Lemma ae_set_dir job_id r s d :
  d.(kind) = PrivateDir -> (slot_dir r s).(kind) = PrivateDir ->
  (forall id, id <> job_id -> d.(files) !! id = (slot_dir r s).(files) !! id) ->
  agrees_except job_id r (set_dir s d r).
Proof.
  intros Hd Hk Hf. split.
  - by destruct s.
  - intros id s' Hne. unfold has_record, _require_private_directory. rewrite slot_dir_set.
    destruct (decide (s = s')) as [<-|]; [|done]. rewrite Hd, Hk. simpl. by rewrite Hf.
  - intros id s' Hne _. rewrite slot_dir_set. destruct (decide (s = s')) as [<-|]; [by apply Hf|done].
Qed.

Lemma ae_make_dir job_id r s : agrees_except job_id r (set_dir s (make_dir (slot_dir r s)) r).
Proof.
  split.
  - by destruct s.
  - intros id s' Hne. unfold has_record, _require_private_directory. rewrite slot_dir_set.
    destruct (decide (s = s')) as [<-|]; [|done].
    unfold make_dir. destruct ((slot_dir r s).(kind)) eqn:E; rewrite ?E; [|done..].
    simpl. by rewrite lookup_empty.
  - intros id s' Hne H. rewrite slot_dir_set. destruct (decide (s = s')) as [<-|]; [|done].
    unfold make_dir. unfold has_record, _require_private_directory in H.
    by destruct ((slot_dir r s).(kind)) eqn:E.
Qed.

Lemma ae_index job_id r ix : agrees_except job_id r (r <| index_file := ix |>).
Proof. by split. Qed.

Lemma ae_put job_id r s text m :
  (slot_dir r s).(kind) = PrivateDir -> agrees_except job_id r (put_file s job_id text m r).
Proof.
  intros Hk. apply ae_set_dir; [done..|]. intros id Hne. simpl. by rewrite lookup_insert_ne.
Qed.

Lemma ae_drop job_id r s :
  (slot_dir r s).(kind) = PrivateDir -> agrees_except job_id r (drop_file s job_id r).
Proof.
  intros Hk. apply ae_set_dir; [done..|]. intros id Hne. simpl. by rewrite lookup_delete_ne.
Qed.

Lemma ae_authority job_id r r' id :
  agrees_except job_id r r' -> id <> job_id -> authority r' id = authority r id.
Proof.
  intros [A B _] Hne. rewrite !authority_order. unfold resolve_order. rewrite A.
  destruct (r.(head_role)); by rewrite !locations_in_cons, !B.
Qed.

Lemma ae_load now job_id r r' id :
  agrees_except job_id r r' -> id <> job_id -> (load now id r').1 = (load now id r).1.
Proof.
  intros H Hne. rewrite !load_eq. simpl. destruct (valid_job_id id); [|done].
  rewrite (ae_authority _ _ _ _ H Hne). destruct (authority r id) as [[s|]|] eqn:E; [|done|done].
  apply authority_some in E as [_ Hs].
  unfold _read_entry_path. by rewrite (ae_file _ _ _ H id s Hne Hs).
Qed.

(** ** Resolving for a write *)
Lemma has_record_after_make r job_id s s' :
  has_record (set_dir s (make_dir (slot_dir r s)) r) job_id s' = has_record r job_id s'.
Proof.
  unfold has_record, _require_private_directory. rewrite slot_dir_set.
  destruct (decide (s = s')) as [<-|]; [|done].
  unfold make_dir. destruct ((slot_dir r s).(kind)) eqn:E; rewrite ?E; [|done..].
  simpl. by rewrite lookup_empty.
Qed.

Lemma current_in_order r : current_slot r ∈ resolve_order r.
Proof. unfold current_slot, resolve_order. destruct (r.(head_role)); set_solver. Qed.

Lemma set_dir_order s d r : resolve_order (set_dir s d r) = resolve_order r.
Proof. by destruct s. Qed.

Lemma locations_nil_authority r job_id :
  _registry_locations r job_id = Ok [] -> authority r job_id = Ok None.
Proof. intros H. unfold authority. by rewrite H. Qed.

Lemma resolve_create_inv job_id r l r1 :
  resolve_registry_record job_id true r = (Ok (Some l), r1) ->
  valid_job_id job_id = true /\ holds_only r1 l.(l_slot) job_id /\ agrees_except job_id r r1 /\
  r1.(head_role) = r.(head_role) /\ r1.(index_file) = r.(index_file) /\
  ((l.(l_exists) = true /\ r1 = r /\ authority r job_id = Ok (Some l.(l_slot))) \/
   (l.(l_exists) = false /\ authority r job_id = Ok None /\ l.(l_slot) = current_slot r)).
Proof.
  unfold resolve_registry_record. rewrite M_bind_ok. intros (id & ? & [Hid ->]%lift_ok & H).
  unfold _require_job_id in Hid. destruct (valid_job_id job_id) eqn:Hv; [|done]. injection Hid as <-.
  apply M_bind_ok in H as (? & ? & [-> ->]%get_ok & H).
  apply M_bind_ok in H as (locations & ? & [Hloc ->]%lift_ok & H).
  split; [done|]. destruct locations as [|l0 [|? ?]].
  - apply M_bind_ok in H as ([] & ? & ->%modify_ok & H).
    apply M_bind_ok in H as (? & ? & [-> ->]%get_ok & H).
    apply M_bind_ok in H as (ex & ? & [Hreq ->]%lift_ok & H).
    apply M_ret_ok in H as [[= ->] ->]. cbn [l_slot l_exists].
    apply locations_nil_authority in Hloc. pose proof (proj1 (authority_none r job_id) Hloc) as Hnone.
    set (s := current_slot r) in *. split; [|split; [apply ae_make_dir|]].
    + split; [|split].
      * rewrite slot_dir_set, decide_True by done. unfold _require_private_directory in Hreq.
        rewrite slot_dir_set, decide_True in Hreq by done. unfold make_dir in *.
        destruct ((slot_dir r s).(kind)) eqn:E; rewrite ?E in *; done.
      * rewrite set_dir_order. apply current_in_order.
      * intros s' Hs' _. rewrite has_record_after_make. apply Hnone. by rewrite set_dir_order in Hs'.
    + split; [by destruct s|]. split; [by destruct s|]. right. done.
  - apply M_ret_ok in H as [[= ->] ->].
    assert (l0.(l_exists) = true) as Hex.
    { pose proof (locations_exist _ _ _ _ Hloc) as Hall. by apply Forall_cons_iff in Hall as [? _]. }
    assert (authority r job_id = Ok (Some l0.(l_slot))) as Ha by (unfold authority; by rewrite Hloc).
    pose proof (proj1 (proj1 (authority_some r job_id l0.(l_slot)) Ha)) as Hh.
    split; [done|]. split; [apply ae_refl|]. repeat split. left. done.
  - done.
Qed.

Lemma authority_put r s job_id text m :
  holds_only r s job_id -> authority (put_file s job_id text m r) job_id = Ok (Some s).
Proof.
  intros (Hk & Hs & Hall). apply authority_some. unfold put_file. split; [split; [|split]|].
  - by rewrite slot_dir_set, decide_True.
  - by rewrite set_dir_order.
  - intros s' Hs' Hne. rewrite set_dir_order in Hs'. unfold has_record.
    rewrite slot_dir_set, decide_False by done. by apply Hall.
  - unfold has_record, _require_private_directory. rewrite slot_dir_set, decide_True by done.
    simpl. rewrite Hk. simpl. by rewrite lookup_insert_eq.
Qed.

(** The index refresh cannot fail and only touches the index. *)
Lemma write_index_inv size ok ids dmg revs r res r' :
  _write_active_index size ok ids dmg revs r = (res, r') ->
  (r' = r /\ exists d, res = Err (RegistryError d)) \/
  (res = Ok tt /\ exists revisions,
     r' = r <| index_file := Some (Some (index_document revisions ids dmg)) |> /\
     (match revs with Some given => Ok given | None => _registry_directory_revisions r end)
       = Ok revisions).
Proof.
  assert (forall d : directory, True) by done.
  unfold _write_active_index, mbind, M_bind, get, lift, raise_if, mret, M_ret, modify.
  destruct (_ || _); [intros [= <- <-]; left; eauto|].
  assert (forall e, _registry_directory_revisions r = Err e -> exists d, e = RegistryError d) as Herr.
  { unfold _registry_directory_revisions, scan_order. destruct (r.(head_role)); intros e He;
      unfold revisions_in, revision_of in He;
      repeat match type of He with context [match ?x with Absent => _ | _ => _ end] => destruct x end;
      simpl in He; simplify_eq; eauto. }
  destruct revs as [given|].
  - destruct (_ <? _)%nat; [intros [= <- <-]; left; eauto|].
    destruct (negb ok); intros [= <- <-]; [left; eauto | right; eauto].
  - destruct (_registry_directory_revisions r) as [revisions|e] eqn:E.
    + destruct (_ <? _)%nat; [intros [= <- <-]; left; eauto|].
      destruct (negb ok); intros [= <- <-]; [left; eauto | right; eauto].
    + intros [= <- <-]. left. split; [done|]. destruct (Herr e eq_refl) as [d ->]. eauto.
Qed.

Lemma refresh_inv size ok now previous entry removed r res r' :
  _refresh_active_index_after_mutation size ok now previous entry removed r = (res, r') ->
  res = Ok tt /\ exists ix, r' = r <| index_file := ix |>.
Proof.
  assert (r = r <| index_file := r.(index_file) |>) as Hsame by (by destruct r).
  unfold _refresh_active_index_after_mutation. destruct previous as [index|].
  - cbv zeta. match goal with |- context [_write_active_index size ok ?i ?d None r] =>
      destruct (_write_active_index size ok i d None r) as [res0 r0] eqn:E end.
    apply write_index_inv in E as [(-> & d & ->)|(-> & revs & -> & _)]; intros [= <- <-];
      (split; [done|]); [exists (r.(index_file)); exact Hsame | by eexists].
  - intros [= <- <-]. split; [done|]. exists (r.(index_file)). exact Hsame.
Qed.

(** ** What a successful save did *)
Record saved (size : json -> nat) (now : Q) (entry : JobEntry) (r : registry) (out : JobEntry)
    (r' : registry) (existing : option JobEntry) (row : JobEntry) (s : slot) : Prop := {
  sv_id : valid_job_id entry.(job_id) = true;
  (** the stored row, read from the only authority *)
  sv_existing : match existing with
    | Some e => authority r entry.(job_id) = Ok (Some s) /\
                _read_entry_path now s entry.(job_id) true r = Ok e
    | None => authority r entry.(job_id) = Ok None /\ s = current_slot r
    end;
  sv_finality : check_finality existing entry = Ok tt;
  (** the row whose document is published: the caller's, with the layout
      filled in, the private mapping restored and the clock stamped *)
  sv_row : exists filled persisted,
    filled = fill_layout r.(head_role) existing entry /\
    persisted_row existing filled = Ok persisted /\
    row = bound_entry (if filled.(custom_env_loaded) then stamp now filled
                       else persisted <| updated_at := Some now |>) /\
    out = (if filled.(custom_env_loaded) then row else stamp now filled) /\
    ~ (s = LegacySlot /\ filled.(storage_layout) = Some ROLE_LAYOUT);
  sv_decodes : exists d,
    decode_registry_document now (JDict (flat_document row)) None (Some row.(job_id)) true = Ok d;
  sv_size : (size (envelope row) <= MAX_JOB_RECORD_BYTES)%nat;
  sv_store : exists r1 ix, agrees_except entry.(job_id) r r1 /\ holds_only r1 s entry.(job_id) /\
    r1.(head_role) = r.(head_role) /\ r1.(index_file) = r.(index_file) /\
    r' = put_file s entry.(job_id) (envelope row) now r1 <| index_file := ix |>;
}.

Lemma fill_layout_id head_role existing e : (fill_layout head_role existing e).(job_id) = e.(job_id).
Proof. unfold fill_layout. by repeat case_match. Qed.
Lemma persisted_row_id existing e p : persisted_row existing e = Ok p -> p.(job_id) = e.(job_id).
Proof.
  unfold persisted_row. destruct (e.(custom_env_loaded)); [by intros [= <-]|].
  destruct existing as [c|]; [|done]. rewrite bind_raise_ok. by intros [_ [= <-]].
Qed.

Lemma save_inv size ok now writable entry r out r' :
  save size ok now writable entry r = (Ok out, r') ->
  exists existing row s, saved size now entry r out r' existing row s.
Proof.
  unfold save. rewrite M_bind_ok. intros (id & ? & [Hid ->]%lift_ok & H).
  unfold _require_job_id in Hid. destruct (valid_job_id entry.(job_id)) eqn:Hv; [|done].
  injection Hid as <-.
  apply M_bind_ok in H as ([l|] & r1 & Hres & H); [|by apply lift_ok in H as [[=] _]].
  apply resolve_create_inv in Hres as (_ & Hholds & Hagree & Hrole & Hix & Hcase).
  apply M_bind_ok in H as (? & ? & [-> ->]%get_ok & H).
  apply M_bind_ok in H as (existing & r2 & Hex & H).
  assert (r2 = r1 /\ match existing with
    | Some e => authority r entry.(job_id) = Ok (Some l.(l_slot)) /\
                _read_entry_path now l.(l_slot) entry.(job_id) true r = Ok e
    | None => authority r entry.(job_id) = Ok None /\ l.(l_slot) = current_slot r
    end) as [-> Hexisting].
  { destruct Hcase as [(Hl & -> & Ha)|(Hl & Ha & Hs)]; rewrite Hl in Hex.
    - unfold fmap, M_fmap, lift in Hex.
      destruct (_read_entry_path now l.(l_slot) entry.(job_id) true r) as [e|] eqn:Er; [|done].
      injection Hex as <- <-. done.
    - apply M_ret_ok in Hex as [-> ->]. done. }
  apply M_bind_ok in H as ([] & ? & [Hfin ->]%lift_ok & H).
  apply M_bind_ok in H as ([] & ? & [Hlay%raise_if_ok ->]%lift_ok & H).
  apply M_bind_ok in H as (persisted & ? & [Hper ->]%lift_ok & H).
  apply M_bind_ok in H as ([doc row] & ? & [Henc ->]%lift_ok & H).
  apply M_bind_ok in H as (? & ? & [-> ->]%get_ok & H).
  apply M_bind_ok in H as ([] & ? & [_ ->]%lift_ok & H).
  apply M_bind_ok in H as ([] & ? & ->%modify_ok & H).
  apply M_bind_ok in H as (resolved & r3 & Hres & H).
  rewrite resolve_eq' in Hres. injection Hres as _ <-.
  apply M_bind_ok in H as ([] & ? & [_ ->]%lift_ok & H).
  apply M_bind_ok in H as ([] & r4 & Hrefresh & H).
  apply refresh_inv in Hrefresh as [_ [ix ->]].
  apply encode_inv in Henc as (Hrow & -> & Hsize & Hdec).
  rewrite Hrole in H, Hrow, Hper, Hlay.
  set (filled := fill_layout r.(head_role) existing entry) in *.
  assert (out = (if filled.(custom_env_loaded) then row else stamp now filled) /\
    r' = put_file l.(l_slot) entry.(job_id) (envelope row) now r1 <| index_file := ix |>) as [Hout ->].
  { revert H. generalize (if filled.(custom_env_loaded) then row else stamp now filled). intros o H.
    destruct (o.(dispatch_token)); [|by apply M_ret_ok in H].
    apply M_bind_ok in H as (? & ? & [-> ->]%get_ok & H).
    apply M_bind_ok in H as (? & ? & [_ ->]%lift_ok & H).
    apply M_bind_ok in H as ([] & ? & [_ ->]%lift_ok & H). by apply M_ret_ok in H. }
  exists existing, row, l.(l_slot). split; try done.
  - exists filled, persisted. repeat split; try done.
    intros [Hs Hr]. apply andb_false_iff in Hlay as [Hl|Hl]; apply bool_decide_eq_false in Hl; contradiction.
  - exists r1, ix. done.
Qed.

(** ** Reading a row back *)

(** What a successful read tells. *)
Lemma read_entry_inv now s jid include r e :
  _read_entry_path now s jid include r = Ok e ->
  exists raw mtime, (slot_dir r s).(files) !! jid = Some (StoredFile (Some raw) mtime) /\
    strict raw /\
    decode_registry_document now raw (Some mtime) (Some jid) include = Ok e.
Proof.
  unfold _read_entry_path. rewrite bind_ok. intros (found & Hf & H).
  destruct (_ !! jid) as [[| |text mtime]|]; try done; simpl in Hf; injection Hf as <-; [|done].
  unfold _decode_entry_result in H. apply bind_ok in H as (raw & Hraw & H).
  destruct text as [lexed|]; [|done].
  destruct (decode_strict lexed) as [raw'|] eqn:Hs; [|done]. injection Hraw as ->.
  apply decode_strict_spec in Hs as [-> Hs]. exists lexed, mtime. split; [done|]. split; [done|].
  by destruct (decode_registry_document _ _ _ _ _) as [|[]].
Qed.

Lemma read_entry_wf now s jid include r e :
  _read_entry_path now s jid include r = Ok e ->
  e.(job_id) = jid /\ e.(custom_env_loaded) = include /\ env_ok e.(custom_env) /\
  is_Some e.(storage_layout) /\ is_Some e.(updated_at).
Proof.
  intros (raw & mtime & _ & Hs & H)%read_entry_inv.
  apply decode_document_inv in H as (doc & Henv & _ & H); [|done].
  apply decode_entry_core in H as (e0 & W & Hid & Hl & -> & _); [|done].
  rewrite complete_job_id, complete_loaded. destruct (complete_sentinels (Some mtime) e0).
  split; [by apply Hid|]. split; [done|]. split; [|done]. rewrite complete_eq. apply W.
Qed.

(** Reading the document a successful publication left. *)
Lemma read_published now now' r s jid row m d :
  unique_keys row -> valid_diagnostics row = true -> row.(job_id) = jid ->
  (slot_dir r s).(files) !! jid = Some (StoredFile (Some (envelope row)) m) ->
  decode_registry_document now (JDict (flat_document row)) None (Some jid) true = Ok d ->
  _read_entry_path now' s jid true r = Ok (complete (Some m) (canonical row)) /\
  wf_entry (canonical row).
Proof.
  intros Hu Hdiag Hid Hfile Hdec.
  rewrite decode_flat in Hdec.
  assert (exists d', _decode_entry now (JDict (flat_document row)) None (Some jid) true = Ok d') as [d' Hd'].
  { revert Hdec. unfold envelope. generalize (flat_document row). intros doc Hdec.
    change (as_registry_error (_decode_entry now (JDict doc) None (Some jid) true) = Ok d) in Hdec.
    destruct (_decode_entry now (JDict doc) None (Some jid) true) as [d'|[]]; [by eexists|done..]. }
  split; [|exact (proj1 (published_canonical _ _ _ _ _ Hdiag (uk_env _ Hu) Hd'))].
  pose proof (published_decodes now now' None (Some m) (Some jid) row d' Hdiag (uk_env _ Hu) Hd') as H.
  unfold _read_entry_path. rewrite Hfile. cbn [read_bounded mbind result_bind].
  unfold _decode_entry_result.
  rewrite (proj2 (decode_strict_spec _ _) (conj eq_refl (strict_envelope row Hu))).
  cbn [mbind result_bind].
  assert (decode_registry_document now' (envelope row) (Some m) (Some jid) true
    = Ok (complete (Some m) (canonical row))) as ->; [|done].
  revert H. unfold envelope. generalize (flat_document row). intros doc H.
  change (as_registry_error (_decode_entry now' (JDict doc) (Some m) (Some jid) true)
    = Ok (complete (Some m) (canonical row))). by rewrite H.
Qed.

Lemma unique_keys_bound e : unique_keys e -> unique_keys (bound_entry e).
Proof.
  intros [H1 H2 H3 H4 H5 H6]. split; try done. simpl.
  replace ((prod_map id (excerpt MAX_JOB_DIAGNOSTIC_CHARS) <$> e.(placement_failures)).*1)
    with (e.(placement_failures).*1); [done|].
  rewrite <- list_fmap_compose. by apply list_fmap_ext.
Qed.

Lemma saved_unique size now entry r out r' existing row s :
  unique_keys entry -> saved size now entry r out r' existing row s -> unique_keys row.
Proof.
  intros Hu [_ Hex _ (filled & persisted & Hf & Hp & -> & _ & _) _ _ _].
  apply unique_keys_bound.
  assert (unique_keys filled) as Huf by (subst filled; destruct Hu; unfold fill_layout; by repeat case_match).
  destruct (filled.(custom_env_loaded)) eqn:Hl.
  - destruct Huf. unfold stamp. simpl. by destruct (filled.(custom_env_loaded)).
  - unfold persisted_row in Hp. rewrite Hl in Hp. destruct existing as [current|]; [|done].
    apply bind_raise_ok in Hp as [_ [= <-]]. destruct Hex as [_ Hread].
    apply read_entry_wf in Hread as (_ & _ & Henv & _).
    destruct Huf. split; try done. simpl. apply Henv.
Qed.

Lemma saved_row_id size now entry r out r' existing row s :
  saved size now entry r out r' existing row s -> row.(job_id) = entry.(job_id).
Proof.
  intros [_ _ _ (filled & persisted & -> & Hp & -> & _ & _) _ _ _].
  apply persisted_row_id in Hp. simpl.
  destruct (custom_env_loaded _); [|simpl; by rewrite Hp, fill_layout_id].
  unfold stamp. simpl. destruct (custom_env_loaded _); simpl; by rewrite fill_layout_id.
Qed.

Lemma authority_index r ix jid : authority (r <| index_file := ix |>) jid = authority r jid.
Proof.
  rewrite !authority_order. unfold resolve_order. simpl.
  destruct (r.(head_role)); by rewrite !locations_in_cons.
Qed.

Lemma saved_authority size now entry r out r' existing row s :
  saved size now entry r out r' existing row s -> authority r' entry.(job_id) = Ok (Some s).
Proof.
  intros [_ _ _ _ _ _ (r1 & ix & _ & Hh & _ & _ & ->)].
  rewrite authority_index. by apply authority_put.
Qed.

Lemma saved_load size now entry r out r' existing row s now' :
  unique_keys entry -> saved size now entry r out r' existing row s ->
  load now' entry.(job_id) r' = (Ok (Some (complete (Some now) (canonical row))), r') /\
  wf_entry (canonical row).
Proof.
  intros Hu S. pose proof (saved_unique _ _ _ _ _ _ _ _ _ Hu S) as Hur.
  pose proof (saved_row_id _ _ _ _ _ _ _ _ _ S) as Hid.
  pose proof (saved_authority _ _ _ _ _ _ _ _ _ S) as Ha.
  destruct S as [Hv _ _ (filled & persisted & _ & _ & Hrow & _) [d Hd] _ (r1 & ix & _ & Hh & _ & _ & Hr')].
  rewrite Hid in Hd.
  destruct (read_published now now' r' s entry.(job_id) row now d) as [Hread W]; try done.
  - rewrite Hrow. apply bound_entry_diagnostics.
  - rewrite Hr'. transitivity ((slot_dir (put_file s entry.(job_id) (envelope row) now r1) s).(files) !! entry.(job_id));
      [by destruct s|].
    unfold put_file. rewrite slot_dir_set, decide_True by done. apply lookup_insert_eq.
  - rewrite load_eq, Hv, Ha, Hread. done.
Qed.

(** ** A failing save changes no row *)
Definition same_rows (r r' : registry) : Prop := forall jid, agrees_except jid r r'.

Lemma same_rows_refl r : same_rows r r.
Proof. intros jid. apply ae_refl. Qed.

Lemma same_rows_load now r r' jid : same_rows r r' -> (load now jid r').1 = (load now jid r).1.
Proof.
  intros H. apply (ae_load now (jid +:+ "x") r r' jid (H _)).
  intros E%(f_equal str_len). rewrite <- !chars_length, chars_app, length_app in E. simpl in E. lia.
Qed.

Lemma M_bind_err {A B} (m : M A) (f : A -> M B) r x r' :
  (m ≫= f) r = (Err x, r') <->
  m r = (Err x, r') \/ exists a r1, m r = (Ok a, r1) /\ f a r1 = (Err x, r').
Proof.
  unfold mbind, M_bind. destruct (m r) as [[a|e] r1]; split.
  - intros H. right. by exists a, r1.
  - by intros [[=] | (a' & r1' & [= <- <-] & H)].
  - intros [= -> ->]. by left.
  - by intros [[= -> ->] | (a' & r1' & [=] & H)].
Qed.
Lemma lift_err {A} (x : result A) r e r' : lift x r = (Err e, r') <-> x = Err e /\ r' = r.
Proof. unfold lift. naive_solver. Qed.

Lemma resolve_create_err jid r x r' :
  resolve_registry_record jid true r = (Err x, r') ->
  same_rows r r' /\ r'.(index_file) = r.(index_file).
Proof.
  unfold resolve_registry_record. rewrite M_bind_err.
  intros [[_ ->]%lift_err | (id & ? & [_ ->]%lift_ok & H)]; [split; [apply same_rows_refl|done]|].
  apply M_bind_err in H as [H | (? & ? & [-> ->]%get_ok & H)]; [done|].
  apply M_bind_err in H as [[_ ->]%lift_err | (locs & ? & [_ ->]%lift_ok & H)];
    [split; [apply same_rows_refl|done]|].
  destruct locs as [|l [|? ?]].
  - apply M_bind_err in H as [H | (u & ? & ->%modify_ok & H)]; [done|].
    apply M_bind_err in H as [H | (? & ? & [-> ->]%get_ok & H)]; [done|].
    apply M_bind_err in H as [[_ ->]%lift_err | (? & ? & [_ ->]%lift_ok & H)]; [|done].
    split; [intros j; apply ae_make_dir | by destruct (current_slot r)].
  - done.
  - apply lift_err in H as [_ ->]. split; [apply same_rows_refl|done].
Qed.

Lemma resolve_create_same jid r l r1 :
  resolve_registry_record jid true r = (Ok l, r1) -> same_rows r r1 /\ r1.(index_file) = r.(index_file).
Proof.
  unfold resolve_registry_record. rewrite M_bind_ok. intros (id & ? & [_ ->]%lift_ok & H).
  apply M_bind_ok in H as (? & ? & [-> ->]%get_ok & H).
  apply M_bind_ok in H as (locs & ? & [_ ->]%lift_ok & H).
  destruct locs as [|l0 [|? ?]].
  - apply M_bind_ok in H as ([] & ? & ->%modify_ok & H).
    apply M_bind_ok in H as (? & ? & [-> ->]%get_ok & H).
    apply M_bind_ok in H as (? & ? & [_ ->]%lift_ok & H). apply M_ret_ok in H as [_ ->].
    split; [intros j; apply ae_make_dir | by destruct (current_slot r)].
  - apply M_ret_ok in H as [_ ->]. split; [apply same_rows_refl|done].
  - by apply lift_ok in H as [[=] _].
Qed.

(** The tail of [save] after the document is in place cannot fail. *)
Lemma canonical_claim e :
  (canonical e).(dispatch_token) = e.(dispatch_token) /\
  (canonical e).(dispatch_node) = e.(dispatch_node).
Proof. by rewrite canonical_flat. Qed.

Lemma complete_claim reg e :
  (complete reg e).(dispatch_token) = e.(dispatch_token) /\
  (complete reg e).(dispatch_node) = e.(dispatch_node).
Proof. by rewrite complete_eq. Qed.

Lemma commit_total size ok now s jid row previous (entry : JobEntry) r1 res r' :
  valid_job_id jid = true -> holds_only r1 s jid -> unique_keys row -> row.(job_id) = jid ->
  valid_diagnostics row = true ->
  (exists d, decode_registry_document now (JDict (flat_document row)) None (Some jid) true = Ok d) ->
  row.(dispatch_token) = entry.(dispatch_token) -> row.(dispatch_node) = entry.(dispatch_node) ->
  (modify (put_file s jid (envelope row) now) ;;
   resolved ← resolve_registry_record jid false;
   lift (raise_if (negb match resolved with
                        | Some l' => bool_decide (l'.(l_slot) = s)
                        | None => false
                        end)
     (RegistryError "registry authority changed while the record was saved")) ;;
   _refresh_active_index_after_mutation size ok now previous (Some row) None ;;
   match entry.(dispatch_token) with
   | None => mret entry
   | Some _ =>
       r ← get;
       verified ← lift (_read_entry_path now s jid true r);
       lift (raise_if (negb (bool_decide (verified.(dispatch_token) = entry.(dispatch_token))
                             && bool_decide (verified.(dispatch_node) = entry.(dispatch_node))))
         (RegistryError "dispatch reservation could not be read back")) ;;
       mret entry
   end) r1 = (res, r') -> res = Ok entry.
Proof.
  intros Hv Hh Hu Hid Hd [d Hdec] Ht Hn.
  set (r2 := put_file s jid (envelope row) now r1).
  assert (authority r2 jid = Ok (Some s)) as Ha by (by apply authority_put).
  unfold mbind at 1, M_bind at 1, modify. fold r2.
  unfold mbind at 1, M_bind at 1. rewrite resolve_eq', Hv, Ha. cbn [option_map l_slot].
  rewrite bool_decide_true by done. cbn [negb raise_if].
  unfold mbind at 1, M_bind at 1, lift at 1. unfold mbind at 1, M_bind at 1.
  destruct (_refresh_active_index_after_mutation _ _ _ _ _ _ r2) as [res0 r3] eqn:E.
  apply refresh_inv in E as [-> [ix ->]].
  destruct (entry.(dispatch_token)) as [t|] eqn:Etok; [|by intros [= <- _]].
  unfold mbind, M_bind, get, lift.
  destruct (read_published now now (r2 <| index_file := ix |>) s jid row now d) as [-> _]; try done.
  { transitivity ((slot_dir r2 s).(files) !! jid); [by destruct s|].
    unfold r2, put_file. rewrite slot_dir_set, decide_True by done. apply lookup_insert_eq. }
  destruct (complete_claim (Some now) (canonical row)) as [-> ->].
  destruct (canonical_claim row) as [-> ->]. rewrite Ht, Hn, ?Etok.
  rewrite !bool_decide_true by done. by intros [= <- _].
Qed.

(** The row handed to the encoder, before anything is written. *)
Definition prepared_row (now : Q) (filled persisted : JobEntry) : JobEntry :=
  if filled.(custom_env_loaded) then stamp now filled else persisted <| updated_at := Some now |>.

Lemma prepared_row_facts now existing filled persisted r s :
  unique_keys filled ->
  match existing with
  | Some e => _read_entry_path now s filled.(job_id) true r = Ok e
  | None => True
  end ->
  persisted_row existing filled = Ok persisted ->
  unique_keys (prepared_row now filled persisted) /\
  (prepared_row now filled persisted).(job_id) = filled.(job_id) /\
  (prepared_row now filled persisted).(dispatch_token) = filled.(dispatch_token) /\
  (prepared_row now filled persisted).(dispatch_node) = filled.(dispatch_node).
Proof.
  intros Hu Hex Hp. unfold prepared_row.
  destruct (filled.(custom_env_loaded)) eqn:Hl.
  - unfold stamp. simpl. destruct Hu. destruct (filled.(custom_env_loaded)); done.
  - unfold persisted_row in Hp. rewrite Hl in Hp. destruct existing as [current|]; [|done].
    apply bind_raise_ok in Hp as [_ [= <-]].
    apply read_entry_wf in Hex as (_ & _ & Henv & _).
    destruct Hu. split; [|done]. split; try done. simpl. apply Henv.
Qed.

Lemma unique_keys_fill hr existing e : unique_keys e -> unique_keys (fill_layout hr existing e).
Proof. intros []. unfold fill_layout. by repeat case_match. Qed.

Lemma stamp_claim now e :
  (stamp now e).(dispatch_token) = e.(dispatch_token) /\
  (stamp now e).(dispatch_node) = e.(dispatch_node).
Proof. unfold stamp. simpl. by destruct (e.(custom_env_loaded)). Qed.

Lemma save_err size ok now writable entry r x r' :
  unique_keys entry -> save size ok now writable entry r = (Err x, r') ->
  same_rows r r' /\ r'.(index_file) = r.(index_file).
Proof.
  intros Hu. unfold save. rewrite M_bind_err.
  intros [[_ ->]%lift_err | (id & ? & [Hid ->]%lift_ok & H)]; [split; [apply same_rows_refl|done]|].
  unfold _require_job_id in Hid. destruct (valid_job_id entry.(job_id)) eqn:Hv; [|done].
  injection Hid as <-.
  apply M_bind_err in H as [H | (l & r1 & Hres & H)]; [by eapply resolve_create_err|].
  apply resolve_create_same in Hres as Hsame.
  destruct l as [l|]; [|by apply lift_err in H as [_ ->]].
  apply M_bind_err in H as [[=] | (? & ? & [-> ->]%get_ok & H)].
  apply M_bind_err in H as [H | (existing & r2 & Hex & H)].
  { destruct (l.(l_exists)); [|done].
    unfold fmap, M_fmap, lift in H. destruct (_read_entry_path _ _ _ _ _); simplify_eq. done. }
  assert (r2 = r1 /\ match existing with
    | Some e => _read_entry_path now l.(l_slot) entry.(job_id) true r1 = Ok e
    | None => True end) as [-> Hexisting].
  { destruct (l.(l_exists)); [|by apply M_ret_ok in Hex as [-> ->]].
    unfold fmap, M_fmap, lift in Hex. destruct (_read_entry_path _ _ _ _ _); by simplify_eq. }
  apply M_bind_err in H as [[_ ->]%lift_err | ([] & ? & [_ ->]%lift_ok & H)]; [done|].
  apply M_bind_err in H as [[_ ->]%lift_err | ([] & ? & [_ ->]%lift_ok & H)]; [done|].
  apply M_bind_err in H as [[_ ->]%lift_err | (persisted & ? & [Hper ->]%lift_ok & H)]; [done|].
  apply M_bind_err in H as [[_ ->]%lift_err | ([doc row] & ? & [Henc ->]%lift_ok & H)]; [done|].
  apply M_bind_err in H as [[=] | (? & ? & [-> ->]%get_ok & H)].
  apply M_bind_err in H as [[_ ->]%lift_err | ([] & ? & [_ ->]%lift_ok & H)]; [done|].
  exfalso. apply encode_inv in Henc as (Hrow & -> & _ & [d Hd]).
  set (filled := fill_layout r1.(head_role) existing entry) in *.
  apply resolve_create_inv in Hres as (_ & Hh & _).
  assert (filled.(job_id) = entry.(job_id)) as Hfid by apply fill_layout_id.
  rewrite <- Hfid in Hexisting.
  destruct (prepared_row_facts now existing filled persisted r1 l.(l_slot)
    (unique_keys_fill _ _ _ Hu) Hexisting Hper) as (Hup & Hpid & Htok & Hnode).
  assert (row = bound_entry (prepared_row now filled persisted)) as Hrow' by exact Hrow.
  clear Hrow. destruct (stamp_claim now filled) as [Hst Hsn].
  assert (row.(dispatch_token) = filled.(dispatch_token) /\
    row.(dispatch_node) = filled.(dispatch_node) /\ row.(job_id) = entry.(job_id)) as (Ht & Hn & Hrid).
  { rewrite Hrow'. split; [exact Htok|]. split; [exact Hnode|].
    change ((prepared_row now filled persisted).(job_id) = entry.(job_id)). by rewrite Hpid. }
  apply (commit_total size ok now l.(l_slot) entry.(job_id) row) in H; try done.
  - rewrite Hrow'. by apply unique_keys_bound.
  - rewrite Hrow'. apply bound_entry_diagnostics.
  - exists d. by rewrite Hrid in Hd.
  - rewrite Ht. by destruct (filled.(custom_env_loaded)).
  - rewrite Hn. by destruct (filled.(custom_env_loaded)).
Qed.
