(* ===== verification/RegistrySpec.v ===== *)
(** * What the registry promises

    Atomic, isolated saves that read back; private values preserved through
    scans that discarded them; irreversible finality; and split brain that is
    refused by every operation instead of resolved. *)

From S2P Require Import Prelude Text PyValue Diagnostics Layout CustomEnv JobEntry RegistryCodec CodecFacts CodecSound CodecRoundtrip CodecSpec CodecCanonical Lifecycle Registry ActiveIndex RegistryOps RegistryFacts.

Lemma stamp_loaded now e : (stamp now e).(custom_env_loaded) = e.(custom_env_loaded).
Proof. unfold stamp. simpl. by destruct (e.(custom_env_loaded)) eqn:E. Qed.

Section registry.
Context (size : json -> nat) (ok : bool).

(** A save never affects another job. *)
Lemma save_others now writable entry r res r' now' jid :
  unique_keys entry -> save size ok now writable entry r = (res, r') ->
  jid <> entry.(job_id) -> (load now' jid r').1 = (load now' jid r).1.
Proof.
  intros Hu H Hne. destruct res as [out|x].
  - apply save_inv in H as (existing & row & s & S).
    destruct S as [_ _ _ _ _ _ (r1 & ix & Hag & Hh & _ & _ & ->)].
    eapply ae_load; [|exact Hne]. eapply ae_trans; [exact Hag|].
    eapply ae_trans; [apply ae_put, Hh | apply ae_index].
  - apply same_rows_load. by eapply save_err.
Qed.

(** What the published row keeps of the caller's row: everything except the
    filled layout, the clock stamp and the private mapping. *)
Lemma saved_row_fields now entry r out r' existing row s :
  saved size now entry r out r' existing row s ->
  row = bound_entry (entry <| storage_layout := row.(storage_layout) |> <| updated_at := Some now |>
          <| custom_env := row.(custom_env) |> <| custom_env_keys := row.(custom_env_keys) |>
          <| custom_env_loaded := true |>) /\
  (entry.(custom_env_loaded) = true -> row.(custom_env) = entry.(custom_env) /\ row = out).
Proof.
  intros [_ _ _ (filled & persisted & -> & Hp & -> & -> & _) _ _ _].
  set (filled := fill_layout r.(head_role) existing entry) in *.
  assert (exists sl, filled = entry <| storage_layout := sl |>) as [sl Hf].
  { unfold filled, fill_layout. exists (filled.(storage_layout)). unfold filled, fill_layout.
    repeat case_match; destruct entry; reflexivity. }
  clearbody filled. subst filled. unfold stamp. cbn in Hp |- *.
  destruct (entry.(custom_env_loaded)) eqn:E.
  - cbn. split; [|done]. destruct entry. cbn in E |- *. by subst.
  - unfold persisted_row in Hp. cbn in Hp. rewrite E in Hp. destruct existing as [c|]; [|done].
    apply bind_raise_ok in Hp as [_ [= <-]]. by destruct entry.
Qed.


(** A row read without its private values is written back with the stored ones. *)
Lemma save_preserves_environment now writable entry r out r' :
  unique_keys entry -> entry.(custom_env_loaded) = false ->
  save size ok now writable entry r = (Ok out, r') ->
  exists before after, (load now entry.(job_id) r).1 = Ok (Some before) /\
    load now entry.(job_id) r' = (Ok (Some after), r') /\
    after.(custom_env) = before.(custom_env) /\
    entry.(custom_env_keys) = sort_strings before.(custom_env).*1.
Proof.
  intros Hu Hload H. apply save_inv in H as (existing & row & s & S).
  destruct (saved_load _ _ _ _ _ _ _ _ _ now Hu S) as [Hafter _].
  destruct S as [Hv Hex _ (filled & persisted & Hf & Hp & Hrow & _) _ _ _].
  assert (filled.(custom_env_loaded) = false) as Hfl.
  { subst filled. unfold fill_layout. by repeat case_match. }
  assert (filled.(custom_env_keys) = entry.(custom_env_keys)) as Hfk.
  { subst filled. unfold fill_layout. by repeat case_match. }
  unfold persisted_row in Hp. rewrite Hfl in Hp, Hrow. destruct existing as [before|]; [|done].
  apply bind_raise_ok in Hp as [Hkeys [= <-]]. destruct Hex as [Ha Hread].
  exists before, (complete (Some now) (canonical row)).
  split; [by rewrite load_eq, Hv, Ha, Hread|]. split; [exact Hafter|]. split.
  - rewrite complete_eq, canonical_flat, Hrow. simpl.
    apply sort_by_id. apply read_entry_wf in Hread as (_ & _ & Henv & _). apply Henv.
  - apply negb_false_iff, bool_decide_eq_true in Hkeys. by rewrite Hkeys, Hfk.
Qed.

(** ** Finality *)
Definition finalized (r : registry) (jid : string) (t : Q) : Prop :=
  forall now, exists e t', load now jid r = (Ok (Some e), r) /\ e.(status) = Lost /\
    e.(terminal_finalized_at) = Some t' /\ (t' == t)%Q.

Lemma finalized_agrees jid job r r' t :
  agrees_except job r r' -> jid <> job -> finalized r jid t -> finalized r' jid t.
Proof.
  intros H Hne F now. destruct (F now) as (e & t' & Hl & ? & ? & ?). exists e, t'.
  split; [|done]. pose proof (ae_load now job r r' jid H Hne) as Heq. rewrite Hl in Heq.
  rewrite <- (load_state now jid r') at 2. destruct (load now jid r'); simpl in *. by subst.
Qed.

Lemma finalized_same_rows jid r r' t : same_rows r r' -> finalized r jid t -> finalized r' jid t.
Proof.
  intros H. apply (finalized_agrees jid (jid +:+ "x") r r' t (H _)).
  intros E%(f_equal str_len). rewrite str_len_app in E. simpl in E. lia.
Qed.

Lemma saved_verdict now entry r out r' existing row s :
  saved size now entry r out r' existing row s ->
  (complete (Some now) (canonical row)).(status) = entry.(status) /\
  (complete (Some now) (canonical row)).(terminal_finalized_at) = entry.(terminal_finalized_at).
Proof.
  intros [_ _ _ (filled & persisted & Hf & Hp & -> & _) _ _ _].
  rewrite complete_eq, canonical_flat. simpl.
  assert (filled.(status) = entry.(status) /\
          filled.(terminal_finalized_at) = entry.(terminal_finalized_at)) as [<- <-].
  { subst filled. unfold fill_layout. by repeat case_match. }
  destruct (filled.(custom_env_loaded)) eqn:E; [unfold stamp; simpl; by rewrite E|].
  unfold persisted_row in Hp. rewrite E in Hp. destruct existing as [c|]; [|done].
  by apply bind_raise_ok in Hp as [_ [= <-]].
Qed.

Lemma save_keeps_finality now writable entry r res r' jid t :
  unique_keys entry -> save size ok now writable entry r = (res, r') ->
  finalized r jid t -> finalized r' jid t.
Proof.
  intros Hu H F. destruct res as [out|x]; [|eapply finalized_same_rows; [by eapply save_err|done]].
  apply save_inv in H as (existing & row & s & S).
  destruct (decide (jid = entry.(job_id))) as [->|Hne].
  - intros now'. exists (complete (Some now) (canonical row)).
    destruct (saved_verdict _ _ _ _ _ _ _ _ S) as [-> ->].
    destruct (saved_load _ _ _ _ _ _ _ _ _ now' Hu S) as [Hl _].
    destruct (F now) as (e & t' & He & Hst & Hfin & Ht).
    destruct S as [Hv Hex Hfinality _ _ _ _]. rewrite load_eq, Hv in He.
    destruct existing as [e'|].
    + destruct Hex as [Ha Hread]. rewrite Ha, Hread in He. injection He as <-.
      unfold check_finality in Hfinality. rewrite Hfin in Hfinality.
      apply raise_if_ok in Hfinality. rewrite bool_decide_true in Hfinality by done.
      apply orb_false_iff in Hfinality as [Hs%negb_false_iff Hq%negb_false_iff].
      apply bool_decide_eq_true in Hs.
      destruct (entry.(terminal_finalized_at)) as [a|]; [|done].
      exists a. split; [done|]. split; [done|]. split; [done|].
      apply Qeq_bool_iff in Hq. by rewrite Hq.
    + destruct Hex as [Ha _]. by rewrite Ha in He.
  - destruct S as [_ _ _ _ _ _ (r1 & ix & Hag & Hh & _ & _ & ->)].
    eapply finalized_agrees; [|exact Hne|exact F]. eapply ae_trans; [exact Hag|].
    eapply ae_trans; [apply ae_put, Hh | apply ae_index].
Qed.

(** A save publishing a finalized loss makes it final. *)
Lemma saved_finalized now writable entry r out r' t :
  unique_keys entry -> save size ok now writable entry r = (Ok out, r') ->
  entry.(status) = Lost -> entry.(terminal_finalized_at) = Some t -> finalized r' entry.(job_id) t.
Proof.
  intros Hu H Hst Hfin. apply save_inv in H as (existing & row & s & S). intros now'.
  destruct (saved_verdict _ _ _ _ _ _ _ _ S) as [Hs Hf].
  destruct (saved_load _ _ _ _ _ _ _ _ _ now' Hu S) as [Hl _].
  exists (complete (Some now) (canonical row)), t. rewrite Hs, Hf, Hst, Hfin. done.
Qed.

(** ** Removal *)
Lemma remove_inv now removable jid r res r' :
  remove_record size ok now removable jid r = (res, r') ->
  (r' = r /\ (res = Ok tt -> valid_job_id jid = true /\ authority r jid = Ok None)) \/
  (res = Ok tt /\ exists s ix e, authority r jid = Ok (Some s) /\
     _read_entry_path now s jid true r = Ok e /\ authority r' jid = Ok None /\
     r' = drop_file s jid r <| index_file := ix |>).
Proof.
  unfold remove_record, _require_job_id.
  destruct (valid_job_id jid) eqn:Hv; [|by intros [= <- <-]; left].
  unfold mbind at 1, M_bind at 1, lift at 1. unfold mbind at 1, M_bind at 1.
  rewrite resolve_eq', Hv. destruct (authority r jid) as [[s|]|] eqn:Ha;
    cbn [option_map l_slot]; [|by intros [= <- <-]; left|by intros [= <- <-]; left].
  unfold mbind at 1, M_bind at 1, get. unfold mbind at 1, M_bind at 1, lift at 1.
  destruct (_read_entry_path now s jid true r) as [e|] eqn:He; [|by intros [= <- <-]; left].
  destruct removable; [|by intros [= <- <-]; left].
  cbn [negb raise_if]. unfold mbind at 1, M_bind at 1, lift at 1.
  unfold mbind at 1, M_bind at 1, modify. unfold mbind at 1, M_bind at 1.
  rewrite resolve_eq', Hv.
  pose proof (proj1 (authority_some r jid s) Ha) as [Hh _].
  assert (authority (drop_file s jid r) jid = Ok None) as Hnone.
  { apply authority_none. intros s' Hs'. unfold drop_file in *. rewrite set_dir_order in Hs'.
    unfold has_record, _require_private_directory. rewrite slot_dir_set.
    destruct (decide (s = s')) as [<-|Hne].
    - simpl. destruct Hh as (-> & _). simpl. by rewrite lookup_delete_eq.
    - destruct Hh as (_ & _ & Hall). exact (Hall s' Hs' (fun E => Hne (eq_sym E))). }
  rewrite Hnone. cbn [option_map]. unfold mbind at 1, M_bind at 1, lift.
  rewrite bool_decide_false by (by intros [? [=]]). cbn [raise_if].
  intros H. apply refresh_inv in H as [-> [ix ->]]. right. split; [done|].
  exists s, ix, e. rewrite authority_index. done.
Qed.

(** A removal that succeeds leaves the job absent and every other job as it was; one
    that fails leaves the store unchanged. *)
Lemma remove_isolated now removable jid r res r' :
  remove_record size ok now removable jid r = (res, r') ->
  (forall now' other, other <> jid -> (load now' other r').1 = (load now' other r).1) /\
  match res with
  | Ok _ => forall now', load now' jid r' = (Ok None, r')
  | Err _ => r' = r
  end.
Proof.
  intros H. apply remove_inv in H as [[-> Hok]|(-> & s & ix & e & Ha & _ & Hnone & Hr')].
  - split; [done|]. destruct res as [[]|x]; [|done].
    destruct (Hok eq_refl) as [Hv Ha]. intros now'. by rewrite load_eq, Hv, Ha.
  - pose proof (proj1 (authority_some r jid s) Ha) as [Hh _]. split.
    + intros now' other Hne. apply (ae_load now' jid); [|done]. subst r'.
      eapply ae_trans; [apply ae_drop, Hh | apply ae_index].
    + intros now'. rewrite load_eq, Hnone. by destruct (valid_job_id jid).
Qed.

(** ** Reachable stores *)

(** Every mutation of the store other than removing [jid] itself. *)
Inductive registry_step (jid : string) : registry -> registry -> Prop :=
  | step_save now writable entry r res r' :
      unique_keys entry -> save size ok now writable entry r = (res, r') ->
      registry_step jid r r'
  | step_finalize now writable id r res r' :
      finalize_dependency_terminal size ok now writable id r = (res, r') ->
      registry_step jid r r'
  | step_remove now removable id r res r' :
      id <> jid -> remove_record size ok now removable id r = (res, r') ->
      registry_step jid r r'
  | step_query now publish r res r' :
      active_entries size ok now publish r = (res, r') -> registry_step jid r r'.

Lemma read_entry_unique now s jid include r e :
  _read_entry_path now s jid include r = Ok e -> unique_keys e.
Proof.
  intros (raw & mtime & _ & Hs & H)%read_entry_inv.
  unfold decode_registry_document in H.
  destruct raw as [| | | | | |doc]; try done.
  destruct (dict_has "schema_version" doc).
  - destruct (negb (str_in _ _)); [done|]. destruct (negb (same_keys _ _)); [done|].
    destruct (dict_get "job" doc) as [| | | | | |job] eqn:Hj; try done.
    cbn [is_dict negb raise_if mbind result_bind as_registry_error] in H.
    assert (strict (JDict job)) as Hjob.
    { unfold dict_get in Hj. destruct (assoc "job" doc) as [v|] eqn:E; [|done].
      simpl in Hj. subst v. by eapply strict_assoc. }
    destruct (_decode_entry now (JDict job) (Some mtime) (Some jid) include) as [e'|[]] eqn:E;
      simpl in H; simplify_eq. by eapply decode_unique_keys.
  - cbn [mbind result_bind as_registry_error] in H.
    destruct (_decode_entry now (JDict doc) (Some mtime) (Some jid) include) as [e'|[]] eqn:E;
      simpl in H; simplify_eq. by eapply decode_unique_keys.
Qed.

Lemma load_unique now jid r e r' : load now jid r = (Ok (Some e), r') -> unique_keys e.
Proof.
  rewrite load_eq. destruct (valid_job_id jid); [|done].
  destruct (authority r jid) as [[s|]|]; [|done|done].
  destruct (_read_entry_path now s jid true r) as [e'|] eqn:E; [|done].
  intros [= <- _]. by eapply read_entry_unique.
Qed.

(** The fence either leaves the store alone or is one save. *)
Lemma finalize_inv now writable id r res r' :
  finalize_dependency_terminal size ok now writable id r = (res, r') ->
  r' = r \/ exists e out, unique_keys e /\ save size ok now writable e r = (out, r').
Proof.
  unfold finalize_dependency_terminal, mbind, M_bind.
  pose proof (load_state now id r) as Hst.
  destruct (load now id r) as [[[e|]|x] r0] eqn:Hl; simpl in Hst; subst r0;
    [|by intros [= _ <-]; left|by intros [= _ <-]; left].
  unfold lift. destruct (finalize_row now e) as [[fenced|]|] eqn:Hf;
    [|by intros [= _ <-]; left|by intros [= _ <-]; left].
  destruct (save size ok now writable fenced r) as [out r1] eqn:Hs. intros H. right.
  exists fenced, out. split.
  - unfold finalize_row in Hf. apply bind_raise_ok in Hf as [_ [= Hf]].
    repeat case_match; simplify_eq; apply load_unique in Hl; by destruct Hl.
  - destruct out; by injection H as _ <-.
Qed.

(** A query writes at most the derived index. *)
Lemma query_inv now publish r res r' :
  active_entries size ok now publish r = (res, r') ->
  exists ix, r' = r <| index_file := ix |>.
Proof.
  assert (r = r <| index_file := r.(index_file) |>) as Hsame by (by destruct r).
  assert (forall res r', rebuild size ok now publish r = (res, r') ->
    exists ix, r' = r <| index_file := ix |>) as Hrebuild.
  { clear res r'. intros res r'. unfold rebuild, mbind, M_bind, get.
    destruct (rebuild_scan now r r r) as [[active found] [after|]];
      [|intros [= _ <-]; by eexists].
    destruct publish; [|intros [= _ <-]; by eexists].
    unfold rebuild_publish.
    destruct (_registry_directory_revisions r) as [current|]; [|intros [= _ <-]; by eexists].
    destruct (json_eqb current after); [|intros [= _ <-]; by eexists].
    destruct (_write_active_index _ _ _ _ _ r) as [w r1] eqn:E.
    apply write_index_inv in E as [(-> & d & ->)|(-> & revs & -> & _)]; intros [= _ <-];
      by eexists. }
  unfold active_entries, mbind, M_bind, get.
  destruct (_read_active_index r) as [index|]; [|apply Hrebuild].
  destruct (load_indexed now index.(job_ids) r); [|apply Hrebuild].
  intros [= _ <-]. by eexists.
Qed.

Lemma step_keeps_finality jid r r' t :
  registry_step jid r r' -> finalized r jid t -> finalized r' jid t.
Proof.
  destruct 1 as [now w e r res r' Hu H|now w id r res r' H|now w id r res r' Hne H|now p r res r' H].
  - by eapply save_keeps_finality.
  - apply finalize_inv in H as [->|(e & out & Hu & H)]; [done|]. by eapply save_keeps_finality.
  - intros F. apply remove_inv in H as [[-> _]|(_ & s & ix & e & Ha & _ & _ & ->)]; [done|].
    pose proof (proj1 (authority_some r id s) Ha) as [Hh _].
    eapply (finalized_agrees jid id); [|congruence|exact F].
    eapply ae_trans; [apply ae_drop, Hh | apply ae_index].
  - apply query_inv in H as [ix ->]. apply finalized_same_rows. intros j. apply ae_index.
Qed.

(** C14. Along any sequence of saves, fences, removals of other jobs and queries, a
    finalized lost verdict stays lost with its finality time. *)
Lemma finality_irreversible jid r r' t :
  rtc (registry_step jid) r r' -> finalized r jid t -> finalized r' jid t.
Proof. induction 1; eauto using step_keeps_finality. Qed.

(** ** Split brain *)

(** Both directories of a role-layout head hold a document for the job. *)
Definition split_brain (r : registry) (jid : string) : Prop :=
  r.(head_role) = true /\
  (forall s, (slot_dir r s).(kind) = PrivateDir) /\
  (forall s, exists text m, (slot_dir r s).(files) !! jid = Some (StoredFile text m)).

Lemma split_has_record r jid s : split_brain r jid -> has_record r jid s = Ok true.
Proof.
  intros (_ & Hk & Hf). unfold has_record, _require_private_directory. rewrite Hk. simpl.
  by destruct (Hf s) as (text & m & ->).
Qed.

Lemma split_locations r jid : split_brain r jid ->
  _registry_locations r jid = Ok [mkLocation RoleSlot true; mkLocation LegacySlot true].
Proof.
  intros H. pose proof H as (Hr & _). unfold _registry_locations, resolve_order. rewrite Hr.
  rewrite !locations_in_cons, !split_has_record by done. done.
Qed.

Lemma split_resolve r jid create : split_brain r jid -> valid_job_id jid = true ->
  resolve_registry_record jid create r = (Err (RegistryError "split-brain registry row"), r).
Proof.
  intros H Hv. unfold resolve_registry_record, mbind, M_bind, lift, get, _require_job_id.
  by rewrite Hv, split_locations.
Qed.

(** C24. Every operation on a split row fails and leaves the store as it is. *)
Lemma split_brain_refused r jid now writable entry :
  split_brain r jid -> valid_job_id jid = true -> entry.(job_id) = jid ->
  let refusal := RegistryError "split-brain registry row" in
  load now jid r = (Err refusal, r) /\
  save size ok now writable entry r = (Err refusal, r) /\
  remove_record size ok now writable jid r = (Err refusal, r) /\
  finalize_dependency_terminal size ok now writable jid r = (Err refusal, r).
Proof.
  intros H Hv Hid refusal.
  assert (load now jid r = (Err refusal, r)) as Hload.
  { rewrite load_eq, Hv. unfold authority. by rewrite split_locations. }
  split; [done|]. split; [|split].
  - unfold save, mbind at 1, M_bind at 1, lift at 1, _require_job_id. rewrite Hid, Hv.
    unfold mbind at 1, M_bind at 1. by rewrite split_resolve.
  - unfold remove_record, mbind at 1, M_bind at 1, lift at 1, _require_job_id. rewrite Hv.
    unfold mbind at 1, M_bind at 1. by rewrite split_resolve.
  - unfold finalize_dependency_terminal, mbind, M_bind. by rewrite Hload.
Qed.
End registry.

(** ** Concrete instances *)
Definition sample_registry : registry :=
  mkRegistry true "/home/u/dt/registry" "/home/u/dt/head/registry"
    (mkDirectory PrivateDir 1 10 1 ∅) (mkDirectory PrivateDir 1 11 1 ∅) None.
Definition sample_size : json -> nat := fun _ => 0%nat.

Lemma test_entry_unique : unique_keys test_entry.
Proof. split; [done | done | constructor..]. Qed.

Definition saved_once : result JobEntry * registry :=
  save sample_size true 200%Q true test_entry sample_registry.


(** A second save of the row, by a caller whose scan discarded the private values. *)
Definition with_env : JobEntry :=
  test_entry <| custom_env := [("SEED", "7")] |> <| custom_env_keys := ["SEED"] |>.
Definition stored_env : registry := (save sample_size true 200%Q true with_env sample_registry).2.
Definition masked_env : JobEntry :=
  test_entry <| custom_env_keys := ["SEED"] |> <| custom_env_loaded := false |>.

Lemma masked_env_unique : unique_keys masked_env.
Proof. split; [done | done | constructor..]. Qed.

Lemma save_preserves_environment_witness :
  is_ok (save sample_size true 300%Q true masked_env stored_env).1 = true /\
  exists before after : JobEntry, after.(custom_env) = before.(custom_env).
Proof.
  assert (is_ok (save sample_size true 300%Q true masked_env stored_env).1 = true) as Hok
    by (vm_compute; reflexivity).
  split; [exact Hok|]. revert Hok.
  destruct (save sample_size true 300%Q true masked_env stored_env) as [res r'] eqn:E. cbn [fst].
  destruct res as [out|x]; [|discriminate]. intros _.
  destruct (save_preserves_environment sample_size true 300%Q true masked_env stored_env out r'
    masked_env_unique eq_refl E) as (before & after & _ & _ & Henv & _).
  exact (ex_intro _ before (ex_intro _ after Henv)).
Defined.

(** A finalized loss, and a later save of another job. *)
Definition lost_entry : JobEntry :=
  test_entry <| job_id := "20260101-0001_lost_0123456789abcdef" |> <| status := Lost |>
    <| job_dir := "~/dt/worker/jobs/20260101-0001_lost_0123456789abcdef" |>
    <| terminal_finalized_at := Some 150%Q |>.
Definition stored_lost : registry := (save sample_size true 200%Q true lost_entry sample_registry).2.

Lemma lost_entry_unique : unique_keys lost_entry.
Proof. split; [done | done | constructor..]. Qed.

Lemma stored_lost_finalized : finalized stored_lost lost_entry.(job_id) 150%Q.
Proof.
  assert (is_ok (save sample_size true 200%Q true lost_entry sample_registry).1 = true) as Hok
    by (vm_compute; reflexivity). revert Hok. unfold stored_lost.
  destruct (save sample_size true 200%Q true lost_entry sample_registry) as [[out|] r'] eqn:E;
    [|discriminate]. intros _.
  exact (saved_finalized sample_size true 200%Q true lost_entry sample_registry out r' 150%Q
    lost_entry_unique E eq_refl eq_refl).
Qed.

Lemma finality_irreversible_witness :
  finalized (save sample_size true 300%Q true test_entry stored_lost).2 lost_entry.(job_id) 150%Q.
Proof.
  apply (finality_irreversible sample_size true lost_entry.(job_id) stored_lost _ 150%Q);
    [|exact stored_lost_finalized].
  apply rtc_once.
  destruct (save sample_size true 300%Q true test_entry stored_lost) as [res r'] eqn:E. cbn [snd].
  exact (step_save sample_size true _ 300%Q true test_entry stored_lost res r' test_entry_unique E).
Defined.

(** Both directories hold the row. *)
Definition split_registry : registry :=
  let d := {[ test_entry.(job_id) := StoredFile None 0%Q ]} in
  sample_registry <| legacy_dir := mkDirectory PrivateDir 1 10 1 d |>
    <| role_dir := mkDirectory PrivateDir 1 11 1 d |>.

Lemma split_brain_refused_witness :
  save sample_size true 300%Q true test_entry split_registry
  = (Err (RegistryError "split-brain registry row"), split_registry).
Proof.
  apply (split_brain_refused sample_size true split_registry test_entry.(job_id) 300%Q true test_entry);
    [|reflexivity|reflexivity].
  split; [reflexivity|]. split; [by intros []|]. intros []; by exists None, 0%Q.
Defined.

Lemma remove_isolated_witness :
  load 400%Q test_entry.(job_id)
    (remove_record sample_size true 300%Q true test_entry.(job_id) saved_once.2).2
  = (Ok None, (remove_record sample_size true 300%Q true test_entry.(job_id) saved_once.2).2).
Proof.
  assert ((remove_record sample_size true 300%Q true test_entry.(job_id) saved_once.2).1 = Ok tt)
    as Hok by (vm_compute; reflexivity). revert Hok.
  destruct (remove_record sample_size true 300%Q true test_entry.(job_id) saved_once.2)
    as [res r'] eqn:E. cbn [fst snd]. intros ->.
  exact (proj2 (remove_isolated sample_size true 300%Q true _ _ _ _ E) 400%Q).
Defined.
