(* ===== verification/RegistryScan.v ===== *)
(** * The full scans agree

    [iter_all] streams the registry one directory at a time; [list_all] first
    collects every name.  Both report the same rows and the same damage, and a
    row two directories hold is damage in both, never a row. *)

From S2P Require Import Prelude Text PyValue Diagnostics Layout CustomEnv JobEntry RegistryCodec Lifecycle Registry ActiveIndex RegistryOps.

(** ** Names *)
Lemma visible_names_spec d n : n ∈ visible_names d <-> is_Some (d.(files) !! n).
Proof.
  unfold visible_names. rewrite sort_strings_perm, list_elem_of_fmap. split.
  - intros ([k f] & -> & H%elem_of_map_to_list). by exists f.
  - intros [f H]. exists (n, f). split; [done|]. by apply elem_of_map_to_list.
Qed.

Lemma visible_names_nodup d : NoDup (visible_names d).
Proof. unfold visible_names. rewrite sort_strings_perm. apply NoDup_fst_map_to_list. Qed.

Lemma occupied_spec r n s : occupied r n s = true <-> n ∈ visible_names (slot_dir r s).
Proof. unfold occupied. by rewrite bool_decide_eq_true, visible_names_spec. Qed.

Lemma concat_concat {A} (l : list (list (list A))) : concat (concat l) = concat (@concat A <$> l).
Proof. induction l as [|x l IH]; simpl; [done|]. by rewrite concat_app, IH. Qed.

Lemma concat_app_perm {A B} (f g : A -> list B) l :
  concat ((fun x => f x ++ g x) <$> l) ≡ₚ concat (f <$> l) ++ concat (g <$> l).
Proof. induction l as [|x l IH]; simpl; [done|]. rewrite IH. solve_Permutation. Qed.

Lemma concat_if {A B} (p : A -> bool) (f : A -> B) l :
  concat ((fun x => if p x then [f x] else []) <$> l) = f <$> List.filter p l.
Proof.
  induction l as [|x l IH]; [done|]. rewrite fmap_cons. cbn [concat List.filter]. rewrite IH.
  by destruct (p x).
Qed.

(** ** The parts of a scan *)
Section scan.
Context (now : Q) (r : registry) (slots : list slot).

Definition multi (n : string) : bool := (1 <? length (List.filter (occupied r n) slots))%nat.
Definition conflict (n : string) : RegistryDamage :=
  split_brain_damage r n (List.filter (occupied r n) slots).
Definition first_source (s : slot) (n : string) : bool :=
  bool_decide (head (List.filter (occupied r n) slots) = Some s).

(** The reading of a name nothing else claims. *)
Definition single (s : slot) (n : string) : list JobEntry * list RegistryDamage :=
  if multi n then ([], [])
  else match _read_entry_path now s n false r with
       | Ok e => ([e], [])
       | Err e => ([], [row_damage n e])
       end.

Lemma scan_name_parts s n :
  scan_name now r slots s n =
  ((single s n).1, (if multi n && first_source s n then [conflict n] else []) ++ (single s n).2).
Proof.
  unfold scan_name, single, multi, first_source, conflict.
  destruct (_ <? _)%nat; simpl; [|by destruct (_read_entry_path _ _ _ _ _)].
  by destruct (bool_decide _).
Qed.

Definition conflicts_at (s : slot) : list RegistryDamage :=
  conflict <$> List.filter (fun n => multi n && first_source s n) (visible_names (slot_dir r s)).

Lemma scan_slot_rows s :
  (scan_slot now r slots s).1 = concat ((single s <$> visible_names (slot_dir r s)).*1).
Proof.
  unfold scan_slot. cbn [fst]. rewrite <- !list_fmap_compose. f_equal. apply list_fmap_ext.
  intros i n _. unfold compose. by rewrite scan_name_parts.
Qed.
Lemma scan_slot_damage s :
  (scan_slot now r slots s).2 ≡ₚ
  conflicts_at s ++ concat ((single s <$> visible_names (slot_dir r s)).*2).
Proof.
  unfold scan_slot, conflicts_at. cbn [snd]. rewrite <- !list_fmap_compose.
  rewrite <- (concat_if (fun n => multi n && first_source s n) conflict), <- concat_app_perm.
  apply reflexive_eq. f_equal. apply list_fmap_ext. intros i n _. unfold compose.
  by rewrite scan_name_parts.
Qed.

(** The conflicts, however they are found. *)
Definition all_names : list string := concat ((fun s => visible_names (slot_dir r s)) <$> slots).

Lemma all_names_spec n : n ∈ all_names <-> exists s, s ∈ slots /\ n ∈ visible_names (slot_dir r s).
Proof.
  apply elem_of_concat_fmap.
Qed.

Lemma first_source_elem s n : first_source s n = true -> s ∈ slots /\ n ∈ visible_names (slot_dir r s).
Proof.
  unfold first_source. rewrite bool_decide_eq_true. intros H.
  assert (s ∈ List.filter (occupied r n) slots) as Hs.
  { destruct (List.filter _ _) as [|x l]; [done|]. simpl in H. injection H as ->. set_solver. }
  apply elem_of_filterb in Hs as [Hs Ho]. by rewrite occupied_spec in Ho.
Qed.

Lemma conflict_names_perm :
  NoDup slots ->
  concat ((fun s => List.filter (fun n => multi n && first_source s n)
                      (visible_names (slot_dir r s))) <$> slots)
  ≡ₚ List.filter multi (remove_dups all_names).
Proof.
  intros Hnd.
  assert (forall n s, n ∈ List.filter (fun n => multi n && first_source s n)
            (visible_names (slot_dir r s)) <-> multi n = true /\ first_source s n = true) as Hin.
  { intros n s. rewrite elem_of_filterb, andb_true_iff. split; [tauto|]. intros [Hm Hf]. split; [|done].
    by apply first_source_elem in Hf as [_ ?]. }
  apply NoDup_Permutation.
  - assert (forall k, NoDup k -> NoDup (concat ((fun s => List.filter
      (fun n => multi n && first_source s n) (visible_names (slot_dir r s))) <$> k))) as H; [|by apply H].
    intros k. induction 1 as [|s k Hs Hk IH]; simpl; [constructor|].
    apply NoDup_app. split; [apply filter_nodup, visible_names_nodup|]. split; [|done].
    intros n [_ Hf]%Hin (s' & Hs' & [_ Hf']%Hin)%elem_of_concat_fmap.
    unfold first_source in Hf, Hf'. rewrite bool_decide_eq_true in Hf, Hf'. congruence.
  - apply filter_nodup, NoDup_remove_dups.
  - intros n. rewrite elem_of_filterb, elem_of_remove_dups, all_names_spec.
    rewrite elem_of_concat_fmap. split.
    + intros (s & Hs & [Hm Hf]%Hin). split; [|done]. apply first_source_elem in Hf as [_ ?]. by exists s.
    + intros [_ Hm]. pose proof Hm as Hm'. unfold multi in Hm'.
      destruct (List.filter (occupied r n) slots) as [|s k] eqn:E; [done|].
      assert (first_source s n = true) as Hf by (apply bool_decide_eq_true; by rewrite E).
      exists s. rewrite Hin. split; [apply first_source_elem in Hf; tauto | done].
Qed.
End scan.

Lemma scan_directories_sub r :
  (scan_directories r).1 = List.filter
    (fun s => match (slot_dir r s).(kind) with PrivateDir => true | _ => false end) (scan_order r).
Proof.
  unfold scan_directories. induction (scan_order r) as [|s l IH]; simpl; [done|].
  unfold _require_private_directory at 1. destruct ((slot_dir r s).(kind)); simpl; by rewrite IH.
Qed.

Lemma scan_slots_nodup r : NoDup (scan_directories r).1.
Proof.
  rewrite scan_directories_sub. apply filter_nodup. unfold scan_order.
  destruct (r.(head_role)); apply (bool_decide_unpack _); vm_compute; exact I.
Qed.

Lemma concat_fmap_perm {A B} (f g : A -> list B) l :
  (forall x, f x ≡ₚ g x) -> concat (f <$> l) ≡ₚ concat (g <$> l).
Proof. intros H. induction l as [|x l IH]; simpl; [done|]. by rewrite H, IH. Qed.

Lemma fmap_concat {A B C} (f : B -> C) (g : A -> list B) l :
  f <$> concat (g <$> l) = concat ((fun x => f <$> g x) <$> l).
Proof.
  induction l as [|x l IH]; [done|]. rewrite !fmap_cons. cbn [concat]. by rewrite fmap_app, IH.
Qed.

Lemma read_listed_single now r slots :
  (fun s => read_listed now r (conflicted_names r slots) s <$> visible_names (slot_dir r s)) <$> slots
  = (fun s => single now r slots s <$> visible_names (slot_dir r s)) <$> slots.
Proof.
  apply list_fmap_ext. intros i s Hs%list_elem_of_lookup_2.
  apply list_fmap_ext. intros j n Hn%list_elem_of_lookup_2. unfold read_listed, single.
  assert (n ∈ conflicted_names r slots <-> multi r slots n = true) as Hiff.
  { unfold conflicted_names. rewrite elem_of_filterb, elem_of_remove_dups.
    change (concat _) with (all_names r slots). rewrite all_names_spec.
    split; [tauto | by eauto]. }
  destruct (multi r slots n); [by rewrite bool_decide_true by tauto|].
  rewrite bool_decide_false; [done|]. by intros H%Hiff.
Qed.

(** The rows agree once sorted and the damage agrees up to order. *)
Lemma list_all_iter_all now r :
  (list_all now r).1 = by_job_id (iter_all now r).1 /\
  (list_all now r).2 ≡ₚ (iter_all now r).2.
Proof.
  unfold list_all, iter_all. pose proof (scan_slots_nodup r) as Hnd.
  destruct (scan_directories r) as [slots damage]. cbn [fst snd] in *.
  rewrite (read_listed_single now r slots).
  rewrite !fmap_concat. split.
  - f_equal. rewrite concat_concat, <- !list_fmap_compose. f_equal.
    apply list_fmap_ext. intros i s _. unfold compose. by rewrite scan_slot_rows.
  - rewrite concat_concat, <- !list_fmap_compose. apply Permutation_app_head.
    transitivity (concat (conflicts_at r slots <$> slots) ++
      concat ((fun s => concat ((single now r slots s <$> visible_names (slot_dir r s)).*2)) <$> slots)).
    + apply Permutation_app_tail. rewrite sort_strings_perm.
      change (conflicted_names r slots)
        with (List.filter (multi r slots) (remove_dups (all_names r slots))).
      rewrite <- (conflict_names_perm r slots Hnd). by rewrite fmap_concat.
    + rewrite <- concat_app_perm. apply concat_fmap_perm. intros s. unfold compose.
      by rewrite scan_slot_damage.
Qed.

