(* ===== verification/StatusProbe.v ===== *)
(** * Status probes ([jobs/status.py])

    One remote round trip per node re-verifies the running and lost jobs it
    hosts.  What the remote shell prints is evidence about one process: it is
    cut at nonce delimiters, anchored on a trusted marker, and applied under the
    job lock only while the row still claims that process. *)

From S2P Require Import Prelude Text PyValue Numerals Diagnostics Layout CustomEnv JobEntry RegistryCodec CodecCanonical Lifecycle Registry ActiveIndex RegistryOps.

Definition STATUS_MARK : string := "@@DT_STATUS_V2@@".
Definition STATUS_PROBE_BATCH : nat := 32.

(** The transient health a caller may ask for; never persisted. *)
Record Observation := mkObservation {
  node_unreachable : bool;
  status_probe_error : option string;
}.
Definition fresh_observation : Observation := mkObservation false None.
Definition with_error (o : Observation) (detail : string) : Observation :=
  mkObservation o.(node_unreachable) (Some detail).

Record _ProbeTarget := mkTarget { t_entry : JobEntry; t_state_dir : string }.

(** ** Cutting a batched reply *)

(** [sections] is mutated through [current], the section lines go to now. *)
Definition split_step (delimiter : string) (count : nat)
    (acc : list (list string) * option nat) (line : string) : list (list string) * option nat :=
  let '(sections, current) := acc in
  if starts_with (delimiter +:+ " ") line then
    let index := match py_int (str_drop (str_len delimiter + 1) line) with
                 | Ok z => z
                 | Err _ => -1
                 end in
    (sections, if (0 <=? index) && (index <? Z.of_nat count) then Some (Z.to_nat index) else None)
  else match current with
       | Some i => (alter (fun section => section ++ [line]) i sections, current)
       | None => (sections, None)
       end.
Definition _split_probe_sections (lines : list string) (delimiter : string) (count : nat)
  : list (list string) :=
  (fold_left (split_step delimiter count) lines (replicate count [], None)).1.

(** ** Parsing one section *)
Definition _positive_timestamp (value : string) : option Q :=
  match py_float_text value with
  | Ok (Fin timestamp) => if q_ltb 0 timestamp then Some timestamp else None
  | _ => None
  end.

Record _StatusProbe := mkProbe {
  p_token : string;
  p_boot_id : option string;
  p_started_at : option Q;
  p_finished_at : option Q;
  p_result : string;
}.

(** [tokens.index(x)]. *)
Fixpoint index_of (x : string) (l : list string) : option nat :=
  match l with
  | [] => None
  | y :: l => if bool_decide (x = y) then Some O else S <$> index_of x l
  end.

Definition MISSING_MARKER : string :=
  "status probe response is missing trusted protocol marker; registry retained".

Definition _parse_status_probe (tokens : list string) (observation : Observation)
  : option _StatusProbe * Observation :=
  match index_of STATUS_MARK tokens with
  | None => (None, with_error observation MISSING_MARKER)
  | Some marker_index =>
      let field_after offset fallback := default fallback (tokens !! (marker_index + offset)%nat) in
      (Some {| p_token := field_after 1%nat "LOST";
               p_boot_id := if (0 <? marker_index)%nat then tokens !! (marker_index - 1)%nat else None;
               p_started_at := _positive_timestamp (field_after 2%nat "UNKNOWN");
               p_finished_at := _positive_timestamp (field_after 3%nat "UNKNOWN");
               p_result := field_after 4%nat "UNKNOWN" |}, observation)
  end.

(** ** The next state of a row

    [changed] is the code's flag: [Some row] is saved, [None] leaves the row. *)
Definition time_eqb (a b : option Q) : bool :=
  match a, b with
  | Some x, Some y => Qeq_bool x y
  | None, None => true
  | _, _ => false
  end.

(** [if c: entry...; changed = True]. *)
Definition when (c : JobEntry -> bool) (f : JobEntry -> JobEntry) (acc : JobEntry * bool)
  : JobEntry * bool :=
  if c acc.1 then (f acc.1, true) else acc.

Definition _mark_running_from_probe (entry : JobEntry) (remote_started_at : option Q)
  : option JobEntry :=
  let acc := (entry, false) in
  let acc := when (fun e => bool_decide (is_Some remote_started_at)
                            && negb (time_eqb e.(started_at) remote_started_at))
               (fun e => e <| started_at := remote_started_at |>) acc in
  let acc :=
    if negb (bool_decide (acc.1.(status) = Running)) then
      (acc.1 <| status := Running |> <| reason := None |> <| finished_at := None |>, true)
    else when (fun e => match e.(reason) with
                        | Some r => negb (starts_with CANCEL_UNVERIFIED_PREFIX r)
                        | None => false
                        end) (fun e => e <| reason := None |>) acc in
  let acc := when (fun e => bool_decide (is_Some e.(exit_code)))
               (fun e => e <| exit_code := None |>) acc in
  let acc := when (fun e => bool_decide (is_Some e.(result_state)))
               (fun e => e <| result_state := None |>) acc in
  let acc := when (fun e => bool_decide (is_Some e.(finished_at)))
               (fun e => e <| finished_at := None |>) acc in
  if acc.2 then Some acc.1 else None.

(** An f-string's rendering of [entry.pgid]. *)
Definition pid_text (pid : option Z) : string :=
  match pid with Some z => str_of_Z z | None => "None" end.

Definition lost_reason (entry : JobEntry) (token state_dir : string) : string :=
  if bool_decide (token = "STALE") then
    "wrapper pid " +:+ pid_text entry.(pgid) +:+ " is alive but its process identity "
      +:+ "does not match this job; refusing to adopt a reused process"
  else "wrapper pid " +:+ pid_text entry.(pgid) +:+ " is not running and "
         +:+ state_dir +:+ "/exit_code is missing".

(** [entry.finished_at or time.time()]. *)
Definition finish_time (entry : JobEntry) (now : Q) : option Q :=
  Some (or_number entry.(finished_at) now).

Definition _mark_lost_from_probe (now : Q) (entry : JobEntry) (token state_dir : string)
  : option JobEntry :=
  let why := lost_reason entry token state_dir in
  if bool_decide (entry.(status) = Lost) then
    let acc := (entry, false) in
    let acc := when (fun e => bool_decide (default "" e.(reason) = ""))
                 (fun e => e <| reason := Some why |> <| finished_at := finish_time e now |>) acc in
    let acc := when (fun e => negb (bool_decide (e.(result_state) = Some InfraFailure)))
                 (fun e => e <| result_state := Some InfraFailure |>) acc in
    if acc.2 then Some acc.1 else None
  else Some (entry <| status := Lost |> <| terminal_finalized_at := None |>
               <| reason := Some why |> <| finished_at := Some now |>
               <| result_state := Some InfraFailure |>).

Definition LATE_EVIDENCE : string :=
  "late worker evidence arrived after dependency finalization; registry retained".
Definition LATE_RUNNING : string :=
  "late running evidence arrived after the lost-job recovery window; registry retained".
Definition UNVERIFIED_IDENTITY : string :=
  "wrapper process identity or survivor census is unverified; registry retained".

Definition liveness_tokens : list string := ["RUNNING"; "LOST"; "STALE"; "UNVERIFIED"].

Definition finished_row (now : Q) (entry : JobEntry) (tokens : _StatusProbe) (code : Z) : JobEntry :=
  let entry := entry <| exit_code := Some code |> <| status := Finished |> <| reason := None |> in
  let entry := match tokens.(p_started_at) with
               | Some t => entry <| started_at := Some t |>
               | None => entry
               end in
  let entry := entry <| finished_at := Some (or_number tokens.(p_finished_at) now) |> in
  entry <| result_state := Some (match result_of_name tokens.(p_result) with
                                 | Some r => r
                                 | None => if code =? 0 then Success else ExecutionFailure
                                 end) |>.

(** The reboot test and the row it writes. *)
Definition truthy (s : option string) : bool := negb (bool_decide (default "" s = "")).
Definition rebooted (entry : JobEntry) (current_boot_id : option string) : bool :=
  truthy entry.(boot_id) && truthy current_boot_id
  && negb (bool_decide (current_boot_id = Some "UNKNOWN"))
  && negb (bool_decide (current_boot_id = entry.(boot_id))).
Definition rebooted_row (now : Q) (entry : JobEntry) (current_boot_id : option string) : JobEntry :=
  entry <| status := Lost |> <| terminal_finalized_at := None |>
    <| reason := Some ("node rebooted since launch (boot_id " +:+ default "" entry.(boot_id)
                       +:+ " -> " +:+ default "" current_boot_id
                       +:+ "); exit_code is missing") |>
    <| finished_at := finish_time entry now |> <| result_state := Some InfraFailure |>.

(** [_apply_status_probe] up to its [save]: the row to save, if any, and what
    the observer is told. *)
Definition probe_verdict (now : Q) (entry : JobEntry) (tokens : _StatusProbe) (state_dir : string)
    (observation : Observation) : option JobEntry * Observation :=
  let token := tokens.(p_token) in
  if bool_decide (entry.(status) = Lost) && bool_decide (is_Some entry.(terminal_finalized_at)) then
    (None, if bool_decide (token ∈ ["LOST"; "STALE"]) then observation
           else with_error observation LATE_EVIDENCE)
  else if negb (bool_decide (token ∈ liveness_tokens)) then
    match py_int token with
    | Err _ => (None, observation)
    | Ok exit_code =>
        if negb ((0 <=? exit_code) && (exit_code <=? 255)) then
          (None, with_error observation
                   ("out-of-range exit code " +:+ str_of_Z exit_code +:+ " in state probe"))
        else (Some (finished_row now entry tokens exit_code), observation)
    end
  else if rebooted entry tokens.(p_boot_id) then
    (Some (rebooted_row now entry tokens.(p_boot_id)), observation)
  else if bool_decide (token = "RUNNING") then
    if bool_decide (entry.(status) = Lost) && dependency_settled entry
    then (None, with_error observation LATE_RUNNING)
    else (_mark_running_from_probe entry tokens.(p_started_at), observation)
  else if bool_decide (token = "UNVERIFIED") then (None, with_error observation UNVERIFIED_IDENTITY)
  else if bool_decide (token ∈ ["LOST"; "STALE"]) then
    (_mark_lost_from_probe now entry token state_dir, observation)
  else (Some entry, observation).

(** ** Refreshing rows *)

(** What [run_on] gives back: it raised (message and class name), or the
    command completed. *)
Inductive reply :=
  | Raised (message class : string)
  | Completed (returncode : Z) (stdout stderr : string).

(** [" ".join(str(exc).split()) or type(exc).__name__], and the detail of a
    command that failed. *)
Definition raised_detail (message class : string) : string :=
  let text := normalize_ws message in if bool_decide (text = "") then class else text.
Definition failed_detail (returncode : Z) (stdout stderr : string) : string :=
  normalize_ws (first_truthy [Some stderr; Some stdout]
    ("status probe exited " +:+ str_of_Z returncode)).
Definition unreachable (detail : string) : Observation := mkObservation true (Some detail).

Section refreshing.
(** [run_on] is the remote shell running the probe of these targets; with a
    nonce delimiter the probe is batched. *)
Context (encoded_size : json -> nat) (index_writable : bool)
        (run_on : string -> bool -> option string -> list _ProbeTarget -> reply).

Definition _apply_status_probe (now : Q) (writable : bool) (entry : JobEntry)
    (tokens : _StatusProbe) (state_dir : string) (observation : Observation)
  : M (JobEntry * Observation) :=
  let '(change, observation) := probe_verdict now entry tokens state_dir observation in
  match change with
  | None => mret (entry, observation)
  | Some row => saved ← save encoded_size index_writable now writable row;
                mret (saved, observation)
  end.

Definition _run_status_probe (entry : JobEntry) (state_dir : string) (observation : Observation)
  : option _StatusProbe * Observation :=
  match run_on entry.(node) entry.(node_local) None [mkTarget entry state_dir] with
  | Raised message class => (None, unreachable (raised_detail message class))
  | Completed returncode stdout stderr =>
      if negb (returncode =? 0) then (None, unreachable (failed_detail returncode stdout stderr))
      else _parse_status_probe (splitlines (strip stdout)) observation
  end.

Definition refreshable (entry : JobEntry) : bool :=
  bool_decide (entry.(status) = Running) || bool_decide (entry.(status) = Lost).

Definition refresh_status_locked (now : Q) (writable : bool) (entry : JobEntry)
  : M (JobEntry * Observation) :=
  let observation := fresh_observation in
  if negb (refreshable entry) then mret (entry, observation)
  else match validate_job_capsule entry.(job_dir) (Some entry.(job_id)) with
       | Err e => mret (entry, with_error observation (exn_message e))
       | Ok _ =>
           let state_dir := job_state_dir entry.(job_dir) entry.(storage_layout) in
           let '(tokens, observation) := _run_status_probe entry state_dir observation in
           match tokens with
           | None => mret (entry, observation)
           | Some tokens => _apply_status_probe now writable entry tokens state_dir observation
           end
       end.

(** [refresh_status]: the row is reloaded under the job lock. *)
Definition refresh_status (now : Q) (writable : bool) (entry : JobEntry)
  : M (JobEntry * Observation) :=
  current ← load now entry.(job_id);
  refresh_status_locked now writable (default entry current).

(** ** Many rows, one probe per node *)
Definition observations : Type := gmap string Observation.

(** The first loop: what to probe, grouped by node in first-seen order. *)
Definition group_key : Type := string * bool.
Fixpoint add_target (key : group_key) (target : _ProbeTarget)
    (groups : list (group_key * list _ProbeTarget)) : list (group_key * list _ProbeTarget) :=
  match groups with
  | [] => [(key, [target])]
  | (k, targets) :: rest =>
      if bool_decide (k = key) then (k, targets ++ [target]) :: rest
      else (k, targets) :: add_target key target rest
  end.

Definition collect (acc : list (group_key * list _ProbeTarget) * observations) (entry : JobEntry)
  : list (group_key * list _ProbeTarget) * observations :=
  let '(by_node, obs) := acc in
  let obs := <[entry.(job_id) := fresh_observation]> obs in
  if negb (refreshable entry) then (by_node, obs)
  else match validate_job_capsule entry.(job_dir) (Some entry.(job_id)) with
       | Err e => (by_node, <[entry.(job_id) := with_error fresh_observation (exn_message e)]> obs)
       | Ok _ =>
           let state_dir := job_state_dir entry.(job_dir) entry.(storage_layout) in
           (add_target (entry.(node), entry.(node_local)) (mkTarget entry state_dir) by_node, obs)
       end.

(** [targets[start : start + STATUS_PROBE_BATCH] for start in range(0, len, ..)];
    the list's length is enough fuel. *)
Fixpoint chunks_go {A} (fuel n : nat) (l : list A) : list (list A) :=
  match fuel, l with
  | _, [] => []
  | O, _ => []
  | S fuel, _ => take n l :: chunks_go fuel n (drop n l)
  end.
Definition chunks {A} (n : nat) (l : list A) : list (list A) := chunks_go (length l) n l.

Record batch := mkBatch { b_node : string; b_local : bool; b_targets : list _ProbeTarget }.
Definition batches (by_node : list (group_key * list _ProbeTarget)) : list batch :=
  concat ((fun g => (fun targets => mkBatch g.1.1 g.1.2 targets) <$> chunks STATUS_PROBE_BATCH g.2)
          <$> by_node).

Definition note_all (targets : list _ProbeTarget) (o : Observation) (obs : observations)
  : observations :=
  fold_left (fun obs t => <[t.(t_entry).(job_id) := o]> obs) targets obs.

(** [_observation_for]: a missing observation starts fresh. *)
Definition observed (obs : observations) (job_id : string) : Observation :=
  default fresh_observation (obs !! job_id).

Fixpoint parse_sections (targets : list _ProbeTarget) (sections : list (list string))
    (obs : observations) : list (_ProbeTarget * option _StatusProbe) * observations :=
  match targets, sections with
  | target :: targets, section :: sections =>
      let job_id := target.(t_entry).(job_id) in
      let '(probe, o) := _parse_status_probe section (observed obs job_id) in
      let '(rest, obs) := parse_sections targets sections (<[job_id := o]> obs) in
      ((target, probe) :: rest, obs)
  | _, _ => ([], obs)
  end.

Definition probe_batch (delimiter : string) (b : batch) (obs : observations)
  : list (_ProbeTarget * option _StatusProbe) * observations :=
  match run_on b.(b_node) b.(b_local) (Some delimiter) b.(b_targets) with
  | Raised message class =>
      ((fun t => (t, None)) <$> b.(b_targets),
       note_all b.(b_targets) (unreachable (raised_detail message class)) obs)
  | Completed returncode stdout stderr =>
      if negb (returncode =? 0) then
        ((fun t => (t, None)) <$> b.(b_targets),
         note_all b.(b_targets) (unreachable (failed_detail returncode stdout stderr)) obs)
      else parse_sections b.(b_targets)
             (_split_probe_sections (splitlines stdout) delimiter (length b.(b_targets))) obs
  end.

(** [delimiters] gives each batch its nonce. *)
Definition probe_batches (delimiters : nat -> string) (bs : list batch) (obs : observations)
  : list (_ProbeTarget * option _StatusProbe) * observations :=
  let '(_, outcomes, obs) :=
    fold_left (fun '(i, outcomes, obs) b =>
      let '(more, obs) := probe_batch (delimiters i) b obs in (S i, outcomes ++ more, obs))
      bs (O, [], obs) in
  (outcomes, obs).

(** The evidence still describes the process the row claims. *)
Definition same_process (current : JobEntry) (target : _ProbeTarget) : bool :=
  refreshable current && bool_decide (current.(pgid) = target.(t_entry).(pgid))
  && bool_decide (current.(job_dir) = target.(t_entry).(job_dir)).

(** The body of the last loop, run while the job lock is held. *)
Definition apply_target (now : Q) (writable : bool) (target : _ProbeTarget)
    (tokens : _StatusProbe) (observation : Observation) : M (JobEntry * Observation) :=
  loaded ← load now target.(t_entry).(job_id);
  let current := default target.(t_entry) loaded in
  if negb (same_process current target) then mret (current, observation)
  else _apply_status_probe now writable current tokens target.(t_state_dir) observation.

Fixpoint apply_outcomes (now : Q) (writable : bool)
    (outcomes : list (_ProbeTarget * option _StatusProbe))
    (refreshed : gmap string JobEntry) (obs : observations)
  : M (gmap string JobEntry * observations) :=
  match outcomes with
  | [] => mret (refreshed, obs)
  | (_, None) :: rest => apply_outcomes now writable rest refreshed obs
  | (target, Some tokens) :: rest =>
      let job_id := target.(t_entry).(job_id) in
      result ← apply_target now writable target tokens (observed obs job_id);
      apply_outcomes now writable rest (<[job_id := result.1]> refreshed)
        (<[job_id := result.2]> obs)
  end.

Definition refresh_statuses (now : Q) (writable : bool) (delimiters : nat -> string)
    (entries : list JobEntry) : M (gmap string JobEntry * observations) :=
  let refreshed := fold_left (fun m e => <[e.(job_id) := e]> m) entries (∅ : gmap string JobEntry) in
  let '(by_node, obs) := fold_left collect entries ([], ∅) in
  let bs := batches by_node in
  match bs with
  | [] => mret (refreshed, obs)
  | _ =>
      let '(outcomes, obs) := probe_batches delimiters bs obs in
      apply_outcomes now writable outcomes refreshed obs
  end.
End refreshing.
