(* ===== verification/StatusSpec.v ===== *)
(** * What a status probe may do to a row

    Framing (sections and markers cannot be displaced by what a job prints),
    coherence of every row a probe writes, the probing plan, and the rule that
    no reply whatsoever reopens a finalized verdict. *)

From S2P Require Import Prelude Text PyValue Numerals Diagnostics Layout CustomEnv JobEntry RegistryCodec CodecCanonical Lifecycle Registry ActiveIndex RegistryOps RegistryFacts RegistrySpec StatusProbe.

(** ** Framing *)
Lemma index_of_app x pre rest : x ∉ pre -> index_of x (pre ++ x :: rest) = Some (length pre).
Proof.
  induction pre as [|y pre IH]; intros H; cbn [index_of app length].
  - by rewrite bool_decide_true.
  - apply not_elem_of_cons in H as [Hne H]. rewrite bool_decide_false by done. by rewrite IH.
Qed.

Lemma lookup_after {A} (pre : list A) m rest k :
  (pre ++ m :: rest) !! (length pre + S k)%nat = rest !! k.
Proof.
  rewrite lookup_app_r by lia. replace (length pre + S k - length pre)%nat with (S k) by lia. done.
Qed.

(** The probe a reply denotes, read off the lines around its first marker. *)
Definition anchored (pre rest : list string) : _StatusProbe :=
  {| p_token := default "LOST" (rest !! 0%nat);
     p_boot_id := last pre;
     p_started_at := _positive_timestamp (default "UNKNOWN" (rest !! 1%nat));
     p_finished_at := _positive_timestamp (default "UNKNOWN" (rest !! 2%nat));
     p_result := default "UNKNOWN" (rest !! 3%nat) |}.

Lemma parse_anchored pre rest o :
  STATUS_MARK ∉ pre ->
  _parse_status_probe (pre ++ STATUS_MARK :: rest) o = (Some (anchored pre rest), o).
Proof.
  intros H. unfold _parse_status_probe, anchored. rewrite index_of_app by done.
  rewrite !lookup_after. do 3 f_equal.
  destruct pre as [|x pre _] using rev_ind; [done|].
  rewrite length_app, last_snoc. simpl. rewrite Nat.add_1_r. simpl.
  rewrite Nat.sub_0_r, <- app_assoc. simpl. by rewrite list_lookup_middle.
Qed.

(** What a job prints after its four fields, a forged marker included, changes nothing. *)
Lemma parse_ignores_trailer pre t s f x trailer o :
  STATUS_MARK ∉ pre ->
  _parse_status_probe (pre ++ STATUS_MARK :: t :: s :: f :: x :: trailer) o
  = _parse_status_probe (pre ++ [STATUS_MARK; t; s; f; x]) o.
Proof. intros H. rewrite !parse_anchored by done. done. Qed.

(** *** Sections *)
Definition header (delimiter : string) (i : nat) : string := delimiter +:+ " " +:+ str_of_nat i.
Definition frame (delimiter : string) (k : nat) (sections : list (list string)) : list string :=
  concat (imap (fun i section => header delimiter (k + i) :: section) sections).
Definition free_of (delimiter : string) (lines : list string) : Prop :=
  Forall (fun line => starts_with (delimiter +:+ " ") line = false) lines.

Lemma header_starts delimiter i : starts_with (delimiter +:+ " ") (header delimiter i) = true.
Proof.
  unfold header. replace (delimiter +:+ " " +:+ str_of_nat i)
    with ((delimiter +:+ " ") +:+ str_of_nat i); [apply starts_with_app|].
  apply chars_inj. by rewrite !chars_app, <- app_assoc.
Qed.

Lemma header_index delimiter i :
  str_drop (str_len delimiter + 1) (header delimiter i) = str_of_nat i.
Proof.
  unfold header, str_drop. rewrite !chars_app. rewrite app_assoc.
  replace (str_len delimiter + 1)%nat with (length (chars delimiter ++ chars " ")).
  - by rewrite drop_app_length, unchars_chars.
  - rewrite length_app, chars_length. done.
Qed.

Lemma fold_free delimiter n lines sections cur :
  free_of delimiter lines ->
  fold_left (split_step delimiter n) lines (sections, cur)
  = (match cur with Some i => alter (fun s => s ++ lines) i sections | None => sections end, cur).
Proof.
  intros H. revert sections. induction H as [|line lines Hl _ IH]; intros sections; cbn [fold_left].
  - destruct cur as [i|]; [|done]. f_equal. symmetry. apply list_alter_id. intros. apply app_nil_r.
  - unfold split_step at 2. rewrite Hl. destruct cur as [i|]; rewrite IH; [|done].
    f_equal. rewrite list_alter_alter_eq. apply list_alter_ext; [|done].
    intros x _. unfold compose. by rewrite <- app_assoc.
Qed.

Lemma alter_middle {A} (f : A -> A) (l : list A) x k :
  alter f (length l) (l ++ x :: k) = l ++ f x :: k.
Proof. induction l as [|y l IH]; [done|]. simpl. f_equal. apply IH. Qed.

Lemma fold_frame delimiter n sections done_ cur :
  (length done_ + length sections = n)%nat -> (n <= MAX_INT_DIGITS)%nat ->
  Forall (free_of delimiter) sections ->
  (fold_left (split_step delimiter n) (frame delimiter (length done_) sections)
    (done_ ++ replicate (length sections) [], cur)).1 = done_ ++ sections.
Proof.
  intros Hn Hmax H. revert done_ cur Hn.
  induction H as [|section sections Hs _ IH]; intros done_ cur Hn; [done|].
  unfold frame. cbn [imap concat]. rewrite Nat.add_0_r. cbn [app fold_left].
  rewrite fold_left_app. unfold split_step at 3. rewrite header_starts, header_index.
  simpl in Hn. rewrite py_int_str by lia.
  replace ((0 <=? Z.of_nat (length done_)) && (Z.of_nat (length done_) <? Z.of_nat n)) with true
    by (symmetry; apply andb_true_iff; split; [apply Z.leb_le | apply Z.ltb_lt]; lia).
  rewrite Nat2Z.id, fold_free by done. cbn [length replicate]. rewrite alter_middle. simpl app at 2.
  specialize (IH (done_ ++ [section]) (Some (length done_))).
  rewrite length_app in IH. simpl length in IH. rewrite <- !app_assoc in IH. simpl app in IH.
  rewrite <- IH by lia. f_equal. f_equal. unfold frame. f_equal. apply imap_ext.
  intros i x _. unfold compose. f_equal. f_equal. lia.
Qed.

(** Cutting the batched reply gives back exactly the sections the shell
    printed, whatever noise precedes the first delimiter. *)
Lemma split_sections_roundtrip delimiter noise sections :
  free_of delimiter noise -> Forall (free_of delimiter) sections ->
  (length sections <= MAX_INT_DIGITS)%nat ->
  _split_probe_sections (noise ++ frame delimiter 0 sections) delimiter (length sections) = sections.
Proof.
  intros Hnoise Hs Hmax. unfold _split_probe_sections. rewrite fold_left_app, fold_free by done.
  exact (fold_frame delimiter (length sections) sections [] None eq_refl Hmax Hs).
Qed.

(** ** The rows a probe writes *)

(** Status, exit code, typed result and times as one state. *)
Definition coherent (e : JobEntry) : Prop :=
  match e.(status) with
  | Finished => (exists c, e.(exit_code) = Some c /\ 0 <= c <= 255) /\
      is_Some e.(result_state) /\ is_Some e.(finished_at) /\ e.(reason) = None
  | Running => e.(exit_code) = None /\ e.(result_state) = None /\ e.(finished_at) = None /\
      (forall r, e.(reason) = Some r -> starts_with CANCEL_UNVERIFIED_PREFIX r = true)
  | Lost => e.(result_state) = Some InfraFailure /\ truthy e.(reason) = true /\
      e.(terminal_finalized_at) = None
  | _ => False
  end.

(** The identity of the job and of its process. *)
Definition same_job (a b : JobEntry) : Prop :=
  a.(job_id) = b.(job_id) /\ a.(pgid) = b.(pgid) /\ a.(job_dir) = b.(job_dir) /\
  a.(boot_id) = b.(boot_id) /\ a.(dispatch_token) = b.(dispatch_token) /\
  (unique_keys b -> unique_keys a).

Lemma same_job_refl e : same_job e e.
Proof. done. Qed.

Lemma same_job_trans a b c : same_job a b -> same_job b c -> same_job a c.
Proof.
  intros (? & ? & ? & ? & ? & Ha) (? & ? & ? & ? & ? & Hb). split_and!; try congruence. by intros ?%Hb%Ha.
Qed.

(** Rows that differ in status, times, reason or result only. *)
Ltac same_job := split_and!; [reflexivity..|by intros []].

Lemma when_inv c f acc (P : JobEntry -> Prop) :
  P acc.1 -> (c acc.1 = true -> P (f acc.1)) -> P (when c f acc).1.
Proof. unfold when. destruct (c acc.1); tauto. Qed.

Lemma mark_running_facts e t row :
  _mark_running_from_probe e t = Some row -> row.(status) = Running /\ coherent row /\ same_job row e.
Proof.
  unfold _mark_running_from_probe. set (acc0 := when _ _ (e, false)).
  assert (same_job acc0.1 e) as Hs.
  { apply when_inv; [apply same_job_refl|]. intros _. same_job. }
  clearbody acc0. set (acc1 := if negb _ then _ else _).
  assert (same_job acc1.1 e /\ acc1.1.(status) = Running /\
    (forall r, acc1.1.(reason) = Some r -> starts_with CANCEL_UNVERIFIED_PREFIX r = true))
    as (Hs1 & Hst1 & Hr1).
  { unfold acc1. destruct (bool_decide (acc0.1.(status) = Running)) eqn:E; cbn [negb].
    - apply bool_decide_eq_true in E. unfold when. destruct (acc0.1.(reason)) as [r|] eqn:Er.
      + destruct (starts_with CANCEL_UNVERIFIED_PREFIX r) eqn:Ep; cbn [negb fst].
        * split; [done|]. split; [done|]. rewrite Er. by intros ? [= <-].
        * split; [eapply same_job_trans; [|exact Hs]; same_job | done].
      + split; [done|]. split; [done|]. by rewrite Er.
    - cbn [fst]. split; [eapply same_job_trans; [|exact Hs]; same_job | done]. }
  clearbody acc1. clear acc0 Hs.
  set (acc2 := when (fun e => bool_decide (is_Some e.(exit_code))) _ acc1).
  set (acc3 := when (fun e => bool_decide (is_Some e.(result_state))) _ acc2).
  set (acc4 := when (fun e => bool_decide (is_Some e.(finished_at))) _ acc3).
  assert (same_job acc4.1 acc1.1 /\ acc4.1.(status) = acc1.1.(status) /\
    acc4.1.(reason) = acc1.1.(reason) /\ acc4.1.(exit_code) = None /\
    acc4.1.(result_state) = None /\ acc4.1.(finished_at) = None) as (Hs4 & Hst4 & Hr4 & Hrest).
  { unfold acc4, acc3, acc2, when. destruct acc1 as [e1 c1]. cbn [fst].
    destruct (e1.(exit_code)) eqn:E1; destruct (e1.(result_state)) eqn:E2;
      destruct (e1.(finished_at)) eqn:E3; simpl; rewrite ?E1, ?E2, ?E3; simpl;
      rewrite ?E1, ?E2, ?E3; (split; [same_job|done]). }
  clearbody acc4. destruct acc4 as [e4 []]; [|done]. cbn [fst snd] in *. intros [= <-].
  rewrite Hst4. split; [done|]. split; [|by eapply same_job_trans].
  unfold coherent. rewrite Hst4, Hst1, Hr4. tauto.
Qed.

Lemma lost_reason_truthy e token dir : truthy (Some (lost_reason e token dir)) = true.
Proof. unfold lost_reason. by case_bool_decide. Qed.

Lemma mark_lost_facts now e token dir row :
  (e.(status) = Lost -> e.(terminal_finalized_at) = None) ->
  _mark_lost_from_probe now e token dir = Some row ->
  row.(status) = Lost /\ coherent row /\ same_job row e.
Proof.
  intros Hfin. unfold _mark_lost_from_probe. pose proof (lost_reason_truthy e token dir) as Hwhy.
  set (why := lost_reason e token dir) in *. clearbody why.
  destruct (bool_decide (e.(status) = Lost)) eqn:E.
  - apply bool_decide_eq_true in E. specialize (Hfin E). unfold when, coherent. cbn [fst].
    destruct (bool_decide (default "" e.(reason) = "")) eqn:Er; cbn [fst];
      destruct (bool_decide (_ = Some InfraFailure)) eqn:Ei; cbn [negb snd]; intros [= <-]; simpl;
      rewrite ?E; simpl; (split; [done|]); (split; [|same_job]); simpl;
      (split; [by try apply bool_decide_eq_true in Ei|]); (split; [|done]); try done;
      unfold truthy; by rewrite Er.
  - intros [= <-]. unfold coherent. simpl. split; [done|]. split; [done|]. same_job.
Qed.

Lemma finished_row_facts now e tokens code :
  0 <= code <= 255 ->
  coherent (finished_row now e tokens code) /\ same_job (finished_row now e tokens code) e.
Proof.
  intros H. unfold finished_row, coherent. cbv zeta.
  destruct (tokens.(p_started_at)); cbn; (split; [|same_job]); eauto 10.
Qed.

Lemma rebooted_row_facts now e boot :
  coherent (rebooted_row now e boot) /\ same_job (rebooted_row now e boot) e.
Proof. unfold rebooted_row, coherent. cbn. split; [done|same_job]. Qed.

Lemma four_tokens t :
  t ∈ liveness_tokens -> t <> "RUNNING" -> t <> "UNVERIFIED" -> t ∉ ["LOST"; "STALE"] -> False.
Proof. unfold liveness_tokens. set_solver. Qed.

(** Whatever the reply, the row a probe saves describes the same process and
    is one coherent state; a finalized loss is never saved again. *)
Lemma probe_verdict_coherent now e tokens dir o row o' :
  refreshable e = true -> probe_verdict now e tokens dir o = (Some row, o') ->
  coherent row /\ same_job row e /\ ~ (e.(status) = Lost /\ is_Some e.(terminal_finalized_at)).
Proof.
  intros Href. unfold probe_verdict.
  destruct (bool_decide (e.(status) = Lost) && bool_decide (is_Some e.(terminal_finalized_at))) eqn:Hfin;
    [by case_bool_decide|].
  assert (~ (e.(status) = Lost /\ is_Some e.(terminal_finalized_at))) as Hnot.
  { intros [H1 H2]. by rewrite !bool_decide_true in Hfin. }
  assert (e.(status) = Lost -> e.(terminal_finalized_at) = None) as Hnone.
  { intros H. destruct (e.(terminal_finalized_at)) eqn:E; [|done]. destruct (Hnot (conj H (ex_intro _ _ eq_refl))). }
  intros H. cut (coherent row /\ same_job row e); [tauto|]. revert H.
  destruct (negb (bool_decide (tokens.(p_token) ∈ liveness_tokens))) eqn:Htok.
  { destruct (py_int tokens.(p_token)) as [code|]; [|done].
    destruct ((0 <=? code) && (code <=? 255)) eqn:Hcode; cbn [negb]; [|done]. intros [= <- _].
    apply andb_true_iff in Hcode as [H1%Z.leb_le H2%Z.leb_le]. by apply finished_row_facts. }
  destruct (rebooted e tokens.(p_boot_id)); [intros [= <- _]; apply rebooted_row_facts|].
  destruct (bool_decide (tokens.(p_token) = "RUNNING")) eqn:Hrun.
  { destruct (bool_decide (e.(status) = Lost) && dependency_settled e); [done|]. intros Hm%(f_equal fst).
    by apply mark_running_facts in Hm as (_ & ? & ?). }
  destruct (bool_decide (tokens.(p_token) = "UNVERIFIED")) eqn:Hunv; [done|].
  destruct (bool_decide (tokens.(p_token) ∈ ["LOST"; "STALE"])) eqn:Hl.
  { intros Hm%(f_equal fst). by apply mark_lost_facts in Hm as (_ & ? & ?). }
  apply negb_false_iff, bool_decide_eq_true in Htok.
  apply bool_decide_eq_false in Hrun, Hunv, Hl. destruct (four_tokens _ Htok Hrun Hunv Hl).
Qed.

(** ** Effects on the store *)
Section effects.
Context (size : json -> nat) (ok : bool)
        (run_on : string -> bool -> option string -> list _ProbeTarget -> reply).

(** Applying evidence leaves the store alone or is one save of a coherent row
    of the same process. *)
Lemma apply_inv now writable e tokens dir o r res r' :
  refreshable e = true -> unique_keys e ->
  _apply_status_probe size ok now writable e tokens dir o r = (res, r') ->
  r' = r \/ exists row out, coherent row /\ same_job row e /\ unique_keys row /\
    save size ok now writable row r = (out, r').
Proof.
  intros Href Hu. unfold _apply_status_probe.
  destruct (probe_verdict now e tokens dir o) as [[row|] o'] eqn:Hv; [|by intros [= _ <-]; left].
  apply probe_verdict_coherent in Hv as (Hc & Hs & _); [|done].
  unfold mbind, M_bind. destruct (save size ok now writable row r) as [out r1] eqn:E.
  intros H. right. exists row, out.
  assert (unique_keys row) as Hur by (by apply Hs).
  split; [done|]. split; [done|]. split; [done|]. destruct out; by injection H as _ <-.
Qed.

Lemma refresh_locked_inv now writable e r res r' :
  unique_keys e -> refresh_status_locked size ok run_on now writable e r = (res, r') ->
  r' = r \/ exists row out, coherent row /\ same_job row e /\ unique_keys row /\
    save size ok now writable row r = (out, r').
Proof.
  intros Hu. unfold refresh_status_locked.
  destruct (refreshable e) eqn:Href; [|by intros [= _ <-]; left]. cbn [negb].
  destruct (validate_job_capsule _ _); [|by intros [= _ <-]; left].
  destruct (_run_status_probe _ _ _ _) as [[tokens|] o]; [|by intros [= _ <-]; left].
  by apply apply_inv.
Qed.

Lemma loaded_default now jid e r :
  unique_keys e -> forall loaded r1, load now jid r = (Ok loaded, r1) ->
  r1 = r /\ unique_keys (default e loaded).
Proof.
  intros Hu loaded r1 H. pose proof (load_state now jid r) as Hst. rewrite H in Hst. split; [done|].
  destruct loaded as [e'|]; [|done]. by eapply load_unique.
Qed.

Lemma refresh_status_inv now writable e r res r' :
  unique_keys e -> refresh_status size ok run_on now writable e r = (res, r') ->
  r' = r \/ exists row out, coherent row /\ unique_keys row /\
    save size ok now writable row r = (out, r').
Proof.
  intros Hu. unfold refresh_status, mbind, M_bind.
  destruct (load now e.(job_id) r) as [[loaded|x] r1] eqn:Hl.
  - destruct (loaded_default now _ e r Hu _ _ Hl) as [-> Hul].
    intros [->|(row & out & ? & _ & ? & ?)]%refresh_locked_inv; [by left|by right; exists row, out|done].
  - pose proof (load_state now e.(job_id) r) as Hst. rewrite Hl in Hst. intros [= _ <-]. by left.
Qed.

(** Evidence about another process, or none, leaves the store alone. *)
Lemma apply_target_inv now writable target tokens o r res r' :
  unique_keys target.(t_entry) ->
  apply_target size ok now writable target tokens o r = (res, r') ->
  r' = r \/ exists loaded row out, load now target.(t_entry).(job_id) r = (Ok loaded, r) /\
    same_process (default target.(t_entry) loaded) target = true /\
    coherent row /\ same_job row (default target.(t_entry) loaded) /\ unique_keys row /\
    save size ok now writable row r = (out, r').
Proof.
  intros Hu. unfold apply_target, mbind, M_bind.
  destruct (load now target.(t_entry).(job_id) r) as [[loaded|x] r1] eqn:Hl.
  - destruct (loaded_default now _ _ r Hu _ _ Hl) as [-> Hul].
    destruct (same_process (default target.(t_entry) loaded) target) eqn:Hsp; cbn [negb];
      [|by intros [= _ <-]; left].
    pose proof Hsp as Href. unfold same_process in Href. apply andb_true_iff in Href as [Href _].
    apply andb_true_iff in Href as [Href _].
    intros [->|(row & out & ? & ? & ? & ?)]%apply_inv; [by left| |done|done].
    right. by exists loaded, row, out.
  - pose proof (load_state now target.(t_entry).(job_id) r) as Hst. rewrite Hl in Hst.
    intros [= _ <-]. by left.
Qed.

Lemma apply_outcomes_keeps now writable outcomes refreshed obs r res r' jid t :
  Forall (fun p => unique_keys p.1.(t_entry)) outcomes ->
  apply_outcomes size ok now writable outcomes refreshed obs r = (res, r') ->
  finalized r jid t -> finalized r' jid t.
Proof.
  intros H. revert refreshed obs r res r'.
  induction H as [|[target [tokens|]] outcomes Hu _ IH]; intros refreshed obs r res r'.
  - by intros [= _ <-].
  - cbn [apply_outcomes]. unfold mbind, M_bind.
    destruct (apply_target _ _ _ _ _ _ _ r) as [[p|x] r1] eqn:E; intros Hrest F.
    + eapply IH; [exact Hrest|].
      apply apply_target_inv in E as [->|(loaded & row & out & _ & _ & _ & _ & Hur & Hs)]; [done| |done].
      by eapply save_keeps_finality.
    + injection Hrest as _ <-.
      apply apply_target_inv in E as [->|(loaded & row & out & _ & _ & _ & _ & Hur & Hs)]; [done| |done].
      by eapply save_keeps_finality.
  - apply IH.
Qed.

(** ** The probing plan *)
Definition all_targets (groups : list (group_key * list _ProbeTarget)) : list _ProbeTarget :=
  concat groups.*2.

Lemma add_target_perm key t groups : all_targets (add_target key t groups) ≡ₚ t :: all_targets groups.
Proof.
  unfold all_targets. induction groups as [|[k ts] groups IH]; [done|]. cbn [add_target].
  case_bool_decide; cbn [fmap list_fmap snd concat].
  - rewrite <- !app_assoc. simpl. by rewrite Permutation_middle.
  - change (concat (snd <$> add_target key t groups)) with (concat (add_target key t groups).*2).
    rewrite IH. by rewrite Permutation_middle.
Qed.

Definition target_of (e : JobEntry) : _ProbeTarget :=
  mkTarget e (job_state_dir e.(job_dir) e.(storage_layout)).
Definition probed (e : JobEntry) : bool :=
  refreshable e && is_ok (validate_job_capsule e.(job_dir) (Some e.(job_id))).

Definition homogeneous (groups : list (group_key * list _ProbeTarget)) : Prop :=
  Forall (fun g => Forall (fun t => (t.(t_entry).(node), t.(t_entry).(node_local)) = g.1) g.2) groups.

Lemma add_target_homogeneous t groups :
  homogeneous groups ->
  homogeneous (add_target (t.(t_entry).(node), t.(t_entry).(node_local)) t groups).
Proof.
  induction 1 as [|[k ts] groups Hg Hgs IH]; cbn [add_target]; [by repeat constructor|].
  destruct (decide (k = (t.(t_entry).(node), t.(t_entry).(node_local)))) as [->|Hne].
  - rewrite bool_decide_true by done. constructor; [|done]. apply Forall_app.
    split; [done | by repeat constructor].
  - rewrite bool_decide_false by done. by constructor.
Qed.

Lemma collect_step acc e :
  (collect acc e).1 = if probed e then add_target (e.(node), e.(node_local)) (target_of e) acc.1 else acc.1.
Proof.
  unfold collect, probed. destruct acc as [groups obs]. cbn [fst].
  destruct (refreshable e); [|done]. cbn [negb andb].
  by destruct (validate_job_capsule _ _).
Qed.

Lemma collect_spec entries acc :
  homogeneous acc.1 ->
  all_targets (fold_left collect entries acc).1
    ≡ₚ all_targets acc.1 ++ (target_of <$> List.filter probed entries) /\
  homogeneous (fold_left collect entries acc).1.
Proof.
  revert acc. induction entries as [|e entries IH]; intros acc H; cbn [fold_left List.filter].
  - by rewrite app_nil_r.
  - pose proof (collect_step acc e) as Hc. destruct (IH (collect acc e)) as [IH1 IH2].
    { rewrite Hc. destruct (probed e); [|done]. by apply (add_target_homogeneous (target_of e)). }
    split; [|done]. rewrite IH1, Hc. destruct (probed e); [|done].
    rewrite add_target_perm. cbn [fmap list_fmap]. by rewrite <- Permutation_middle.
Qed.

Lemma chunks_go_spec {A} fuel n (l : list A) :
  (0 < n)%nat -> (length l <= fuel)%nat ->
  concat (chunks_go fuel n l) = l /\
  Forall (fun c => (1 <= length c <= n)%nat) (chunks_go fuel n l).
Proof.
  intros Hn. revert l. induction fuel as [|fuel IH]; intros l Hl.
  - by destruct l; [|simpl in Hl; lia].
  - destruct l as [|x l]; [done|]. cbn [chunks_go concat].
    destruct (IH (drop n (x :: l))) as [H1 H2].
    { rewrite length_drop. cbn [length] in *. lia. }
    rewrite H1, take_drop. split; [done|]. constructor; [|done].
    rewrite length_take. cbn [length]. lia.
Qed.

Lemma batch_limit_pos : (0 < STATUS_PROBE_BATCH)%nat.
Proof. unfold STATUS_PROBE_BATCH. lia. Qed.

Lemma batches_concat groups : concat (b_targets <$> batches groups) = all_targets groups.
Proof.
  unfold batches, all_targets. induction groups as [|[k ts] groups IH]; [done|].
  cbn [fmap list_fmap concat]. rewrite fmap_app, concat_app.
  change (concat (list_fmap _ _ ?f groups)) with (concat (f <$> groups)).
  rewrite IH. f_equal.
  cbn [fst snd]. rewrite <- list_fmap_compose.
  destruct (chunks_go_spec (length ts) STATUS_PROBE_BATCH ts batch_limit_pos (le_n _)) as [H _].
  rewrite <- H at 2. unfold chunks. f_equal. clear. induction (chunks_go _ _ ts) as [|c l IH]; [done|].
  simpl. by f_equal.
Qed.
End effects.

Lemma batches_bounded groups :
  Forall (fun b => (1 <= length b.(b_targets) <= STATUS_PROBE_BATCH)%nat) (batches groups).
Proof.
  unfold batches. apply Forall_concat, Forall_fmap, Forall_forall. intros [k ts] _.
  apply Forall_fmap. cbn [fst snd]. unfold compose. cbn [b_targets].
  by apply (chunks_go_spec (length ts) STATUS_PROBE_BATCH ts batch_limit_pos).
Qed.

Lemma chunks_Forall {A} (P : A -> Prop) fuel n l :
  Forall P l -> Forall (Forall P) (chunks_go fuel n l).
Proof.
  revert l. induction fuel as [|fuel IH]; intros l H; destruct l as [|x l]; cbn [chunks_go];
    try constructor.
  - by apply Forall_take.
  - by apply IH, Forall_drop.
Qed.

Lemma batches_homogeneous groups :
  homogeneous groups ->
  Forall (fun b => Forall (fun t => t.(t_entry).(node) = b.(b_node) /\
                                   t.(t_entry).(node_local) = b.(b_local)) b.(b_targets)) (batches groups).
Proof.
  intros H. unfold batches. apply Forall_concat, Forall_fmap.
  eapply Forall_impl; [exact H|]. intros [[n l] ts] Hts. apply Forall_fmap.
  apply (chunks_Forall (fun t => t.(t_entry).(node) = n /\ t.(t_entry).(node_local) = l)).
  cbn [fst snd] in *. eapply Forall_impl; [exact Hts|]. by intros t [= -> ->].
Qed.

(** The probes of one refresh cover each eligible row exactly once, on its own node, at most
    [STATUS_PROBE_BATCH] to a connection, and never a row that is not running or lost. *)
Lemma probe_plan entries :
  let bs := batches (fold_left collect entries ([], ∅)).1 in
  concat (b_targets <$> bs) ≡ₚ target_of <$> List.filter probed entries /\
  Forall (fun b => (1 <= length b.(b_targets) <= STATUS_PROBE_BATCH)%nat /\
                   Forall (fun t => t.(t_entry).(node) = b.(b_node) /\
                                    t.(t_entry).(node_local) = b.(b_local)) b.(b_targets)) bs.
Proof.
  intros bs. destruct (collect_spec entries ([], ∅) (Forall_nil_2 _)) as [Hp Hh]. split.
  - unfold bs. by rewrite batches_concat, Hp.
  - apply Forall_and. split; [apply batches_bounded | by apply batches_homogeneous].
Qed.

(** ** No reply reopens a finalized verdict *)
Section finality.
Context (size : json -> nat) (ok : bool)
        (run_on : string -> bool -> option string -> list _ProbeTarget -> reply).

Lemma parse_sections_targets targets sections obs :
  length sections = length targets ->
  (parse_sections targets sections obs).1.*1 = targets.
Proof.
  revert sections obs. induction targets as [|t ts IH]; intros [|s ss] obs Hlen; try done.
  cbn [parse_sections]. destruct (_parse_status_probe s _) as [p o].
  specialize (IH ss (<[t.(t_entry).(job_id) := o]> obs)).
  destruct (parse_sections ts ss _) as [rest obs']. cbn [fst] in *. simpl. f_equal. apply IH.
  by injection Hlen.
Qed.

Lemma split_step_length d n acc line : length (split_step d n acc line).1 = length acc.1.
Proof.
  unfold split_step. destruct acc as [sections cur]. cbn [fst].
  destruct (starts_with _ line); [done|]. destruct cur; [apply length_alter|done].
Qed.

Lemma split_sections_length lines d n : length (_split_probe_sections lines d n) = n.
Proof.
  unfold _split_probe_sections.
  assert (forall acc, length (fold_left (split_step d n) lines acc).1 = length acc.1) as H.
  { induction lines as [|line lines IH]; intros acc; [done|]. cbn [fold_left].
    by rewrite IH, split_step_length. }
  rewrite H. apply length_replicate.
Qed.

Lemma probe_batch_targets d b obs : (probe_batch run_on d b obs).1.*1 = b.(b_targets).
Proof.
  assert (((fun t => (t, @None _StatusProbe)) <$> b.(b_targets)).*1 = b.(b_targets)) as Hnone.
  { rewrite <- list_fmap_compose. induction (b.(b_targets)) as [|t l IH]; [done|].
    cbn [fmap list_fmap]. f_equal. apply IH. }
  unfold probe_batch. destruct (run_on _ _ _ _) as [m c|rc out err]; [done|].
  destruct (negb (rc =? 0)); [done|]. by apply parse_sections_targets, split_sections_length.
Qed.

Lemma probe_batches_targets ds bs obs :
  (probe_batches run_on ds bs obs).1.*1 = concat (b_targets <$> bs).
Proof.
  unfold probe_batches.
  assert (forall i outcomes obs, let '(_, out, _) := fold_left
    (fun '(i, outcomes, obs) b => let '(more, obs) := probe_batch run_on (ds i) b obs in
       (S i, outcomes ++ more, obs)) bs (i, outcomes, obs) in
    out.*1 = outcomes.*1 ++ concat (b_targets <$> bs)) as H.
  { induction bs as [|b bs IH]; intros i outcomes o; cbn [fold_left].
    - by rewrite app_nil_r.
    - pose proof (probe_batch_targets (ds i) b o) as Hb.
      destruct (probe_batch run_on (ds i) b o) as [more o']. cbn [fst] in Hb.
      specialize (IH (S i) (outcomes ++ more) o').
      destruct (fold_left _ bs _) as [[? out] ?]. rewrite IH, fmap_app, Hb.
      cbn [fmap list_fmap concat]. by rewrite <- app_assoc. }
  specialize (H O [] obs). destruct (fold_left _ bs _) as [[? out] ?]. exact H.
Qed.

(** If applying evidence changed the store, the row read under the lock was a running or a
    not yet finalized lost row of the very process that was probed, and the row written is one
    coherent state of it; other jobs are untouched in every case. *)
Lemma apply_target_guarded now writable target tokens o r res r' :
  unique_keys target.(t_entry) ->
  apply_target size ok now writable target tokens o r = (res, r') ->
  (forall now' jid, jid <> target.(t_entry).(job_id) ->
     (load now' jid r').1 = (load now' jid r).1) /\
  (r' = r \/ exists loaded row, (load now target.(t_entry).(job_id) r).1 = Ok loaded /\
     let current := default target.(t_entry) loaded in
     (current.(status) = Running \/ current.(status) = Lost) /\
     current.(pgid) = target.(t_entry).(pgid) /\ current.(job_dir) = target.(t_entry).(job_dir) /\
     coherent row /\ same_job row current /\ (save size ok now writable row r).2 = r').
Proof.
  intros Hu H. pose proof H as Hcopy.
  apply apply_target_inv in H as [->|(loaded & row & out & Hl & Hsp & Hc & Hs & Hur & Hsave)];
    [split; [done|by left]| |done].
  assert (row.(job_id) = target.(t_entry).(job_id)) as Hid.
  { destruct Hs as [-> _]. destruct loaded as [e|]; [|done]. cbn [default].
    rewrite load_eq in Hl. destruct (valid_job_id _); [|done].
    destruct (authority r _) as [[s|]|]; [|done|done].
    destruct (_read_entry_path now s _ true r) as [e'|] eqn:E; [|done]. injection Hl as <-.
    exact (proj1 (read_entry_wf _ _ _ _ _ _ E)). }
  split.
  - intros now' jid Hne. eapply save_others; [exact Hur|exact Hsave|]. by rewrite Hid.
  - right. exists loaded, row. rewrite Hl, Hsave. split; [done|].
    unfold same_process in Hsp. apply andb_true_iff in Hsp as [Hsp Hdir%bool_decide_eq_true].
    apply andb_true_iff in Hsp as [Hst Hpid%bool_decide_eq_true].
    unfold refreshable in Hst. apply orb_true_iff in Hst.
    split; [by destruct Hst as [H%bool_decide_eq_true|H%bool_decide_eq_true]; [left|right]|]. done.
Qed.

Lemma refresh_status_keeps now writable e r res r' jid t :
  unique_keys e -> refresh_status size ok run_on now writable e r = (res, r') ->
  finalized r jid t -> finalized r' jid t.
Proof.
  intros Hu [->|(row & out & _ & Hur & Hs)]%refresh_status_inv F; [done| |done].
  by eapply save_keeps_finality.
Qed.

Lemma refresh_keeps now writable ds entries r res r' jid t :
  Forall unique_keys entries ->
  refresh_statuses size ok run_on now writable ds entries r = (res, r') ->
  finalized r jid t -> finalized r' jid t.
Proof.
  intros Hu. unfold refresh_statuses.
  pose proof (collect_spec entries ([], ∅) (Forall_nil_2 _)) as [Hp _].
  destruct (fold_left collect entries ([], ∅)) as [groups obs]. cbn [fst] in Hp.
  pose proof (batches_concat groups) as Hc.
  destruct (batches groups) as [|b bs]; [by intros [= _ <-]|].
  pose proof (probe_batches_targets ds (b :: bs) obs) as Ht.
  destruct (probe_batches run_on ds (b :: bs) obs) as [outcomes obs']. cbn [fst] in Ht.
  apply apply_outcomes_keeps.
  assert (Forall (fun t => unique_keys t.(t_entry)) outcomes.*1) as H; [|exact (proj1 (Forall_fmap _ _ _) H)].
  rewrite Ht, Hc, Hp. apply Forall_fmap, Forall_forall. intros e He.
  rewrite list_elem_of_In, filter_In in He. destruct He as [He _].
  rewrite <- list_elem_of_In in He. rewrite Forall_forall in Hu. by apply Hu.
Qed.

(** Whatever the nodes answer, refreshing any rows leaves every finalized
    loss in the registry final. *)
Lemma refresh_statuses_keeps_finality now writable ds entries r res r' jid t :
  Forall unique_keys entries ->
  refresh_statuses size ok run_on now writable ds entries r = (res, r') ->
  finalized r jid t -> finalized r' jid t.
Proof. apply refresh_keeps. Qed.
End finality.

(** ** Concrete instances *)
Definition MARK_REPLY : list string := ["boot-1"; STATUS_MARK; "0"; "10"; "20"; "success"].

Lemma parse_ignores_trailer_witness :
  _parse_status_probe (["boot-1"] ++ STATUS_MARK :: "0" :: "10" :: "20" :: "success" :: MARK_REPLY)
    fresh_observation
  = _parse_status_probe MARK_REPLY fresh_observation.
Proof. apply (parse_ignores_trailer ["boot-1"]). set_solver. Defined.

Lemma split_sections_roundtrip_witness :
  _split_probe_sections (["motd"] ++ frame "@@N@@" 0 [MARK_REPLY; []; ["boot-2"; STATUS_MARK]])
    "@@N@@" 3 = [MARK_REPLY; []; ["boot-2"; STATUS_MARK]].
Proof.
  apply (split_sections_roundtrip "@@N@@" ["motd"] [MARK_REPLY; []; ["boot-2"; STATUS_MARK]]).
  - by repeat constructor.
  - by repeat constructor.
  - apply Nat.leb_le. reflexivity.
Defined.

Definition finished_reply (_ : string) (_ : bool) (_ : option string) (_ : list _ProbeTarget) : reply :=
  Completed 0 (join nul MARK_REPLY) "".

Lemma refresh_statuses_keeps_finality_witness :
  finalized (refresh_statuses sample_size true finished_reply 300%Q true (fun _ => "@@N@@")
               [lost_entry] stored_lost).2 lost_entry.(job_id) 150%Q.
Proof.
  destruct (refresh_statuses sample_size true finished_reply 300%Q true (fun _ => "@@N@@")
              [lost_entry] stored_lost) as [res r'] eqn:E. cbn [snd].
  apply (refresh_statuses_keeps_finality sample_size true finished_reply 300%Q true (fun _ => "@@N@@")
           [lost_entry] stored_lost res r' _ 150%Q).
  - repeat constructor; apply lost_entry_unique.
  - exact E.
  - exact stored_lost_finalized.
Defined.

Definition sample_target : _ProbeTarget := mkTarget test_entry "~/x/.dt/state".
Definition sample_tokens : _StatusProbe := mkProbe "7" (Some "boot-1") (Some 10%Q) (Some 20%Q) "UNKNOWN".

Lemma apply_target_guarded_witness :
  (load 400%Q lost_entry.(job_id)
     (apply_target sample_size true 300%Q true sample_target sample_tokens fresh_observation saved_once.2).2).1
  = (load 400%Q lost_entry.(job_id) saved_once.2).1.
Proof.
  destruct (apply_target sample_size true 300%Q true sample_target sample_tokens fresh_observation
              saved_once.2) as [res r'] eqn:E. cbn [snd].
  apply (apply_target_guarded sample_size true 300%Q true sample_target sample_tokens
           fresh_observation saved_once.2 res r' test_entry_unique E).
  apply (bool_decide_unpack _). vm_compute. exact I.
Defined.

(** The exit code of the job reaches the registry. *)
Example exit_code_recorded :
  match (apply_target sample_size true 300%Q true sample_target sample_tokens fresh_observation
           saved_once.2).1 with
  | Ok (e, _) => e.(status) = Finished /\ e.(exit_code) = Some 7 /\ e.(result_state) = Some ExecutionFailure
  | Err _ => False
  end.
Proof. vm_compute. split_and!; reflexivity. Qed.
