(* ===== verification/Termination.v ===== *)
(** * Runtime identity and termination verdicts ([lifecycle.py])

    The names of a job's tmux server and scope, and the reading of what a
    termination probe printed. *)

From S2P Require Import Prelude Text PyValue Numerals Diagnostics CustomEnv JobEntry RegistryCodec Lifecycle Registry StatusProbe.

Definition _RUNTIME_SESSION_MAX_BYTES : nat := N.to_nat 256.
Definition _RUNTIME_ID_HEX_CHARS : nat := 20.

Section identity.
(** [hashlib.sha256(data).hexdigest()]. *)
Context (sha256_hexdigest : list Ascii.ascii -> string).

Definition runtime_identity (session : string) : result (string * string) :=
  raise_if (bool_decide (session = "") || has_control session)
    (ValueError "tmux session identity is unsafe") ;;
  let encoded := utf8_encode session in
  raise_if (_RUNTIME_SESSION_MAX_BYTES <? length encoded)%nat
    (ValueError "tmux session identity is unsafe") ;;
  let identity := str_take _RUNTIME_ID_HEX_CHARS (sha256_hexdigest encoded) in
  Ok ("dt-job-" +:+ identity, "dt-runtime-" +:+ identity +:+ ".scope").

(** Both names are filename-safe and of a fixed size, whatever the session. *)
Lemma runtime_identity_bounded (session socket scope : string) :
  (forall data, fullmatch SHA256_RE (sha256_hexdigest data) = true) ->
  runtime_identity session = Ok (socket, scope) ->
  exists identity, socket = "dt-job-" +:+ identity /\ scope = "dt-runtime-" +:+ identity +:+ ".scope" /\
    name_chars_ok identity /\ str_len identity = _RUNTIME_ID_HEX_CHARS.
Proof.
  intros Hsha. unfold runtime_identity. rewrite bind_raise_ok. intros [_ H].
  rewrite bind_raise_ok in H. destruct H as [_ [= <- <-]].
  eexists. split; [reflexivity|]. split; [reflexivity|].
  specialize (Hsha (utf8_encode session)). apply fullmatch_single in Hsha as [Hlen Hall]. split.
  - apply take_ok. eapply Forall_impl; [exact Hall|]. intros c. apply hex_name_char.
  - unfold str_take. rewrite str_len_unchars, length_take, chars_length.
    unfold _RUNTIME_ID_HEX_CHARS. lia.
Qed.
End identity.

(** ** Verdicts *)
Inductive verdict := Dead | Alive | Exited (code : option string) | Unverified (detail : string).

(** [s.partition(" ")]: the text before the first blank, and after it. *)
Definition partition_blank (s : string) : string * string :=
  let '(head, tail) := cut_at (fun c => bool_decide (c = Ascii.ascii_of_N 32)) (chars s) in
  (unchars head, unchars (default [] tail)).

(** [re.fullmatch(r"[0-9]{1,3}", code) and int(code) <= 255]. *)
Definition exit_code_text (code : string) : bool :=
  fullmatch [Rep is_digit 1 3] code
  && match py_int code with Ok z => z <=? 255 | Err _ => false end.

Section verdicts.
(** [repr] of a string. *)
Context (py_repr : string -> string).

Definition termination_verdict (returncode : Z) (stdout stderr : option string) : verdict :=
  if negb (returncode =? 0) then
    Unverified (default "" (ok_option (diagnostic_excerpt [stderr; stdout]
      ("exit " +:+ str_of_Z returncode) MAX_DIAGNOSTIC_CHARS)))
  else
    let lines := splitlines (strip (default "" stdout)) in
    let verdict := default "UNKNOWN" (last lines) in
    if bool_decide (verdict = "DEAD") then Dead
    else if bool_decide (verdict = "ALIVE") then Alive
    else
      let '(exited, recorded) := partition_blank verdict in
      if bool_decide (exited = "EXITED") then
        let code := strip recorded in
        if exit_code_text code then Exited (Some code) else Exited None
      else Unverified (excerpt MAX_DIAGNOSTIC_CHARS ("unexpected response " +:+ py_repr verdict)).

(** What a recorded exit code must look like for the verdict to carry it, and
    that a command which failed proves nothing. *)
Lemma termination_verdict_sound returncode stdout stderr :
  (returncode <> 0 -> exists detail, termination_verdict returncode stdout stderr = Unverified detail /\
     (str_len detail <= MAX_DIAGNOSTIC_CHARS)%nat) /\
  (termination_verdict returncode stdout stderr = Dead ->
     returncode = 0 /\ last (splitlines (strip (default "" stdout))) = Some "DEAD") /\
  (forall code, termination_verdict returncode stdout stderr = Exited (Some code) ->
     Forall (fun c => is_digit c = true) (chars code) /\ (1 <= str_len code <= 3)%nat /\
     exists z, py_int code = Ok z /\ z <= 255).
Proof.
  unfold termination_verdict. split; [|split].
  - intros Hrc. rewrite (proj2 (Z.eqb_neq _ _) Hrc). cbn [negb]. eexists. split; [reflexivity|].
    destruct (diagnostic_excerpt _ _ _) as [t|] eqn:E; [|simpl; lia].
    by apply diagnostic_excerpt_bounded in E.
  - destruct (Z.eqb_spec returncode 0) as [->|]; cbn [negb]; [|no_eq]. cbv zeta.
    destruct (last (splitlines (strip (default "" stdout)))) as [v|].
    + change (default "UNKNOWN" (Some v)) with v.
      destruct (bool_decide (v = "DEAD")) eqn:Ev; [intros _; apply bool_decide_eq_true in Ev; by subst|].
      destruct (bool_decide (v = "ALIVE")); [no_eq|].
      destruct (partition_blank v) as [a b].
      destruct (bool_decide (a = "EXITED")); [|no_eq].
      destruct (exit_code_text (strip b)); no_eq.
    + intros H. vm_compute in H. discriminate.
  - intros code. destruct (negb (returncode =? 0)); [no_eq|]. cbv zeta.
    set (v := default "UNKNOWN" _). clearbody v.
    destruct (bool_decide (v = "DEAD")); [no_eq|].
    destruct (bool_decide (v = "ALIVE")); [no_eq|].
    destruct (partition_blank v) as [a b]. destruct (bool_decide (a = "EXITED")); [|no_eq].
    destruct (exit_code_text (strip b)) eqn:E; [|no_eq]. intros [= <-]. unfold exit_code_text in E.
    apply andb_true_iff in E as [Hm Hz]. apply fullmatch_single in Hm as [Hlen Hall].
    split; [exact Hall|]. split; [lia|].
    destruct (py_int (strip b)) as [z|]; [|done]. exists z. split; [done|]. by apply Z.leb_le.
Qed.

End verdicts.

(** ** Two readers of one marker *)

(** The status probe reads the exit-code marker with a bare [int()], which
    takes what the termination probe refuses as unusable: underscores between
    digits, a sign, surrounding blanks, leading zeros. *)
Lemma exit_code_readers_disagree :
  let fresh := mkObservation false None in
  let probe t := mkProbe t None None None "UNKNOWN" in
  let code t := exit_code <$> (probe_verdict 9%Q test_entry (probe t) "" fresh).1 in
  code "1_0" = Some (Some 10) /\ code " +7 " = Some (Some 7) /\ code "0000000007" = Some (Some 7) /\
  termination_verdict id 0 (Some "EXITED 1_0") None = Exited None /\
  termination_verdict id 0 (Some "EXITED +7") None = Exited None /\
  termination_verdict id 0 (Some "EXITED 0000000007") None = Exited None.
Proof. vm_compute. split_and!; reflexivity. Qed.

(** The probe's shell removes CR and LF from a job-written field so that it
    stays one line, but the reader cuts at every boundary [str.splitlines]
    knows: a vertical tab inside [started_at] supplies the finish time and the
    typed result of the job's choosing. *)
Definition VT : string := String (Ascii.ascii_of_N 11) "".
Definition LF_text : string := String LF "".
Lemma flattened_field_splits :
  let field := "5" +:+ VT +:+ "7" +:+ VT +:+ "success" in
  let reply := "boot" +:+ LF_text +:+ STATUS_MARK +:+ LF_text +:+ "1" +:+ LF_text +:+ field
               +:+ LF_text +:+ "UNKNOWN" +:+ LF_text +:+ "execution_failure" +:+ LF_text in
  has_char LF field = false /\ has_char CR field = false /\
  exists p, _parse_status_probe (splitlines reply) fresh_observation = (Some p, fresh_observation) /\
    p.(p_finished_at) = Some 7%Q /\ p.(p_result) = "success".
Proof. cbv zeta. split; [reflexivity|]. split; [reflexivity|]. eexists. vm_compute. split_and!; reflexivity. Qed.

Lemma runtime_identity_bounded_witness :
  exists identity, runtime_identity sample_digest "dt-base"
    = Ok ("dt-job-" +:+ identity, "dt-runtime-" +:+ identity +:+ ".scope") /\
    str_len identity = _RUNTIME_ID_HEX_CHARS.
Proof.
  destruct (runtime_identity sample_digest "dt-base") as [[a b]|x] eqn:E;
    [|vm_compute in E; discriminate].
  destruct (runtime_identity_bounded sample_digest "dt-base" a b sample_digest_hex E)
    as (identity & -> & -> & _ & Hl).
  exact (ex_intro _ identity (conj eq_refl Hl)).
Defined.
