(* ===== verification/Config.v ===== *)
(** * The head configuration the control plane reads ([config.py])

    The fields of [HeadConfig], [QueueCfg] and [Node] that scheduling, the
    queue view and reference resolution use; the loader that fills them from
    TOML is not modelled. *)

From S2P Require Import Prelude Text Layout.

Record Node := mkNode {
  n_name : string;
  n_local : bool;
  n_drained : bool;
  n_transfer_cost : Q;
  n_root : option string;
}.

Record QueueCfg := mkQueueCfg {
  max_my_jobs : option Z;
  reserve_free_per_node : Z;
}.

Record HeadConfig := mkHeadConfig {
  c_center : string;
  c_nodes : list Node;
  disk_min_gib : Z;
  queue : QueueCfg;
  c_worker_root : string;
  c_layout : string;
}.
#[export] Instance eta_HeadConfig : Eta HeadConfig := fun c =>
  mkHeadConfig c.(c_center) c.(c_nodes) c.(disk_min_gib) c.(queue) c.(c_worker_root) c.(c_layout).

(** [node.root or self.worker_root]. *)
Definition worker_root_for (cfg : HeadConfig) (n : Node) : string :=
  match n.(n_root) with Some (String _ _ as root) => root | _ => cfg.(c_worker_root) end.
Definition worker_path (cfg : HeadConfig) (n : Node) (parts : list string) : result string :=
  if bool_decide (cfg.(c_layout) = ROLE_LAYOUT) then node_path (worker_root_for cfg n) ("worker" :: parts)
  else node_path (worker_root_for cfg n) parts.
Definition worker_job_dir (cfg : HeadConfig) (n : Node) (job_id : string) : result string :=
  worker_path cfg n ["jobs"; job_id].
