(* ===== verification/Probe.v ===== *)
(** * The node probe ([probe.py])

    What one node answers to the capacity probe: card rows, compute-process
    rows and a host tail, read into a [NodeStatus].  A card is free when no
    counted process runs on it, the memory it holds beyond resident processes
    is under the threshold, and no job leases it.

    The transport is a parameter: [reply] is what [run_on] gives. *)

From S2P Require Import Prelude Text PyValue Numerals.

Definition GPU_ERROR : string := "---DT-GPU-ERROR---".
Definition APP_ERROR : string := "---DT-APP-ERROR---".
Definition SEP : string := "---DT---".
Definition SYS_SEP : string := "---DT-SYS---".
Definition PROBE_TIMEOUT_EXIT : Z := 124.
Definition _LEASE_OWNER_RE : list re_item := [Rep (fun c => is_alnum c || char_in "_.:@+-" c) 1 128].
Definition _PROCESS_USER_RE : list re_item := [Rep (fun c => is_alnum c || char_in "_.@+-" c) 1 128].
Definition COMMA : Ascii.ascii := Ascii.ascii_of_N 44.

(** ** [str.partition] and [str.split] with a limit *)
Fixpoint find_sep (sep l : list Ascii.ascii) : option (list Ascii.ascii * list Ascii.ascii) :=
  if bool_decide (take (length sep) l = sep) then Some ([], drop (length sep) l)
  else match l with
  | [] => None
  | c :: l' => match find_sep sep l' with Some (a, b) => Some (c :: a, b) | None => None end
  end.
(** [(before, found, after)]. *)
Definition partition (sep s : string) : string * bool * string :=
  match find_sep (chars sep) (chars s) with
  | Some (a, b) => (unchars a, true, unchars b)
  | None => (s, false, "")
  end.
Definition occurs (needle s : string) : bool := (partition needle s).1.2.

(** [line.split(",", n)]. *)
Fixpoint split_max (sep : Ascii.ascii) (n : nat) (cur l : list Ascii.ascii) : list (list Ascii.ascii) :=
  match l with
  | [] => [cur]
  | c :: l' =>
      match n with
      | S n' => if bool_decide (c = sep) then cur :: split_max sep n' [] l'
                else split_max sep n (cur ++ [c]) l'
      | O => split_max sep n (cur ++ [c]) l'
      end
  end.
Definition fields_max (n : nat) (line : string) : list string :=
  (fun w => strip (unchars w)) <$> split_max COMMA n [] (chars line).
Definition fields (line : string) : list string := strip <$> split_on COMMA line.

(** ** Cards *)
Record Gpu := mkGpu {
  index : Z;
  uuid : string;
  mem_used : Z;
  mem_total : Z;
  util : Z;
  procs : nat;
  leased : bool;
  lease_owner : option string;
  free : bool;
  users : list string;
  temperature : option Z;
  resident_procs : nat;
  resident_mib : Z;
  residents : list string;
}.
#[export] Instance eta_Gpu : Eta Gpu := fun g =>
  mkGpu g.(index) g.(uuid) g.(mem_used) g.(mem_total) g.(util) g.(procs) g.(leased) g.(lease_owner)
    g.(free) g.(users) g.(temperature) g.(resident_procs) g.(resident_mib) g.(residents).

Record SystemStats := mkSystem {
  cpu_cores : Z;
  cpu_load1 : Q;
  s_mem_used_mib : Z;
  s_mem_total_mib : Z;
  disk_free_gib : Q;
  disk_total_gib : Q;
  io_pressure : option Q;
}.

Record NodeStatus := mkStatus {
  s_node : string;
  s_gpus : list Gpu;
  s_system : option SystemStats;
  s_error : option string;
  s_gpu_inventory_error : option string;
  s_unreachable : bool;
  s_stale : bool;
}.
#[export] Instance eta_NodeStatus : Eta NodeStatus := fun s =>
  mkStatus s.(s_node) s.(s_gpus) s.(s_system) s.(s_error) s.(s_gpu_inventory_error)
    s.(s_unreachable) s.(s_stale).
Definition free_gpus (s : NodeStatus) : list Gpu := List.filter free s.(s_gpus).

Definition BUILTIN_GPU_RESIDENT_PROCESSES : list string :=
  ["nvidia-cuda-mps-server"; "nvidia-cuda-mps-control"].
Definition COMM_MAX_LEN : nat := 15.
(** The frozenset, as a list of its members. *)
Definition resident_process_names (resident_processes : list string) : list string :=
  let names := resident_processes ++ BUILTIN_GPU_RESIDENT_PROCESSES in
  names ++ (str_take COMM_MAX_LEN <$> names).

Definition field (n : nat) (parts : list string) : string := nth n parts "".
Definition int_or_none (s : string) : option Z := ok_option (py_int s).

(** The optional tail of a card row: [(temperature, leased, lease_owner)]. *)
Definition card_tail (parts : list string) : option Z * bool * option string :=
  if bool_decide (length parts ∈ [7; 8]%nat) then
    let leased_ := bool_decide (field 6 parts = "1") in
    (int_or_none (field 5 parts), leased_,
     if bool_decide (length parts = 8%nat) && leased_ && negb (bool_decide (field 7 parts = ""))
     then Some (field 7 parts) else None)
  else if bool_decide (length parts = 6%nat) then
    if bool_decide (field 5 parts ∈ ["0"; "1"]) then (None, bool_decide (field 5 parts = "1"), None)
    else (int_or_none (field 5 parts), false, None)
  else (None, false, None).

(** [None] for a malformed row. *)
Definition card_row (parts : list string) : option Gpu :=
  if negb (bool_decide (length parts ∈ [5; 6; 7; 8]%nat)) then None
  else
    let '(temperature_, leased_, owner) := card_tail parts in
    index_ ← int_or_none (field 0 parts);
    used ← int_or_none (field 2 parts);
    total ← int_or_none (field 3 parts);
    util_ ← int_or_none (field 4 parts);
    let uuid_ := field 1 parts in
    if (index_ <? 0) || (used <? 0) || (total <=? 0) || (total <? used)
       || negb ((0 <=? util_) && (util_ <=? 100)) || bool_decide (uuid_ = "")
       || (256 <? str_len uuid_)%nat then None
    else Some
      {| index := index_; uuid := uuid_; mem_used := used; mem_total := total; util := util_;
         procs := 0; leased := leased_;
         lease_owner := match owner with
                        | Some o => if fullmatch _LEASE_OWNER_RE o then Some o else None
                        | None => None
                        end;
         free := false; users := [];
         temperature := match temperature_ with
                        | Some t => if (-100 <=? t) && (t <=? 1000) then Some t else None
                        | None => None
                        end;
         resident_procs := 0; resident_mib := 0; residents := [] |}.

(** The loop over the card rows: the cards by uuid, in order, and the number of
    rows refused. *)
Definition card_line (acc : list Gpu * nat) (line : string) : list Gpu * nat :=
  let '(gpus, malformed) := acc in
  match card_row (fields_max 7 line) with
  | None => (gpus, S malformed)
  | Some gpu =>
      if bool_decide (gpu.(uuid) ∈ uuid <$> gpus) || bool_decide (gpu.(index) ∈ index <$> gpus)
      then (gpus, S malformed)
      else (gpus ++ [gpu], malformed)
  end.

(** [gpus[uuid]] mutated in place. *)
Definition update_card (uuid_ : string) (f : Gpu -> Gpu) (gpus : list Gpu) : list Gpu :=
  (fun g => if bool_decide (g.(uuid) = uuid_) then f g else g) <$> gpus.
Definition has_card (uuid_ : string) (gpus : list Gpu) : bool := bool_decide (uuid_ ∈ uuid <$> gpus).

Definition add_unique (x : string) (l : list string) : list string :=
  if bool_decide (x ∈ l) then l else l ++ [x].
Definition count_process (user : string) (g : Gpu) : Gpu :=
  g <| procs := S g.(procs) |> <| users := add_unique user g.(users) |>.

(** [str.isdigit] also holds of the superscript digits, which [int] refuses. *)
Definition is_digit_text (s : string) : bool :=
  negb (bool_decide (s = ""))
  && forallb (fun c => is_digit c || bool_decide (code c ∈ [178; 179; 185]%N)) (chars s).

Definition count_resident (comm : string) (mib : Z) (g : Gpu) : Gpu :=
  g <| resident_procs := S g.(resident_procs) |> <| resident_mib := g.(resident_mib) + mib |>
    <| residents := add_unique comm g.(residents) |>.

(** One compute-process row; [processes] are the [(uuid, pid)] pairs seen. *)
Definition app_line (resident_names : list string)
    (acc : list Gpu * list (string * string)) (line : string)
  : result (list Gpu * list (string * string)) :=
  let '(gpus, processes) := acc in
  let parts := fields line in
  let uuid_ := field 0 parts in
  if (length parts <? 2)%nat then
    Ok (if has_card uuid_ gpus then update_card uuid_ (count_process "?") gpus else gpus, processes)
  else if negb (has_card uuid_ gpus) then Ok (gpus, processes)
  else
    let pid := field 1 parts in
    if negb (bool_decide (pid = "")) && bool_decide ((uuid_, pid) ∈ processes) then Ok (gpus, processes)
    else
      let processes := if bool_decide (pid = "") then processes else (uuid_, pid) :: processes in
      let comm := field 3 parts in
      if negb (bool_decide (comm = "")) && bool_decide (comm ∈ resident_names) then
        let used_text := field 4 parts in
        mib ← if is_digit_text used_text then py_int used_text else Ok 0;
        Ok (update_card uuid_ (count_resident comm mib) gpus, processes)
      else
        let candidate := if bool_decide (field 2 parts = "") then "?" else field 2 parts in
        let user := if bool_decide (candidate = "?") || fullmatch _PROCESS_USER_RE candidate
                    then candidate else "?" in
        Ok (update_card uuid_ (count_process user) gpus, processes).

Fixpoint app_lines (resident_names : list string) (acc : list Gpu * list (string * string))
    (lines : list string) : result (list Gpu * list (string * string)) :=
  match lines with
  | [] => Ok acc
  | line :: rest => acc ← app_line resident_names acc line; app_lines resident_names acc rest
  end.

Definition settle (mem_threshold_mib : Z) (g : Gpu) : Gpu :=
  let foreign_mib := Z.max 0 (g.(mem_used) - g.(resident_mib)) in
  let g := g <| free := (g.(procs) =? 0)%nat && (foreign_mib <? mem_threshold_mib) && negb g.(leased) |> in
  if g.(leased) then g <| users := add_unique "dt-lease" g.(users) |> else g.

Definition sections (text : string) : string * string :=
  let '(gpu_part, _, remainder) := partition SEP text in
  (gpu_part, (partition SYS_SEP remainder).1.1).
Definition lines_of (part : string) : list string := splitlines (strip part).

Definition _parse_probe_inventory (text : string) (mem_threshold_mib : Z)
    (resident_processes : list string) : result (list Gpu * option string) :=
  let '(gpu_part, app_part) := sections text in
  let '(gpus, malformed) := fold_left card_line (lines_of gpu_part) ([], 0%nat) in
  found ← app_lines (resident_process_names resident_processes) (gpus, []) (lines_of app_part);
  let out := sort_by (fun a b => a.(index) <? b.(index)) found.1 in
  Ok (settle mem_threshold_mib <$> out,
      if (malformed =? 0)%nat then None
      else Some ("GPU inventory incomplete: " +:+ pretty malformed +:+ " malformed "
                 +:+ (if (malformed =? 1)%nat then "row" else "rows") +:+ " not schedulable")).

(** ** The host tail *)

(** [a / 1024**2] of integers: a quotient beyond the floats raises. *)
Definition kib_to_gib (kib : Z) : result Q :=
  if FLOAT_OVERFLOW * 1048576 <=? kib
  then Err (OverflowError "integer division result too large for a float")
  else Ok (kib # 1048576)%Q.

Definition parse_system_output (text : string) : result (option SystemStats) :=
  let '(_, marker, system_part) := partition SYS_SEP text in
  if negb marker then Ok None
  else match last (List.filter (fun l => negb (bool_decide (l = ""))) (strip <$> splitlines system_part)) with
  | None => Ok None
  | Some line =>
      let parts := fields line in
      if negb (bool_decide (length parts = 7%nat)) then Ok None
      else match (cores ← int_or_none (field 0 parts);
                  load1 ← ok_option (py_float_text (field 1 parts));
                  mem_total_ ← int_or_none (field 2 parts);
                  mem_avail ← int_or_none (field 3 parts);
                  disk_total ← int_or_none (field 4 parts);
                  disk_avail ← int_or_none (field 5 parts);
                  io ← ok_option (py_float_text (field 6 parts));
                  match load1, io with
                  | Fin load1, Fin io =>
                      if (cores <=? 0) || q_ltb load1 0 || (mem_total_ <=? 0)
                         || negb ((0 <=? mem_avail) && (mem_avail <=? mem_total_)) || (disk_total <=? 0)
                         || negb ((0 <=? disk_avail) && (disk_avail <=? disk_total)) then None
                      else Some (cores, load1, mem_total_, mem_avail, disk_total, disk_avail, io)
                  | _, _ => None
                  end) with
      | None => Ok None
      | Some (cores, load1, mem_total_, mem_avail, disk_total, disk_avail, io) =>
          free_gib ← kib_to_gib disk_avail;
          total_gib ← kib_to_gib disk_total;
          Ok (Some {| cpu_cores := cores; cpu_load1 := load1;
                      s_mem_used_mib := Z.max 0 ((mem_total_ - mem_avail) / 1024);
                      s_mem_total_mib := Z.max 0 (mem_total_ / 1024);
                      disk_free_gib := q_max 0 free_gib; disk_total_gib := q_max 0 total_gib;
                      io_pressure := if q_ltb io 0 then None else Some io |})
      end
  end.

(** ** Errors and the whole probe *)
Definition section_error (section marker label : string) : option string :=
  let '(_, found, after) := partition marker section in
  if found then Some (match last (lines_of after) with
                      | Some detail => label +:+ ": " +:+ detail
                      | None => label
                      end)
  else None.
Definition parse_probe_error (text : string) : option string :=
  let '(gpu_part, app_part) := sections text in
  match section_error gpu_part GPU_ERROR "GPU query failed" with
  | Some e => Some e
  | None => section_error app_part APP_ERROR "GPU process query failed"
  end.

(** The transport either raises, [transport] telling whether the exception is
    one of [RemoteError], [TimeoutExpired] and [OSError], or completes. *)
Inductive reply :=
  | Raised (message : string) (transport : bool)
  | Completed (returncode : Z) (stdout stderr : string).

Definition failed_status (node : string) (error : string) (unreachable : bool) : NodeStatus :=
  mkStatus node [] None (Some error) None unreachable false.

(** [timeout_text] is [f"{probe_timeout:g}"]. *)
Definition probe_node (node : string) (local : bool) (mem_threshold_mib : Z)
    (resident_processes : list string) (timeout_text : string) (r : reply) : result NodeStatus :=
  match r with
  | Raised message transport => Ok (failed_status node message (negb local && transport))
  | Completed returncode stdout stderr =>
      if returncode =? PROBE_TIMEOUT_EXIT then
        Ok (failed_status node ("GPU probe timed out after " +:+ timeout_text +:+ "s") false)
      else if negb (returncode =? 0) then
        let text := if bool_decide (stderr = "") then stdout else stderr in
        Ok (failed_status node (match last (lines_of text) with
                                | Some line => line
                                | None => "exit " +:+ pretty returncode
                                end) (negb local && (returncode =? 255)))
      else
        let probe_error := parse_probe_error stdout in
        inventory ← _parse_probe_inventory stdout mem_threshold_mib resident_processes;
        let gpus := if occurs APP_ERROR stdout
                    then (fun g => g <| free := false |>) <$> inventory.1 else inventory.1 in
        system ← parse_system_output stdout;
        Ok (mkStatus node gpus system None
              match probe_error with Some (String _ _) => probe_error | _ => inventory.2 end
              false false)
  end.
