(* ===== verification/ProbeSpec.v ===== *)
(** * What a probe may report

    The inventory is well formed whatever the node prints, a counted process
    always makes its card busy, and a failed query never leaves a card free. *)

From S2P Require Import Prelude Text PyValue Numerals Probe.

(** ** Card rows *)
Definition card_range (g : Gpu) : Prop :=
  0 <= g.(index) /\ 0 <= g.(mem_used) <= g.(mem_total) /\ 0 < g.(mem_total) /\
  0 <= g.(util) <= 100 /\ g.(uuid) <> "" /\ (str_len g.(uuid) <= 256)%nat.

Lemma card_row_range parts g : card_row parts = Some g -> card_range g.
Proof.
  unfold card_row. destruct (negb _); [no_eq|]. destruct (card_tail parts) as [[t l] o].
  destruct (int_or_none (field 0 parts)) as [i|]; [|no_eq].
  destruct (int_or_none (field 2 parts)) as [used|]; [|no_eq].
  destruct (int_or_none (field 3 parts)) as [tot|]; [|no_eq].
  destruct (int_or_none (field 4 parts)) as [u|]; [|no_eq]. cbn [mbind option_bind].
  destruct (bool_decide (field 1 parts = "")) eqn:Eu;
    [by rewrite orb_true_r|apply bool_decide_eq_false in Eu].
  destruct (Nat.ltb_spec 256 (str_len (field 1 parts))); [by rewrite orb_true_r|].
  destruct ((i <? 0) || (used <? 0) || (tot <=? 0) || (tot <? used)
            || negb ((0 <=? u) && (u <=? 100))) eqn:E; [no_eq|].
  cbn [orb]. intros [= <-]. unfold card_range. cbn. split_and!; try done; lia.
Qed.

Definition well_formed (gpus : list Gpu) : Prop :=
  NoDup (uuid <$> gpus) /\ NoDup (index <$> gpus) /\ Forall card_range gpus.

Lemma card_line_wf acc line : well_formed acc.1 -> well_formed (card_line acc line).1.
Proof.
  destruct acc as [gpus bad]. cbn [fst]. intros (Hu & Hi & Hr). unfold card_line.
  destruct (card_row (fields_max 7 line)) as [g|] eqn:E; [|done]. apply card_row_range in E.
  destruct (bool_decide (uuid g ∈ uuid <$> gpus)) eqn:E1; [done|].
  destruct (bool_decide (index g ∈ index <$> gpus)) eqn:E2; [done|].
  apply bool_decide_eq_false in E1, E2. cbn [orb fst]. split_and!.
  - rewrite fmap_app. apply NoDup_app. split; [done|]. split; [|apply NoDup_singleton]. set_solver.
  - rewrite fmap_app. apply NoDup_app. split; [done|]. split; [|apply NoDup_singleton]. set_solver.
  - apply Forall_app. split; [done|]. by constructor.
Qed.

Lemma card_lines_wf lines acc : well_formed acc.1 -> well_formed (fold_left card_line lines acc).1.
Proof. revert acc. induction lines as [|l ls IH]; intros acc H; [done|]. by apply IH, card_line_wf. Qed.

(** ** Process rows *)

(** The process rows change only what they count. *)
Record grown (g g' : Gpu) : Prop := {
  grown_index : g'.(index) = g.(index);
  grown_uuid : g'.(uuid) = g.(uuid);
  grown_used : g'.(mem_used) = g.(mem_used);
  grown_total : g'.(mem_total) = g.(mem_total);
  grown_util : g'.(util) = g.(util);
  grown_leased : g'.(leased) = g.(leased);
  grown_procs : (g.(procs) <= g'.(procs))%nat;
}.

Lemma grown_refl g : grown g g.
Proof. by split. Qed.

Lemma grown_trans a b c : grown a b -> grown b c -> grown a c.
Proof. intros [] []. split; first [congruence | lia]. Qed.

Lemma grown_list_refl l : Forall2 grown l l.
Proof. apply Forall_Forall2_diag, Forall_true. exact grown_refl. Qed.

Lemma grown_list_trans a b c : Forall2 grown a b -> Forall2 grown b c -> Forall2 grown a c.
Proof.
  intros Hab. revert c. induction Hab as [|x y a b Hxy _ IH]; intros c Hbc;
    [exact Hbc|]. inversion Hbc as [|? z ? c' Hyz Hbc']; subst.
  constructor; [by eapply grown_trans|by apply IH].
Qed.

Lemma update_grown u f gpus : (forall g, grown g (f g)) -> Forall2 grown gpus (update_card u f gpus).
Proof.
  intros Hf. unfold update_card. apply Forall2_fmap_r, Forall_Forall2_diag, Forall_true. intros g.
  change (grown g (if bool_decide (g.(uuid) = u) then f g else g)).
  destruct (bool_decide (g.(uuid) = u)); [apply Hf|apply grown_refl].
Qed.

Lemma count_process_grown user g : grown g (count_process user g).
Proof. split; cbn; try done. lia. Qed.

Lemma count_resident_grown comm mib g : grown g (count_resident comm mib g).
Proof. by split. Qed.

Lemma app_line_grown names acc line acc' :
  app_line names acc line = Ok acc' -> Forall2 grown acc.1 acc'.1.
Proof.
  destruct acc as [gpus seen]. unfold app_line. cbv zeta. cbn [fst].
  destruct (length (fields line) <? 2)%nat.
  { intros [= <-]. cbn. destruct (has_card _ gpus); [|apply grown_list_refl].
    apply update_grown, count_process_grown. }
  destruct (has_card _ gpus); cbn [negb]; [|intros [= <-]; apply grown_list_refl].
  destruct (negb _ && bool_decide (_ ∈ seen)); [intros [= <-]; apply grown_list_refl|].
  destruct (negb _ && bool_decide (_ ∈ names)).
  - rewrite bind_ok. intros (mib & _ & [= <-]). apply update_grown. intros g. apply count_resident_grown.
  - intros [= <-]. apply update_grown, count_process_grown.
Qed.

Lemma app_lines_grown names lines acc acc' :
  app_lines names acc lines = Ok acc' -> Forall2 grown acc.1 acc'.1.
Proof.
  revert acc. induction lines as [|l ls IH]; intros acc; cbn [app_lines];
    [intros [= <-]; apply grown_list_refl|].
  rewrite bind_ok. intros (b & Hb & H). eapply grown_list_trans; [by eapply app_line_grown|by apply IH].
Qed.

Lemma app_lines_app names a b acc acc' :
  app_lines names acc (a ++ b) = Ok acc' <->
  exists mid, app_lines names acc a = Ok mid /\ app_lines names mid b = Ok acc'.
Proof.
  revert acc. induction a as [|l a IH]; intros acc; cbn [app app_lines].
  - split; [by exists acc|by intros (mid & [= <-] & H)].
  - rewrite bind_ok. setoid_rewrite IH. setoid_rewrite bind_ok. naive_solver.
Qed.

Lemma grown_source l l' g' : Forall2 grown l l' -> g' ∈ l' -> exists g, g ∈ l /\ grown g g'.
Proof.
  induction 1 as [|x y l l' Hxy _ IH]; [by intros ?%not_elem_of_nil|].
  intros [->|Hin]%elem_of_cons; [exists x; split; [left|done]|].
  destruct (IH Hin) as (g & Hg & H). exists g. split; [by right|done].
Qed.

Lemma grown_uuids l l' : Forall2 grown l l' -> uuid <$> l' = uuid <$> l.
Proof. induction 1 as [|g g' l l' Hg _ IH]; [done|]. cbn. by rewrite (grown_uuid _ _ Hg), IH. Qed.

Lemma grown_indices l l' : Forall2 grown l l' -> index <$> l' = index <$> l.
Proof. induction 1 as [|g g' l l' Hg _ IH]; [done|]. cbn. by rewrite (grown_index _ _ Hg), IH. Qed.

Lemma grown_wf l l' : Forall2 grown l l' -> well_formed l -> well_formed l'.
Proof.
  intros Hg (Hu & Hi & Hr). split_and!; [by rewrite (grown_uuids _ _ Hg)|by rewrite (grown_indices _ _ Hg)|].
  clear Hu Hi. induction Hg as [|g g' l l' [] _ IH]; [constructor|].
  apply Forall_cons_iff in Hr as [Hr Hrs]. constructor; [|by apply IH].
  unfold card_range in *. rewrite grown_index0, grown_used0, grown_total0, grown_util0, grown_uuid0. done.
Qed.

(** The pairs remembered come from the rows read. *)
Definition pair_of (line : string) : string * string := (field 0 (fields line), field 1 (fields line)).

Lemma app_line_seen names acc line acc' p :
  app_line names acc line = Ok acc' -> p ∈ acc'.2 -> p ∈ acc.2 \/ p = pair_of line.
Proof.
  destruct acc as [gpus seen]. unfold app_line, pair_of. cbv zeta. cbn [snd].
  destruct (length (fields line) <? 2)%nat; [intros [= <-]; by left|].
  destruct (has_card _ gpus); cbn [negb]; [|intros [= <-]; by left].
  destruct (negb _ && bool_decide (_ ∈ seen)); [intros [= <-]; by left|].
  destruct (negb _ && bool_decide (_ ∈ names)).
  - rewrite bind_ok. intros (mib & _ & [= <-]). cbn. destruct (bool_decide _); [by left|].
    intros [->|?]%elem_of_cons; [by right|by left].
  - intros [= <-]. cbn. destruct (bool_decide (field 1 _ = "")); [by left|].
    intros [->|?]%elem_of_cons; [by right|by left].
Qed.

Lemma app_lines_seen names lines acc acc' p :
  app_lines names acc lines = Ok acc' -> p ∈ acc'.2 -> p ∈ acc.2 \/ p ∈ pair_of <$> lines.
Proof.
  revert acc. induction lines as [|l ls IH]; intros acc; cbn [app_lines]; [intros [= <-]; by left|].
  rewrite bind_ok. intros (b & Hb & H) Hp. rewrite fmap_cons.
  destruct (IH b H Hp) as [Hin|Hin]; [|right; set_solver].
  destruct (app_line_seen _ _ _ _ _ Hb Hin) as [?| ->]; [by left|right; left].
Qed.

(** ** The settled inventory *)
Lemma settle_facts thr g :
  let g' := settle thr g in
  g'.(index) = g.(index) /\ g'.(uuid) = g.(uuid) /\ (card_range g -> card_range g') /\
  g'.(procs) = g.(procs) /\ g'.(leased) = g.(leased) /\ g'.(mem_used) = g.(mem_used) /\
  g'.(resident_mib) = g.(resident_mib) /\
  g'.(free) = (g.(procs) =? 0)%nat && (Z.max 0 (g.(mem_used) - g.(resident_mib)) <? thr) && negb g.(leased).
Proof. cbv zeta. unfold settle. destruct (leased g) eqn:E; cbn; rewrite ?E; split_and!; done. Qed.

Lemma sort_index_sorted l : NoDup (index <$> l) ->
  StronglySorted (fun a b => a.(index) < b.(index)) (sort_by (fun a b => a.(index) <? b.(index)) l).
Proof.
  intros Hnd. pose proof (sort_by_perm (fun a b => a.(index) <? b.(index)) l) as Hp.
  assert (StronglySorted (fun a b : Gpu => (b.(index) <? a.(index)) = false)
    (sort_by (fun a b => a.(index) <? b.(index)) l)) as Hs by (apply sort_by_sorted; intros; lia).
  rewrite <- Hp in Hnd. revert Hs Hnd. clear Hp. generalize (sort_by (fun a b => a.(index) <? b.(index)) l).
  intros k. induction 1 as [|x k Hs IH Hall]; [constructor|]. rewrite fmap_cons, NoDup_cons.
  intros [Hx Hnd]. constructor; [by apply IH|]. rewrite Forall_forall in Hall |- *. intros y Hy.
  pose proof (Hall y Hy). assert (index x <> index y); [|lia].
  intros Heq. apply Hx. rewrite Heq. by apply list_elem_of_fmap_2.
Qed.

Lemma inventory_inv text thr res out err :
  _parse_probe_inventory text thr res = Ok (out, err) ->
  exists gpus seen, well_formed gpus /\
    app_lines (resident_process_names res) ((fold_left card_line (lines_of (sections text).1) ([], 0%nat)).1, [])
      (lines_of (sections text).2) = Ok (gpus, seen) /\
    out = settle thr <$> sort_by (fun a b => a.(index) <? b.(index)) gpus /\
    (err = None <-> (fold_left card_line (lines_of (sections text).1) ([], 0%nat)).2 = 0%nat).
Proof.
  unfold _parse_probe_inventory. destruct (sections text) as [gp ap]. cbn [fst snd].
  destruct (fold_left card_line (lines_of gp) ([], 0%nat)) as [cards bad] eqn:E. rewrite bind_ok.
  intros ([gpus seen] & Hf & [= <- <-]). exists gpus, seen. split_and!; try done.
  - eapply grown_wf; [by apply app_lines_grown in Hf|]. cbn.
    pose proof (card_lines_wf (lines_of gp) ([], 0%nat)) as H. rewrite E in H. apply H.
    split_and!; constructor.
  - destruct bad; cbn; split; done.
Qed.

(** Whatever the node prints, an inventory that is returned has distinct card
    identities, cards in increasing index order and values in range, and a
    card is free exactly when no counted process runs on it, it is not leased,
    and its memory beyond residents is under the threshold. *)
Lemma inventory_sound text thr res out err :
  _parse_probe_inventory text thr res = Ok (out, err) ->
  NoDup (uuid <$> out) /\ StronglySorted (fun a b => a.(index) < b.(index)) out /\
  forall g, g ∈ out -> card_range g /\
    (g.(free) = true <-> g.(procs) = 0%nat /\ g.(leased) = false /\
       Z.max 0 (g.(mem_used) - g.(resident_mib)) < thr).
Proof.
  intros (gpus & seen & (Hu & Hi & Hr) & _ & -> & _)%inventory_inv.
  pose proof (sort_index_sorted gpus Hi) as Hs.
  pose proof (sort_by_perm (fun a b => a.(index) <? b.(index)) gpus) as Hp.
  rewrite <- Hp in Hu, Hr. clear Hp Hi. revert Hs Hu Hr.
  generalize (sort_by (fun a b => a.(index) <? b.(index)) gpus). clear. intros l Hs Hu Hr.
  split_and!.
  - assert (uuid <$> (settle thr <$> l) = uuid <$> l) as ->; [|done].
    rewrite <- list_fmap_compose. apply list_fmap_ext. intros i g _. apply settle_facts.
  - induction Hs as [|x k Hs IH Hall]; [constructor|]. rewrite fmap_cons.
    rewrite fmap_cons, NoDup_cons in Hu. destruct Hu as [_ Hu]. apply Forall_cons_iff in Hr as [_ Hr].
    constructor; [by apply IH|]. apply Forall_fmap. eapply Forall_impl; [exact Hall|].
    intros y Hy. cbn. destruct (settle_facts thr x) as [-> _]. by destruct (settle_facts thr y) as [-> _].
  - intros g' (g & -> & Hg)%list_elem_of_fmap. rewrite Forall_forall in Hr.
    destruct (settle_facts thr g) as (_ & _ & Hrange & -> & -> & -> & -> & ->).
    split; [by apply Hrange, Hr|]. rewrite !andb_true_iff, negb_true_iff, Nat.eqb_eq, Z.ltb_lt. tauto.
Qed.

(** A compute process makes its card busy: a row naming the card, with a
    process identity not seen before on it and a program that is not resident,
    leaves that card not free. *)
Lemma compute_process_busies text thr res out err before line after g :
  _parse_probe_inventory text thr res = Ok (out, err) ->
  lines_of (sections text).2 = before ++ line :: after ->
  (2 <= length (fields line))%nat ->
  g ∈ out -> g.(uuid) = field 0 (fields line) ->
  (field 1 (fields line) = "" \/ pair_of line ∉ pair_of <$> before) ->
  (field 3 (fields line) = "" \/ field 3 (fields line) ∉ resident_process_names res) ->
  g.(free) = false.
Proof.
  intros (gpus & seen & _ & Happ & -> & _)%inventory_inv Hlines Hlen Hg Huuid Hpid Hcomm.
  apply list_elem_of_fmap in Hg as (h & -> & Hh). rewrite sort_by_perm in Hh.
  destruct (settle_facts thr h) as (_ & Hu & _ & _ & _ & _ & _ & ->). rewrite Hu in Huuid.
  rewrite Hlines in Happ. apply app_lines_app in Happ as ([cards seen0] & Hbefore & Happ).
  cbn [app_lines] in Happ. rewrite bind_ok in Happ. destruct Happ as ([cards' seen'] & Hline & Hafter).
  assert (Forall2 grown cards' gpus) as Hgrown by (by apply app_lines_grown in Hafter).
  destruct (grown_source _ _ _ Hgrown Hh) as (h' & Hh' & Hgr).
  enough (0 < procs h')%nat as Hpos.
  { pose proof (grown_procs _ _ Hgr). destruct (Nat.eqb_spec h.(procs) 0); [lia|done]. }
  pose proof (grown_uuid _ _ Hgr) as Heq. rewrite Huuid in Heq. clear Hgr Hgrown Hafter Hh Hu Huuid.
  unfold app_line in Hline. cbv zeta in Hline.
  destruct (Nat.ltb_spec (length (fields line)) 2); [lia|].
  assert (has_card (field 0 (fields line)) cards = true) as Hcard.
  { unfold has_card. apply bool_decide_eq_true. pose proof (app_line_grown (resident_process_names res)
      (cards, seen0) line (cards', seen')) as Hg. cbn [fst] in Hg.
    assert (Forall2 grown cards cards') as Hg'.
    { apply Hg. unfold app_line. cbv zeta. destruct (Nat.ltb_spec (length (fields line)) 2); [lia|exact Hline]. }
    rewrite <- (grown_uuids _ _ Hg'), Heq. by apply list_elem_of_fmap_2. }
  rewrite Hcard in Hline. cbn [negb] in Hline.
  assert (negb (bool_decide (field 1 (fields line) = ""))
          && bool_decide ((field 0 (fields line), field 1 (fields line)) ∈ seen0) = false) as Hnew.
  { destruct Hpid as [->|Hpid]; [done|]. rewrite (bool_decide_false (_ ∈ seen0)); [by rewrite andb_false_r|].
    intros Hin. destruct (app_lines_seen _ _ _ _ _ Hbefore Hin) as [Hx|Hx]; [by apply not_elem_of_nil in Hx|done]. }
  rewrite Hnew in Hline.
  assert (negb (bool_decide (field 3 (fields line) = ""))
          && bool_decide (field 3 (fields line) ∈ resident_process_names res) = false) as Hres.
  { destruct Hcomm as [->|Hcomm]; [done|]. by rewrite (bool_decide_false (_ ∈ _) Hcomm), andb_false_r. }
  rewrite Hres in Hline. injection Hline as <- _. unfold update_card in Hh'.
  apply list_elem_of_fmap in Hh' as (c & Hc & _).
  destruct (bool_decide (uuid c = field 0 (fields line))) eqn:E; subst h'; [cbn; lia|].
  apply bool_decide_eq_false in E. congruence.
Qed.

(** A failed process query never leaves a card free, and a failed card or
    process query is reported as an incomplete inventory. *)
Lemma probe_fails_closed node local thr res t stdout stderr st :
  probe_node node local thr res t (Completed 0 stdout stderr) = Ok st ->
  (occurs APP_ERROR stdout = true -> free_gpus st = []) /\
  (occurs GPU_ERROR (sections stdout).1 = true \/ occurs APP_ERROR (sections stdout).2 = true ->
   is_Some st.(s_gpu_inventory_error)) /\
  st.(s_error) = None /\ st.(s_unreachable) = false.
Proof.
  unfold probe_node. cbn [Z.eqb negb PROBE_TIMEOUT_EXIT]. rewrite bind_ok. intros (inv & _ & H).
  apply bind_ok in H as (sys & _ & [= <-]). split_and!; try done.
  - intros ->. unfold free_gpus. cbn. induction inv.1 as [|g l IH]; [done|]. exact IH.
  - intros Herr. cbn [s_gpu_inventory_error]. unfold parse_probe_error.
    destruct (sections stdout) as [gp ap]. cbn [fst snd] in Herr.
    assert (forall s m l, occurs m s = true -> exists e, section_error s m l = Some e) as Hsec.
    { intros s m l Ho. unfold section_error, occurs in *. destruct (partition m s) as [[b f] a].
      cbn in Ho. subst f. by eexists. }
    assert (forall s m l e, l <> "" -> section_error s m l = Some e -> e <> "") as Hne.
    { intros s m l e Hl. unfold section_error. destruct (partition m s) as [[b f] a].
      destruct f; [|no_eq]. intros [= <-]. destruct l; [done|]. destruct (last (lines_of a)); no_eq. }
    destruct (section_error gp GPU_ERROR "GPU query failed") as [e|] eqn:E1.
    { apply Hne in E1; [|no_eq]. destruct e; [done|by eexists]. }
    destruct (section_error ap APP_ERROR "GPU process query failed") as [e|] eqn:E2.
    { apply Hne in E2; [|no_eq]. destruct e; [done|by eexists]. }
    exfalso. destruct Herr as [Ho|Ho];
      destruct (Hsec _ _ "GPU query failed" Ho) as [x Hx], (Hsec _ _ "GPU process query failed" Ho) as [y Hy];
      congruence.
Qed.

(** ** A concrete node *)
Definition newline : string := String LF "".
(** Two cards, a training process on the second, and a resident daemon on the
    first; the process query of [failed_text] failed. *)
Definition probe_text : string :=
  join newline ["0, GPU-a, 300, 81920, 0, 40, 0"; "1, GPU-b, 9000, 81920, 90, 60, 0"; SEP;
                "GPU-a,11,root,nvidia-cuda-mps-server,28"; "GPU-b,12,ann,python,8000"; SYS_SEP;
                "64,1.5,1048576,524288,1048576000,524288000,-1"; ""].
Definition failed_text : string :=
  join newline ["0, GPU-a, 300, 81920, 0, 40, 0"; SEP; APP_ERROR; "driver mismatch"; SYS_SEP; ""].

Definition probe_result : result (list Gpu * option string) := _parse_probe_inventory probe_text 500 [].

Example probe_result_shape :
  match probe_result with
  | Ok (out, err) => ((fun g => (g.(uuid), g.(free), g.(users))) <$> out, err)
  | Err _ => ([], None)
  end = ([("GPU-a", true, []); ("GPU-b", false, ["ann"])], None).
Proof. vm_compute. reflexivity. Qed.

Lemma probe_result_ok : exists out err, probe_result = Ok (out, err) /\ uuid <$> out = ["GPU-a"; "GPU-b"].
Proof.
  pose proof probe_result_shape as H. destruct probe_result as [[out err]|]; [|discriminate H].
  exists out, err. split; [reflexivity|]. cbn in H. injection H as H _.
  apply (f_equal (fmap (fun t => t.1.1))) in H. by rewrite <- list_fmap_compose in H.
Qed.

Lemma inventory_sound_witness : exists out err, probe_result = Ok (out, err) /\ NoDup (uuid <$> out).
Proof.
  destruct probe_result_ok as (out & err & H & _). exists out, err. split; [exact H|].
  exact (proj1 (inventory_sound probe_text 500 [] out err H)).
Defined.

Lemma compute_process_busies_witness : exists out err g, probe_result = Ok (out, err) /\ g ∈ out /\
  g.(uuid) = "GPU-b" /\ g.(free) = false.
Proof.
  destruct probe_result_ok as (out & err & H & Hu). exists out, err.
  assert ("GPU-b" ∈ uuid <$> out) as Hin by (rewrite Hu; right; left).
  apply list_elem_of_fmap in Hin as (g & Hg & Hin). exists g.
  split; [exact H|]. split; [exact Hin|]. split; [exact (eq_sym Hg)|].
  apply (compute_process_busies probe_text 500 [] out err ["GPU-a,11,root,nvidia-cuda-mps-server,28"]
    "GPU-b,12,ann,python,8000" [] g H).
  - vm_compute. reflexivity.
  - vm_compute. lia.
  - exact Hin.
  - rewrite <- Hg. vm_compute. reflexivity.
  - right. apply (bool_decide_unpack _). vm_compute. exact I.
  - right. apply (bool_decide_unpack _). vm_compute. exact I.
Defined.

Lemma probe_fails_closed_witness : exists st,
  probe_node "n1" false 500 [] "20" (Completed 0 failed_text "") = Ok st /\ free_gpus st = [] /\
  is_Some st.(s_gpu_inventory_error).
Proof.
  assert (is_ok (probe_node "n1" false 500 [] "20" (Completed 0 failed_text "")) = true) as Hok
    by (vm_compute; reflexivity).
  destruct (probe_node "n1" false 500 [] "20" (Completed 0 failed_text "")) as [st|] eqn:E;
    [|discriminate Hok]. exists st. split; [reflexivity|].
  destruct (probe_fails_closed "n1" false 500 [] "20" failed_text "" st E) as (H1 & H2 & _).
  split; [apply H1; vm_compute; reflexivity|]. apply H2. right. vm_compute. reflexivity.
Defined.
