(* ===== verification/RunSpec.v ===== *)
(** * The submission request ([dispatch.RunSpec])

    What a caller asks for, before it is validated: fields in the order of the
    source, dictionaries as association lists in iteration order.  A time limit
    is whatever float the caller gave, infinities and NaN included. *)

From S2P Require Import Prelude Text PyValue CustomEnv JobEntry RegistryCodec.

Record RunSpec := mkSpec {
  sp_name : string;
  sp_gpus : Z;
  sp_cmd : list string;
  sp_gpu_isolation : string;
  sp_project : option string;
  sp_node : option string;
  sp_exclude_nodes : option (list string);
  sp_require_path : option string;
  sp_require_disk_gib : option Z;
  sp_max_hours : option pyfloat;
  sp_min_vram_mib : option Z;
  sp_max_vram_mib : option Z;
  sp_max_job_memory_mib : option Z;
  sp_setup : option string;
  sp_setup_inputs : option (list string);
  sp_extras : option (list string);
  sp_env_mode : string;
  sp_env_hash_override : option string;
  sp_env_source_job : option string;
  sp_custom_env : environment;
  sp_dispatch_token : option string;
  sp_forked_from : option string;
  sp_after_success : option string;
  sp_after_complete : option string;
  sp_after_result : option string;
  sp_after_result_states : list string;
  sp_request_id : option string;
  sp_rerun_of : option string;
  sp_rerun_source_snapshot_sha256 : option string;
  sp_retry_limit : Z;
  sp_retry_on : option string;
  sp_retry_count : Z;
  sp_retry_of : option string;
  sp_artifact_manifest : option string;
  sp_artifact_targets : option (list (string * string));
  sp_cache_source_job : option string;
  sp_cache_source_job_dir : option string;
  sp_cache_source_path : option string;
  sp_cache_env : option string;
  sp_cache_source_env_hash : option string;
  sp_cache_source_snapshot_sha256 : option string;
  sp_cache_mode : option string;
  sp_payload_sha256 : option string;
}.
#[export] Instance eta_RunSpec : Eta RunSpec := fun s =>
  mkSpec s.(sp_name) s.(sp_gpus) s.(sp_cmd) s.(sp_gpu_isolation) s.(sp_project) s.(sp_node)
    s.(sp_exclude_nodes) s.(sp_require_path) s.(sp_require_disk_gib) s.(sp_max_hours)
    s.(sp_min_vram_mib) s.(sp_max_vram_mib) s.(sp_max_job_memory_mib) s.(sp_setup)
    s.(sp_setup_inputs) s.(sp_extras) s.(sp_env_mode) s.(sp_env_hash_override)
    s.(sp_env_source_job) s.(sp_custom_env) s.(sp_dispatch_token) s.(sp_forked_from)
    s.(sp_after_success) s.(sp_after_complete) s.(sp_after_result)
    s.(sp_after_result_states) s.(sp_request_id) s.(sp_rerun_of)
    s.(sp_rerun_source_snapshot_sha256) s.(sp_retry_limit) s.(sp_retry_on)
    s.(sp_retry_count) s.(sp_retry_of) s.(sp_artifact_manifest) s.(sp_artifact_targets)
    s.(sp_cache_source_job) s.(sp_cache_source_job_dir) s.(sp_cache_source_path)
    s.(sp_cache_env) s.(sp_cache_source_env_hash) s.(sp_cache_source_snapshot_sha256)
    s.(sp_cache_mode) s.(sp_payload_sha256).

(** Every other field at its dataclass default. *)
Definition new_spec (name : string) (gpus : Z) (cmd : list string) : RunSpec :=
  {| sp_name := name; sp_gpus := gpus; sp_cmd := cmd; sp_gpu_isolation := "advisory";
     sp_project := None; sp_node := None; sp_exclude_nodes := None; sp_require_path := None;
     sp_require_disk_gib := None; sp_max_hours := None; sp_min_vram_mib := None;
     sp_max_vram_mib := None; sp_max_job_memory_mib := None; sp_setup := None;
     sp_setup_inputs := None; sp_extras := None; sp_env_mode := "sync"; sp_env_hash_override
     := None; sp_env_source_job := None; sp_custom_env := []; sp_dispatch_token := None;
     sp_forked_from := None; sp_after_success := None; sp_after_complete := None;
     sp_after_result := None; sp_after_result_states := []; sp_request_id := None;
     sp_rerun_of := None; sp_rerun_source_snapshot_sha256 := None; sp_retry_limit := 0;
     sp_retry_on := None; sp_retry_count := 0; sp_retry_of := None; sp_artifact_manifest :=
     None; sp_artifact_targets := None; sp_cache_source_job := None; sp_cache_source_job_dir
     := None; sp_cache_source_path := None; sp_cache_env := None; sp_cache_source_env_hash :=
     None; sp_cache_source_snapshot_sha256 := None; sp_cache_mode := None; sp_payload_sha256
     := None |}.
