(* ===== verification/Placement.v ===== *)
(** * Placement from live probes ([dispatch/__init__.py], [dispatch/launch.py])

    [pick_candidates] ranks the nodes a submission may be launched on; the
    rejection reasons explain the others.  [fmt1] is the one-decimal float
    format of the messages. *)

From S2P Require Import Prelude Text PyValue Numerals RunSpec Config Probe.

Definition GPU_PULSE_MEMORY_MIB : Z := 512.

(** [spec.node] as a condition: [None] and the empty text are false. *)
Definition pinned (spec : RunSpec) : option string :=
  match spec.(sp_node) with Some (String _ _ as n) => Some n | _ => None end.

Definition _reserve_for (cfg : HeadConfig) (spec : RunSpec) : Z :=
  match pinned spec with Some _ => 0 | None => cfg.(queue).(reserve_free_per_node) end.

Definition eligible_free_gpus (status : NodeStatus) (spec : RunSpec) : list Gpu :=
  if (0 <? spec.(sp_gpus)) && bool_decide (is_Some status.(s_gpu_inventory_error)) then []
  else match spec.(sp_min_vram_mib) with
  | None => free_gpus status
  | Some minimum => List.filter (fun gpu => minimum <=? gpu.(mem_total)) (free_gpus status)
  end.
Definition eligible_count (status : NodeStatus) (spec : RunSpec) : Z :=
  Z.of_nat (length (eligible_free_gpus status spec)).
Definition free_count (status : NodeStatus) : Z := Z.of_nat (length (free_gpus status)).

Definition status_of (statuses : list NodeStatus) (name : string) : option NodeStatus :=
  List.find (fun s => bool_decide (s.(s_node) = name)) statuses.

Definition pin_is_busy (statuses : list NodeStatus) (spec : RunSpec) : bool :=
  match pinned spec with
  | None => false
  | Some node =>
      if spec.(sp_gpus) <=? 0 then false
      else match status_of statuses node with
      | None => false
      | Some st => if bool_decide (is_Some st.(s_error)) then false
                   else eligible_count st spec <? spec.(sp_gpus)
      end
  end.

(** Whether live disk data disproves the fit. *)
Definition disk_rejected (status : NodeStatus) (spec : RunSpec) : option (SystemStats * Z) :=
  match spec.(sp_require_disk_gib), status.(s_error), status.(s_system) with
  | Some required, None, Some system =>
      if Qle_bool (inject_Z required) system.(disk_free_gib) then None else Some (system, required)
  | _, _, _ => None
  end.

Section reasons.
Context (fmt1 : Q -> string).

Definition disk_rejection_reason (status : NodeStatus) (spec : RunSpec) : option string :=
  match disk_rejected status spec with
  | Some (system, required) =>
      Some ("disk-full: " +:+ fmt1 system.(disk_free_gib) +:+ " GiB free < " +:+ pretty required
            +:+ " GiB required")
  | None => None
  end.

Definition inventory_rejection_reason (status : NodeStatus) (spec : RunSpec) : option string :=
  let total := Z.of_nat (length status.(s_gpus)) in
  if bool_decide (is_Some status.(s_gpu_inventory_error)) || (spec.(sp_gpus) <=? total) then None
  else Some ("resource-mismatch: requests " +:+ pretty spec.(sp_gpus) +:+ " GPUs but node exposes "
             +:+ pretty total).

Definition minimum_vram_rejection_reason (status : NodeStatus) (spec : RunSpec) : option string :=
  match spec.(sp_min_vram_mib) with
  | None => None
  | Some minimum =>
      if (spec.(sp_gpus) =? 0) || bool_decide (is_Some status.(s_error))
         || bool_decide (is_Some status.(s_gpu_inventory_error)) then None
      else
        let capable := Z.of_nat (length (List.filter (fun g => minimum <=? g.(mem_total)) status.(s_gpus))) in
        if spec.(sp_gpus) <=? capable then None
        else Some ("resource-mismatch: requests " +:+ pretty spec.(sp_gpus) +:+ " GPUs with at least "
                   +:+ pretty minimum +:+ " MiB each but node exposes " +:+ pretty capable)
  end.

Definition gpu_owner (gpu : Gpu) : string :=
  match (if gpu.(leased) then gpu.(lease_owner) else None) with
  | Some (String _ _ as owner) => owner
  | _ =>
      match gpu.(users) with
      | _ :: _ => join "/" gpu.(users)
      | [] => if gpu.(leased) then "dt-lease"
              else if (0 <? gpu.(procs))%nat then "?" else "VRAM-in-use"
      end
  end.
Definition gpu_activity (gpu : Gpu) : string :=
  if gpu.(leased) && (gpu.(procs) =? 0)%nat && (gpu.(util) =? 0)
  then if GPU_PULSE_MEMORY_MIB <=? gpu.(mem_used) then "pulse" else "init"
  else "util" +:+ pretty gpu.(util) +:+ "%".
Definition gpu_detail (gpu : Gpu) : string :=
  "gpu" +:+ pretty gpu.(index) +:+ " " +:+ gpu_owner gpu +:+ " "
  +:+ fmt1 (gpu.(mem_used) # 1024)%Q +:+ "/" +:+ fmt1 (gpu.(mem_total) # 1024)%Q +:+ "GiB "
  +:+ gpu_activity gpu.

Definition INVENTORY_PREFIX : string := "GPU inventory incomplete: ".
Definition removeprefix (prefix s : string) : string :=
  if starts_with prefix s then str_drop (str_len prefix) s else s.

Definition capacity_reason (status : NodeStatus) (wanted : Z) (min_vram_mib : option Z) : string :=
  let fitting_free := match min_vram_mib with
                      | None => free_gpus status
                      | Some m => List.filter (fun g => m <=? g.(mem_total)) (free_gpus status)
                      end in
  let base := pretty (length fitting_free) +:+ " free < " +:+ pretty wanted +:+ " wanted" in
  let minimum := match min_vram_mib with
                 | Some m => ["minimum: " +:+ pretty m +:+ " MiB/GPU"] | None => [] end in
  let inventory := match status.(s_gpu_inventory_error) with
                   | Some (String _ _ as e) => ["inventory: " +:+ removeprefix INVENTORY_PREFIX e]
                   | _ => [] end in
  let details := gpu_detail <$> List.filter (fun g => negb g.(free)) status.(s_gpus) in
  let busy := match details with [] => [] | _ => ["busy: " +:+ join ", " details] end in
  let small := match min_vram_mib with
               | Some m =>
                   (fun g => "gpu" +:+ pretty g.(index) +:+ "=" +:+ pretty g.(mem_total) +:+ "MiB")
                   <$> List.filter (fun g => g.(mem_total) <? m) status.(s_gpus)
               | None => [] end in
  let undersized := match small with [] => [] | _ => ["undersized: " +:+ join ", " small] end in
  join "; " (base :: minimum ++ inventory ++ busy ++ undersized).

(** [a or b or ... or last]. *)
Definition first_reason (l : list (option string)) (other : string) : string :=
  match List.find (fun o => match o with Some (String _ _) => true | _ => false end) l with
  | Some (Some s) => s
  | _ => other
  end.
Definition probe_rejection_reason (status : NodeStatus) (spec : RunSpec) : string :=
  first_reason [status.(s_error); disk_rejection_reason status spec;
                inventory_rejection_reason status spec; minimum_vram_rejection_reason status spec]
    (capacity_reason status spec.(sp_gpus) spec.(sp_min_vram_mib)).
End reasons.

Definition DRAINED : string := "drained: maintenance (nodes[].drained)".
Definition drained_probe_reasons (cfg : HeadConfig) (spec : RunSpec)
    (probe_reasons : list (string * string)) : list (string * string) :=
  fold_left (fun reasons n =>
    if n.(n_drained) && (bool_decide (spec.(sp_node) = None) || bool_decide (spec.(sp_node) = Some n.(n_name)))
    then dict_set n.(n_name) DRAINED reasons else reasons) cfg.(c_nodes) probe_reasons.

(** ** Candidates *)
Definition by_name (nodes : list Node) : gmap string Node :=
  fold_left (fun m n => <[n.(n_name) := n]> m) nodes ∅.

(** The nodes a job must not be placed on. *)
Definition excluded_nodes (spec : RunSpec) (reserved_nodes : gset string) : gset string :=
  reserved_nodes ∪ list_to_set (default [] spec.(sp_exclude_nodes)).

Definition usable_status (names : gmap string Node) (excluded : gset string) (spec : RunSpec)
    (s : NodeStatus) : bool :=
  bool_decide (s.(s_error) = None)
  && match disk_rejected s spec with None => true | Some _ => false end
  && match names !! s.(s_node) with Some n => negb n.(n_drained) | None => false end
  && negb (bool_decide (s.(s_node) ∈ excluded)).

(** [(cost, load, idle cards)], compared as a tuple. *)
Definition cpu_rank (names : gmap string Node) (s : NodeStatus) : Q * Q * nat :=
  (match names !! s.(s_node) with
   | Some n => if n.(n_local) then 0%Q else n.(n_transfer_cost)
   | None => 0%Q
   end,
   match s.(s_system) with
   | Some system => (system.(cpu_load1) / inject_Z (Z.max 1 system.(cpu_cores)))%Q
   | None => 1%Q
   end,
   length (free_gpus s)).
Definition rank_ltb (a b : Q * Q * nat) : bool :=
  let '(a1, a2, a3) := a in
  let '(b1, b2, b3) := b in
  q_ltb a1 b1 || Qeq_bool a1 b1 && (q_ltb a2 b2 || Qeq_bool a2 b2 && (a3 <? b3)%nat).

(** [(eligible cards, free cards)], descending and stable. *)
Definition gpu_rank_ltb (spec : RunSpec) (a b : NodeStatus) : bool :=
  (eligible_count b spec <? eligible_count a spec)
  || (eligible_count b spec =? eligible_count a spec) && (free_count b <? free_count a).

Definition nodes_of (names : gmap string Node) (statuses : list NodeStatus) : list Node :=
  omap (fun s => names !! s.(s_node)) statuses.

Definition pick_candidates (statuses : list NodeStatus) (nodes : list Node) (spec : RunSpec)
    (reserve : Z) (reserved_nodes : gset string) : result (list Node) :=
  let names := by_name nodes in
  let excluded := excluded_nodes spec reserved_nodes in
  match pinned spec with
  | Some pin =>
      match names !! pin with
      | None => Err (ConfigError ("unknown node " +:+ pin))
      | Some n =>
          if n.(n_drained) then Ok []
          else match status_of statuses pin with
          | Some status => match disk_rejected status spec with Some _ => Ok [] | None => Ok [n] end
          | None => Ok [n]
          end
      end
  | None =>
      let usable := List.filter (usable_status names excluded spec) statuses in
      if spec.(sp_gpus) =? 0 then
        Ok (nodes_of names (sort_by (fun a b => rank_ltb (cpu_rank names a) (cpu_rank names b)) usable))
      else
        let ranked := sort_by (gpu_rank_ltb spec) usable in
        Ok (nodes_of names (List.filter (fun s =>
              (spec.(sp_gpus) <=? eligible_count s spec)
              && (reserve <=? free_count s - spec.(sp_gpus))) ranked))
  end.

(** ** The rows handed to the scheduler ([status_as_dict]) *)
Definition opt_json {A} (f : A -> json) (o : option A) : json :=
  match o with Some a => f a | None => JNull end.
Definition gpu_fields (g : Gpu) : list (string * json) :=
  [("index", JInt g.(index)); ("uuid", JStr g.(uuid)); ("mem_used", JInt g.(mem_used));
   ("mem_total", JInt g.(mem_total)); ("util", JInt g.(util));
   ("procs", JInt (Z.of_nat g.(procs))); ("leased", JBool g.(leased));
   ("lease_owner", opt_json JStr g.(lease_owner)); ("free", JBool g.(free));
   ("users", JList (JStr <$> g.(users))); ("temperature", opt_json JInt g.(temperature));
   ("resident_procs", JInt (Z.of_nat g.(resident_procs)));
   ("resident_mib", JInt g.(resident_mib)); ("residents", JList (JStr <$> g.(residents)))].
Definition gpu_json (g : Gpu) : json := JDict (gpu_fields g).
Definition q_json (q : Q) : json := JFloat (Fin q).
Definition system_json (s : SystemStats) : json :=
  JDict [("cpu_cores", JInt s.(cpu_cores)); ("cpu_load1", q_json s.(cpu_load1));
         ("mem_used_mib", JInt s.(s_mem_used_mib)); ("mem_total_mib", JInt s.(s_mem_total_mib));
         ("disk_free_gib", q_json s.(disk_free_gib)); ("disk_total_gib", q_json s.(disk_total_gib));
         ("io_pressure", opt_json q_json s.(io_pressure))].
Definition status_as_dict (center : string) (s : NodeStatus) : list (string * json) :=
  [("center", JStr center); ("node", JStr s.(s_node)); ("gpus", JList (gpu_json <$> s.(s_gpus)));
   ("system", opt_json system_json s.(s_system)); ("error", opt_json JStr s.(s_error))]
  ++ match s.(s_gpu_inventory_error) with
     | Some e => [("gpu_inventory_error", JStr e)] | None => [] end
  ++ [("unreachable", JBool s.(s_unreachable)); ("stale", JBool s.(s_stale))].
