(* ===== verification/Queue.v ===== *)
(** * The queue view ([jobs/__init__.py])

    What [dt queue] and [dt ps] tell about a queued job's place: its global
    FIFO position and the queue it really competes in. *)

From S2P Require Import Prelude Text PyValue Layout JobEntry Lifecycle Registry ActiveIndex RegistryOps Config.

Record QueueContext := mkQueueContext {
  queue_position : nat;
  queue_depth : nat;
  queue_ahead_count : nat;
  queue_head_job_id : option string;
  queue_predecessor_job_id : option string;
}.

Definition fifo (entries : list JobEntry) : list JobEntry :=
  by_created_at (List.filter is_queued entries).

(** The dict, as its items in insertion order. The rows of one listing carry
    distinct identities ([RegistryOps.list_all] reads one row per file name), so
    no item replaces another. *)
Definition queue_contexts (entries : list JobEntry) : list (string * QueueContext) :=
  let q := fifo entries in
  imap (fun index entry =>
    (entry.(job_id),
     {| queue_position := index + 1;
        queue_depth := length q;
        queue_ahead_count := index;
        queue_head_job_id := job_id <$> head q;
        queue_predecessor_job_id :=
          if (0 <? index)%nat then job_id <$> q !! (index - 1)%nat else None |}%nat)) q.

Definition queue_eligible_nodes (cfg : HeadConfig) (entry : JobEntry) : list string :=
  let names := n_name <$> List.filter (fun n => negb n.(n_drained)) cfg.(c_nodes) in
  match entry.(pin_node) with
  | Some pin => List.filter (fun name => bool_decide (name = pin)) names
  | None =>
      match entry.(exclude_nodes) with
      | Some ((_ :: _) as excluded) =>
          List.filter (fun name => negb (bool_decide (name ∈ excluded))) names
      | _ => names
      end
  end.

Record PlacementContext := mkPlacementContext {
  global_position : nat;
  pinned_node : option string;
  eligible_nodes : list string;
  contention_position : option nat;
  blocked_reason : option string;
  last_attempt_at : option Q;
}.

(** [nodes & set(other)] is non-empty. *)
Definition intersects (a b : list string) : bool := existsb (fun x => bool_decide (x ∈ b)) a.

Definition contention (cfg : HeadConfig) (q : list JobEntry) (index : nat) (entry : JobEntry)
  : option nat :=
  let nodes := queue_eligible_nodes cfg entry in
  match nodes with
  | [] => None
  | _ => Some (1 + length (List.filter
                 (fun earlier => intersects nodes (queue_eligible_nodes cfg earlier))
                 (take index q)))%nat
  end.

Definition queue_placement_contexts (cfg : HeadConfig) (entries : list JobEntry)
  : list (string * PlacementContext) :=
  let q := fifo entries in
  imap (fun index entry =>
    (entry.(job_id),
     {| global_position := (index + 1)%nat;
        pinned_node := entry.(pin_node);
        eligible_nodes := queue_eligible_nodes cfg entry;
        contention_position := contention cfg q index entry;
        blocked_reason := entry.(reason);
        last_attempt_at := entry.(dispatch_claimed_at) |})) q.

(** ** Facts *)
Lemma fifo_elem entries e : e ∈ fifo entries <-> e ∈ entries /\ e.(status) = Queued.
Proof.
  unfold fifo, by_created_at. rewrite sort_by_perm, elem_of_filterb.
  unfold is_queued. by rewrite bool_decide_eq_true.
Qed.

Lemma eligible_spec cfg e name :
  name ∈ queue_eligible_nodes cfg e <->
  (exists n, n ∈ cfg.(c_nodes) /\ n.(n_name) = name /\ n.(n_drained) = false) /\
  match e.(pin_node) with
  | Some pin => name = pin
  | None => name ∉ default [] e.(exclude_nodes)
  end.
Proof.
  unfold queue_eligible_nodes. set (names := n_name <$> _).
  assert (forall m, m ∈ names <->
    exists n, n ∈ cfg.(c_nodes) /\ n.(n_name) = m /\ n.(n_drained) = false) as Hn.
  { intros m. unfold names. rewrite list_elem_of_fmap. split.
    - intros (n & -> & H). rewrite elem_of_filterb, negb_true_iff in H. destruct H. by exists n.
    - intros (n & Hin & <- & Hd). exists n. split; [done|].
      by rewrite elem_of_filterb, negb_true_iff. }
  clearbody names. rewrite <- Hn.
  destruct (e.(pin_node)) as [pin|].
  - by rewrite elem_of_filterb, bool_decide_eq_true.
  - destruct (e.(exclude_nodes)) as [[|x l]|]; cbn [default from_option id]; try set_solver.
    by rewrite elem_of_filterb, negb_true_iff, bool_decide_eq_false.
Qed.

(** A queued job appears once, at its FIFO place; it competes only within the
    jobs ahead of it, it competes alone at position one, and it has no
    contention position exactly when no node could accept it. *)
Lemma placement_positions cfg entries index jid ctx :
  queue_placement_contexts cfg entries !! index = Some (jid, ctx) ->
  exists e, fifo entries !! index = Some e /\ jid = e.(job_id) /\ e.(status) = Queued /\
    ctx.(global_position) = S index /\
    (ctx.(contention_position) = None <-> ctx.(eligible_nodes) = []) /\
    forall k, ctx.(contention_position) = Some k ->
      (1 <= k <= ctx.(global_position))%nat /\
      (k = 1%nat <-> forall earlier, earlier ∈ take index (fifo entries) ->
         intersects ctx.(eligible_nodes) (queue_eligible_nodes cfg earlier) = false).
Proof.
  unfold queue_placement_contexts. rewrite list_lookup_imap.
  destruct (fifo entries !! index) as [e|] eqn:He; [|done]. cbn [fmap option_fmap option_map].
  intros [= <- <-]. exists e. split; [done|]. split; [done|].
  split; [apply list_elem_of_lookup_2, fifo_elem in He; tauto|].
  cbn [global_position contention_position eligible_nodes]. split; [lia|].
  unfold contention. destruct (queue_eligible_nodes cfg e) as [|n ns] eqn:Hn.
  - split; [tauto|]. intros k Hk. discriminate Hk.
  - split; [split; intros Hx; discriminate Hx|]. intros k [= <-].
    match goal with |- context [length (List.filter ?p ?l)] =>
      pose proof (filterb_length p l) as Hle end.
    rewrite length_take in Hle. split; [lia|]. split.
    + intros [= H1%length_zero_iff_nil]. exact (proj1 (filterb_nil _ _) H1).
    + intros H0. exact (f_equal S (f_equal length (proj2 (filterb_nil _ _) H0))).
Qed.

(** Two rows share a statically possible node exactly when they contend. *)
Lemma intersects_spec a b : intersects a b = true <-> exists x, x ∈ a /\ x ∈ b.
Proof.
  unfold intersects. rewrite existsb_True_spec. by setoid_rewrite bool_decide_eq_true.
Qed.

(** The FIFO view: positions count up to the depth, the head is the oldest
    row, and every other row names the one before it. *)
Lemma queue_contexts_fifo entries index jid ctx :
  queue_contexts entries !! index = Some (jid, ctx) ->
  exists e, fifo entries !! index = Some e /\ jid = e.(job_id) /\
    ctx.(queue_position) = S index /\ (ctx.(queue_position) <= ctx.(queue_depth))%nat /\
    ctx.(queue_ahead_count) = index /\ ctx.(queue_depth) = length (List.filter is_queued entries) /\
    match index with
    | O => ctx.(queue_head_job_id) = Some jid /\ ctx.(queue_predecessor_job_id) = None
    | S before => exists p, fifo entries !! before = Some p /\
        ctx.(queue_predecessor_job_id) = Some p.(job_id) /\ (p.(created_at) <= e.(created_at))%Q
    end.
Proof.
  unfold queue_contexts. rewrite list_lookup_imap.
  destruct (fifo entries !! index) as [e|] eqn:He; [|done]. cbn [fmap option_fmap option_map].
  intros [= <- <-]. exists e. split; [done|]. split; [done|].
  cbn [queue_position queue_depth queue_ahead_count queue_head_job_id queue_predecessor_job_id].
  pose proof (lookup_lt_Some _ _ _ He) as Hlt. split; [lia|]. split; [lia|]. split; [done|].
  split; [unfold fifo, by_created_at; by rewrite sort_by_perm|].
  destruct index as [|before].
  - split; [|done]. destruct (fifo entries); [done|]. simpl in He. by injection He as ->.
  - assert (before < length (fifo entries))%nat as Hb by (clear - Hlt; lia).
    destruct (lookup_lt_is_Some_2 (fifo entries) before Hb) as [p Hp].
    exists p. split; [done|]. split.
    { change (job_id <$> fifo entries !! (before - 0)%nat = Some p.(job_id)).
      by rewrite Nat.sub_0_r, Hp. }
    assert (StronglySorted (fun a b => q_ltb b.(created_at) a.(created_at) = false) (fifo entries)) as Hs.
    { apply sort_by_sorted.
      - intros x y z H1%q_ltb_ge H2%q_ltb_ge. apply q_ltb_ge. by eapply Qle_trans.
      - intros x y H%q_ltb_lt. apply q_ltb_ge. by apply Qlt_le_weak. }
    rewrite <- (take_drop before (fifo entries)) in Hs.
    apply StronglySorted_app_1_r in Hs || apply StronglySorted_app in Hs as (_ & _ & Hs).
    rewrite (drop_S _ p) in Hs by done. apply StronglySorted_inv in Hs as [_ Hall].
    rewrite Forall_forall in Hall. apply q_ltb_ge, Hall.
    apply list_elem_of_lookup. exists O. by rewrite lookup_drop, Nat.add_0_r.
Qed.

(** Two queued rows pinned to the same node, and a finished one. *)
Definition sample_cfg : HeadConfig :=
  {| c_center := "head"; c_nodes := [mkNode "n1" false false 1 None; mkNode "n2" false true 1 None];
     disk_min_gib := 1; queue := {| max_my_jobs := Some 2; reserve_free_per_node := 0 |};
     c_worker_root := "~/dt"; c_layout := ROLE_LAYOUT |}.
Definition sample_rows : list JobEntry :=
  [test_entry <| job_id := "20260101-0002_b_0123456789abcdef" |> <| status := Queued |>
     <| created_at := 20%Q |> <| pin_node := Some "n1" |>;
   test_entry <| status := Finished |>;
   test_entry <| job_id := "20260101-0001_a_0123456789abcdef" |> <| status := Queued |>
     <| created_at := 10%Q |>].

Lemma placement_positions_witness :
  exists e, fifo sample_rows !! 1%nat = Some e.
Proof.
  destruct (queue_placement_contexts sample_cfg sample_rows !! 1%nat) as [[jid ctx]|] eqn:E;
    [|discriminate E].
  destruct (placement_positions sample_cfg sample_rows 1 jid ctx E) as (e & He & _). by exists e.
Defined.

Lemma queue_contexts_fifo_witness :
  exists e, fifo sample_rows !! 1%nat = Some e /\
    e.(job_id) = "20260101-0002_b_0123456789abcdef".
Proof.
  destruct (queue_contexts sample_rows !! 1%nat) as [[jid ctx]|] eqn:E; [|discriminate E].
  destruct (queue_contexts_fifo sample_rows 1 jid ctx E) as (e & He & Hj & _).
  exists e. split; [done|]. rewrite <- Hj. by injection E.
Defined.
