(* ===== verification/Refs.v ===== *)
(** * Job references ([jobs/__init__.py])

    A job is addressed by its identity, its name, or a unique prefix or suffix
    of its identity; [compact_refs] chooses the shortest suffix that is safe to
    print, counting collisions with binary searches. *)

From S2P Require Import Prelude Text PyValue JobEntry RegistryCodec Lifecycle Registry ActiveIndex RegistryOps Config.

(** ** [bisect] on code-point sequences *)
Definition code_ltb (a b : list N) : bool :=
  match lex_compare a b with Lt => true | _ => false end.

(** The loop of [bisect_left] and [bisect_right]: [left x] sends the search to
    the right of [x].  The interval halves, so its length is enough fuel. *)
Fixpoint bisect (fuel : nat) (left : list N -> bool) (a : list (list N)) (lo hi : nat) : nat :=
  match fuel with
  | O => lo
  | S fuel =>
      if (lo <? hi)%nat then
        let mid := ((lo + hi) / 2)%nat in
        match a !! mid with
        | Some x => if left x then bisect fuel left a (S mid) hi else bisect fuel left a lo mid
        | None => lo
        end
      else lo
  end.
Definition bisect_left (a : list (list N)) (x : list N) : nat :=
  bisect (length a) (fun y => code_ltb y x) a 0 (length a).
Definition bisect_right (a : list (list N)) (x : list N) : nat :=
  bisect (length a) (fun y => negb (code_ltb x y)) a 0 (length a).

(** [prefix + "\uffff"] is above every text of the model. *)
Definition TOP : N := 65535.
Definition _count_starting_with (sorted_values : list string) (prefix : string) : nat :=
  let values := codes <$> sorted_values in
  (bisect_right values (codes prefix ++ [TOP]) - bisect_left values (codes prefix))%nat.

(** ** Compact references *)
Definition reversed (s : string) : string := unchars (rev (chars s)).
(** [s[-width:]] for a positive [width] at most the length. *)
Definition suffix (width : nat) (s : string) : string := str_drop (str_len s - width) s.

Section compact.
Context (names sorted_ids sorted_reversed_ids : list string).

Definition acceptable (job_id candidate : string) : bool :=
  if bool_decide (candidate ∈ names) then false
  else if negb (_count_starting_with sorted_reversed_ids (reversed candidate) =? 1)%nat then false
  else (_count_starting_with sorted_ids candidate =? if starts_with candidate job_id then 1 else 0)%nat.

(** The loop over the widths; the identity itself when none is safe. *)
Fixpoint assign (job_id : string) (widths : list nat) : string :=
  match widths with
  | [] => job_id
  | width :: rest =>
      if acceptable job_id (suffix width job_id) then suffix width job_id else assign job_id rest
  end.
End compact.

(** The dict, as its items. *)
Definition compact_refs (records : list (string * string)) (minimum : nat)
  : result (list (string * string)) :=
  raise_if (minimum <? 1)%nat (ValueError "minimum compact ref length must be positive") ;;
  let job_ids := records.*1 in
  let names := records.*2 in
  let sorted_ids := sort_strings job_ids in
  let sorted_reversed_ids := sort_strings (reversed <$> job_ids) in
  Ok ((fun job_id =>
         (job_id, assign names sorted_ids sorted_reversed_ids job_id
                    (seq minimum (S (str_len job_id) - minimum)))) <$> job_ids).

Definition compact_job_refs (entries : list JobEntry) (minimum : nat)
  : result (list (string * string)) :=
  compact_refs ((fun e => (e.(job_id), e.(name))) <$> entries) minimum.

(** ** Resolution *)
Definition _scope_ref (center ref : string) : option string :=
  let ref := strip ref in
  if bool_decide (ref = "") then None
  else
    let scoped_prefix := center +:+ ":" in
    if starts_with scoped_prefix ref then
      let ref := str_drop (str_len scoped_prefix) ref in
      if bool_decide (ref = "") then None else Some ref
    else if has_char (Ascii.ascii_of_N 58) ref then None
    else Some ref.

(** [max(entries, key=created_at)] keeps the first maximum. *)
Fixpoint newest (best : JobEntry) (l : list JobEntry) : JobEntry :=
  match l with
  | [] => best
  | e :: l => newest (if q_ltb best.(created_at) e.(created_at) then e else best) l
  end.

(** [sorted(matches, key=created_at, reverse=True)] is stable. *)
Definition newest_first : list JobEntry -> list JobEntry :=
  sort_by (fun a b => q_ltb b.(created_at) a.(created_at)).

Definition id_matches (ref : string) (e : JobEntry) : bool :=
  starts_with ref e.(job_id) || ends_with ref e.(job_id).

Definition _resolve_ref_against (entries : list JobEntry) (ref : string)
  : option JobEntry * list JobEntry :=
  match List.filter (fun e => bool_decide (e.(name) = ref)) entries with
  | e :: rest => (Some (newest e rest), [])
  | [] =>
      match List.filter (id_matches ref) entries with
      | [e] => (Some e, [])
      | matches => (None, newest_first matches)
      end
  end.

(** [resolution_entries] outside a shared scope is a full listing. *)
Definition resolve_ref (now : Q) (cfg : HeadConfig) (ref : string)
  : M (option JobEntry * list JobEntry) :=
  match _scope_ref cfg.(c_center) ref with
  | None => mret (None, [])
  | Some scoped =>
      exact_ ← load now scoped;
      match exact_ with
      | Some e => mret (Some e, [])
      | None => r ← get; mret (_resolve_ref_against (list_all now r).1 scoped)
      end
  end.

Definition find (now : Q) (cfg : HeadConfig) (ref : string) : M (option JobEntry) :=
  resolved ← resolve_ref now cfg ref; mret resolved.1.

(** ** Binary search counts *)
Lemma code_ltb_total a b : code_ltb a b = false -> a = b \/ code_ltb b a = true.
Proof.
  unfold code_ltb. rewrite (lex_compare_antisym a b).
  destruct (lex_compare a b) eqn:E; [by apply lex_compare_eq in E; left|done|by right].
Qed.

(** A predicate true on a prefix of the list and false after it. *)
Definition monotone (left : list N -> bool) (a : list (list N)) : Prop :=
  forall i j x y, (i <= j)%nat -> a !! i = Some x -> a !! j = Some y -> left y = true -> left x = true.

Definition boundary (left : list N -> bool) (a : list (list N)) (k : nat) : Prop :=
  (k <= length a)%nat /\
  (forall i x, a !! i = Some x -> (i < k)%nat -> left x = true) /\
  (forall i x, a !! i = Some x -> (k <= i)%nat -> left x = false).

Lemma bisect_boundary fuel left a lo hi :
  monotone left a -> (lo <= hi <= length a)%nat -> (hi - lo <= fuel)%nat ->
  (forall i x, a !! i = Some x -> (i < lo)%nat -> left x = true) ->
  (forall i x, a !! i = Some x -> (hi <= i)%nat -> left x = false) ->
  boundary left a (bisect fuel left a lo hi).
Proof.
  intros Hm. revert lo hi. induction fuel as [|fuel IH]; intros lo hi Hb Hf Hlo Hhi; cbn [bisect].
  - split; [lia|]. split; [done|]. intros i x Hx Hi. apply (Hhi i x Hx). lia.
  - destruct (Nat.ltb_spec lo hi) as [Hlt|Hge].
    2:{ split; [lia|]. split; [done|]. intros i x Hx Hi. apply (Hhi i x Hx). lia. }
    set (mid := ((lo + hi) / 2)%nat).
    assert (lo <= mid < hi)%nat as Hmid.
    { unfold mid. split; [apply Nat.div_le_lower_bound|apply Nat.Div0.div_lt_upper_bound]; lia. }
    destruct (lookup_lt_is_Some_2 a mid) as [x Hx]; [lia|]. rewrite Hx.
    destruct (left x) eqn:E.
    + apply IH; [lia|lia| |done]. intros i y Hy Hi.
      apply (Hm i mid y x); [lia|done..].
    + apply IH; [lia|lia|done|]. intros i y Hy Hi. destruct (left y) eqn:Ey; [|done].
      assert (left x = true) as Hc by (apply (Hm mid i x y); [lia|done..]). by rewrite Hc in E.
Qed.

(** Counting a boundary is counting the elements on its left. *)
Lemma boundary_count left a k : boundary left a k -> k = length (List.filter left a).
Proof.
  intros (Hk & Hl & Hr). rewrite <- (take_drop k a), List.filter_app, length_app.
  assert (List.filter left (drop k a) = []) as ->.
  { apply filterb_nil. intros x [i Hx]%list_elem_of_lookup. rewrite lookup_drop in Hx.
    eapply Hr; [exact Hx|lia]. }
  assert (List.filter left (take k a) = take k a) as ->.
  { assert (Forall (fun x => left x = true) (take k a)) as H.
    { apply Forall_forall. intros x [i Hx]%list_elem_of_lookup.
      pose proof (lookup_lt_Some _ _ _ Hx) as Hlt. rewrite length_take in Hlt.
      rewrite lookup_take_lt in Hx by lia. eapply Hl; [exact Hx|lia]. }
    clear Hk Hl Hr. induction H as [|x l Hx _ IH]; simpl; [done|]. by rewrite Hx, IH. }
  rewrite length_take. simpl. lia.
Qed.

(** Every code point of the model is below [TOP], so the two searches enclose
    exactly the texts that begin with the prefix. *)
Lemma below_top p x : Forall (fun c => (c < TOP)%N) x ->
  negb (code_ltb (p ++ [TOP]) x) = code_ltb x p || bool_decide (p `prefix_of` x).
Proof.
  unfold code_ltb. revert x. induction p as [|a p IH]; intros x Hx.
  - rewrite (bool_decide_true ([] `prefix_of` x)) by apply prefix_nil. rewrite orb_true_r.
    destruct Hx as [|c x Hc _]; [done|]. cbn [app lex_compare].
    by rewrite (proj2 (N.compare_gt_iff _ _) Hc).
  - destruct Hx as [|c x Hc Hx]; [done|]. cbn [app lex_compare].
    rewrite (N.compare_antisym a c). destruct (N.compare_spec a c) as [->|Hlt|Hgt]; cbn [CompOpp negb].
    + rewrite IH by done. f_equal. apply bool_decide_ext. symmetry. split; [apply prefix_cons_inv_2|apply prefix_cons].
    + rewrite bool_decide_false; [done|]. intros H%prefix_cons_inv_1. lia.
    + done.
Qed.

Lemma prefix_not_below p x : p `prefix_of` x -> code_ltb x p = false.
Proof.
  intros [k ->]. unfold code_ltb. induction p as [|a p IH]; cbn [app lex_compare]; [by destruct k|].
  by rewrite N.compare_refl.
Qed.

Lemma codes_prefix p s : bool_decide (codes p `prefix_of` codes s) = starts_with p s.
Proof.
  apply Bool.eq_iff_eq_true. rewrite bool_decide_eq_true, starts_with_spec. split.
  - intros [k Hk]. unfold codes in Hk. apply fmap_app_inv in Hk as (u & v & Hu & Hv & Huv).
    exists (unchars v). apply chars_inj. rewrite chars_app, chars_unchars, Huv. f_equal.
    assert (Inj (=) (=) code) as Hinj.
    { intros a b Hab. unfold code in Hab. apply (f_equal Ascii.ascii_of_N) in Hab.
      by rewrite !Ascii.ascii_N_embedding in Hab. }
    by apply (inj (fmap code)) in Hu.
  - intros [t ->]. exists (codes t). unfold codes. by rewrite chars_app, fmap_app.
Qed.

Lemma codes_below s : Forall (fun c => (c < TOP)%N) (codes s).
Proof.
  apply Forall_forall. intros c (a & -> & _)%list_elem_of_fmap.
  pose proof (Ascii.N_ascii_bounded a). unfold code, TOP. lia.
Qed.

Lemma code_le_lt x y z : code_ltb y x = false -> code_ltb y z = true -> code_ltb x z = true.
Proof.
  intros [<-|Hxy]%code_ltb_total Hyz; [done|]. unfold code_ltb in *.
  destruct (lex_compare x y) eqn:E1; try done. destruct (lex_compare y z) eqn:E2; try done.
  by rewrite (lex_compare_lt_trans _ _ _ E1 E2).
Qed.

Lemma sorted_lookup {A} (R : A -> A -> Prop) l i j x y :
  StronglySorted R l -> (i < j)%nat -> l !! i = Some x -> l !! j = Some y -> R x y.
Proof.
  intros Hs. revert i j. induction Hs as [|z l Hs IH Hall]; intros i j Hij Hi Hj; [done|].
  destruct j as [|j]; [lia|]. destruct i as [|i].
  - injection Hi as ->. rewrite Forall_forall in Hall. by eapply Hall, list_elem_of_lookup_2.
  - apply (IH i j); [lia|done..].
Qed.

Lemma sorted_monotone left l :
  (forall x y, code_ltb y x = false -> left y = true -> left x = true) ->
  monotone left (codes <$> sort_strings l).
Proof.
  intros Hleft i j x y Hij Hi Hj Hy.
  destruct (decide (i = j)) as [->|]; [by rewrite Hi in Hj; injection Hj as ->|].
  rewrite list_lookup_fmap in Hi, Hj.
  destruct (sort_strings l !! i) as [s|] eqn:Es; [|done].
  destruct (sort_strings l !! j) as [t|] eqn:Et; [|done].
  injection Hi as <-. injection Hj as <-. apply (Hleft _ (codes t)); [|done].
  apply (sorted_lookup _ _ i j s t (sort_strings_sorted l)); [lia|done..].
Qed.

Lemma bisect_counts left l :
  (forall x y, code_ltb y x = false -> left y = true -> left x = true) ->
  let a := codes <$> sort_strings l in
  bisect (length a) left a 0 (length a) = length (List.filter (fun s => left (codes s)) l).
Proof.
  intros Hleft a. rewrite (boundary_count left a (bisect _ _ _ _ _)).
  - unfold a. rewrite <- (sort_strings_perm l) at 2. clear.
    induction (sort_strings l) as [|s k IH]; [done|]. rewrite fmap_cons. cbn [List.filter].
    destruct (left (codes s)); cbn [length]; by rewrite IH.
  - apply bisect_boundary; [by apply sorted_monotone|lia|lia|lia|].
    intros i x Hx%lookup_lt_Some Hi. lia.
Qed.

Lemma filter_split {A} (p q r : A -> bool) l :
  (forall x, p x = q x || r x) -> (forall x, r x = true -> q x = false) ->
  length (List.filter p l) = (length (List.filter q l) + length (List.filter r l))%nat.
Proof.
  intros Hp Hr. induction l as [|x l IH]; simpl; [done|]. rewrite Hp.
  destruct (r x) eqn:Er; [rewrite (Hr x Er)|destruct (q x)]; simpl; lia.
Qed.

Lemma count_starting_with l prefix :
  _count_starting_with (sort_strings l) prefix = length (List.filter (starts_with prefix) l).
Proof.
  unfold _count_starting_with, bisect_left, bisect_right. cbv zeta.
  rewrite !bisect_counts.
  2:{ intros x y Hxy Hy. by apply (code_le_lt x y). }
  2:{ intros x y Hxy Hy. rewrite negb_true_iff in Hy |- *. generalize dependent (codes prefix ++ [TOP]).
      intros top Hy. destruct (code_ltb top x) eqn:E; [|done].
      destruct (code_ltb_total _ _ Hxy) as [->|H]; [congruence|].
      rewrite <- Hy. symmetry. unfold code_ltb in *. destruct (lex_compare top x) eqn:E1; try done.
      destruct (lex_compare x y) eqn:E2; try done. by rewrite (lex_compare_lt_trans _ _ _ E1 E2). }
  rewrite (filter_split _ (fun s => code_ltb (codes s) (codes prefix)) (starts_with prefix)); [lia|..].
  - intros s. rewrite below_top by apply codes_below. by rewrite codes_prefix.
  - intros s. rewrite <- codes_prefix, bool_decide_eq_true. apply prefix_not_below.
Qed.

Lemma reversed_prefix c s : starts_with (reversed c) (reversed s) = ends_with c s.
Proof.
  apply Bool.eq_iff_eq_true. rewrite starts_with_spec, ends_with_spec. unfold reversed. split.
  - intros [t Ht%(f_equal chars)]. rewrite chars_app, !chars_unchars in Ht. exists (reversed t).
    apply chars_inj. unfold reversed. rewrite chars_app, chars_unchars.
    rewrite <- (rev_involutive (chars s)), Ht, rev_app_distr, rev_involutive. done.
  - intros [t ->]. exists (reversed t). unfold reversed.
    by rewrite chars_app, rev_app_distr, unchars_app.
Qed.

Lemma filter_fmap {A B} (p : B -> bool) (f : A -> B) l :
  List.filter p (f <$> l) = f <$> List.filter (fun x => p (f x)) l.
Proof.
  induction l as [|x l IH]; [done|]. rewrite fmap_cons. cbn [List.filter].
  destruct (p (f x)); rewrite IH; done.
Qed.

(** ** What an assigned reference resolves to *)
Section assigned.
Context (entries : list JobEntry) (e : JobEntry) (candidate : string).
Context (He : e ∈ entries) (Hc : ends_with candidate e.(job_id) = true).
Let names := name <$> entries.
Let ids := job_id <$> entries.

Lemma single_filter (p : JobEntry -> bool) :
  length (List.filter p entries) = (if p e then 1 else 0)%nat <->
  List.filter p entries = if p e then [e] else [].
Proof using He.
  destruct (p e) eqn:Ep; split; intros H; try (by rewrite H); [|by apply length_zero_iff_nil].
  assert (e ∈ List.filter p entries) as Hin by (by apply elem_of_filterb).
  destruct (List.filter p entries) as [|x [|y l]]; try discriminate H.
  apply list_elem_of_singleton in Hin. by rewrite Hin.
Qed.

Lemma acceptable_spec :
  acceptable names (sort_strings ids) (sort_strings (reversed <$> ids)) e.(job_id) candidate = true <->
  (candidate ∉ names) /\ List.filter (id_matches candidate) entries = [e].
Proof using He Hc.
  unfold acceptable. rewrite !count_starting_with.
  assert (length (List.filter (starts_with (reversed candidate)) (reversed <$> ids)) =
          length (List.filter (fun x => ends_with candidate x.(job_id)) entries)) as ->.
  { unfold ids. rewrite !filter_fmap, !length_fmap. f_equal. apply filter_ext.
    intros x. apply reversed_prefix. }
  unfold ids at 1. rewrite filter_fmap, length_fmap.
  case_bool_decide as Hn; [split; [no_eq|by intros [? _]]|].
  pose proof (single_filter (fun x => ends_with candidate x.(job_id))) as Hends.
  pose proof (single_filter (fun x => starts_with candidate x.(job_id))) as Hstarts.
  cbn beta in Hends, Hstarts. rewrite Hc in Hends.
  assert (List.filter (id_matches candidate) entries = [e] <->
    List.filter (fun x => ends_with candidate x.(job_id)) entries = [e] /\
    List.filter (fun x => starts_with candidate x.(job_id)) entries =
      if starts_with candidate e.(job_id) then [e] else []) as ->.
  { assert (forall p : JobEntry -> bool, (forall x, p x = true -> id_matches candidate x = true) ->
      List.filter p entries = List.filter p (List.filter (id_matches candidate) entries)) as Hsub.
    { intros p Hp. clear -Hp. induction entries as [|x l IH]; [done|]. cbn [List.filter].
      destruct (id_matches candidate x) eqn:Em; cbn [List.filter]; [by rewrite IH|].
      destruct (p x) eqn:Ep; [by rewrite (Hp x Ep) in Em|done]. }
    split.
    - intros Hm. split; (rewrite Hsub, Hm; cbn [List.filter];
        [by rewrite ?Hc|intros x Hx; unfold id_matches; by rewrite Hx, ?orb_true_r]).
    - intros [H1 H2]. rewrite <- H1. apply filter_ext_in. intros x Hx%list_elem_of_In.
      unfold id_matches. destruct (starts_with candidate x.(job_id)) eqn:Ex; [|done].
      assert (x ∈ List.filter (fun x => starts_with candidate x.(job_id)) entries) as Hin
        by (by apply elem_of_filterb).
      rewrite H2 in Hin. destruct (starts_with candidate e.(job_id)); [|by apply not_elem_of_nil in Hin].
      apply list_elem_of_singleton in Hin as ->. by rewrite Hc. }
  rewrite <- Hends, <- Hstarts.
  destruct (Nat.eqb_spec (length (List.filter (fun x => ends_with candidate x.(job_id)) entries)) 1);
    cbn [negb]; [rewrite Nat.eqb_eq|]; naive_solver.
Qed.

Lemma unique_resolves :
  candidate ∉ names -> List.filter (id_matches candidate) entries = [e] ->
  _resolve_ref_against entries candidate = (Some e, []).
Proof using Type.
  clear Hc He.
  intros Hn Hm. unfold _resolve_ref_against. rewrite Hm.
  assert (List.filter (fun x => bool_decide (x.(name) = candidate)) entries = []) as ->; [|done].
  apply filterb_nil. intros x Hx. apply bool_decide_eq_false. intros <-.
  apply Hn. unfold names. by apply list_elem_of_fmap_2.
Qed.
End assigned.

Lemma assign_inv names ids rids jid ws :
  let r := assign names ids rids jid ws in
  (r = jid /\ Forall (fun w => acceptable names ids rids jid (suffix w jid) = false) ws) \/
  exists before w after, ws = before ++ w :: after /\ r = suffix w jid /\
    acceptable names ids rids jid r = true /\
    Forall (fun w => acceptable names ids rids jid (suffix w jid) = false) before.
Proof.
  induction ws as [|w ws IH]; cbn [assign]; [by left; constructor|].
  destruct (acceptable names ids rids jid (suffix w jid)) eqn:E.
  - right. by exists [], w, ws.
  - destruct IH as [[H1 H2]|(b & v & a & -> & H1 & H2 & H3)].
    + left. split; [done|]. by constructor.
    + right. exists (w :: b), v, a. repeat split; [done..|]. by constructor.
Qed.

Lemma suffix_ends w s : ends_with (suffix w s) s = true.
Proof.
  apply ends_with_spec. exists (str_take (str_len s - w) s). apply chars_inj.
  unfold suffix, str_take, str_drop. by rewrite chars_app, !chars_unchars, take_drop.
Qed.

Lemma suffix_len w s : (w <= str_len s)%nat -> str_len (suffix w s) = w.
Proof.
  intros H. unfold suffix, str_drop. rewrite str_len_unchars, length_drop, chars_length. lia.
Qed.

Lemma seq_split_lt n len before w after v :
  seq n len = before ++ w :: after -> (n <= v < w)%nat -> v ∈ before.
Proof.
  intros Hs Hv. assert (w = n + length before)%nat as Hw.
  { assert (seq n len !! length before = Some w) as Hl.
    { rewrite Hs. by rewrite list_lookup_middle. }
    apply lookup_seq in Hl. lia. }
  assert (seq n len !! (v - n)%nat = Some v) as Hl.
  { apply lookup_seq. split; [lia|]. apply (f_equal length) in Hs.
    rewrite length_seq, length_app in Hs. simpl in Hs. lia. }
  rewrite Hs in Hl. rewrite lookup_app_l in Hl by lia. by eapply list_elem_of_lookup_2.
Qed.


(** Two identities with a common four-character suffix: the reference grows. *)
Definition colliding : list JobEntry :=
  [test_entry <| job_id := "20260101-0001_a_000000000001aaaa" |> <| name := "a" |>;
   test_entry <| job_id := "20260101-0002_b_000000000002aaaa" |> <| name := "2aaaa" |>].

Example compact_refs_expand :
  compact_job_refs colliding 4 =
  Ok [("20260101-0001_a_000000000001aaaa", "1aaaa"); ("20260101-0002_b_000000000002aaaa", "02aaaa")].
Proof. vm_compute. reflexivity. Qed.

