(* ===== verification/Scheduler.v ===== *)
(** * The scheduler's view of one snapshot ([scheduler.py])

    [admission_decision] is the pure verdict taken under the head's placement
    lock before a queued row may claim a node; [scheduler_snapshot] explains
    every queued row from one registry view and one probe of the nodes,
    forecasting the queue order against a finite number of cards.

    Probe rows are JSON objects, dictionaries of capacities are [gmap]s, and
    the clock read is the argument [now]. *)

From S2P Require Import Prelude Text PyValue JobEntry Lifecycle RegistryOps Config.

(** [bool(v)]. *)
Definition json_truthy (v : json) : bool :=
  match v with
  | JNull => false
  | JBool b => b
  | JInt z => negb (z =? 0)
  | JFloat (Fin q) => negb (Qeq_bool q 0)
  | JFloat _ => true
  | JStr s => negb (bool_decide (s = ""))
  | JList l => match l with [] => false | _ => true end
  | JDict kv => match kv with [] => false | _ => true end
  end.

Record ResourceCapacity := mkResourceCapacity {
  free : gmap string nat;
  total : gmap string nat;
  unavailable : gset string;
  disk_free : gmap string Q;
  free_gpu_memory_mib : gmap string (list (option Z));
  gpu_memory_mib : gmap string (list (option Z));
  gpu_inventory_unknown : gset string;
  memory_inventory_unknown : gset string;
}.
#[export] Instance eta_ResourceCapacity : Eta ResourceCapacity := fun c =>
  mkResourceCapacity c.(free) c.(total) c.(unavailable) c.(disk_free) c.(free_gpu_memory_mib)
    c.(gpu_memory_mib) c.(gpu_inventory_unknown) c.(memory_inventory_unknown).

Record AdmissionDecision := mkAdmissionDecision {
  allowed : bool;
  ad_state : string;
  ad_reason : string;
  blocking_job_id : option string;
}.

(** ** Overlap *)
Definition _capacity_overlaps (older candidate : JobEntry) (candidate_node : string) : bool :=
  if (older.(gpus_requested) <=? 0) || (candidate.(gpus_requested) <=? 0) then false
  else match older.(dispatch_node) with
  | Some n => bool_decide (n = candidate_node)
  | None => match older.(pin_node) with
            | None => true
            | Some pin => bool_decide (pin = candidate_node)
            end
  end.

(** ** What a row still waits for *)

(** [(state, reason, condition)]. *)
Definition wait := (string * string * string)%type.

Definition _dependency_wait_reason (entry : JobEntry) : string :=
  if is_uncertain_launch entry then "has an uncertain launch outcome"
  else if bool_decide (entry.(status) = Lost)
  then "is provisionally lost pending durable terminal finalization"
  else "is " +:+ status_name entry.(status).

(** [effective_result_state(p) or p.status]. *)
Definition observed_result (predecessor : JobEntry) : string :=
  match effective_result_state predecessor with
  | Some r => result_name r
  | None => status_name predecessor.(status)
  end.

Definition missing_predecessor (what id : string) : wait :=
  ("blocked_dependency_missing", what +:+ " " +:+ id +:+ " was not found",
   "repair or replace the missing predecessor").

Definition _dependency_state (entry : JobEntry) (by_id : gmap string JobEntry) : option wait :=
  match entry.(after_result) with
  | Some dependency =>
      match by_id !! dependency with
      | None => Some (missing_predecessor "result dependency" dependency)
      | Some predecessor =>
          let states := result_name <$> entry.(after_result_states) in
          if negb (dependency_settled predecessor) then
            Some ("waiting_dependency",
                  "result dependency " +:+ dependency +:+ " " +:+ _dependency_wait_reason predecessor,
                  "dependency must complete as one of [" +:+ join "," states +:+ "]")
          else if negb (bool_decide (observed_result predecessor ∈ states)) then
            Some ("blocked_predicate_false",
                  "result dependency completed as " +:+ observed_result predecessor,
                  "the scheduler will mark this job skipped")
          else None
      end
  | None =>
  match entry.(after_complete) with
  | Some dependency =>
      match by_id !! dependency with
      | None => Some (missing_predecessor "completion dependency" dependency)
      | Some predecessor =>
          if negb (dependency_settled predecessor) then
            Some ("waiting_dependency",
                  "completion dependency " +:+ dependency +:+ " "
                  +:+ _dependency_wait_reason predecessor,
                  "dependency " +:+ dependency +:+ " must reach any terminal result")
          else None
      end
  | None =>
  match entry.(after_success) with
  | None => None
  | Some dependency =>
      match by_id !! dependency with
      | None => Some (missing_predecessor "dependency" dependency)
      | Some predecessor =>
          if negb (dependency_settled predecessor) then
            Some ("waiting_dependency",
                  "dependency " +:+ dependency +:+ " " +:+ _dependency_wait_reason predecessor,
                  "dependency " +:+ dependency +:+ " must finish successfully")
          else if negb (bool_decide (predecessor.(status) = Finished))
                  || negb (bool_decide (predecessor.(exit_code) = Some 0))
                  || negb (bool_decide (effective_result_state predecessor = Some Success)) then
            Some ("blocked_dependency_false",
                  "dependency " +:+ dependency +:+ " completed as " +:+ observed_result predecessor,
                  "the scheduler will mark this dependent job skipped")
          else None
      end
  end end end.

Definition _persisted_wait (entry : JobEntry) (has_resource_snapshot attempting : bool)
  : option wait :=
  let reason := default "" entry.(reason) in
  if starts_with "blocked:" reason && negb attempting then
    Some ("blocked_constraint", reason, "satisfy the reported job constraint")
  else if negb has_resource_snapshot
          && (occurs_in "unreachable:" reason || starts_with "waiting: no reachable" reason) then
    Some ("waiting_node", reason, "a candidate node must become reachable")
  else None.

(** [{entry.job_id: entry for entry in entries}]: a later row replaces an
    earlier one. *)
Definition index_by_id (entries : list JobEntry) : gmap string JobEntry :=
  fold_left (fun m e => <[e.(job_id) := e]> m) entries ∅.

(** ** Admission *)
Definition before_in_queue (a b : JobEntry) : bool :=
  q_ltb a.(created_at) b.(created_at)
  || Qeq_bool a.(created_at) b.(created_at) && str_ltb a.(job_id) b.(job_id).
Definition admission_queue (entries : list JobEntry) : list JobEntry :=
  sort_by before_in_queue (List.filter is_queued entries).

(** The loop stops at the candidate's own row. *)
Fixpoint fifo_blocker (by_id : gmap string JobEntry) (candidate : JobEntry)
    (candidate_node : string) (queue : list JobEntry) : option JobEntry :=
  match queue with
  | [] => None
  | older :: rest =>
      if bool_decide (older.(job_id) = candidate.(job_id)) then None
      else if bool_decide (is_Some (_dependency_state older by_id))
              || bool_decide (is_Some (_persisted_wait older false false))
      then fifo_blocker by_id candidate candidate_node rest
      else if negb (_capacity_overlaps older candidate candidate_node)
      then fifo_blocker by_id candidate candidate_node rest
      else Some older
  end.

Definition quota_count (now : Q) (entries : list JobEntry) : Z :=
  Z.of_nat (length (List.filter (fun e => occupies_quota e now) entries)).

Definition admission_decision (cfg : HeadConfig) (candidate : JobEntry) (entries : list JobEntry)
    (candidate_node : string) (registry_damage : Z) (has_fresh_candidate : bool) (now : Q)
  : AdmissionDecision :=
  let by_id := index_by_id entries in
  match _dependency_state candidate by_id with
  | Some (state, reason, _) => mkAdmissionDecision false state reason None
  | None =>
  match _persisted_wait candidate has_fresh_candidate has_fresh_candidate with
  | Some (state, reason, _) => mkAdmissionDecision false state reason None
  | None =>
  let occupancy := quota_count now entries + registry_damage in
  let occupancy :=
    if occupies_quota candidate now then Z.max 0 (occupancy - 1) else occupancy in
  match match cfg.(queue).(max_my_jobs) with
        | Some cap => if cap <=? occupancy then Some cap else None
        | None => None
        end with
  | Some cap =>
      mkAdmissionDecision false "waiting_quota" ("max_my_jobs=" +:+ pretty cap +:+ " is reached") None
  | None =>
  match fifo_blocker by_id candidate candidate_node (admission_queue entries) with
  | Some older =>
      mkAdmissionDecision false "waiting_fifo"
        ("FIFO capacity is reserved for earlier job " +:+ older.(job_id)) (Some older.(job_id))
  | None => mkAdmissionDecision true "admit" "reservation may be claimed" None
  end end end end.

(** ** Capacity from probe rows *)

(** [int(raw)] is compared with [raw] on exact values. *)
Definition integral (q : Q) : option Z :=
  if Qeq_bool (inject_Z (Qnum q / Zpos (Qden q))) q then Some (Qnum q / Zpos (Qden q)) else None.

Definition _gpu_total_mib (row : list (string * json)) : result (option Z) :=
  let raw := default (dict_get "mem_total" row) (assoc "mem_total_mib" row) in
  if negb (is_int raw || is_float raw) || is_bool raw then Ok None
  else
    f ← py_float raw;
    Ok (if negb (isfinite f) || negb (positive_num raw) then None
        else match raw with
             | JInt z => Some z
             | JFloat (Fin q) => integral q
             | _ => None
             end).

(** The loop over one node's cards: the memory rows, the free memory rows and
    whether the card and memory inventories are complete. *)
Record Cards := mkCards {
  memory_rows : list (option Z);
  free_memory_rows : list (option Z);
  gpu_unknown : bool;
  memory_unknown : bool;
}.
Definition card (acc : Cards) (gpu : json) : result Cards :=
  match gpu with
  | JDict kv =>
      memory ← _gpu_total_mib kv;
      Ok {| memory_rows := acc.(memory_rows) ++ [memory];
            free_memory_rows :=
              if match dict_get "free" kv with JBool true => true | _ => false end
              then acc.(free_memory_rows) ++ [memory] else acc.(free_memory_rows);
            gpu_unknown := acc.(gpu_unknown);
            memory_unknown := acc.(memory_unknown) || bool_decide (memory = None) |}
  | _ => Ok {| memory_rows := acc.(memory_rows); free_memory_rows := acc.(free_memory_rows);
               gpu_unknown := true; memory_unknown := true |}
  end.
Fixpoint cards (acc : Cards) (gpus : list json) : result Cards :=
  match gpus with
  | [] => Ok acc
  | gpu :: rest => acc ← card acc gpu; cards acc rest
  end.

Definition mark (b : bool) (x : string) (s : gset string) : gset string :=
  if b then {[x]} ∪ s else s.

Definition reported_disk (row : list (string * json)) : result (option Q) :=
  match dict_get "system" row with
  | JDict system =>
      let reported := dict_get "disk_free_gib" system in
      if (is_int reported || is_float reported) && negb (is_bool reported)
      then f ← py_float reported; Ok (match f with Fin q => Some q | _ => None end)
      else Ok None
  | _ => Ok None
  end.

Definition resource_row (c : ResourceCapacity) (row : list (string * json)) : result ResourceCapacity :=
  match dict_get "node" row with
  | JStr (String _ _ as node) =>
      if json_truthy (dict_get "error" row) then
        Ok (c <| unavailable := {[node]} ∪ c.(unavailable) |>)
      else
        let raw_gpus := dict_get "gpus" row in
        let gpus := match raw_gpus with JList l => l | _ => [] end in
        k ← cards (mkCards [] [] false false) gpus;
        let incomplete := negb (is_list raw_gpus) || json_truthy (dict_get "gpu_inventory_error" row) in
        disk ← reported_disk row;
        Ok {| free := <[node := length k.(free_memory_rows)]> c.(free);
              total := <[node := length gpus]> c.(total);
              unavailable := c.(unavailable);
              disk_free := match disk with
                           | Some q => <[node := q]> c.(disk_free)
                           | None => c.(disk_free)
                           end;
              free_gpu_memory_mib := <[node := k.(free_memory_rows)]> c.(free_gpu_memory_mib);
              gpu_memory_mib := <[node := k.(memory_rows)]> c.(gpu_memory_mib);
              gpu_inventory_unknown :=
                mark (k.(gpu_unknown) || incomplete) node c.(gpu_inventory_unknown);
              memory_inventory_unknown :=
                mark (k.(memory_unknown) || incomplete) node c.(memory_inventory_unknown) |}
  | _ => Ok c
  end.

Definition no_capacity : ResourceCapacity :=
  {| free := ∅; total := ∅; unavailable := ∅; disk_free := ∅; free_gpu_memory_mib := ∅;
     gpu_memory_mib := ∅; gpu_inventory_unknown := ∅; memory_inventory_unknown := ∅ |}.
Fixpoint resource_rows_go (c : ResourceCapacity) (rows : list (list (string * json)))
  : result ResourceCapacity :=
  match rows with
  | [] => Ok c
  | row :: rest => c ← resource_row c row; resource_rows_go c rest
  end.
Definition _resource_capacity (resources : option (list (list (string * json))))
  : result (option ResourceCapacity) :=
  match resources with
  | None => Ok None
  | Some rows => c ← resource_rows_go no_capacity rows; Ok (Some c)
  end.

(** ** One entry against one capacity *)

(** [(state, reason, condition, selected node)]. *)
Definition placement := (string * string * string * option string)%type.

(** [sum(memory is not None and memory >= minimum for memory in rows)]. *)
Definition fits_memory (minimum : Z) (memory : option Z) : bool :=
  match memory with Some m => minimum <=? m | None => false end.
Definition capable (minimum : Z) (rows : list (option Z)) : nat :=
  length (List.filter (fits_memory minimum) rows).

Definition disk_ok (capacity : ResourceCapacity) (required_disk : Z) (node : string) : bool :=
  match capacity.(disk_free) !! node with
  | None => true
  | Some have => Qle_bool (inject_Z required_disk) have
  end.

Definition gpu_fit (capacity : ResourceCapacity) (wanted reserve : Z) (minimum : option Z)
    (node : string) : bool :=
  let free_count := Z.of_nat (default 0%nat (capacity.(free) !! node)) in
  if wanted =? 0 then true
  else if bool_decide (node ∈ capacity.(gpu_inventory_unknown)) then false
  else if free_count - wanted <? reserve then false
  else match minimum with
  | None => wanted <=? free_count
  | Some minimum =>
      wanted <=? Z.of_nat (capable minimum (default [] (capacity.(free_gpu_memory_mib) !! node)))
  end.

Definition wanted_gpus (entry : JobEntry) : Z := Z.max 0 entry.(gpus_requested).
Definition reserve_for (cfg : HeadConfig) (entry : JobEntry) : Z :=
  match entry.(pin_node) with
  | Some _ => 0
  | None => Z.max 0 cfg.(queue).(reserve_free_per_node)
  end.
Definition required_disk_for (cfg : HeadConfig) (entry : JobEntry) : Z :=
  Z.max (Z.max 0 cfg.(disk_min_gib)) (default 0 entry.(require_disk_gib)).

Definition drained_nodes (cfg : HeadConfig) : list string :=
  n_name <$> List.filter n_drained cfg.(c_nodes).
(** The nodes the entry may be placed on, once a bad pin is excluded. *)
Definition candidates_for (cfg : HeadConfig) (entry : JobEntry) (excluded : gset string)
  : list string :=
  let configured := n_name <$> cfg.(c_nodes) in
  List.filter (fun node => negb (bool_decide (node ∈ drained_nodes cfg)))
    match entry.(pin_node) with
    | Some pin => [pin]
    | None => List.filter (fun node => negb (bool_decide (node ∈ excluded))) configured
    end.

Definition shape_text (minimum : option Z) : string :=
  match minimum with
  | Some m => " with at least " +:+ pretty m +:+ " MiB each"
  | None => ""
  end.

(** The card shortage no amount of waiting resolves, or an unknown inventory. *)
Definition inventory_state (entry : JobEntry) (capacity : ResourceCapacity)
    (candidates reachable : list string) (wanted : Z) : option placement :=
  let minimum := entry.(min_vram_mib) in
  let unknown_memory node :=
    bool_decide (is_Some minimum) && bool_decide (node ∈ capacity.(memory_inventory_unknown)) in
  let inventory_known := List.filter (fun node =>
    negb (bool_decide (node ∈ capacity.(gpu_inventory_unknown))) && negb (unknown_memory node))
    reachable in
  let max_inventory := max_list ((fun node =>
    match minimum with
    | None => default 0%nat (capacity.(total) !! node)
    | Some m => capable m (default [] (capacity.(gpu_memory_mib) !! node))
    end) <$> inventory_known) in
  if Z.of_nat max_inventory <? wanted then
    let unknown := List.filter (fun node =>
      bool_decide (node ∈ capacity.(unavailable))
      || bool_decide (node ∈ capacity.(gpu_inventory_unknown)) || unknown_memory node) candidates in
    match unknown with
    | _ :: _ =>
        let inventory_unknown := List.filter (fun node =>
          bool_decide (node ∈ capacity.(gpu_inventory_unknown)) || unknown_memory node) unknown in
        Some (match inventory_unknown with [] => "waiting_node" | _ => "waiting_gpu_inventory" end,
              match minimum with
              | Some _ => "GPU memory inventory is unavailable on eligible nodes"
              | None =>
                  match inventory_unknown with
                  | [] => "reachable nodes are too small but eligible inventory is unavailable"
                  | _ => "GPU inventory is unavailable on eligible nodes"
                  end
              end,
              "inventory for " +:+ join ", " unknown +:+ " must become available", None)
    | [] =>
        Some ("blocked_resource_mismatch",
              "requests " +:+ pretty wanted +:+ " GPUs" +:+ shape_text minimum
              +:+ " but eligible nodes expose at most " +:+ pretty max_inventory,
              "change the resource request or eligible node set", None)
    end
  else None.

Definition _capacity_state (cfg : HeadConfig) (entry : JobEntry)
    (capacity : option ResourceCapacity) (excluded : gset string) : placement :=
  match capacity with
  | None =>
      ("pending_dispatch", or_str entry.(reason) "waiting for the next scheduler pass",
       "the agent must complete a fresh capacity probe", None)
  | Some capacity =>
  match match entry.(pin_node) with
        | Some pin =>
            if negb (bool_decide (pin ∈ n_name <$> cfg.(c_nodes))) then
              Some ("blocked_invalid_pin", "pinned node " +:+ pin +:+ " is not configured",
                    "repair the persisted pin or restore the configured node", None)
            else if bool_decide (pin ∈ drained_nodes cfg) then
              Some ("waiting_node", "pinned node " +:+ pin +:+ " is drained for maintenance",
                    "nodes[].drained must be lifted on " +:+ pin +:+ " or the job repinned", None)
            else None
        | None => None
        end with
  | Some refused => refused
  | None =>
  let candidates := candidates_for cfg entry excluded in
  match candidates with
  | [] => ("waiting_node", "every eligible node is drained for maintenance",
           "at least one node must have nodes[].drained lifted", None)
  | _ :: _ =>
  match match entry.(pin_node) with
        | Some pin => if bool_decide (pin ∈ capacity.(unavailable)) then Some pin else None
        | None => None
        end with
  | Some pin => ("waiting_node", "pinned node " +:+ pin +:+ " is unavailable",
                 "node " +:+ pin +:+ " must become reachable", None)
  | None =>
  let reachable := List.filter (fun node => bool_decide (is_Some (capacity.(total) !! node)))
    candidates in
  match reachable with
  | [] => ("waiting_node", "no eligible node has a usable resource snapshot",
           "an eligible node must become reachable", None)
  | _ :: _ =>
  let wanted := wanted_gpus entry in
  let reserve := reserve_for cfg entry in
  let required_disk := required_disk_for cfg entry in
  let gpu_fitting := List.filter (gpu_fit capacity wanted reserve entry.(min_vram_mib)) reachable in
  let fitting := List.filter (disk_ok capacity required_disk) gpu_fitting in
  match fitting with
  | node :: _ =>
      ("runnable", node +:+ " currently satisfies the resource request",
       "the live agent can dispatch this job now", Some node)
  | [] =>
  if negb (bool_decide (gpu_fitting = [])) && (0 <? required_disk) then
    ("waiting_disk",
     or_str entry.(reason) ("eligible nodes have GPUs free but under " +:+ pretty required_disk
                            +:+ " GiB disk"),
     "one eligible node must free at least " +:+ pretty required_disk +:+ " GiB of disk", None)
  else match inventory_state entry capacity candidates reachable wanted with
  | Some answer => answer
  | None =>
      ("waiting_capacity",
       or_str entry.(reason) ("waiting for " +:+ pretty wanted +:+ " GPU capacity"
                              +:+ shape_text entry.(min_vram_mib)),
       "one eligible node must have " +:+ pretty wanted +:+ " fitting GPUs and leave "
       +:+ pretty reserve +:+ " free in reserve", None)
  end end end end end end end.

(** The first card in probe order that satisfies the memory floor. *)
Fixpoint select_card (minimum : option Z) (rows : list (option Z)) : option nat :=
  match rows with
  | [] => None
  | memory :: rest =>
      if match minimum with None => true | Some m => fits_memory m memory end then Some O
      else S <$> select_card minimum rest
  end.

(** [remaining] is the list the dictionary holds: popping it changes the
    capacity. *)
Definition take_card (minimum : option Z) (node : string) (capacity : ResourceCapacity)
  : option ResourceCapacity :=
  let remaining := default [] (capacity.(free_gpu_memory_mib) !! node) in
  index ← select_card minimum remaining;
  Some (capacity
    <| free_gpu_memory_mib := <[node := list_delete index remaining]> capacity.(free_gpu_memory_mib) |>
    <| free := <[node := (default 0 (capacity.(free) !! node) - 1)%nat]> capacity.(free) |>).
Fixpoint consume (n : nat) (minimum : option Z) (node : string) (capacity : ResourceCapacity)
  : ResourceCapacity :=
  match n with
  | O => capacity
  | S n => match take_card minimum node capacity with
           | Some capacity => consume n minimum node capacity
           | None => capacity
           end
  end.
Definition _consume_capacity (capacity : ResourceCapacity) (node : string) (entry : JobEntry)
  : ResourceCapacity :=
  consume (Z.to_nat entry.(gpus_requested)) entry.(min_vram_mib) node capacity.

(** ** The snapshot *)
Record QueueRow := mkQueueRow {
  qr_job_id : string;
  qr_name : string;
  qr_position : nat;
  qr_state : string;
  qr_reason : string;
  qr_next_condition : string;
  qr_pin_node : option string;
  qr_gpus_requested : Z;
  qr_min_vram_mib : option Z;
  qr_selected_node : option string;
  qr_after_success : option string;
  qr_after_complete : option string;
  qr_after_result : option string;
  qr_after_result_states : list result_state_t;
}.
#[export] Instance queue_row_eq_dec : EqDecision QueueRow.
Proof. solve_decision. Defined.

(** What the loop over the queue carries. *)
Record Forecast := mkForecast {
  forecast_running : Z;
  fc_capacity : option ResourceCapacity;
  rows : list QueueRow;
  unpinned_capacity_wait : option string;
  busy_pins : gmap string string;
}.

(** The nodes an unpinned entry is kept from: its own exclusions and, for GPU
    work, the nodes earlier pinned waiters hold. *)
Definition excluded_for (f : Forecast) (entry : JobEntry) : gset string :=
  let excluded : gset string := list_to_set (default [] entry.(exclude_nodes)) in
  if bool_decide (entry.(pin_node) = None) && (0 <? entry.(gpus_requested))
  then excluded ∪ dom f.(busy_pins) else excluded.

Section snapshot.
Context (cfg : HeadConfig) (by_id : gmap string JobEntry).

(** The verdict before FIFO ownership is considered. *)
Definition entry_verdict (f : Forecast) (entry : JobEntry) : placement :=
  match _dependency_state entry by_id with
  | Some (state, reason, condition) => (state, reason, condition, None)
  | None =>
  match _persisted_wait entry (bool_decide (is_Some f.(fc_capacity))) false with
  | Some (state, reason, condition) => (state, reason, condition, None)
  | None =>
  if bool_decide (is_Some entry.(dispatch_node)) || bool_decide (is_Some entry.(dispatch_token)) then
    ("dispatch_reserved",
     match entry.(dispatch_node) with
     | Some node => "launch reservation is being recovered on " +:+ node
     | None => "launch reservation has incomplete node identity"
     end,
     "the reserved launch must be adopted or proven absent", entry.(dispatch_node))
  else match match cfg.(queue).(max_my_jobs) with
             | Some cap => if cap <=? f.(forecast_running) then Some cap else None
             | None => None
             end with
  | Some cap => ("waiting_quota", "max_my_jobs=" +:+ pretty cap +:+ " is reached",
                 "running DT jobs must fall below " +:+ pretty cap, None)
  | None =>
      _capacity_state cfg entry f.(fc_capacity) (excluded_for f entry)
  end end end.

Definition fifo_owner (f : Forecast) (entry : JobEntry) (state : string) : option string :=
  if bool_decide (state = "runnable") && (0 <? entry.(gpus_requested)) then
    match f.(unpinned_capacity_wait) with
    | Some owner => Some owner
    | None => match entry.(pin_node) with Some pin => f.(busy_pins) !! pin | None => None end
    end
  else None.

Definition fifo_verdict (f : Forecast) (entry : JobEntry) : placement :=
  let '(state, reason, condition, selected) := entry_verdict f entry in
  match fifo_owner f entry state with
  | Some owner =>
      ("waiting_fifo", "FIFO capacity is reserved for earlier job " +:+ owner,
       "earlier overlapping job " +:+ owner +:+ " must dispatch or unblock", None)
  | None => (state, reason, condition, selected)
  end.

Definition queue_row (position : nat) (entry : JobEntry) (verdict : placement) : QueueRow :=
  let '(state, reason, condition, selected) := verdict in
  {| qr_job_id := entry.(job_id); qr_name := entry.(name); qr_position := position;
     qr_state := state; qr_reason := reason; qr_next_condition := condition;
     qr_pin_node := entry.(pin_node); qr_gpus_requested := entry.(gpus_requested);
     qr_min_vram_mib := entry.(min_vram_mib); qr_selected_node := selected;
     qr_after_success := entry.(after_success); qr_after_complete := entry.(after_complete);
     qr_after_result := entry.(after_result);
     qr_after_result_states := entry.(after_result_states) |}.

Definition forecast_step (f : Forecast) (position : nat) (entry : JobEntry) : Forecast :=
  let '(state, reason, condition, selected) := fifo_verdict f entry in
  let runnable := bool_decide (state = "runnable") in
  let consumes := runnable || bool_decide (state = "dispatch_reserved") in
  let waits := bool_decide (state = "waiting_capacity") && (0 <? entry.(gpus_requested)) in
  {| forecast_running := if runnable then f.(forecast_running) + 1 else f.(forecast_running);
     fc_capacity :=
       match f.(fc_capacity), selected with
       | Some capacity, Some node =>
           if consumes then Some (_consume_capacity capacity node entry) else Some capacity
       | capacity, _ => capacity
       end;
     rows := f.(rows) ++ [queue_row position entry (state, reason, condition, selected)];
     unpinned_capacity_wait :=
       if waits && bool_decide (entry.(pin_node) = None) then Some entry.(job_id)
       else f.(unpinned_capacity_wait);
     busy_pins :=
       match entry.(pin_node) with
       | Some pin =>
           if waits then match f.(busy_pins) !! pin with
                         | Some _ => f.(busy_pins)
                         | None => <[pin := entry.(job_id)]> f.(busy_pins)
                         end
           else f.(busy_pins)
       | None => f.(busy_pins)
       end |}.

Fixpoint forecast (f : Forecast) (position : nat) (queue : list JobEntry) : Forecast :=
  match queue with
  | [] => f
  | entry :: rest => forecast (forecast_step f position entry) (S position) rest
  end.
End snapshot.

Record ResourceRow := mkResourceRow {
  rr_node : string;
  rr_drained : bool;
  rr_available : bool;
  rr_physical_free_gpus : option nat;
  rr_schedulable_free_gpus : Z;
}.
Record Snapshot := mkSnapshot {
  sn_state : string;
  sn_idle_reason : string;
  sn_agent_alive : option bool;
  sn_agent_heartbeat_stale : option bool;
  sn_running : Z;
  sn_queue_depth : nat;
  sn_runnable_queued : nat;
  sn_blocked_queued : nat;
  sn_waiting_queued : nat;
  sn_next_job_id : option string;
  sn_next_condition : option string;
  sn_registry_damage : Z;
  sn_nodes : list ResourceRow;
  sn_queue : list QueueRow;
}.

Definition is_runnable_row (row : QueueRow) : bool := bool_decide (row.(qr_state) = "runnable").
Definition is_blocked_row (row : QueueRow) : bool := starts_with "blocked_" row.(qr_state).

Definition resource_row_of (cfg : HeadConfig) (physical_free : gmap string nat)
    (capacity : ResourceCapacity) (n : Node) : ResourceRow :=
  {| rr_node := n.(n_name);
     rr_drained := n.(n_drained);
     rr_available := bool_decide (is_Some (capacity.(total) !! n.(n_name)));
     rr_physical_free_gpus := physical_free !! n.(n_name);
     rr_schedulable_free_gpus :=
       if n.(n_drained) then 0
       else Z.max 0 (Z.of_nat (default 0%nat (capacity.(free) !! n.(n_name)))
                     - Z.max 0 cfg.(queue).(reserve_free_per_node)) |}.

Definition snapshot_rows (cfg : HeadConfig) (entries : list JobEntry)
    (capacity : option ResourceCapacity) (running : Z) : Forecast :=
  forecast cfg (index_by_id entries) (mkForecast running capacity [] None ∅) 1
    (by_created_at (List.filter is_queued entries)).

Definition overall_state (queue : list JobEntry) (agent_alive agent_heartbeat_stale : option bool)
    (runnable rows : list QueueRow) (running : Z) : string * string :=
  let queued := negb (bool_decide (length queue = 0%nat)) in
  if queued && bool_decide (agent_alive = Some false) then
    ("agent_stopped", "queued work cannot dispatch because the agent is stopped")
  else if queued && bool_decide (agent_heartbeat_stale = Some true) then
    ("agent_stale", "agent lock exists but its heartbeat is stale")
  else if negb (bool_decide (runnable = [])) then
    ("runnable", pretty (length runnable) +:+ " queued job(s) are runnable in this snapshot")
  else if queued then ("waiting", from_option qr_reason "" (head rows))
  else if negb (running =? 0) then ("running_without_queue", "running work has no queued successor")
  else ("idle", "queue is empty").

Definition scheduler_snapshot (cfg : HeadConfig) (entries : list JobEntry)
    (resources : option (list (list (string * json)))) (agent_alive agent_heartbeat_stale : option bool)
    (registry_damage : Z) (now : Q) : result Snapshot :=
  let running := quota_count now entries + registry_damage in
  capacity ← _resource_capacity resources;
  let f := snapshot_rows cfg entries capacity running in
  let rows := f.(rows) in
  let runnable := List.filter is_runnable_row rows in
  let blocked := List.filter is_blocked_row rows in
  let waiting := List.filter
    (fun row => negb (bool_decide (row ∈ runnable)) && negb (bool_decide (row ∈ blocked))) rows in
  let state := overall_state (by_created_at (List.filter is_queued entries))
    agent_alive agent_heartbeat_stale runnable rows running in
  let next_row := match runnable with row :: _ => Some row | [] => head rows end in
  Ok {| sn_state := state.1; sn_idle_reason := state.2;
        sn_agent_alive := agent_alive; sn_agent_heartbeat_stale := agent_heartbeat_stale;
        sn_running := running;
        sn_queue_depth := length rows; sn_runnable_queued := length runnable;
        sn_blocked_queued := length blocked; sn_waiting_queued := length waiting;
        sn_next_job_id := qr_job_id <$> next_row;
        sn_next_condition := qr_next_condition <$> next_row;
        sn_registry_damage := registry_damage;
        sn_nodes :=
          match f.(fc_capacity) with
          | Some final =>
              resource_row_of cfg (from_option free ∅ capacity) final <$> cfg.(c_nodes)
          | None => []
          end;
        sn_queue := rows |}.
