(* ===== verification/SchedulerSpec.v ===== *)
(** * What the scheduler's verdicts guarantee

    Admission: the exact condition of a claim, the quota bound it preserves and
    the blocker a refusal names.  Forecast: no card is promised twice, the
    quota is respected, FIFO order holds among card-hungry rows, and every
    promised node is one placement may use. *)

From S2P Require Import Prelude Text PyValue Layout JobEntry Lifecycle RegistryOps Config Scheduler.

(** ** The queue order *)
Lemma before_spec a b : before_in_queue a b = true <->
  (a.(created_at) < b.(created_at))%Q \/
  (a.(created_at) == b.(created_at))%Q /\ str_ltb a.(job_id) b.(job_id) = true.
Proof. unfold before_in_queue. by rewrite orb_true_iff, andb_true_iff, q_ltb_lt, Qeq_bool_iff. Qed.

Lemma not_before_spec a b : before_in_queue a b = false <->
  (b.(created_at) < a.(created_at))%Q \/
  (a.(created_at) == b.(created_at))%Q /\ str_ltb a.(job_id) b.(job_id) = false.
Proof.
  rewrite <- not_true_iff_false, before_spec.
  destruct (str_ltb a.(job_id) b.(job_id)); split; intros H.
  - left. apply Qnot_le_lt. intros [Hlt|Heq]%Qle_lteq; tauto.
  - intros [?|[? _]]; destruct H as [?|[? ?]]; try done; lra.
  - destruct (Q_dec a.(created_at) b.(created_at)) as [[?|?]|?]; tauto.
  - intros [?|[? ?]]; destruct H as [?|[? _]]; try done; lra.
Qed.

Lemma before_asym a b : before_in_queue a b = true -> before_in_queue b a = false.
Proof.
  rewrite before_spec, not_before_spec. intros [H|[He Hs]]; [by left|right].
  split; [by symmetry|]. by apply str_ltb_asym.
Qed.

Lemma before_total a b :
  before_in_queue a b = false -> before_in_queue b a = false -> a.(job_id) = b.(job_id).
Proof.
  rewrite !not_before_spec. intros [H1|[H1 Hs1]] [H2|[H2 Hs2]]; try lra. by apply str_ltb_total.
Qed.

Lemma not_before_trans a b c :
  before_in_queue b a = false -> before_in_queue c b = false -> before_in_queue c a = false.
Proof.
  rewrite !not_before_spec. intros [H1|[H1 S1]] [H2|[H2 S2]]; try (left; lra).
  right. split; [lra|]. by eapply str_ltb_false_trans.
Qed.

Lemma admission_queue_elem entries e :
  e ∈ admission_queue entries <-> e ∈ entries /\ e.(status) = Queued.
Proof.
  unfold admission_queue. rewrite sort_by_perm, elem_of_filterb. unfold is_queued.
  by rewrite bool_decide_eq_true.
Qed.

Lemma admission_queue_sorted entries :
  StronglySorted (fun a b => before_in_queue b a = false) (admission_queue entries).
Proof.
  apply sort_by_sorted; [intros x y z H1 H2; by apply (not_before_trans x y z)|exact before_asym].
Qed.

(** ** Admission *)
Definition skipped (by_id : gmap string JobEntry) (e : JobEntry) : Prop :=
  is_Some (_dependency_state e by_id) \/ is_Some (_persisted_wait e false false).

Lemma fifo_blocker_some by_id c n q older :
  fifo_blocker by_id c n q = Some older ->
  exists pre post, q = pre ++ older :: post /\ older.(job_id) <> c.(job_id) /\
    Forall (fun e => e.(job_id) <> c.(job_id)) pre /\
    ~ skipped by_id older /\ _capacity_overlaps older c n = true.
Proof.
  induction q as [|e q IH]; cbn [fifo_blocker]; [done|].
  destruct (bool_decide (e.(job_id) = c.(job_id))) eqn:E1; [done|]. apply bool_decide_eq_false in E1.
  destruct (bool_decide (is_Some (_dependency_state e by_id))
            || bool_decide (is_Some (_persisted_wait e false false))) eqn:E2;
    [|destruct (_capacity_overlaps e c n) eqn:E3]; cbn [negb].
  - intros H. destruct (IH H) as (pre & post & -> & H1 & H2 & H3).
    exists (e :: pre), post. split_and!; [done|done|by constructor|tauto..].
  - intros [= <-]. exists [], q. split_and!; [done|done|constructor| |done].
    apply orb_false_iff in E2 as [E2 E4]. apply bool_decide_eq_false in E2, E4. unfold skipped. tauto.
  - intros H. destruct (IH H) as (pre & post & -> & H1 & H2 & H3).
    exists (e :: pre), post. split_and!; [done|done|by constructor|tauto..].
Qed.

Lemma fifo_blocker_none by_id c n pre post :
  Forall (fun e => e.(job_id) <> c.(job_id)) pre ->
  fifo_blocker by_id c n (pre ++ c :: post) = None <->
  Forall (fun e => skipped by_id e \/ _capacity_overlaps e c n = false) pre.
Proof.
  induction 1 as [|e pre He Hpre IH]; cbn [app fifo_blocker].
  - rewrite bool_decide_true by done. by split.
  - rewrite bool_decide_false by done. rewrite Forall_cons_iff, <- IH. unfold skipped.
    destruct (bool_decide (is_Some (_dependency_state e by_id))) eqn:E1;
      [apply bool_decide_eq_true in E1|apply bool_decide_eq_false in E1]; cbn [orb].
    { tauto. }
    destruct (bool_decide (is_Some (_persisted_wait e false false))) eqn:E2;
      [apply bool_decide_eq_true in E2|apply bool_decide_eq_false in E2]; cbn [orb]; [tauto|].
    destruct (_capacity_overlaps e c n); cbn [negb]; [|tauto].
    split; [no_eq|]. intros [[[?|?]|?] _]; done.
Qed.

(** The rows before a row of a sorted queue are exactly those ordered before it. *)
Lemma sorted_before q c pre post :
  StronglySorted (fun a b => before_in_queue b a = false) q -> NoDup (job_id <$> q) ->
  q = pre ++ c :: post -> forall e, e ∈ pre <-> e ∈ q /\ before_in_queue e c = true.
Proof.
  intros Hs Hnd -> e. rewrite fmap_app, fmap_cons in Hnd.
  apply NoDup_app in Hnd as (_ & Hpre & Hpost). apply NoDup_cons in Hpost as [Hc _].
  apply StronglySorted_app in Hs as (Hs1 & _ & Hs2).
  apply StronglySorted_inv in Hs2 as [_ Hall]. rewrite Forall_forall in Hall.
  assert (forall x, x ∈ pre -> before_in_queue x c = true) as Hin.
  { intros x Hx. destruct (before_in_queue x c) eqn:E; [done|]. exfalso.
    pose proof (before_total _ _ E (Hs1 x c Hx ltac:(set_solver))) as Hid.
    apply (Hpre x.(job_id)); [by apply list_elem_of_fmap_2|]. rewrite Hid. set_solver. }
  split.
  - intros He. split; [set_solver|by apply Hin].
  - intros [[He|[->|He]%elem_of_cons]%elem_of_app Hb]; [done| |].
    + by rewrite (before_asym _ _ Hb) in Hb.
    + by rewrite (Hall e He) in Hb.
Qed.

Definition admission_occupancy (now : Q) (candidate : JobEntry) (entries : list JobEntry)
    (damage : Z) : Z :=
  if occupies_quota candidate now then Z.max 0 (quota_count now entries + damage - 1)
  else quota_count now entries + damage.

Lemma admission_allowed cfg c entries n damage fresh now :
  (admission_decision cfg c entries n damage fresh now).(allowed) = true <->
  _dependency_state c (index_by_id entries) = None /\ _persisted_wait c fresh fresh = None /\
  (forall cap, cfg.(queue).(max_my_jobs) = Some cap ->
     admission_occupancy now c entries damage < cap) /\
  fifo_blocker (index_by_id entries) c n (admission_queue entries) = None.
Proof.
  unfold admission_decision, admission_occupancy.
  destruct (_dependency_state c (index_by_id entries)) as [[[]]|]; [cbn; split; [no_eq|by intros [? _]]|].
  destruct (_persisted_wait c fresh fresh) as [[[]]|]; [cbn; split; [no_eq|by intros (_ & ? & _)]|].
  set (occ := if occupies_quota c now then _ else _).
  destruct (cfg.(queue).(max_my_jobs)) as [cap|]; [destruct (Z.leb_spec cap occ)|].
  - cbn. split; [no_eq|]. intros (_ & _ & Hq & _). specialize (Hq cap eq_refl). lia.
  - destruct (fifo_blocker _ _ _ _); cbn; split; try no_eq; try done;
      [by intros (_ & _ & _ & ?)|]. intros _. repeat split; try done. by intros ? [= <-].
  - destruct (fifo_blocker _ _ _ _); cbn; split; try no_eq; try done; by intros (_ & _ & _ & ?).
Qed.

(** C16. A queued row is admitted exactly when its dependency holds, no verdict of
    an earlier attempt applies, the quota has room for it, and every queued
    row ordered before it is skipped for a reason of its own or wants no card
    of that node. *)
Lemma admission_decision_spec cfg c entries n damage fresh now :
  NoDup (job_id <$> entries) -> c ∈ entries -> c.(status) = Queued ->
  (admission_decision cfg c entries n damage fresh now).(allowed) = true <->
  _dependency_state c (index_by_id entries) = None /\ _persisted_wait c fresh fresh = None /\
  (forall cap, cfg.(queue).(max_my_jobs) = Some cap ->
     admission_occupancy now c entries damage < cap) /\
  forall older, older ∈ entries -> older.(status) = Queued -> before_in_queue older c = true ->
    skipped (index_by_id entries) older \/ _capacity_overlaps older c n = false.
Proof.
  intros Hnd Hc Hq. rewrite admission_allowed.
  assert (c ∈ admission_queue entries) as Hin by (by apply admission_queue_elem).
  destruct (list_elem_of_split _ _ Hin) as (pre & post & Hsplit).
  assert (NoDup (job_id <$> admission_queue entries)) as Hndq.
  { unfold admission_queue. rewrite sort_by_perm. clear - Hnd.
    induction entries as [|e l IH]; [done|]. apply NoDup_cons in Hnd as [H1 H2].
    cbn [List.filter]. destruct (is_queued e); [|by apply IH]. apply NoDup_cons. split; [|by apply IH].
    intros (x & Hx & H)%list_elem_of_fmap. apply elem_of_filterb in H as [H _].
    apply H1. rewrite Hx. by apply list_elem_of_fmap_2. }
  pose proof (sorted_before _ c pre post (admission_queue_sorted entries) Hndq Hsplit) as Hpre.
  assert (Forall (fun e => e.(job_id) <> c.(job_id)) pre) as Hids.
  { apply Forall_forall. intros e He Heq. rewrite Hsplit, fmap_app, fmap_cons in Hndq.
    apply NoDup_app in Hndq as (_ & Hd & _). apply (Hd e.(job_id)); [by apply list_elem_of_fmap_2|].
    rewrite Heq. set_solver. }
  rewrite Hsplit, fifo_blocker_none by done. rewrite Forall_forall.
  setoid_rewrite Hpre. setoid_rewrite admission_queue_elem. naive_solver.
Qed.

(** *** Quota *)

(** The registry after the admitted row is rewritten with its claim. *)
Definition claim (claimed : JobEntry) (entries : list JobEntry) : list JobEntry :=
  (fun e => if bool_decide (e.(job_id) = claimed.(job_id)) then claimed else e) <$> entries.

Lemma claim_absent claimed entries :
  claimed.(job_id) ∉ job_id <$> entries -> claim claimed entries = entries.
Proof.
  induction entries as [|e l IH]; [done|]. rewrite fmap_cons. intros H. unfold claim.
  rewrite fmap_cons, bool_decide_false by set_solver. f_equal. apply IH. set_solver.
Qed.

Lemma quota_cons now e l :
  quota_count now (e :: l) = (if occupies_quota e now then 1 else 0) + quota_count now l.
Proof. unfold quota_count. cbn [List.filter]. destruct (occupies_quota e now); cbn [length]; lia. Qed.

(** Rewriting one row moves the count by that row alone. *)
Lemma quota_claim now c claimed entries :
  NoDup (job_id <$> entries) -> c ∈ entries -> claimed.(job_id) = c.(job_id) ->
  quota_count now (claim claimed entries) =
    quota_count now entries - (if occupies_quota c now then 1 else 0)
    + (if occupies_quota claimed now then 1 else 0).
Proof.
  intros Hnd Hc Hid. induction entries as [|e l IH]; [by apply not_elem_of_nil in Hc|].
  rewrite fmap_cons in Hnd. apply NoDup_cons in Hnd as [He Hnd].
  unfold claim. rewrite fmap_cons. fold (claim claimed l). rewrite !quota_cons.
  apply elem_of_cons in Hc as [->|Hc].
  - rewrite bool_decide_true by done. rewrite claim_absent by (by rewrite Hid). lia.
  - rewrite bool_decide_false; [rewrite IH by done; lia|].
    rewrite Hid. intros Heq. apply He. rewrite Heq. by apply list_elem_of_fmap_2.
Qed.

(** C20. An admission never exceeds the quota: whatever the claim writes into the
    admitted row, the registry that results occupies at most [max_my_jobs]
    slots, damaged rows counted as occupied. *)
Lemma admission_within_quota cfg c claimed entries n damage fresh now cap :
  NoDup (job_id <$> entries) -> c ∈ entries -> claimed.(job_id) = c.(job_id) ->
  cfg.(queue).(max_my_jobs) = Some cap ->
  (admission_decision cfg c entries n damage fresh now).(allowed) = true ->
  quota_count now (claim claimed entries) + damage <= cap.
Proof.
  intros Hnd Hc Hid Hcap (_ & _ & Hocc & _)%admission_allowed. specialize (Hocc cap Hcap).
  rewrite (quota_claim now c) by done. unfold admission_occupancy in Hocc.
  destruct (occupies_quota c now), (occupies_quota claimed now); lia.
Qed.

(** *** Refusals *)

(** A refusal names what it waits for: the verdict of the dependency, of an
    earlier attempt, the quota, or one queued row ahead of the candidate that
    is itself not skipped and wants a card of the same node.  CPU work is
    never refused for an earlier row. *)
Lemma admission_refusal cfg c entries n damage fresh now :
  let d := admission_decision cfg c entries n damage fresh now in
  d.(allowed) = false ->
  (exists reason condition,
     _dependency_state c (index_by_id entries) = Some (d.(ad_state), reason, condition)
     \/ _persisted_wait c fresh fresh = Some (d.(ad_state), reason, condition)) /\
  d.(blocking_job_id) = None \/
  (exists cap, cfg.(queue).(max_my_jobs) = Some cap /\ d.(ad_state) = "waiting_quota" /\
     cap <= admission_occupancy now c entries damage /\ d.(blocking_job_id) = None) \/
  (d.(ad_state) = "waiting_fifo" /\ 0 < c.(gpus_requested) /\
   exists older, older ∈ entries /\ older.(status) = Queued /\
     older.(job_id) <> c.(job_id) /\ d.(blocking_job_id) = Some older.(job_id) /\
     ~ skipped (index_by_id entries) older /\ _capacity_overlaps older c n = true).
Proof.
  cbv zeta. unfold admission_decision, admission_occupancy.
  destruct (_dependency_state c (index_by_id entries)) as [[[]]|]; cbn; [intros _; left; eauto|].
  destruct (_persisted_wait c fresh fresh) as [[[]]|]; cbn; [intros _; left; eauto|].
  set (occ := if occupies_quota c now then _ else _).
  assert (forall older,
    fifo_blocker (index_by_id entries) c n (admission_queue entries) = Some older ->
    0 < c.(gpus_requested) /\ older ∈ entries /\ older.(status) = Queued /\
    older.(job_id) <> c.(job_id) /\ ~ skipped (index_by_id entries) older /\
    _capacity_overlaps older c n = true) as Hfifo.
  { intros older (pre & post & Hq & Hne & _ & Hs & Ho)%fifo_blocker_some.
    assert (older ∈ admission_queue entries) as [? ?]%admission_queue_elem by (rewrite Hq; set_solver).
    split_and!; try done. unfold _capacity_overlaps in Ho.
    destruct (Z.leb_spec c.(gpus_requested) 0); [by rewrite orb_true_r in Ho|done]. }
  destruct (cfg.(queue).(max_my_jobs)) as [cap|]; [destruct (Z.leb_spec cap occ)|].
  - intros _. right; left. by exists cap.
  - destruct (fifo_blocker _ _ _ _) as [older|]; cbn; [|no_eq]. intros _. right; right.
    destruct (Hfifo older eq_refl) as (? & ? & ? & ? & ? & ?). split_and!; try done. by exists older.
  - destruct (fifo_blocker _ _ _ _) as [older|]; cbn; [|no_eq]. intros _. right; right.
    destruct (Hfifo older eq_refl) as (? & ? & ? & ? & ? & ?). split_and!; try done. by exists older.
Qed.

(** ** Capacity *)

(** The card lists and the free counts tell the same number. *)
Definition free_of (c : ResourceCapacity) (node : string) : nat := default 0%nat (c.(free) !! node).
Definition cards_of (c : ResourceCapacity) (node : string) : list (option Z) :=
  default [] (c.(free_gpu_memory_mib) !! node).
Definition coherent (c : ResourceCapacity) : Prop := forall node, free_of c node = length (cards_of c node).

Lemma resource_row_coherent c row c' : coherent c -> resource_row c row = Ok c' -> coherent c'.
Proof.
  intros Hc. unfold resource_row. destruct (dict_get "node" row) as [| | | |s| |]; try by intros [= <-].
  destruct s as [|a s]; [by intros [= <-]|].
  destruct (json_truthy (dict_get "error" row)); [by intros [= <-]|]. cbv zeta. rewrite bind_ok.
  intros (k & _ & H). apply bind_ok in H as (disk & _ & H). injection H as <-. intros n.
  unfold free_of, cards_of. cbn [free free_gpu_memory_mib].
  destruct (decide (n = String a s)) as [->|Hne].
  - by rewrite !lookup_insert_eq.
  - rewrite !lookup_insert_ne by done. apply Hc.
Qed.

Lemma resource_capacity_coherent resources c :
  _resource_capacity resources = Ok (Some c) -> coherent c.
Proof.
  destruct resources as [rows|]; cbn; [|no_eq]. rewrite bind_ok. intros (d & H & [= <-]).
  assert (coherent no_capacity) as H0 by (intros n; done). revert H0 H. generalize no_capacity.
  induction rows as [|row rows IH]; intros a Ha; cbn [resource_rows_go]; [by intros [= <-]|].
  rewrite bind_ok. intros (b & Hb & H). eapply IH; [|exact H]. by eapply resource_row_coherent.
Qed.

Definition wanted_card (minimum : option Z) (memory : option Z) : bool :=
  match minimum with None => true | Some m => fits_memory m memory end.

Lemma select_card_some minimum l i :
  select_card minimum l = Some i -> (i < length l)%nat /\
  length (List.filter (wanted_card minimum) l) =
    S (length (List.filter (wanted_card minimum) (list_delete i l))).
Proof.
  revert i. induction l as [|x l IH]; intros i; cbn [select_card]; [done|].
  fold (wanted_card minimum x). destruct (wanted_card minimum x) eqn:E.
  - intros [= <-]. cbn [list_delete List.filter length]. rewrite E. cbn [length]. split; [lia|done].
  - destruct (select_card minimum l) as [j|]; [|done]. intros [= <-].
    destruct (IH j eq_refl) as [H1 H2]. cbn [list_delete List.filter length]. rewrite E. split; [lia|done].
Qed.

Lemma select_card_none minimum l :
  select_card minimum l = None -> length (List.filter (wanted_card minimum) l) = 0%nat.
Proof.
  induction l as [|x l IH]; cbn [select_card]; [done|].
  fold (wanted_card minimum x). cbn [List.filter]. destruct (wanted_card minimum x); [done|].
  destruct (select_card minimum l); [done|]. by intros _; apply IH.
Qed.

(** What consuming cards of one node does to the capacity. *)
Record consumed (node : string) (c c' : ResourceCapacity) : Prop := {
  consumed_coherent : coherent c';
  consumed_less : (free_of c' node <= free_of c node)%nat;
  consumed_others : forall other, other <> node ->
    free_of c' other = free_of c other /\ cards_of c' other = cards_of c other;
  consumed_total : c'.(total) = c.(total);
  consumed_disk : c'.(disk_free) = c.(disk_free);
}.

Lemma consumed_refl node c : coherent c -> consumed node c c.
Proof. by split. Qed.

Lemma consumed_trans node a b c : consumed node a b -> consumed node b c -> consumed node a c.
Proof.
  intros [H1 H2 H3 H4 H5] [G1 G2 G3 G4 G5]. split; [done|lia| |congruence..].
  intros o Ho. destruct (G3 o Ho) as [-> ->]. by apply H3.
Qed.

Lemma take_card_consumed minimum node c c' :
  coherent c -> take_card minimum node c = Some c' ->
  consumed node c c' /\ S (free_of c' node) = free_of c node /\
  length (List.filter (wanted_card minimum) (cards_of c node)) =
    S (length (List.filter (wanted_card minimum) (cards_of c' node))).
Proof.
  intros Hc. unfold take_card. fold (cards_of c node).
  destruct (select_card minimum (cards_of c node)) as [i|] eqn:E; [|done].
  apply select_card_some in E as [Hi Hlen]. intros [= <-].
  set (c' := set_field _ _). pose proof (Hc node) as Hn.
  assert (free_of c' node = (free_of c node - 1)%nat) as Hf
    by (unfold free_of, c'; cbn; by rewrite lookup_insert_eq).
  assert (cards_of c' node = list_delete i (cards_of c node)) as Hk
    by (unfold cards_of at 1, c'; cbn; by rewrite lookup_insert_eq).
  assert (forall o, o <> node -> free_of c' o = free_of c o /\ cards_of c' o = cards_of c o) as Ho.
  { intros o Hne. unfold free_of, cards_of, c'. cbn. by rewrite !lookup_insert_ne. }
  split; [|rewrite Hf, Hk; split; [lia|done]]. split; [|lia|exact Ho|done..].
  intros o. destruct (decide (o = node)) as [->|Hne].
  - rewrite Hf, Hk. change (list_delete i (cards_of c node)) with (delete i (cards_of c node)).
    rewrite length_delete by (by apply lookup_lt_is_Some_2). lia.
  - destruct (Ho o Hne) as [-> ->]. apply Hc.
Qed.

Lemma consume_consumed n minimum node c : coherent c -> consumed node c (consume n minimum node c).
Proof.
  revert c. induction n as [|n IH]; intros c Hc; cbn [consume]; [by apply consumed_refl|].
  destruct (take_card minimum node c) as [c'|] eqn:E; [|by apply consumed_refl].
  apply take_card_consumed in E as (H & _); [|done]. eapply consumed_trans; [exact H|].
  apply IH, H.
Qed.

(** With enough fitting cards the whole request is taken. *)
Lemma consume_enough n minimum node c :
  coherent c -> (n <= length (List.filter (wanted_card minimum) (cards_of c node)))%nat ->
  (free_of (consume n minimum node c) node + n = free_of c node)%nat.
Proof.
  revert c. induction n as [|n IH]; intros c Hc Hn; cbn [consume]; [lia|].
  destruct (take_card minimum node c) as [c'|] eqn:E.
  - apply take_card_consumed in E as (H & Hf & Hl); [|done].
    rewrite <- Hf, <- (IH c'); [lia|apply H|lia].
  - unfold take_card in E. fold (cards_of c node) in E.
    destruct (select_card minimum (cards_of c node)) eqn:Es; [done|].
    apply select_card_none in Es. lia.
Qed.

Lemma gpu_fit_enough c wanted reserve minimum node :
  coherent c -> 0 <= wanted -> gpu_fit c wanted reserve minimum node = true ->
  (Z.to_nat wanted <= length (List.filter (wanted_card minimum) (cards_of c node)))%nat /\
  (wanted = 0 \/ wanted + reserve <= Z.of_nat (free_of c node)).
Proof.
  intros Hc Hw. unfold gpu_fit. cbv zeta. fold (free_of c node). fold (cards_of c node).
  destruct (Z.eqb_spec wanted 0) as [->|Hne]; [intros _; split; [simpl; lia|by left]|].
  destruct (bool_decide (node ∈ gpu_inventory_unknown c)); [done|].
  destruct (Z.ltb_spec (Z.of_nat (free_of c node) - wanted) reserve); [done|].
  destruct minimum as [m|]; intros Hle%Z.leb_le; (split; [|right; lia]).
  - change (wanted_card (Some m)) with (fits_memory m). unfold capable, cards_of in *. lia.
  - rewrite (Hc node) in Hle.
    assert (List.filter (wanted_card None) (cards_of c node) = cards_of c node) as ->; [|lia].
    clear. generalize (cards_of c node). intros l. induction l as [|x l IH]; [done|].
    cbn [List.filter wanted_card]. by rewrite IH.
Qed.

(** ** Concrete admissions *)

(** Two nodes; two GPU rows in the queue, the older one pinned to [n1]. *)
Definition small_center : HeadConfig :=
  {| c_center := "head"; c_nodes := [mkNode "n1" false false 1 None; mkNode "n2" false false 1 None];
     disk_min_gib := 1; queue := {| max_my_jobs := Some 2; reserve_free_per_node := 0 |};
     c_worker_root := "~/dt"; c_layout := ROLE_LAYOUT |}.
Definition pinned_row : JobEntry :=
  test_entry <| job_id := "20260101-0001_a_0123456789abcdef" |> <| status := Queued |>
    <| created_at := 10%Q |> <| pin_node := Some "n1" |> <| gpus_requested := 1 |>.
Definition free_row : JobEntry :=
  test_entry <| job_id := "20260101-0002_b_0123456789abcdef" |> <| status := Queued |>
    <| created_at := 20%Q |> <| gpus_requested := 1 |>.
Definition two_rows : list JobEntry := [free_row; pinned_row].

Lemma two_rows_unique : NoDup (job_id <$> two_rows).
Proof. apply (bool_decide_unpack _). vm_compute. exact I. Qed.

(** The younger row is admitted on the node nobody waits for. *)
Lemma admission_decision_spec_witness :
  (admission_decision small_center free_row two_rows "n2" 0 false 100%Q).(allowed) = true /\
  (skipped (index_by_id two_rows) pinned_row \/ _capacity_overlaps pinned_row free_row "n2" = false).
Proof.
  split; [reflexivity|].
  destruct (proj1 (admission_decision_spec small_center free_row two_rows "n2" 0 false 100%Q
    two_rows_unique ltac:(left) eq_refl) eq_refl) as (_ & _ & _ & Hall).
  apply Hall; [right; left|reflexivity|reflexivity].
Defined.

Lemma admission_within_quota_witness :
  quota_count 100%Q (claim (free_row <| dispatch_node := Some "n2" |>) two_rows) + 0 <= 2.
Proof.
  apply (admission_within_quota small_center free_row (free_row <| dispatch_node := Some "n2" |>)
    two_rows "n2" 0 false 100%Q 2 two_rows_unique); [left|reflexivity..].
Defined.

(** On the pinned node it waits behind the pin. *)
Lemma admission_refusal_witness :
  (admission_decision small_center free_row two_rows "n1" 0 false 100%Q).(blocking_job_id)
  = Some pinned_row.(job_id).
Proof.
  destruct (admission_refusal small_center free_row two_rows "n1" 0 false 100%Q eq_refl)
    as [[_ H]|[(cap & _ & _ & _ & H)|(_ & _ & older & _ & _ & _ & H & _)]].
  - vm_compute in H. discriminate H.
  - vm_compute in H. discriminate H.
  - reflexivity.
Defined.
