(* ===== verification/ForecastSpec.v ===== *)
(** * What the queue forecast guarantees

    Invariants of the loop of [scheduler_snapshot], carried from row to row:
    the cards promised so far were free in the probe, the running count obeys
    the quota, and a card-hungry waiter keeps its place. *)

From S2P Require Import Prelude Text PyValue JobEntry Lifecycle RegistryOps Config Queue Scheduler SchedulerSpec.

(** ** Verdicts *)
Lemma dependency_states e by_id s r k :
  _dependency_state e by_id = Some (s, r, k) ->
  s ∈ ["blocked_dependency_missing"; "waiting_dependency"; "blocked_predicate_false";
       "blocked_dependency_false"].
Proof.
  unfold _dependency_state, missing_predecessor. intros H.
  repeat match type of H with
  | context [match ?x with _ => _ end] => destruct x; try discriminate H
  | context [if ?b then _ else _] => destruct b; try discriminate H
  end; injection H as <- _ _; set_solver.
Qed.

Lemma persisted_states e has attempting s r k :
  _persisted_wait e has attempting = Some (s, r, k) -> s ∈ ["blocked_constraint"; "waiting_node"].
Proof.
  unfold _persisted_wait. intros H.
  repeat match type of H with
  | context [if ?b then _ else _] => destruct b; try discriminate H
  end; injection H as <- _ _; set_solver.
Qed.

Lemma inventory_states e c cands reach w s r k sel :
  inventory_state e c cands reach w = Some (s, r, k, sel) ->
  s ∈ ["waiting_node"; "waiting_gpu_inventory"; "blocked_resource_mismatch"] /\ sel = None.
Proof.
  unfold inventory_state. cbv zeta. intros H.
  match type of H with context [if ?b then _ else _] => destruct b; [|discriminate H] end.
  match type of H with context [match ?u with [] => _ | _ :: _ => _ end] => destruct u end;
    [injection H as <- _ _ <-; split; [set_solver|done]|].
  match type of H with context [match ?u with [] => "waiting_node" | _ :: _ => _ end] => destruct u end;
    injection H as <- _ _ <-; (split; [set_solver|done]).
Qed.

Lemma candidates_spec cfg e excluded node :
  (forall pin, e.(pin_node) = Some pin -> pin ∈ (n_name <$> cfg.(c_nodes))) ->
  node ∈ candidates_for cfg e excluded ->
  node ∈ (n_name <$> cfg.(c_nodes)) /\ (node ∉ drained_nodes cfg) /\
  match e.(pin_node) with Some pin => node = pin | None => node ∉ excluded end.
Proof.
  intros Hpin. unfold candidates_for. cbv zeta.
  rewrite elem_of_filterb, negb_true_iff, bool_decide_eq_false. intros [Hin Hd].
  destruct (e.(pin_node)) as [pin|].
  - apply list_elem_of_singleton in Hin as ->. split_and!; [by apply Hpin|done|done].
  - apply elem_of_filterb in Hin as [Hin Hx]. apply negb_true_iff, bool_decide_eq_false in Hx. done.
Qed.

Lemma wanted_nonneg e : 0 <= wanted_gpus e.
Proof. unfold wanted_gpus. lia. Qed.

(** What a promise of [node] to [e] rests on. *)
Record usable (cfg : HeadConfig) (e : JobEntry) (excluded : gset string) (c : ResourceCapacity)
    (node : string) : Prop := {
  usable_configured : node ∈ (n_name <$> cfg.(c_nodes));
  usable_not_drained : node ∉ drained_nodes cfg;
  usable_pin : match e.(pin_node) with Some pin => node = pin | None => node ∉ excluded end;
  usable_probed : is_Some (c.(total) !! node);
  usable_gpus : gpu_fit c (wanted_gpus e) (reserve_for cfg e) e.(min_vram_mib) node = true;
  usable_disk : disk_ok c (required_disk_for cfg e) node = true;
}.

Lemma head_filter {A} (p : A -> bool) l x k :
  List.filter p l = x :: k -> x ∈ l /\ p x = true.
Proof. intros H. apply elem_of_filterb. rewrite H. by left. Qed.

Lemma capacity_runnable cfg e capacity excluded r k sel :
  _capacity_state cfg e capacity excluded = ("runnable", r, k, sel) ->
  exists c node, capacity = Some c /\ sel = Some node /\ usable cfg e excluded c node.
Proof.
  unfold _capacity_state. destruct capacity as [c|]; [|no_eq].
  match goal with |- context [match ?p with Some refused => refused | None => _ end] =>
    destruct p as [[[[s' r'] k'] sel']|] eqn:Hpin end.
  { destruct (e.(pin_node)) as [pin|]; [|discriminate Hpin].
    repeat match type of Hpin with context [if ?b then _ else _] => destruct b end;
      try discriminate Hpin; injection Hpin as <- <- <- <-; no_eq. }
  assert (forall pin, e.(pin_node) = Some pin -> pin ∈ (n_name <$> cfg.(c_nodes))) as Hconf.
  { intros pin Hp. rewrite Hp in Hpin. destruct (bool_decide (pin ∈ (n_name <$> cfg.(c_nodes)))) eqn:E;
      [by apply bool_decide_eq_true in E|discriminate Hpin]. }
  clear Hpin. cbv zeta.
  pose proof (fun node => candidates_spec cfg e excluded node Hconf) as Hspec.
  destruct (candidates_for cfg e excluded) as [|x0 cands] eqn:Ec; [no_eq|].
  match goal with |- context [match ?p with Some pin => _ | None => _ end = _] =>
    match p with context [unavailable] => destruct p; [no_eq|] end end.
  match goal with |- context [match ?p with [] => _ | _ :: _ => _ end = _] =>
    destruct p as [|x1 reach] eqn:Er; [no_eq|] end.
  match goal with |- context [match ?p with [] => _ | _ :: _ => _ end = _] =>
    destruct p as [|node fitting] eqn:Ef end.
  { match goal with |- context [if ?b then _ else _] => destruct b; [no_eq|] end.
    destruct (inventory_state _ _ _ _ _) as [[[[s' r'] k'] sel']|] eqn:Ei; [|no_eq].
    apply inventory_states in Ei as [Hs _]. intros [= -> _ _ _]. set_solver. }
  intros [= _ _ <-]. exists c, node. split; [done|]. split; [done|].
  apply head_filter in Ef as [[Hreach Hg]%elem_of_filterb Hd].
  rewrite <- Er in Hreach. apply elem_of_filterb in Hreach as [Hcand Ht%bool_decide_eq_true].
  destruct (Hspec node Hcand) as (? & ? & ?). by split.
Qed.

Section forecast_facts.
Context (cfg : HeadConfig) (by_id : gmap string JobEntry).

Abbreviation step := (forecast_step cfg by_id).

(** Everything a runnable verdict of the loop implies. *)
Lemma fifo_runnable f e r k sel :
  fifo_verdict cfg by_id f e = ("runnable", r, k, sel) ->
  _dependency_state e by_id = None /\
  (forall cap, cfg.(queue).(max_my_jobs) = Some cap -> f.(forecast_running) < cap) /\
  fifo_owner f e "runnable" = None /\
  exists c node, f.(fc_capacity) = Some c /\ sel = Some node /\
    usable cfg e (excluded_for f e) c node.
Proof.
  unfold fifo_verdict. destruct (entry_verdict cfg by_id f e) as [[[s' r'] k'] sel'] eqn:Ev.
  destruct (fifo_owner f e s') as [o|] eqn:Eo; [no_eq|]. intros [= -> -> -> ->].
  unfold entry_verdict in Ev.
  destruct (_dependency_state e by_id) as [[[s1 r1] k1]|] eqn:Ed.
  { apply dependency_states in Ed. injection Ev as -> -> -> _. set_solver. }
  destruct (_persisted_wait e _ _) as [[[s1 r1] k1]|] eqn:Ep.
  { apply persisted_states in Ep. injection Ev as -> -> -> _. set_solver. }
  match type of Ev with context [if ?b then _ else _] => destruct b; [discriminate Ev|] end.
  split; [done|].
  destruct (cfg.(queue).(max_my_jobs)) as [cap|].
  - destruct (Z.leb_spec cap f.(forecast_running)); [discriminate Ev|].
    split; [by intros ? [= <-]|]. split; [done|]. by eapply capacity_runnable.
  - split; [done|]. split; [done|]. by eapply capacity_runnable.
Qed.

(** The row a step appends. *)
Definition step_row (f : Forecast) (position : nat) (e : JobEntry) : QueueRow :=
  queue_row position e (fifo_verdict cfg by_id f e).

Lemma step_rows f position e : (step f position e).(rows) = f.(rows) ++ [step_row f position e].
Proof. unfold forecast_step, step_row. by destruct (fifo_verdict cfg by_id f e) as [[[? ?] ?] ?]. Qed.

Lemma forecast_app f position a b :
  forecast cfg by_id f position (a ++ b) =
  forecast cfg by_id (forecast cfg by_id f position a) (position + length a) b.
Proof.
  revert f position. induction a as [|e a IH]; intros f p; cbn [app forecast length].
  - by rewrite Nat.add_0_r.
  - rewrite IH. f_equal. lia.
Qed.

(** Each row is the step taken at its queued entry, on the forecast of the
    entries before it. *)
Lemma forecast_rows f position q :
  f.(rows) = [] ->
  length (forecast cfg by_id f position q).(rows) = length q /\
  forall i e, q !! i = Some e ->
    (forecast cfg by_id f position q).(rows) !! i =
      Some (step_row (forecast cfg by_id f position (take i q)) (position + i) e).
Proof.
  intros Hf. induction q as [|x q [IHl IHr]] using rev_ind;
    [cbn [forecast]; rewrite Hf; split; [done|intros i e Hi; discriminate Hi]|].
  rewrite forecast_app. cbn [forecast]. rewrite step_rows, !length_app, IHl. split; [done|].
  intros i e Hi. destruct (decide (i < length q)%nat) as [Hlt|Hge].
  - rewrite lookup_app_l in Hi by lia. rewrite lookup_app_l by lia.
    rewrite take_app_le by lia. by apply IHr.
  - assert (i = length q) as ->.
    { apply lookup_lt_Some in Hi. rewrite length_app in Hi. simpl in Hi. lia. }
    rewrite list_lookup_middle in Hi by done. injection Hi as ->.
    rewrite take_app_length. rewrite list_lookup_middle by done. done.
Qed.

Lemma forecast_extends f position q :
  exists later, (forecast cfg by_id f position q).(rows) = f.(rows) ++ later.
Proof.
  revert f position. induction q as [|e q IH]; intros f p; cbn [forecast]; [exists []; by rewrite app_nil_r|].
  destruct (IH (forecast_step cfg by_id f p e) (S p)) as [later ->].
  rewrite step_rows, <- app_assoc. by eexists.
Qed.

Lemma forecast_take f position q i :
  f.(rows) = [] ->
  take i (forecast cfg by_id f position q).(rows) = (forecast cfg by_id f position (take i q)).(rows).
Proof.
  intros Hf. destruct (decide (i < length q)%nat) as [Hlt|Hge].
  - destruct (forecast_rows f position (take i q) Hf) as [Hl _].
    rewrite length_take, Nat.min_l in Hl by lia.
    rewrite <- (take_drop i q) at 1. rewrite forecast_app.
    destruct (forecast_extends (forecast cfg by_id f position (take i q)) (position + length (take i q))
      (drop i q)) as [later ->]. by rewrite take_app_length'.
  - rewrite (take_ge q) by lia. apply take_ge. destruct (forecast_rows f position q Hf) as [-> _]. lia.
Qed.

(** Invariants of the loop. *)
Lemma forecast_ind (P : Forecast -> Prop) f position q :
  P f -> (forall g p e, e ∈ q -> P g -> P (step g p e)) -> P (forecast cfg by_id f position q).
Proof.
  intros Hf Hstep. induction q as [|x q IH] using rev_ind; [done|].
  rewrite forecast_app. cbn [forecast]. apply Hstep; [set_solver|]. apply IH.
  intros g p e He. apply Hstep. set_solver.
Qed.
End forecast_facts.

(** ** Cards *)

(** The cards the runnable rows of the forecast take from [node]. *)
Definition row_takes (node : string) (row : QueueRow) : nat :=
  if is_runnable_row row && bool_decide (row.(qr_selected_node) = Some node)
  then Z.to_nat row.(qr_gpus_requested) else 0%nat.
Definition taken (node : string) (rows : list QueueRow) : nat :=
  foldr (fun row sum => row_takes node row + sum)%nat 0%nat rows.

Lemma taken_app node a b : taken node (a ++ b) = (taken node a + taken node b)%nat.
Proof. unfold taken. induction a as [|r a IH]; [done|]. cbn [app foldr]. rewrite IH. lia. Qed.

Section cards.
Context (cfg : HeadConfig) (by_id : gmap string JobEntry) (c0 : ResourceCapacity).

(** The invariant of the loop over a probe [c0]. *)
Record accounts (g : Forecast) (c : ResourceCapacity) : Prop := {
  accounts_capacity : g.(fc_capacity) = Some c;
  accounts_coherent : coherent c;
  accounts_total : c.(total) = c0.(total);
  accounts_disk : c.(disk_free) = c0.(disk_free);
  accounts_free : forall node, (free_of c node + taken node g.(rows) <= free_of c0 node)%nat;
}.

Lemma row_takes_other node position e s r k sel :
  s <> "runnable" \/ sel <> Some node -> row_takes node (queue_row position e (s, r, k, sel)) = 0%nat.
Proof.
  unfold row_takes, is_runnable_row, queue_row. cbn. intros H.
  destruct (bool_decide (s = "runnable")) eqn:E1; [apply bool_decide_eq_true in E1|done].
  rewrite bool_decide_false; [done|]. destruct H; [by subst|done].
Qed.

Lemma row_takes_runnable node position e r k :
  row_takes node (queue_row position e ("runnable", r, k, Some node)) = Z.to_nat e.(gpus_requested).
Proof.
  unfold row_takes, is_runnable_row. cbn [queue_row qr_state qr_selected_node qr_gpus_requested].
  by rewrite !bool_decide_true.
Qed.

Lemma step_accounts g c position e :
  accounts g c -> exists c', accounts (forecast_step cfg by_id g position e) c'.
Proof.
  intros [Hg Hc Ht Hd Hf].
  destruct (fifo_verdict cfg by_id g e) as [[[s r] k] sel] eqn:Ev.
  pose proof (step_rows cfg by_id g position e) as Hrows. unfold step_row in Hrows. rewrite Ev in Hrows.
  assert (forall node, taken node (rows (forecast_step cfg by_id g position e)) =
    (taken node g.(rows) + row_takes node (queue_row position e (s, r, k, sel)))%nat) as Htaken.
  { intros node. rewrite Hrows, taken_app. unfold taken at 2. cbn. lia. }
  assert (fc_capacity (forecast_step cfg by_id g position e) =
    match sel with
    | Some node => if bool_decide (s = "runnable") || bool_decide (s = "dispatch_reserved")
                   then Some (_consume_capacity c node e) else Some c
    | None => Some c end) as Hcap.
  { unfold forecast_step. rewrite Ev, Hg. by destruct sel. }
  destruct (decide (s = "runnable")) as [->|Hs].
  - destruct (fifo_runnable cfg by_id g e r k sel Ev) as (_ & _ & _ & c1 & node & Hc1 & -> & Hu).
    rewrite Hg in Hc1. injection Hc1 as <-. cbn in Hcap.
    exists (_consume_capacity c node e).
    destruct (consume_consumed (Z.to_nat e.(gpus_requested)) e.(min_vram_mib) node c Hc)
      as [K1 K2 K3 K4 K5]. unfold _consume_capacity in *. split; [done|done|congruence|congruence|].
    intros other. rewrite Htaken. destruct (decide (other = node)) as [->|Hne].
    + rewrite row_takes_runnable. specialize (Hf node).
      destruct (gpu_fit_enough c _ _ _ node Hc (wanted_nonneg e) (usable_gpus _ _ _ _ _ Hu))
        as [Hen _].
      pose proof (consume_enough (Z.to_nat e.(gpus_requested)) e.(min_vram_mib) node c Hc) as He.
      unfold wanted_gpus in Hen. specialize (He ltac:(lia)). lia.
    + rewrite row_takes_other by (right; congruence). destruct (K3 other Hne) as [-> _].
      specialize (Hf other). lia.
  - assert (exists c', fc_capacity (forecast_step cfg by_id g position e) = Some c' /\
      coherent c' /\ c'.(total) = c.(total) /\ c'.(disk_free) = c.(disk_free) /\
      forall node, (free_of c' node <= free_of c node)%nat) as (c' & H1 & H2 & H3 & H4 & H5).
    { rewrite Hcap. destruct sel as [node|]; [|by exists c].
      destruct (bool_decide (s = "runnable") || bool_decide (s = "dispatch_reserved")); [|by exists c].
      eexists. split; [done|].
      destruct (consume_consumed (Z.to_nat e.(gpus_requested)) e.(min_vram_mib) node c Hc)
        as [K1 K2 K3 K4 K5]. unfold _consume_capacity. split_and!; try done. intros o.
      destruct (decide (o = node)) as [->|Hne]; [done|]. destruct (K3 o Hne) as [-> _]. lia. }
    exists c'. split; [done|done|congruence|congruence|]. intros node. rewrite Htaken.
    rewrite row_takes_other by by left. specialize (Hf node). specialize (H5 node). lia.
Qed.

Lemma forecast_accounts running position q :
  coherent c0 ->
  exists c, accounts (forecast cfg by_id (mkForecast running (Some c0) [] None ∅) position q) c.
Proof.
  intros H0. apply (forecast_ind cfg by_id (fun g => exists c, accounts g c)).
  - exists c0. split; [done..|]. intros node. cbn. lia.
  - intros g p e _ [c Hc]. by eapply step_accounts.
Qed.
End cards.

(** The loop starts from the probe and from nothing promised. *)
Lemma snapshot_inv cfg entries resources alive stale damage now s :
  scheduler_snapshot cfg entries resources alive stale damage now = Ok s ->
  exists capacity, _resource_capacity resources = Ok capacity /\
    s.(sn_queue) = (snapshot_rows cfg entries capacity (quota_count now entries + damage)).(rows) /\
    s.(sn_running) = quota_count now entries + damage /\
    s.(sn_queue_depth) = length s.(sn_queue) /\
    s.(sn_runnable_queued) = length (List.filter is_runnable_row s.(sn_queue)) /\
    s.(sn_blocked_queued) = length (List.filter is_blocked_row s.(sn_queue)) /\
    s.(sn_waiting_queued) = length (List.filter (fun row =>
      negb (bool_decide (row ∈ List.filter is_runnable_row s.(sn_queue)))
      && negb (bool_decide (row ∈ List.filter is_blocked_row s.(sn_queue)))) s.(sn_queue)).
Proof.
  unfold scheduler_snapshot. cbv zeta. rewrite bind_ok. intros (capacity & Hc & [= <-]).
  by exists capacity.
Qed.

(** C15. No card is promised twice: over the whole forecast, the cards the runnable
    rows take from a node are at most those the probe showed free there. *)
Lemma forecast_no_oversubscription cfg entries resources alive stale damage now s c :
  scheduler_snapshot cfg entries (Some resources) alive stale damage now = Ok s ->
  _resource_capacity (Some resources) = Ok (Some c) ->
  forall node, (taken node s.(sn_queue) <= default 0 (c.(free) !! node))%nat.
Proof.
  intros (capacity & Hc' & -> & _)%snapshot_inv Hc node. rewrite Hc in Hc'. injection Hc' as <-.
  unfold snapshot_rows.
  destruct (forecast_accounts cfg (index_by_id entries) c (quota_count now entries + damage) 1
    (by_created_at (List.filter is_queued entries)) (resource_capacity_coherent _ _ Hc))
    as (c' & [_ _ _ _ Hf]).
  fold (free_of c node). etransitivity; [|apply (Hf node)]. lia.
Qed.

(** C29. A promised node is one placement may use: configured, in service, the pin
    or outside the exclusions, seen by the probe, with the disk the job needs;
    and after every card promised before it the node still holds the job's
    cards, plus the anti-starvation reserve when the job is not pinned. *)
Lemma forecast_promise_sound cfg entries resources alive stale damage now s c i row :
  scheduler_snapshot cfg entries (Some resources) alive stale damage now = Ok s ->
  _resource_capacity (Some resources) = Ok (Some c) ->
  s.(sn_queue) !! i = Some row -> row.(qr_state) = "runnable" ->
  exists e node, fifo entries !! i = Some e /\ row.(qr_job_id) = e.(job_id) /\
    row.(qr_selected_node) = Some node /\ _dependency_state e (index_by_id entries) = None /\
    (exists n, n ∈ cfg.(c_nodes) /\ n.(n_name) = node) /\ (node ∉ drained_nodes cfg) /\
    match e.(pin_node) with Some pin => node = pin | None => node ∉ default [] e.(exclude_nodes) end /\
    is_Some (c.(total) !! node) /\ disk_ok c (required_disk_for cfg e) node = true /\
    (e.(gpus_requested) <= 0 \/
     Z.of_nat (taken node (take (S i) s.(sn_queue))) + reserve_for cfg e <= Z.of_nat (free_of c node)).
Proof.
  intros (capacity & Hc' & Hrows & _)%snapshot_inv Hc Hi Hrun. rewrite Hc in Hc'. injection Hc' as <-.
  rewrite Hrows in Hi |- *. unfold snapshot_rows in *. set (by_id := index_by_id entries) in *.
  fold (fifo entries) in *. set (q := fifo entries) in *.
  set (f0 := mkForecast _ _ _ _ _) in *.
  destruct (forecast_rows cfg by_id f0 1 q eq_refl) as [Hlen Hnth].
  destruct (lookup_lt_is_Some_2 q i) as [e He].
  { rewrite <- Hlen. by eapply lookup_lt_Some. }
  rewrite (Hnth i e He) in Hi. injection Hi as <-.
  set (g := forecast cfg by_id f0 1 (take i q)) in *.
  destruct (forecast_accounts cfg by_id c (quota_count now entries + damage) 1 (take i q)
    (resource_capacity_coherent _ _ Hc)) as (c' & [Hg Hco Ht Hd Hf]). fold f0 g in Hg, Hf.
  unfold step_row in Hrun |- *.
  destruct (fifo_verdict cfg by_id g e) as [[[st r] k] sel] eqn:Ev. cbn in Hrun. subst st.
  destruct (fifo_runnable cfg by_id g e r k sel Ev) as (Hdep & _ & _ & c1 & node & Hc1 & -> & Hu).
  rewrite Hg in Hc1. injection Hc1 as <-. destruct Hu as [U1 U2 U3 U4 U5 U6].
  exists e, node. split_and!; try done.
  - apply list_elem_of_fmap in U1 as (n & -> & Hn). by exists n.
  - destruct (e.(pin_node)) eqn:Hp; [done|]. unfold excluded_for in U3. cbv zeta in U3.
    rewrite <- (elem_of_list_to_set (C := gset string)).
    match type of U3 with context [if ?b then _ else _] => destruct b end; set_solver.
  - by rewrite <- Ht.
  - unfold disk_ok in U6 |- *. by rewrite <- Hd.
  - destruct (gpu_fit_enough c' _ _ _ node Hco (wanted_nonneg e) U5) as [_ [Hw|Hw]].
    { left. unfold wanted_gpus in Hw. lia. }
    right. erewrite take_S_r by (by apply Hnth). rewrite taken_app.
    rewrite forecast_take by done. fold g.
    unfold step_row. fold g. rewrite Ev. unfold taken at 2. cbn [foldr]. rewrite row_takes_runnable.
    specialize (Hf node). unfold wanted_gpus in Hw. lia.
Qed.

(** ** Quota *)
Definition runnable_count (rows : list QueueRow) : nat := length (List.filter is_runnable_row rows).

Lemma step_runnable cfg by_id g position e :
  let g' := forecast_step cfg by_id g position e in
  (is_runnable_row (step_row cfg by_id g position e) = true /\
   (forall cap, cfg.(queue).(max_my_jobs) = Some cap -> g.(forecast_running) < cap) /\
   g'.(forecast_running) = g.(forecast_running) + 1) \/
  (is_runnable_row (step_row cfg by_id g position e) = false /\
   g'.(forecast_running) = g.(forecast_running)).
Proof.
  cbv zeta. unfold step_row, forecast_step.
  destruct (fifo_verdict cfg by_id g e) as [[[s r] k] sel] eqn:Ev.
  unfold is_runnable_row. cbn [queue_row qr_state forecast_running].
  destruct (decide (s = "runnable")) as [->|Hs].
  - left. split; [by rewrite bool_decide_true|]. split; [|done]. by apply (fifo_runnable _ _ _ _ _ _ _ Ev).
  - right. by rewrite bool_decide_false.
Qed.

(** The forecast never starts a job past the quota: either no row is runnable,
    or the jobs running now together with every runnable row fit in
    [max_my_jobs]. *)
Lemma forecast_within_quota cfg entries resources alive stale damage now s cap :
  scheduler_snapshot cfg entries resources alive stale damage now = Ok s ->
  cfg.(queue).(max_my_jobs) = Some cap ->
  s.(sn_runnable_queued) = 0%nat \/ s.(sn_running) + Z.of_nat s.(sn_runnable_queued) <= cap.
Proof.
  intros (capacity & _ & Hrows & -> & _ & -> & _)%snapshot_inv Hcap. rewrite Hrows. unfold snapshot_rows.
  set (running := quota_count now entries + damage).
  pose (P := fun g => g.(forecast_running) = running + Z.of_nat (runnable_count g.(rows)) /\
    (runnable_count g.(rows) = 0%nat \/ g.(forecast_running) <= cap)).
  match goal with |- context [rows ?g] => assert (P g) as [H1 H2] end.
  { apply forecast_ind; [split; [cbn; lia|by left]|]. intros g p e _ [Hr Hq].
    assert (runnable_count (rows (forecast_step cfg (index_by_id entries) g p e)) =
      (runnable_count g.(rows) + if is_runnable_row (step_row cfg (index_by_id entries) g p e)
                                 then 1 else 0)%nat) as Hn.
    { unfold runnable_count. rewrite step_rows, List.filter_app, length_app. cbn [List.filter].
      by destruct (is_runnable_row _). }
    unfold P. rewrite Hn.
    destruct (step_runnable cfg (index_by_id entries) g p e) as [(-> & Hlt & ->)|[-> ->]].
    - specialize (Hlt cap Hcap). split; [lia|right; lia].
    - rewrite Nat.add_0_r. by split. }
  destruct H2 as [H2|H2]; [left; exact H2|right]. rewrite H1 in H2. exact H2.
Qed.

(** ** FIFO *)

(** A row that waits for cards holds its claim in the loop's state. *)
Definition holds_claim (g : Forecast) (row : QueueRow) : Prop :=
  row.(qr_state) = "waiting_capacity" -> 0 < row.(qr_gpus_requested) ->
  match row.(qr_pin_node) with
  | None => is_Some g.(unpinned_capacity_wait)
  | Some pin => pin ∈ dom g.(busy_pins)
  end.

Lemma step_holds_claims cfg by_id g position e :
  Forall (holds_claim g) g.(rows) ->
  let g' := forecast_step cfg by_id g position e in Forall (holds_claim g') g'.(rows).
Proof.
  intros H. cbv zeta. rewrite step_rows. unfold step_row, forecast_step.
  destruct (fifo_verdict cfg by_id g e) as [[[s r] k] sel].
  set (g' := mkForecast _ _ _ _ _).
  assert (is_Some g.(unpinned_capacity_wait) -> is_Some g'.(unpinned_capacity_wait)) as Hu.
  { cbn. destruct (_ && bool_decide (pin_node e = None)); [by eexists|done]. }
  assert (dom g.(busy_pins) ⊆ dom g'.(busy_pins)) as Hb.
  { cbn. destruct (pin_node e) as [pin|]; [|done].
    destruct (bool_decide (s = "waiting_capacity") && _); [|done].
    destruct (busy_pins g !! pin); [done|]. rewrite dom_insert_L. set_solver. }
  apply Forall_app. split.
  - eapply Forall_impl; [exact H|]. intros row Hrow H1 H2. specialize (Hrow H1 H2).
    destruct (qr_pin_node row); [by apply Hb|by apply Hu].
  - apply Forall_singleton. unfold holds_claim, queue_row, g'.
    cbn [qr_state qr_gpus_requested qr_pin_node unpinned_capacity_wait busy_pins].
    intros -> Hg. rewrite (proj2 (Z.ltb_lt _ _) Hg). rewrite !bool_decide_true by done. cbn [andb].
    destruct (pin_node e) as [pin|]; cbn; [|by eexists].
    destruct (busy_pins g !! pin) eqn:E; [by apply elem_of_dom|]. rewrite dom_insert_L. set_solver.
Qed.

(** C30. FIFO among card-hungry rows: once a row waits for cards, no later GPU row
    is promised a card it waits for.  Behind an unpinned waiter nothing that
    needs a card runs; behind a waiter pinned to a node, nothing that needs a
    card is placed on that node. *)
Lemma forecast_respects_fifo cfg entries resources alive stale damage now s i j earlier later :
  scheduler_snapshot cfg entries resources alive stale damage now = Ok s ->
  s.(sn_queue) !! i = Some earlier -> s.(sn_queue) !! j = Some later -> (i < j)%nat ->
  earlier.(qr_state) = "waiting_capacity" -> 0 < earlier.(qr_gpus_requested) ->
  later.(qr_state) = "runnable" -> 0 < later.(qr_gpus_requested) ->
  exists pin, earlier.(qr_pin_node) = Some pin /\ later.(qr_selected_node) <> Some pin.
Proof.
  intros (capacity & _ & Hrows & _)%snapshot_inv. rewrite Hrows. unfold snapshot_rows.
  set (by_id := index_by_id entries). set (q := by_created_at _). set (f0 := mkForecast _ _ _ _ _).
  intros Hi Hj Hij Hw Hwg Hr Hrg.
  destruct (forecast_rows cfg by_id f0 1 q eq_refl) as [Hlen Hnth].
  destruct (lookup_lt_is_Some_2 q j) as [e He]; [rewrite <- Hlen; by eapply lookup_lt_Some|].
  rewrite (Hnth j e He) in Hj. injection Hj as <-.
  set (g := forecast cfg by_id f0 1 (take j q)) in *.
  assert (earlier ∈ g.(rows)) as Hin.
  { unfold g. rewrite <- forecast_take by done. eapply list_elem_of_lookup_2.
    rewrite lookup_take_lt by done. exact Hi. }
  assert (Forall (holds_claim g) g.(rows)) as Hall.
  { apply (forecast_ind cfg by_id (fun g => Forall (holds_claim g) g.(rows))); [constructor|].
    intros h p x _. apply step_holds_claims. }
  rewrite Forall_forall in Hall. specialize (Hall _ Hin Hw Hwg).
  unfold step_row in *. destruct (fifo_verdict cfg by_id g e) as [[[st r] k] sel] eqn:Ev.
  cbn in Hr, Hrg. subst st.
  destruct (fifo_runnable cfg by_id g e r k sel Ev) as (_ & _ & Ho & c & node & _ & -> & Hu).
  cbn [queue_row qr_selected_node]. unfold fifo_owner in Ho.
  rewrite bool_decide_true, (proj2 (Z.ltb_lt _ _) Hrg) in Ho by done. cbn [andb] in Ho.
  destruct (g.(unpinned_capacity_wait)); [done|].
  destruct (qr_pin_node earlier) as [pin|]; [|by destruct Hall].
  exists pin. split; [done|]. intros [= ->]. pose proof (usable_pin _ _ _ _ _ Hu) as Hpin.
  destruct (pin_node e) as [p|] eqn:Hp.
  - subst p. apply elem_of_dom in Hall as [o Ho']. by rewrite Ho' in Ho.
  - unfold excluded_for in Hpin. rewrite bool_decide_true, (proj2 (Z.ltb_lt _ _) Hrg) in Hpin by done.
    cbn [andb] in Hpin. set_solver.
Qed.

(** ** The counts *)
Lemma partition_counts (rows : list QueueRow) :
  length rows = (length (List.filter is_runnable_row rows) + length (List.filter is_blocked_row rows)
    + length (List.filter (fun row =>
        negb (bool_decide (row ∈ List.filter is_runnable_row rows))
        && negb (bool_decide (row ∈ List.filter is_blocked_row rows))) rows))%nat.
Proof.
  rewrite (List.filter_ext_in (fun row =>
    negb (bool_decide (row ∈ List.filter is_runnable_row rows))
    && negb (bool_decide (row ∈ List.filter is_blocked_row rows))) (fun row => negb (is_runnable_row row) && negb (is_blocked_row row))).
  - induction rows as [|row l IH]; [done|]. cbn [List.filter].
    destruct (is_runnable_row row) eqn:Er; cbn [negb andb length].
    + assert (is_blocked_row row = false) as ->; [|cbn [negb andb length]; lia].
      apply bool_decide_eq_true in Er. unfold is_blocked_row. by rewrite Er.
    + destruct (is_blocked_row row); cbn [negb andb length]; lia.
  - intros row Hrow%list_elem_of_In. f_equal; f_equal; apply Bool.eq_iff_eq_true;
      rewrite bool_decide_eq_true, elem_of_filterb; tauto.
Qed.

(** Every queued row is explained once, in FIFO order with its position, and
    is counted as exactly one of runnable, blocked and waiting. *)
Lemma snapshot_explains_queue cfg entries resources alive stale damage now s :
  scheduler_snapshot cfg entries resources alive stale damage now = Ok s ->
  s.(sn_queue_depth) = (s.(sn_runnable_queued) + s.(sn_blocked_queued) + s.(sn_waiting_queued))%nat /\
  (fun row => (row.(qr_position), row.(qr_job_id))) <$> s.(sn_queue) =
  imap (fun i e => (S i, e.(job_id))) (fifo entries).
Proof.
  intros (capacity & _ & Hrows & _ & -> & -> & -> & ->)%snapshot_inv.
  split; [apply partition_counts|]. rewrite Hrows. unfold snapshot_rows. fold (fifo entries).
  set (by_id := index_by_id entries). set (f0 := mkForecast _ _ _ _ _).
  destruct (forecast_rows cfg by_id f0 1 (fifo entries) eq_refl) as [Hlen Hnth].
  apply list_eq. intros i. rewrite list_lookup_fmap, list_lookup_imap.
  destruct (fifo entries !! i) as [e|] eqn:He.
  - rewrite (Hnth i e He). unfold step_row.
    by destruct (fifo_verdict cfg by_id _ e) as [[[? ?] ?] ?].
  - apply lookup_ge_None in He. rewrite lookup_ge_None_2; [done|]. by rewrite Hlen.
Qed.

(** ** A concrete snapshot *)
Definition card_json (free_ : bool) : json :=
  JDict [("free", JBool free_); ("mem_total_mib", JInt 81920)].
Definition node_json (name : string) (gpus : list json) : list (string * json) :=
  [("node", JStr name); ("gpus", JList gpus); ("system", JDict [("disk_free_gib", JInt 500)])].
(** The pin holds [n1], whose cards are busy; [n2] has two free cards. *)
Definition probe : list (list (string * json)) :=
  [node_json "n1" [card_json false]; node_json "n2" [card_json true; card_json true]].

Definition sample_snapshot : result Snapshot :=
  scheduler_snapshot small_center two_rows (Some probe) (Some true) None 0 100%Q.

Example sample_states :
  (fun s => (qr_state <$> s.(sn_queue), qr_selected_node <$> s.(sn_queue))) <$> ok_option sample_snapshot =
  Some (["waiting_capacity"; "runnable"], [None; Some "n2"]).
Proof. vm_compute. reflexivity. Qed.

Lemma sample_snapshot_ok : exists s, sample_snapshot = Ok s.
Proof.
  assert (is_ok sample_snapshot = true) as H by (vm_compute; reflexivity).
  destruct sample_snapshot as [s|]; [by exists s|discriminate H].
Qed.

Lemma probe_ok : exists c, _resource_capacity (Some probe) = Ok (Some c).
Proof.
  assert (match _resource_capacity (Some probe) with Ok (Some _) => true | _ => false end = true) as H
    by (vm_compute; reflexivity).
  destruct (_resource_capacity (Some probe)) as [[c|]|]; [by exists c|discriminate H..].
Qed.

Lemma forecast_no_oversubscription_witness :
  exists s c, sample_snapshot = Ok s /\ forall node, (taken node s.(sn_queue) <= free_of c node)%nat.
Proof.
  destruct sample_snapshot_ok as [s Hs], probe_ok as [c Hc]. exists s, c. split; [exact Hs|].
  exact (forecast_no_oversubscription small_center two_rows probe (Some true) None 0 100%Q s c Hs Hc).
Defined.

Lemma sample_row : exists s row, sample_snapshot = Ok s /\ s.(sn_queue) !! 1%nat = Some row /\
  row.(qr_state) = "runnable" /\ row.(qr_gpus_requested) = 1.
Proof.
  destruct sample_snapshot_ok as [s Hs]. exists s.
  assert (match sample_snapshot with
          | Ok s => match s.(sn_queue) !! 1%nat with
                    | Some row => bool_decide (row.(qr_state) = "runnable" /\ row.(qr_gpus_requested) = 1)
                    | None => false end
          | Err _ => false end = true) as H by (vm_compute; reflexivity).
  rewrite Hs in H. destruct (s.(sn_queue) !! 1%nat) as [row|]; [|discriminate H].
  apply bool_decide_eq_true in H. exists row. tauto.
Qed.

Lemma forecast_promise_sound_witness : exists e node, fifo two_rows !! 1%nat = Some e /\
  node ∉ drained_nodes small_center.
Proof.
  destruct sample_row as (s & row & Hs & Hrow & Hr & _), probe_ok as [c Hc].
  destruct (forecast_promise_sound small_center two_rows probe (Some true) None 0 100%Q s c 1 row
    Hs Hc Hrow Hr) as (e & node & He & _ & _ & _ & _ & Hd & _). by exists e, node.
Defined.

Lemma forecast_within_quota_witness : exists s, sample_snapshot = Ok s /\
  (s.(sn_runnable_queued) = 0%nat \/ s.(sn_running) + Z.of_nat s.(sn_runnable_queued) <= 2).
Proof.
  destruct sample_snapshot_ok as [s Hs]. exists s. split; [exact Hs|].
  exact (forecast_within_quota small_center two_rows (Some probe) (Some true) None 0 100%Q s 2 Hs eq_refl).
Defined.

Lemma sample_waiter : exists s row, sample_snapshot = Ok s /\ s.(sn_queue) !! 0%nat = Some row /\
  row.(qr_state) = "waiting_capacity" /\ row.(qr_gpus_requested) = 1 /\ row.(qr_pin_node) = Some "n1".
Proof.
  destruct sample_snapshot_ok as [s Hs]. exists s.
  assert (match sample_snapshot with
          | Ok s => match s.(sn_queue) !! 0%nat with
                    | Some row => bool_decide (row.(qr_state) = "waiting_capacity" /\
                        row.(qr_gpus_requested) = 1 /\ row.(qr_pin_node) = Some "n1")
                    | None => false end
          | Err _ => false end = true) as H by (vm_compute; reflexivity).
  rewrite Hs in H. destruct (s.(sn_queue) !! 0%nat) as [row|]; [|discriminate H].
  apply bool_decide_eq_true in H. exists row. tauto.
Qed.

Lemma forecast_respects_fifo_witness :
  exists s row, sample_snapshot = Ok s /\ s.(sn_queue) !! 1%nat = Some row /\
    row.(qr_selected_node) <> Some "n1".
Proof.
  destruct sample_row as (s & row & Hs & Hrow & Hr & Hg).
  destruct sample_waiter as (s' & first & Hs' & Hfirst & Hw & Hwg & Hpin).
  rewrite Hs in Hs'. injection Hs' as <-. exists s, row. split; [exact Hs|]. split; [exact Hrow|].
  destruct (forecast_respects_fifo small_center two_rows (Some probe) (Some true) None 0 100%Q s 0 1
    first row Hs Hfirst Hrow ltac:(lia) Hw ltac:(lia) Hr ltac:(lia)) as (pin & Hp & Hne).
  congruence.
Defined.

Lemma snapshot_explains_queue_witness : exists s, sample_snapshot = Ok s /\
  qr_job_id <$> s.(sn_queue) = [pinned_row.(job_id); free_row.(job_id)].
Proof.
  destruct sample_snapshot_ok as [s Hs]. exists s. split; [exact Hs|].
  destruct (snapshot_explains_queue small_center two_rows (Some probe) (Some true) None 0 100%Q s Hs)
    as [_ H]. apply (f_equal (fmap snd)) in H. rewrite <- list_fmap_compose in H.
  exact H.
Defined.

(** On a one-node center with nothing drained, a job queued behind a busy pin
    is told that every eligible node is drained for maintenance: the branch
    does not tell a reservation or an exclusion from a drain. *)
Lemma reservation_reported_as_drain :
  let cfg := small_center <| c_nodes := [mkNode "n1" false false 1 None] |> in
  drained_nodes cfg = [] /\
  (fun s => qr_reason <$> s.(sn_queue)) <$>
    scheduler_snapshot cfg two_rows (Some [node_json "n1" [card_json false]]) (Some true) None 0 100%Q
  = Ok ["waiting for 1 GPU capacity"; "every eligible node is drained for maintenance"].
Proof. split; [reflexivity|]. vm_compute. reflexivity. Qed.
