(* ===== verification/PlacementSpec.v ===== *)
(** * Placement: who is a candidate, and agreement with the forecast

    [pick_candidates] offers exactly the nodes the live evidence allows, and a
    node the scheduler's forecast promises is one placement would offer on the
    same evidence. *)

From S2P Require Import Prelude Text PyValue JobEntry RunSpec Lifecycle RegistryOps Config Queue Probe Placement Scheduler SchedulerSpec ForecastSpec.

(** ** Candidates *)
Lemma by_name_spec nodes name n : by_name nodes !! name = Some n -> n ∈ nodes /\ n.(n_name) = name.
Proof.
  unfold by_name.
  assert (forall l (m : gmap string Node), (forall n, m !! name = Some n -> n ∈ nodes /\ n.(n_name) = name) ->
    (forall x, x ∈ l -> x ∈ nodes) ->
    fold_left (fun m x => <[x.(n_name) := x]> m) l m !! name = Some n -> n ∈ nodes /\ n.(n_name) = name)
    as H.
  { induction l as [|x l IH]; intros m Hm Hl; cbn [fold_left]; [apply Hm|].
    apply IH; [|set_solver]. intros y Hy. destruct (decide (x.(n_name) = name)) as [<-|Hne].
    - rewrite lookup_insert_eq in Hy. injection Hy as <-. split; [apply Hl; left|done].
    - rewrite lookup_insert_ne in Hy by done. by apply Hm. }
  apply H; [|done]. intros y Hy. by rewrite lookup_empty in Hy.
Qed.

Lemma by_name_total nodes name : name ∈ n_name <$> nodes -> is_Some (by_name nodes !! name).
Proof.
  unfold by_name. assert (forall l (m : gmap string Node), name ∈ (n_name <$> l) \/ is_Some (m !! name) ->
    is_Some (fold_left (fun m x => <[x.(n_name) := x]> m) l m !! name)) as H.
  { induction l as [|x l IH]; intros m Hm; cbn [fold_left].
    - destruct Hm as [Hm|Hm]; [by apply not_elem_of_nil in Hm|done].
    - apply IH. rewrite fmap_cons in Hm. destruct (decide (x.(n_name) = name)) as [<-|Hne].
      + right. rewrite lookup_insert_eq. by eexists.
      + rewrite lookup_insert_ne by done. destruct Hm as [Hm|Hm]; [left; set_solver|by right]. }
  intros Hn. apply H. by left.
Qed.

Lemma nodes_of_elem names statuses n :
  n ∈ nodes_of names statuses <-> exists s, s ∈ statuses /\ names !! s.(s_node) = Some n.
Proof. unfold nodes_of. by rewrite list_elem_of_omap. Qed.

(** What live evidence allows for an unpinned submission. *)
Record allows (nodes : list Node) (spec : RunSpec) (reserve : Z) (reserved : gset string)
    (s : NodeStatus) (n : Node) : Prop := {
  allows_node : by_name nodes !! s.(s_node) = Some n;
  allows_reachable : s.(s_error) = None;
  allows_disk : disk_rejected s spec = None;
  allows_in_service : n.(n_drained) = false;
  allows_exclusion : s.(s_node) ∉ excluded_nodes spec reserved;
  allows_cards : spec.(sp_gpus) = 0 \/
    spec.(sp_gpus) <= eligible_count s spec /\ reserve <= free_count s - spec.(sp_gpus);
}.

Lemma usable_status_spec nodes excluded spec s :
  usable_status (by_name nodes) excluded spec s = true <->
  s.(s_error) = None /\ disk_rejected s spec = None /\
  (exists n, by_name nodes !! s.(s_node) = Some n /\ n.(n_drained) = false) /\ s.(s_node) ∉ excluded.
Proof.
  unfold usable_status. autorewrite with to_prop.
  destruct (disk_rejected s spec); [split; [intros [[[? Hx] ?] ?]; discriminate Hx|by intros (_ & ? & _)]|].
  destruct (by_name nodes !! s.(s_node)) as [n|] eqn:En.
  - rewrite negb_true_iff. split; [|naive_solver]. intros [[[? ?] ?] ?]. split_and!; try done. by exists n.
  - split; [intros [[_ Hx] _]; discriminate Hx|]. intros (_ & _ & (n & Hx & _) & _). discriminate Hx.
Qed.

(** The order of preference: for CPU work the cheaper node to reach, then the
    lower load per core, then fewer idle cards; for GPU work more fitting free
    cards, then more free cards. *)
Definition at_most_as_costly (a b : Q * Q * nat) : Prop :=
  let '(cost_a, load_a, idle_a) := a in
  let '(cost_b, load_b, idle_b) := b in
  (cost_a < cost_b)%Q \/
  (cost_a == cost_b)%Q /\ ((load_a < load_b)%Q \/ (load_a == load_b)%Q /\ (idle_a <= idle_b)%nat).
Definition preferred (nodes : list Node) (spec : RunSpec) (a b : NodeStatus) : Prop :=
  if spec.(sp_gpus) =? 0
  then at_most_as_costly (cpu_rank (by_name nodes) a) (cpu_rank (by_name nodes) b)
  else eligible_count b spec < eligible_count a spec \/
       eligible_count b spec = eligible_count a spec /\ free_count b <= free_count a.

(** The three ways two costs compare, with what each excludes. *)
Lemma q_three_ways (a b : Q) :
  (a < b /\ ~ b < a /\ ~ a == b /\ ~ b == a)%Q \/ (b < a /\ ~ a < b /\ ~ a == b /\ ~ b == a)%Q \/
  (a == b /\ b == a /\ ~ a < b /\ ~ b < a)%Q.
Proof. destruct (Q_dec a b) as [[?|?]|?]; [left|right; left|right; right]; split_and!; try intros ?; lra. Qed.

Lemma rank_ltb_spec a b : rank_ltb b a = true <-> ~ at_most_as_costly a b.
Proof.
  destruct a as [[a1 a2] a3], b as [[b1 b2] b3]. unfold rank_ltb, at_most_as_costly.
  autorewrite with to_prop. rewrite <- Nat.nlt_ge.
  pose proof (q_three_ways a1 b1). pose proof (q_three_ways a2 b2).
  destruct (decide (b3 < a3)%nat); tauto.
Qed.
Lemma costly_dec a b : at_most_as_costly a b \/ ~ at_most_as_costly a b.
Proof.
  destruct a as [[a1 a2] a3], b as [[b1 b2] b3]. unfold at_most_as_costly.
  pose proof (q_three_ways a1 b1). pose proof (q_three_ways a2 b2).
  destruct (decide (a3 <= b3)%nat); tauto.
Qed.
Lemma rank_ltb_false a b : rank_ltb b a = false <-> at_most_as_costly a b.
Proof.
  pose proof (costly_dec a b). rewrite <- not_true_iff_false, rank_ltb_spec. tauto.
Qed.

Lemma costly_trans a b c : at_most_as_costly a b -> at_most_as_costly b c -> at_most_as_costly a c.
Proof.
  destruct a as [[a1 a2] a3], b as [[b1 b2] b3], c as [[c1 c2] c3]. unfold at_most_as_costly.
  intros [?|[? H]] [?|[? H']]; try (left; lra). right. split; [lra|].
  destruct H as [?|[? ?]], H' as [?|[? ?]]; try (left; lra). right. split; [lra|lia].
Qed.
Lemma costly_asym a b : ~ at_most_as_costly b a -> at_most_as_costly a b.
Proof.
  destruct a as [[a1 a2] a3], b as [[b1 b2] b3]. unfold at_most_as_costly.
  pose proof (q_three_ways a1 b1). pose proof (q_three_ways a2 b2).
  destruct (Nat.le_ge_cases a3 b3); tauto.
Qed.

Lemma gpu_rank_false spec a b :
  gpu_rank_ltb spec b a = false <->
  eligible_count b spec < eligible_count a spec \/
  eligible_count b spec = eligible_count a spec /\ free_count b <= free_count a.
Proof.
  unfold gpu_rank_ltb. autorewrite with to_prop. lia.
Qed.

(** Both branches offer one selection of the live statuses, in their order. *)
Lemma unpinned_candidates statuses nodes spec reserve reserved :
  pinned spec = None ->
  exists ranked,
    pick_candidates statuses nodes spec reserve reserved = Ok (nodes_of (by_name nodes) ranked) /\
    StronglySorted (preferred nodes spec) ranked /\
    forall s, s ∈ ranked <-> s ∈ statuses /\ exists n, allows nodes spec reserve reserved s n.
Proof.
  intros Hpin. unfold pick_candidates, preferred. cbv zeta. rewrite Hpin.
  destruct (Z.eqb_spec spec.(sp_gpus) 0) as [H0|H0]; eexists; (split; [reflexivity|]); split.
  - apply sort_by_orders.
    + intros a b. apply rank_ltb_false.
    + intros a b c. apply costly_trans.
    + intros a b H. by apply costly_asym, rank_ltb_spec.
  - intros s. rewrite sort_by_perm, elem_of_filterb, usable_status_spec. split.
    + intros (? & ? & ? & (n & ? & ?) & ?). split; [done|]. exists n. split; try done. by left.
    + intros (? & n & [A1 A2 A3 A4 A5 A6]). split_and!; try done. by exists n.
  - apply filter_sorted, sort_by_orders.
    + intros a b. apply gpu_rank_false.
    + lia.
    + intros a b. unfold gpu_rank_ltb. autorewrite with to_prop. lia.
  - intros s. rewrite elem_of_filterb, sort_by_perm, elem_of_filterb, usable_status_spec,
      andb_true_iff, !Z.leb_le. split.
    + intros ((? & ? & ? & (n & ? & ?) & ?) & ?). split; [done|]. exists n. split; try done. by right.
    + intros (? & n & [A1 A2 A3 A4 A5 A6]). destruct A6 as [?|?]; [done|].
      split_and!; try done; [by exists n|tauto..].
Qed.

Lemma unpinned_member statuses nodes spec reserve reserved :
  pinned spec = None ->
  exists candidates, pick_candidates statuses nodes spec reserve reserved = Ok candidates /\
    forall n, n ∈ candidates <-> exists s, s ∈ statuses /\ allows nodes spec reserve reserved s n.
Proof.
  intros Hpin. destruct (unpinned_candidates statuses nodes spec reserve reserved Hpin)
    as (ranked & H & _ & Hin).
  exists (nodes_of (by_name nodes) ranked). split; [done|]. intros n. rewrite nodes_of_elem. split.
  - intros (s & Hs & Hn). apply Hin in Hs as (Hs & n' & Ha). exists s. split; [done|].
    pose proof (allows_node _ _ _ _ _ _ Ha) as Hn'. rewrite Hn in Hn'. by injection Hn' as <-.
  - intros (s & Hs & Ha). exists s. split; [|by apply Ha]. apply Hin. split; [done|by exists n].
Qed.

(** The candidates of an unpinned submission are exactly the nodes some live
    status allows: configured, in service, reachable, not excluded or
    reserved, with the disk, and, for GPU work, with enough fitting free cards
    and the reserve left over; they come best first. *)
Lemma pick_candidates_spec statuses nodes spec reserve reserved :
  pinned spec = None ->
  exists ranked candidates,
    pick_candidates statuses nodes spec reserve reserved = Ok candidates /\
    Forall2 (fun s n => allows nodes spec reserve reserved s n) ranked candidates /\
    (forall s, s ∈ ranked <-> s ∈ statuses /\ exists n, allows nodes spec reserve reserved s n) /\
    StronglySorted (preferred nodes spec) ranked.
Proof.
  intros Hpin. destruct (unpinned_candidates statuses nodes spec reserve reserved Hpin)
    as (ranked & H & Hsort & Hin).
  exists ranked, (nodes_of (by_name nodes) ranked). split_and!; try done.
  assert (forall s, s ∈ ranked -> exists n, allows nodes spec reserve reserved s n) as Hall
    by (intros s Hs; by apply Hin).
  clear -Hall. induction ranked as [|s l IH]; [constructor|].
  destruct (Hall s) as [n Hn]; [left|]. unfold nodes_of. cbn [omap list_omap].
  rewrite (allows_node _ _ _ _ _ _ Hn). constructor; [done|]. apply IH. intros; apply Hall; by right.
Qed.

(** Drain and exclusion hold for every submission, pinned or not: no new work
    is ever offered a drained node, a pin is offered nothing else, and an
    unpinned submission nothing it excludes or an earlier job reserves. *)
Lemma pick_candidates_safe statuses nodes spec reserve reserved candidates n :
  pick_candidates statuses nodes spec reserve reserved = Ok candidates -> n ∈ candidates ->
  n ∈ nodes /\ n.(n_drained) = false /\
  match pinned spec with
  | Some pin => candidates = [n] /\ n.(n_name) = pin
  | None => (n.(n_name) ∉ reserved) /\ n.(n_name) ∉ default [] spec.(sp_exclude_nodes)
  end.
Proof.
  destruct (pinned spec) as [pin|] eqn:Hpin.
  - unfold pick_candidates. cbv zeta. rewrite Hpin.
    destruct (by_name nodes !! pin) as [m|] eqn:Em; [|no_eq].
    destruct (m.(n_drained)) eqn:Ed; [by intros [= <-] ?%not_elem_of_nil|].
    assert (forall l, Ok l = Ok candidates -> l = [m] -> n ∈ candidates -> n ∈ nodes /\
      n.(n_drained) = false /\ candidates = [n] /\ n.(n_name) = pin) as Hdone.
    { intros l [= <-] -> ->%list_elem_of_singleton. destruct (by_name_spec _ _ _ Em). done. }
    destruct (status_of statuses pin) as [s|]; [destruct (disk_rejected s spec)|];
      first [by intros [= <-] ?%not_elem_of_nil|intros H; by apply (Hdone [m])].
  - destruct (unpinned_member statuses nodes spec reserve reserved Hpin) as (c & -> & Hc).
    intros [= <-] (s & _ & [A1 A2 A3 A4 A5 A6])%Hc. apply by_name_spec in A1 as [Hn Hname].
    unfold excluded_nodes in A5. rewrite Hname. split_and!; try done; [set_solver|].
    rewrite <- (elem_of_list_to_set (C := gset string)). set_solver.
Qed.

(** ** Rows of live statuses *)

(** A status the probe can return. *)
Record sound_status (s : NodeStatus) : Prop := {
  sound_node : s.(s_node) <> "";
  sound_error : s.(s_error) <> Some "";
  sound_inventory_error : s.(s_gpu_inventory_error) <> Some "";
  sound_cards : Forall (fun g => 0 < g.(mem_total) < FLOAT_OVERFLOW) s.(s_gpus);
}.

Definition card_memory (g : Gpu) : option Z := Some g.(mem_total).

Lemma card_of_gpu acc g : 0 < g.(mem_total) < FLOAT_OVERFLOW ->
  card acc (gpu_json g) = Ok
    {| memory_rows := acc.(memory_rows) ++ [card_memory g];
       free_memory_rows := if g.(Probe.free) then acc.(free_memory_rows) ++ [card_memory g]
                           else acc.(free_memory_rows);
       gpu_unknown := acc.(gpu_unknown); memory_unknown := acc.(memory_unknown) |}.
Proof.
  intros Hm. unfold card, gpu_json, _gpu_total_mib.
  assert (assoc "mem_total_mib" (gpu_fields g) = None) as -> by reflexivity.
  assert (dict_get "mem_total" (gpu_fields g) = JInt g.(mem_total)) as -> by reflexivity.
  assert (dict_get "free" (gpu_fields g) = JBool g.(Probe.free)) as -> by reflexivity.
  cbn [default from_option is_int is_float is_bool orb negb]. unfold py_float.
  rewrite Z.abs_eq by lia. destruct (Z.leb_spec FLOAT_OVERFLOW g.(mem_total)); [lia|].
  cbn [mbind result_bind isfinite negb orb positive_num].
  rewrite (proj2 (Z.ltb_lt 0 _)) by lia. cbn [negb]. unfold id.
  rewrite (bool_decide_false (Some g.(mem_total) = None)) by done. rewrite orb_false_r.
  by destruct g.(Probe.free).
Qed.

Lemma cards_of_gpus acc gpus : Forall (fun g => 0 < g.(mem_total) < FLOAT_OVERFLOW) gpus ->
  cards acc (gpu_json <$> gpus) = Ok
    {| memory_rows := acc.(memory_rows) ++ (card_memory <$> gpus);
       free_memory_rows := acc.(free_memory_rows) ++ (card_memory <$> List.filter Probe.free gpus);
       gpu_unknown := acc.(gpu_unknown); memory_unknown := acc.(memory_unknown) |}.
Proof.
  intros H. revert acc. induction H as [|g l Hg _ IH]; intros acc.
  - cbn. rewrite !app_nil_r. by destruct acc.
  - rewrite fmap_cons. cbn [cards]. rewrite card_of_gpu by done. cbn [mbind result_bind].
    rewrite IH. cbn [memory_rows free_memory_rows gpu_unknown memory_unknown]. f_equal. f_equal.
    + rewrite fmap_cons, <- app_assoc. done.
    + cbn [List.filter]. destruct g.(Probe.free); [rewrite fmap_cons, <- app_assoc|]; done.
Qed.

(** What a capacity says of one node. *)
Definition view (c : ResourceCapacity) (node : string) :=
  (c.(Scheduler.free) !! node, c.(total) !! node, c.(disk_free) !! node,
   c.(free_gpu_memory_mib) !! node, bool_decide (node ∈ c.(gpu_inventory_unknown))).

Definition status_view (s : NodeStatus) (c : ResourceCapacity) :=
  match s.(s_error) with
  | Some _ => view c s.(s_node)
  | None =>
      (Some (length (free_gpus s)), Some (length s.(s_gpus)),
       match s.(s_system) with
       | Some system => Some system.(disk_free_gib)
       | None => c.(disk_free) !! s.(s_node)
       end,
       Some (card_memory <$> free_gpus s),
       bool_decide (is_Some s.(s_gpu_inventory_error)) || bool_decide (s.(s_node) ∈ c.(gpu_inventory_unknown)))
  end.

Lemma status_row_view center s c c' : sound_status s ->
  resource_row c (status_as_dict center s) = Ok c' ->
  view c' s.(s_node) = status_view s c /\
  forall other, other <> s.(s_node) -> view c' other = view c other.
Proof.
  intros [S1 S2 S3 S4]. unfold resource_row. set (kv := status_as_dict center s).
  assert (dict_get "node" kv = JStr s.(s_node)) as -> by reflexivity.
  assert (dict_get "error" kv = opt_json JStr s.(s_error)) as -> by reflexivity.
  assert (dict_get "gpus" kv = JList (gpu_json <$> s.(s_gpus))) as -> by reflexivity.
  assert (dict_get "gpu_inventory_error" kv = opt_json JStr s.(s_gpu_inventory_error)) as ->.
  { unfold kv, status_as_dict. by destruct (s_gpu_inventory_error s). }
  destruct s.(s_node) as [|a nm] eqn:En; [done|]. rewrite <- En in *.
  unfold status_view. destruct (s_error s) as [e|] eqn:Ee; cbn [opt_json].
  { assert (json_truthy (JStr e) = true) as ->.
    { cbn. rewrite bool_decide_false; [done|congruence]. }
    intros [= <-]. split; done. }
  cbn [json_truthy]. rewrite cards_of_gpus by done.
  cbn [mbind result_bind memory_rows free_memory_rows gpu_unknown memory_unknown app is_list negb orb].
  assert (reported_disk kv = Ok (disk_free_gib <$> s.(s_system))) as ->.
  { unfold reported_disk. assert (dict_get "system" kv = opt_json system_json s.(s_system)) as -> by reflexivity.
    by destruct (s_system s). }
  cbn [mbind result_bind]. intros [= <-].
  assert (json_truthy (opt_json JStr s.(s_gpu_inventory_error)) = bool_decide (is_Some s.(s_gpu_inventory_error)))
    as ->.
  { destruct (s_gpu_inventory_error s) as [x|]; [|done]. cbn. rewrite bool_decide_false; [done|congruence]. }
  unfold view, mark. cbn [Scheduler.free total disk_free free_gpu_memory_mib gpu_inventory_unknown].
  set (bad := bool_decide (is_Some (s_gpu_inventory_error s))).
  assert (forall other, bool_decide (other ∈ (if bad then {[s_node s]} ∪ gpu_inventory_unknown c
      else gpu_inventory_unknown c)) =
    bad && bool_decide (other = s_node s) || bool_decide (other ∈ gpu_inventory_unknown c)) as Hmark.
  { intros other. destruct bad; [|done]. cbn [andb]. rewrite <- bool_decide_or. apply bool_decide_ext. set_solver. }
  split.
  - rewrite Hmark, (bool_decide_true (s_node s = s_node s)), andb_true_r by done.
    destruct (s_system s); cbn [fmap option_fmap option_map]; by rewrite !lookup_insert_eq, !length_fmap.
  - intros other Hne. rewrite Hmark, (bool_decide_false (other = s_node s)), andb_false_r by done.
    destruct (s_system s); cbn [fmap option_fmap option_map]; by rewrite !lookup_insert_ne by done.
Qed.

(** The capacity of a list of live statuses holds each reachable node's
    figures. *)
Lemma capacity_of_statuses center statuses c :
  Forall sound_status statuses -> NoDup (s_node <$> statuses) ->
  _resource_capacity (Some (status_as_dict center <$> statuses)) = Ok (Some c) ->
  forall s, s ∈ statuses -> view c s.(s_node) = status_view s no_capacity.
Proof.
  intros Hs Hnd. unfold _resource_capacity. rewrite bind_ok. intros (d & H & [= <-]).
  assert (forall l a, Forall sound_status l -> NoDup (s_node <$> l) ->
    resource_rows_go a (status_as_dict center <$> l) = Ok d ->
    (forall s, s ∈ l -> view a s.(s_node) = view no_capacity s.(s_node)) ->
    (forall s, s ∈ l -> view d s.(s_node) = status_view s no_capacity) /\
    forall other, other ∉ s_node <$> l -> view d other = view a other) as Hgo.
  { clear. induction l as [|x l IH]; intros a Hs Hnd H Ha.
    - injection H as <-. split; [by intros s ?%not_elem_of_nil|done].
    - rewrite fmap_cons in H. rewrite fmap_cons in Hnd. cbn [resource_rows_go] in H. apply bind_ok in H as (b & Hb & H).
      apply Forall_cons_iff in Hs as [Hx Hs]. apply NoDup_cons in Hnd as [Hni Hnd].
      destruct (status_row_view center x a b Hx Hb) as [Hv Ho].
      destruct (IH b Hs Hnd H) as [IH1 IH2].
      { intros s Hin. rewrite Ho; [apply Ha; by right|]. intros Heq. apply Hni. rewrite <- Heq.
        by apply list_elem_of_fmap_2. }
      split.
      + intros s [->|Hin]%elem_of_cons; [|by apply IH1]. rewrite IH2 by done. rewrite Hv.
        specialize (Ha x ltac:(left)). unfold status_view. destruct (s_error x); [done|].
        unfold view in Ha. injection Ha as _ _ H3 _ H5. by rewrite H3, H5.
      + intros other Hni'. rewrite fmap_cons in Hni'. rewrite IH2 by set_solver. apply Ho. set_solver. }
  apply (Hgo statuses no_capacity Hs Hnd H). done.
Qed.

(** ** Forecast and placement *)

(** The placement request of a queued row. *)
Definition spec_of (e : JobEntry) : RunSpec :=
  new_spec e.(name) e.(gpus_requested) []
    <| sp_node := e.(pin_node) |> <| sp_exclude_nodes := e.(exclude_nodes) |>
    <| sp_require_disk_gib := e.(require_disk_gib) |> <| sp_min_vram_mib := e.(min_vram_mib) |>.

Lemma status_with_view s c node : s.(s_node) = node -> view c node = status_view s no_capacity ->
  is_Some (c.(total) !! node) ->
  s.(s_error) = None /\ c.(Scheduler.free) !! node = Some (length (free_gpus s)) /\
  c.(free_gpu_memory_mib) !! node = Some (card_memory <$> free_gpus s) /\
  (forall system, s.(s_system) = Some system -> c.(disk_free) !! node = Some system.(disk_free_gib)) /\
  (node ∈ c.(gpu_inventory_unknown) <-> is_Some s.(s_gpu_inventory_error)).
Proof.
  intros <-. unfold status_view, view. destruct (s_error s).
  { intros [= _ Ht _ _ _]. rewrite Ht. intros [x Hx]. by rewrite lookup_empty in Hx. }
  intros [= H1 H2 H3 H4 H5] _. split_and!; try done.
  - intros system Hsys. by rewrite H3, Hsys.
  - rewrite <- (bool_decide_eq_true (s_node s ∈ gpu_inventory_unknown c)), H5, orb_true_iff, !bool_decide_eq_true.
    split; [|by left]. intros [?|Hin]; [done|]. by apply not_elem_of_empty in Hin.
Qed.

Lemma disk_ok_accepts cfg e c s node : s.(s_node) = node ->
  (forall system, s.(s_system) = Some system -> c.(disk_free) !! node = Some system.(disk_free_gib)) ->
  disk_ok c (required_disk_for cfg e) node = true -> disk_rejected s (spec_of e) = None.
Proof.
  intros Hn Hd Hok. unfold disk_rejected. change (sp_require_disk_gib (spec_of e)) with e.(require_disk_gib).
  destruct (require_disk_gib e) as [req|] eqn:Er; [|done].
  destruct (s_error s); [done|]. destruct (s_system s) as [system|]; [|done].
  unfold disk_ok in Hok. rewrite (Hd system eq_refl) in Hok.
  apply q_leb_le in Hok. rewrite (proj2 (q_leb_le _ _)); [done|].
  eapply Qle_trans; [|exact Hok]. rewrite <- Zle_Qle. unfold required_disk_for. rewrite Er. cbn. lia.
Qed.

Lemma capable_cards m gpus :
  capable m (card_memory <$> gpus) = length (List.filter (fun g => m <=? g.(mem_total)) gpus).
Proof.
  unfold capable. induction gpus as [|g l IH]; [done|]. rewrite fmap_cons. cbn [List.filter].
  unfold card_memory at 1. cbn [fits_memory]. destruct (m <=? mem_total g); cbn [length]; by rewrite IH.
Qed.

Lemma gpu_fit_eligible e c s node reserve : 0 <= e.(gpus_requested) ->
  c.(Scheduler.free) !! node = Some (length (free_gpus s)) ->
  c.(free_gpu_memory_mib) !! node = Some (card_memory <$> free_gpus s) ->
  (node ∈ c.(gpu_inventory_unknown) <-> is_Some s.(s_gpu_inventory_error)) ->
  gpu_fit c (wanted_gpus e) reserve e.(min_vram_mib) node = true ->
  e.(gpus_requested) = 0 \/
  e.(gpus_requested) <= eligible_count s (spec_of e) /\ reserve <= free_count s - e.(gpus_requested).
Proof.
  intros Hg Hf Hm Hu. unfold gpu_fit, wanted_gpus. rewrite Hf, Hm, Z.max_r by lia. cbv zeta.
  cbn [default from_option]. unfold id.
  destruct (Z.eqb_spec e.(gpus_requested) 0) as [->|Hne]; [by left|]. intros Hle. right.
  destruct (bool_decide (node ∈ gpu_inventory_unknown c)) eqn:Eu; [discriminate Hle|].
  apply bool_decide_eq_false in Eu. rewrite Hu in Eu.
  unfold eligible_count, eligible_free_gpus, free_count. change (sp_gpus (spec_of e)) with e.(gpus_requested). change (sp_min_vram_mib (spec_of e)) with e.(min_vram_mib).
  rewrite (bool_decide_false _ Eu), andb_false_r.
  destruct (Z.ltb_spec (Z.of_nat (length (free_gpus s)) - e.(gpus_requested)) reserve) as [|Hr]; [discriminate Hle|].
  split; [|exact Hr].
  destruct (min_vram_mib e) as [m|]; apply Z.leb_le in Hle; [by rewrite capable_cards in Hle|done].
Qed.

(** C21. The forecast's promise is one placement keeps: on the same live statuses,
    a node the capacity check finds usable for a queued row is among the
    candidates [pick_candidates] offers for it, under the same exclusions. *)
Lemma forecast_agrees_with_placement cfg center statuses c e reserved node :
  Forall sound_status statuses -> NoDup (s_node <$> statuses) ->
  _resource_capacity (Some (status_as_dict center <$> statuses)) = Ok (Some c) ->
  0 <= e.(gpus_requested) -> e.(pin_node) <> Some "" ->
  usable cfg e (excluded_nodes (spec_of e) reserved) c node ->
  node ∈ s_node <$> statuses ->
  exists candidates,
    pick_candidates statuses cfg.(c_nodes) (spec_of e) (_reserve_for cfg (spec_of e)) reserved
      = Ok candidates /\
    node ∈ n_name <$> candidates.
Proof.
  intros Hs Hnd Hcap Hg Hpin [U1 U2 U3 U4 U5 U6] Hnode.
  apply list_elem_of_fmap in Hnode as (s & Hsn & Hin).
  pose proof (capacity_of_statuses center statuses c Hs Hnd Hcap s Hin) as Hview.
  rewrite <- Hsn in Hview.
  destruct (status_with_view s c node (eq_sym Hsn) Hview U4) as (He & Hf & Hm & Hd & Hu).
  pose proof (disk_ok_accepts cfg e c s node (eq_sym Hsn) Hd U6) as Hdisk.
  destruct (by_name_total _ _ U1) as [n Hn]. pose proof (by_name_spec _ _ _ Hn) as [Hnin Hname].
  assert (n.(n_drained) = false) as Hdr.
  { destruct (n_drained n) eqn:E; [|done]. exfalso. apply U2. unfold drained_nodes.
    rewrite <- Hname. apply list_elem_of_fmap_2, elem_of_filterb. done. }
  assert (pinned (spec_of e) = e.(pin_node)) as Hp.
  { unfold pinned. cbn. destruct (pin_node e) as [[|a p]|]; [by destruct Hpin|done|done]. }
  destruct (pin_node e) as [pin|] eqn:Ep.
  - subst pin. exists [n]. unfold pick_candidates. cbv zeta. rewrite Hp, Hn, Hdr. split.
    + destruct (status_of statuses node) as [s'|] eqn:Es; [|done].
      apply List.find_some in Es as [Hin' Hs'%bool_decide_eq_true].
      assert (s' = s) as ->; [|by rewrite Hdisk].
      apply list_elem_of_In in Hin'. rewrite Hsn in Hs'.
      apply list_elem_of_lookup in Hin as [i Hi], Hin' as [j Hj].
      assert (i = j) as ->; [|congruence].
      apply (NoDup_lookup (s_node <$> statuses) i j (s_node s)); [done|..];
        rewrite list_lookup_fmap; [by rewrite Hi|by rewrite Hj; cbn; rewrite Hs'].
    + rewrite <- Hname. cbn. left.
  - destruct (unpinned_member statuses cfg.(c_nodes) (spec_of e) (_reserve_for cfg (spec_of e)) reserved Hp)
      as (cands & -> & Hc). exists cands. split; [done|]. rewrite <- Hname. apply list_elem_of_fmap_2, Hc.
    exists s. split; [done|]. split; try done; [by rewrite <- Hsn..|].
    change (sp_gpus (spec_of e)) with e.(gpus_requested). destruct (gpu_fit_eligible e c s node _ Hg Hf Hm Hu U5) as [?|[? Hr]]; [by left|right].
    split; [done|]. unfold _reserve_for. rewrite Hp. unfold reserve_for in Hr. rewrite Ep in Hr. lia.
Qed.

(** ** A concrete center *)
Definition sample_card (i : Z) (free_ : bool) : Gpu :=
  {| index := i; uuid := "GPU-" +:+ pretty i; mem_used := 0; mem_total := 81920; util := 0; procs := 0;
     leased := negb free_; lease_owner := None; Probe.free := free_; users := []; temperature := None;
     resident_procs := 0; resident_mib := 0; residents := [] |}.
Definition sample_status (name : string) (gpus : list Gpu) : NodeStatus :=
  mkStatus name gpus (Some (mkSystem 64 1 1000 2000 500 1000 None)) None None false false.
Definition sample_statuses : list NodeStatus :=
  [sample_status "n1" [sample_card 0 false]; sample_status "n2" [sample_card 0 true; sample_card 1 true]].
(** The younger row of [two_rows], while [n1] is held for the pinned one. *)
Definition held : gset string := {["n1"]}.

Lemma pick_candidates_spec_witness : exists candidates,
  pick_candidates sample_statuses small_center.(c_nodes) (spec_of free_row) 0 held = Ok candidates /\
  length candidates = 1%nat.
Proof.
  destruct (pick_candidates_spec sample_statuses small_center.(c_nodes) (spec_of free_row) 0 held eq_refl)
    as (ranked & candidates & H & Hf & _). exists candidates. split; [exact H|].
  revert H. vm_compute. by intros [= <-].
Defined.

Lemma pick_candidates_safe_witness : (mkNode "n2" false false 1 None).(n_name) ∉ held.
Proof.
  assert (pick_candidates sample_statuses small_center.(c_nodes) (spec_of free_row) 0 held
    = Ok [mkNode "n2" false false 1 None]) as H by (vm_compute; reflexivity).
  exact (proj1 (proj2 (proj2 (pick_candidates_safe sample_statuses small_center.(c_nodes) (spec_of free_row)
    0 held _ _ H ltac:(left))))).
Defined.

Lemma sample_statuses_sound : Forall sound_status sample_statuses.
Proof.
  repeat constructor; cbn; try no_eq; repeat constructor; unfold FLOAT_OVERFLOW; cbn [mem_total sample_card]; lia.
Qed.

Lemma forecast_agrees_with_placement_witness : exists c candidates,
  _resource_capacity (Some (status_as_dict "head" <$> sample_statuses)) = Ok (Some c) /\
  pick_candidates sample_statuses small_center.(c_nodes) (spec_of free_row) 0 held = Ok candidates /\
  "n2" ∈ n_name <$> candidates.
Proof.
  assert (match _resource_capacity (Some (status_as_dict "head" <$> sample_statuses)) with
          | Ok (Some c) =>
              bool_decide (is_Some (c.(total) !! "n2"))
              && gpu_fit c (wanted_gpus free_row) (reserve_for small_center free_row) None "n2"
              && disk_ok c (required_disk_for small_center free_row) "n2"
          | _ => false end = true) as H by (vm_compute; reflexivity).
  destruct (_resource_capacity (Some (status_as_dict "head" <$> sample_statuses))) as [[c|]|] eqn:Ec;
    [|discriminate H..]. destruct_andb.
  destruct (forecast_agrees_with_placement small_center "head" sample_statuses c free_row held "n2")
    as (candidates & Hp & Hin).
  - exact sample_statuses_sound.
  - apply (bool_decide_unpack _). vm_compute. exact I.
  - exact Ec.
  - vm_compute. intros [=].
  - intros Hx. discriminate Hx.
  - split.
    + right. left.
    + apply (bool_decide_unpack _). vm_compute. exact I.
    + vm_compute. intros Hx. discriminate Hx.
    + apply bool_decide_eq_true in H. exact H.
    + assumption.
    + assumption.
  - right. left.
  - exists c, candidates. split; [reflexivity|]. split; [exact Hp|exact Hin].
Defined.
