(* ===== verification/RouteHealth.v ===== *)
(** * Circuit state of direct artifact routes ([route_health.py])

    One small JSON document per directed edge, named by a digest of the edge,
    under a per-edge lock.  [decision] admits a probe, or reserves the single
    half-open trial of a cooldown interval; [record_success],
    [record_failure] and [release_reservation] settle it.

    The store maps a key to what its file holds.  The clock and the jitter are
    arguments of each call, as is the reservation token [uuid4().hex] returns;
    a call runs under the edge's lock, so calls on one edge do not interleave. *)

From S2P Require Import Prelude Text PyValue Config.

Definition SCHEMA_VERSION : string := "dt_route_health_v2".
Definition LEGACY_SCHEMA_VERSION : string := "dt_route_health_v1".
Definition MAX_STATE_BYTES : nat := 4096.
Definition MAX_FAILURES : Z := 64.
Definition _KIND_RE : list re_item :=
  [Rep is_lower 1 1; Rep (fun c => is_lower c || is_digit c || char_in "_.-" c) 0 63].
Definition _RESERVATION_RE : list re_item := [Rep is_hex 32 32].

(** The fields of [config.Site] the circuit reads. *)
Record Site := mkSite {
  site_name : string;
  route_circuit_failures : Z;
  route_circuit_cooldown_s : Q;
  route_circuit_max_cooldown_s : Q;
}.
(** The bounds the configuration loader enforces on them. *)
Definition site_circuit_ok (site : Site) : bool :=
  (1 <=? site.(route_circuit_failures)) && (site.(route_circuit_failures) <=? 10)
  && Qle_bool 1 site.(route_circuit_cooldown_s) && Qle_bool site.(route_circuit_cooldown_s) 3600
  && Qle_bool site.(route_circuit_cooldown_s) site.(route_circuit_max_cooldown_s)
  && Qle_bool site.(route_circuit_max_cooldown_s) 86400.

Record RouteCircuitState := mkCircuit {
  failures : Z;
  open_until : Q;
  last_failure_at : Q;
  last_kind : string;
  updated_at : Q;
  reservation_token : option string;
}.

Record RouteCircuitDecision := mkDecision {
  is_open : bool;
  retry_after_s : Q;
  d_failures : Z;
  d_last_kind : option string;
  d_reservation_token : option string;
}.

(** ** The edge's key *)

(** [json.dumps] of a text with [ensure_ascii]. *)
Definition hex_digit (n : N) : Ascii.ascii :=
  Ascii.ascii_of_N (if (n <? 10)%N then 48 + n else 87 + n).
Definition BACKSLASH : Ascii.ascii := Ascii.ascii_of_N 92.
Definition DOUBLE_QUOTE : Ascii.ascii := Ascii.ascii_of_N 34.
Definition json_char (c : Ascii.ascii) : list Ascii.ascii :=
  let short (d : N) := [BACKSLASH; Ascii.ascii_of_N d] in
  match code c with
  | 34 => short 34 | 92 => short 92 | 8 => short 98 | 9 => short 116 | 10 => short 110
  | 12 => short 102 | 13 => short 114
  | n => if (n <? 32)%N || (126 <? n)%N
         then [BACKSLASH; Ascii.ascii_of_N 117; hex_digit 0; hex_digit 0;
               hex_digit (n / 16); hex_digit (n mod 16)]
         else [c]
  end%N.
Definition json_text (s : string) : list Ascii.ascii :=
  DOUBLE_QUOTE :: flat_map json_char (chars s) ++ [DOUBLE_QUOTE].
Definition route_material (site source destination : string) : list Ascii.ascii :=
  chars "[" ++ json_text site ++ chars "," ++ json_text source ++ chars ","
  ++ json_text destination ++ chars "]".

(** ** Validation *)
Definition legacy_fields : list string :=
  ["schema_version"; "key_digest"; "failures"; "open_until"; "last_failure_at"; "last_kind";
   "updated_at"].
Definition current_fields : list string := legacy_fields ++ ["reservation_token"].

Definition invalid_schema : exn := RouteHealthError "route circuit state has an invalid schema".

(** [value in {...}] on texts: a list or a dict is not hashable. *)
Definition hashed_in (v : json) (allowed : list string) : result bool :=
  match v with
  | JStr s => Ok (bool_decide (s ∈ allowed))
  | JList _ => Err (TypeError "unhashable type: 'list'")
  | JDict _ => Err (TypeError "unhashable type: 'dict'")
  | _ => Ok false
  end.

Definition state_time (raw : list (string * json)) (name : string) : result Q :=
  let invalid := RouteHealthError ("route circuit " +:+ name +:+ " is invalid") in
  let value := dict_get name raw in
  raise_if (negb (is_int value || is_float value) || is_bool value) invalid ;;
  numeric ← py_float value;
  match numeric with
  | Fin q => raise_if (q_ltb q 0) invalid ;; Ok q
  | _ => Err invalid
  end.

Definition _validate_state (raw : json) (expected_key : string) : result RouteCircuitState :=
  match raw with
  | JDict raw =>
      raise_if (negb (same_keys raw legacy_fields || same_keys raw current_fields)) invalid_schema ;;
      let schema := dict_get "schema_version" raw in
      known ← hashed_in schema [SCHEMA_VERSION; LEGACY_SCHEMA_VERSION];
      raise_if (negb known) (RouteHealthError "route circuit state has an unsupported version") ;;
      let versioned version := match schema with JStr s => bool_decide (s = version) | _ => false end in
      raise_if (versioned SCHEMA_VERSION && negb (same_keys raw current_fields)) invalid_schema ;;
      raise_if (versioned LEGACY_SCHEMA_VERSION && negb (same_keys raw legacy_fields)) invalid_schema ;;
      raise_if (match dict_get "key_digest" raw with
                | JStr key => negb (bool_decide (key = expected_key)) | _ => true end)
        (RouteHealthError "route circuit state key does not match its path") ;;
      failures_ ← match as_int (dict_get "failures" raw) with
                  | Some n => if (0 <=? n) && (n <=? MAX_FAILURES) then Ok n
                              else Err (RouteHealthError "route circuit failure count is invalid")
                  | None => Err (RouteHealthError "route circuit failure count is invalid")
                  end;
      last_kind_ ← match dict_get "last_kind" raw with
                   | JStr k => if fullmatch _KIND_RE k then Ok k
                               else Err (RouteHealthError "route circuit failure kind is invalid")
                   | _ => Err (RouteHealthError "route circuit failure kind is invalid")
                   end;
      token ← match dict_get "reservation_token" raw with
              | JNull => Ok None
              | JStr t => if fullmatch _RESERVATION_RE t then Ok (Some t)
                          else Err (RouteHealthError "route circuit reservation token is invalid")
              | _ => Err (RouteHealthError "route circuit reservation token is invalid")
              end;
      open_until_ ← state_time raw "open_until";
      last_failure_at_ ← state_time raw "last_failure_at";
      updated_at_ ← state_time raw "updated_at";
      Ok {| failures := failures_; open_until := open_until_; last_failure_at := last_failure_at_;
            last_kind := last_kind_; updated_at := updated_at_; reservation_token := token |}
  | _ => Err invalid_schema
  end.

(** ** The store *)

(** What one state file is: not safely readable, over the size limit, bytes
    that are not JSON, or a lexed document. *)
Inductive state_file :=
  | UnsafeState
  | OversizedState
  | MalformedState
  | LexedState (doc : json).

Abbreviation store := (gmap string state_file).
Definition RM (A : Type) : Type := store -> result A * store.
#[export] Instance RM_ret : MRet RM := fun A a s => (Ok a, s).
#[export] Instance RM_bind : MBind RM := fun A B f m s =>
  match m s with
  | (Ok a, s') => f a s'
  | (Err e, s') => (Err e, s')
  end.
Definition rlift {A} (x : result A) : RM A := fun s => (x, s).

Definition _read (key : string) (s : store) : result (option RouteCircuitState) :=
  match s !! key with
  | None => Ok None
  | Some OversizedState => Err (RouteHealthError "route circuit state is not a bounded file")
  | Some UnsafeState => Err (RouteHealthError "route circuit state is unsafe")
  | Some MalformedState => Err (RouteHealthError "route circuit state is malformed")
  | Some (LexedState doc) =>
      match decode_strict doc with
      | Err _ => Err (RouteHealthError "route circuit state is malformed")
      | Ok raw => state ← _validate_state raw key; Ok (Some state)
      end
  end.

(** [asdict(state)] with sorted keys. *)
Definition encode_state (key : string) (st : RouteCircuitState) : json :=
  JDict [("failures", JInt st.(failures)); ("key_digest", JStr key);
         ("last_failure_at", JFloat (Fin st.(last_failure_at))); ("last_kind", JStr st.(last_kind));
         ("open_until", JFloat (Fin st.(open_until)));
         ("reservation_token", match st.(reservation_token) with Some t => JStr t | None => JNull end);
         ("schema_version", JStr SCHEMA_VERSION); ("updated_at", JFloat (Fin st.(updated_at)))].

Section operations.
(** [len(json.dumps(state, ...)) + 1], and [hashlib.sha256(...).hexdigest()]. *)
Context (encoded_size : json -> nat) (sha256_hexdigest : list Ascii.ascii -> string).

Definition _route_key (site : Site) (source destination : string) : string :=
  sha256_hexdigest (route_material site.(site_name) source destination).

Definition _write (key : string) (st : RouteCircuitState) : RM unit := fun s =>
  if (MAX_STATE_BYTES <? encoded_size (encode_state key st))%nat
  then (Err (RouteHealthError "route circuit state exceeds its size limit"), s)
  else (Ok tt, <[key := LexedState (encode_state key st)]> s).

Definition _wall_now (clock : pyfloat) : result Q :=
  match clock with
  | Fin q => raise_if (q_ltb q 0) (RouteHealthError "route circuit clock returned an invalid time") ;; Ok q
  | _ => Err (RouteHealthError "route circuit clock returned an invalid time")
  end.

Definition rebase (st : RouteCircuitState) (now : Q) : RouteCircuitState :=
  let rollback := (st.(updated_at) - now)%Q in
  {| failures := st.(failures);
     open_until := q_max 0 (st.(open_until) - rollback);
     last_failure_at := q_max 0 (st.(last_failure_at) - rollback);
     last_kind := st.(last_kind);
     updated_at := now;
     reservation_token := st.(reservation_token) |}.

Definition _current_state (key : string) (clock : pyfloat) : RM (option RouteCircuitState * Q) :=
  fun s =>
    match _read key s with
    | Err e => (Err e, s)
    | Ok state =>
        match _wall_now clock with
        | Err e => (Err e, s)
        | Ok now =>
            match state with
            | None => (Ok (None, now), s)
            | Some st =>
                if Qle_bool st.(updated_at) now then (Ok (Some st, now), s)
                else (_write key (rebase st now) ;; mret (Some (rebase st now), now)) s
            end
        end
    end.

Definition _cooldown (jitter : pyfloat) (value maximum : Q) : Q :=
  let sample := match jitter with Fin q => q | _ => (1 # 2)%Q end in
  let sample := q_min 1 (q_max 0 sample) in
  q_min maximum (q_max 0 (value * ((9 # 10) + (2 # 10) * sample))).

Definition _decision (state : option RouteCircuitState) (now maximum_cooldown : Q)
  : RouteCircuitDecision :=
  match state with
  | None => mkDecision false 0 0 None None
  | Some st =>
      let retry_after := q_min maximum_cooldown (q_max 0 (st.(open_until) - now)) in
      mkDecision (q_ltb 0 retry_after) retry_after st.(failures) (Some st.(last_kind)) None
  end.

(** [site.route_circuit_cooldown_s * 2**exponent], capped. *)
Definition backoff (site : Site) (exponent : Z) : Q :=
  q_min (site.(route_circuit_cooldown_s) * inject_Z (2 ^ exponent)) site.(route_circuit_max_cooldown_s).

Definition decision (site : Site) (source destination : string) (clock jitter : pyfloat)
    (fresh_token : string) : RM RouteCircuitDecision :=
  let key := _route_key site source destination in
  current ← _current_state key clock;
  let '(state, now) := current : option RouteCircuitState * Q in
  let d := _decision state now site.(route_circuit_max_cooldown_s) in
  match state with
  | None => mret d
  | Some st =>
      if d.(is_open) || (st.(failures) <? site.(route_circuit_failures)) then mret d
      else
        let exponent := Z.min (Z.max 0 (st.(failures) - site.(route_circuit_failures))) MAX_FAILURES in
        let trial_window := _cooldown jitter (backoff site exponent) site.(route_circuit_max_cooldown_s) in
        _write key {| failures := st.(failures); open_until := now + trial_window;
                      last_failure_at := st.(last_failure_at); last_kind := st.(last_kind);
                      updated_at := now; reservation_token := Some fresh_token |} ;;
        mret (mkDecision false 0 st.(failures) (Some st.(last_kind)) (Some fresh_token))
  end.

(** [hmac.compare_digest] refuses texts outside ASCII. *)
Definition is_ascii (s : string) : bool := forallb (fun c => (code c <? 128)%N) (chars s).
Definition hmac_compare (expected : string) (observed : option string) : result bool :=
  match observed with
  | None => Ok false
  | Some t =>
      if is_ascii expected && is_ascii t then Ok (bool_decide (expected = t))
      else Err (TypeError "comparing strings with non-ASCII characters is not supported")
  end.

(** Whether the stored reservation is the caller's. *)
Definition holds (stored : option string) (token : option string) : result bool :=
  match stored with None => Ok false | Some t => hmac_compare t token end.

Definition record_success (site : Site) (source destination : string)
    (token : option string) (clock : pyfloat) : RM unit :=
  let key := _route_key site source destination in
  current ← _current_state key clock;
  let '(prior, now) := current : option RouteCircuitState * Q in
  match prior with
  | None => mret tt
  | Some prior =>
      allowed ← rlift match token with
                      | Some _ => holds prior.(reservation_token) token
                      | None => Ok (bool_decide (prior.(reservation_token) = None))
                      end;
      if negb (allowed : bool) then mret tt
      else if (prior.(failures) =? 0) && Qeq_bool prior.(open_until) 0
              && bool_decide (prior.(last_kind) = "success") then mret tt
      else _write key {| failures := 0; open_until := 0; last_failure_at := 0; last_kind := "success";
                         updated_at := now; reservation_token := None |}
  end.

Definition release_reservation (site : Site) (source destination : string)
    (token : option string) (clock : pyfloat) : RM unit :=
  let key := _route_key site source destination in
  current ← _current_state key clock;
  let '(prior, now) := current : option RouteCircuitState * Q in
  match prior with
  | None => mret tt
  | Some prior =>
      held ← rlift (holds prior.(reservation_token) token);
      if negb (held : bool) || (prior.(failures) <? site.(route_circuit_failures))
         || Qle_bool prior.(open_until) now || Qle_bool prior.(updated_at) prior.(last_failure_at)
      then mret tt
      else _write key {| failures := prior.(failures); open_until := 0;
                         last_failure_at := prior.(last_failure_at); last_kind := prior.(last_kind);
                         updated_at := now; reservation_token := None |}
  end.

(** The failure count the next failure reaches: the ladder restarts when the
    circuit has admitted traffic for longer than the maximum cooldown. *)
Definition next_failures (site : Site) (prior : option RouteCircuitState) (now : Q) : Z :=
  match prior with
  | Some p =>
      if 0 <? p.(failures) then
        let reference := q_max p.(last_failure_at) p.(open_until) in
        if Qle_bool (now - reference) site.(route_circuit_max_cooldown_s)
        then Z.min (p.(failures) + 1) MAX_FAILURES else 1
      else 1
  | None => 1
  end.

Definition record_failure (site : Site) (source destination kind : string)
    (token : option string) (clock jitter : pyfloat) : RM RouteCircuitDecision :=
  let safe_kind := if fullmatch _KIND_RE kind then kind else "unclassified" in
  let key := _route_key site source destination in
  current ← _current_state key clock;
  let '(prior, now) := current : option RouteCircuitState * Q in
  stale_reservation ← rlift match token with
                            | None => Ok false
                            | Some _ => held ← holds (prior ≫= reservation_token) token; Ok (negb held)
                            end;
  let reserved_by_another :=
    bool_decide (token = None) && bool_decide (is_Some (prior ≫= reservation_token)) in
  if (stale_reservation : bool) || reserved_by_another then
    mret (_decision prior now site.(route_circuit_max_cooldown_s))
  else
    let failures_ := next_failures site prior now in
    let open_for :=
      if site.(route_circuit_failures) <=? failures_ then
        let exponent := Z.min (failures_ - site.(route_circuit_failures)) MAX_FAILURES in
        _cooldown jitter (backoff site exponent) site.(route_circuit_max_cooldown_s)
      else 0%Q in
    let st := {| failures := failures_; open_until := now + open_for; last_failure_at := now;
                 last_kind := safe_kind; updated_at := now; reservation_token := None |} in
    _write key st ;;
    mret (_decision (Some st) now site.(route_circuit_max_cooldown_s)).
End operations.
