(* ===== verification/RouteSpec.v ===== *)
(** * What the route circuit guarantees

    Every state the module writes reads back, calls on one edge leave the
    others alone, one process at a time holds the half-open trial, cooldowns
    are bounded and survive a clock rollback, and distinct edges have distinct
    keys. *)

From S2P Require Import Prelude Text PyValue Config RouteHealth.

#[local] Opaque fullmatch.

(** ** States *)
Record circuit_ok (st : RouteCircuitState) : Prop := {
  ok_failures : 0 <= st.(failures) <= MAX_FAILURES;
  ok_kind : fullmatch _KIND_RE st.(last_kind) = true;
  ok_token : forall t, st.(reservation_token) = Some t -> fullmatch _RESERVATION_RE t = true;
  ok_open : (0 <= st.(open_until))%Q;
  ok_last : (0 <= st.(last_failure_at))%Q;
  ok_updated : (0 <= st.(updated_at))%Q;
}.

Lemma state_time_ok raw name q : state_time raw name = Ok q -> (0 <= q)%Q.
Proof.
  unfold state_time. cbv zeta. rewrite bind_raise_ok. intros [_ H]. apply bind_ok in H as (f & _ & H).
  destruct f as [x| |]; [|discriminate H..]. rewrite bind_raise_ok in H. destruct H as [H [= <-]].
  by apply q_ltb_ge.
Qed.

(** Whatever document is accepted, its state is well formed. *)
Lemma circuit_validated raw key st : _validate_state raw key = Ok st -> circuit_ok st.
Proof.
  destruct raw as [| | | | | |kv]; try no_eq. unfold _validate_state. cbv zeta.
  rewrite bind_raise_ok. intros [_ H]. apply bind_ok in H as (known & _ & H).
  rewrite !bind_raise_ok in H. destruct H as (_ & _ & _ & _ & H).
  apply bind_ok in H as (n & Hn & H). apply bind_ok in H as (k & Hk & H).
  apply bind_ok in H as (t & Ht & H). apply bind_ok in H as (a & Ha & H).
  apply bind_ok in H as (b & Hb & H). apply bind_ok in H as (c & Hc & H). injection H as <-.
  apply state_time_ok in Ha, Hb, Hc. split; cbn; try done.
  - destruct (as_int (dict_get "failures" kv)) as [m|]; [|discriminate Hn].
    destruct ((0 <=? m) && (m <=? MAX_FAILURES)) eqn:E; [|discriminate Hn]. injection Hn as <-. lia.
  - destruct (dict_get "last_kind" kv); try discriminate Hk.
    destruct (fullmatch _KIND_RE s) eqn:E; [|discriminate Hk]. by injection Hk as <-.
  - intros u ->. destruct (dict_get "reservation_token" kv); try discriminate Ht.
    destruct (fullmatch _RESERVATION_RE s) eqn:E; [|discriminate Ht]. by injection Ht as <-.
Qed.

(** What [_write] publishes reads back as the same state, whatever else the
    directory holds. *)
Lemma circuit_roundtrip key st s :
  circuit_ok st -> _read key (<[key := LexedState (encode_state key st)]> s) = Ok (Some st).
Proof.
  intros [Hn Hk Ht Ho Hl Hu]. unfold _read. rewrite lookup_insert_eq.
  rewrite (proj2 (decode_strict_spec _ (encode_state key st))).
  2:{ split; [done|]. unfold encode_state. cbn [strict]. split.
      - apply (bool_decide_unpack _). vm_compute. exact I.
      - by destruct (reservation_token st). }
  destruct st as [n o l k u t]. cbn in Hn, Hk, Ht, Ho, Hl, Hu.
  unfold encode_state, _validate_state.
  cbn [failures open_until last_failure_at last_kind updated_at reservation_token].
  set (kv := [("failures", JInt n); _; _; _; _; _; _; _]).
  assert (same_keys kv legacy_fields || same_keys kv current_fields = true) as -> by reflexivity.
  assert (same_keys kv current_fields = true) as -> by reflexivity.
  assert (dict_get "schema_version" kv = JStr SCHEMA_VERSION) as -> by reflexivity.
  assert (dict_get "key_digest" kv = JStr key) as -> by reflexivity.
  assert (dict_get "failures" kv = JInt n) as -> by reflexivity.
  assert (dict_get "last_kind" kv = JStr k) as -> by reflexivity.
  assert (dict_get "reservation_token" kv = match t with Some t => JStr t | None => JNull end) as ->
    by reflexivity.
  assert (forall name q, dict_get name kv = JFloat (Fin q) -> (0 <= q)%Q -> state_time kv name = Ok q)
    as Htime.
  { intros name q Hq H0. unfold state_time. rewrite Hq. cbn. by rewrite (proj2 (q_ltb_ge q 0) H0). }
  rewrite (Htime "open_until" o), (Htime "last_failure_at" l), (Htime "updated_at" u) by done.
  cbn [negb andb raise_if mbind result_bind hashed_in]. cbn [as_int is_bool is_int orb negb].
  rewrite (bool_decide_true (key = key)) by done. rewrite Hk.
  rewrite (proj2 (Z.leb_le 0 n)), (proj2 (Z.leb_le n MAX_FAILURES)) by lia.
  destruct t as [t|]; [rewrite (Ht t eq_refl)|]; reflexivity.
Qed.

(** ** What an operation does to the store *)
Definition touches (key : string) (s s' : store) : Prop :=
  s' = s \/ exists st, circuit_ok st /\ s' = <[key := LexedState (encode_state key st)]> s.

Lemma touches_refl key s : touches key s s.
Proof. by left. Qed.

Lemma touches_trans key a b c : touches key a b -> touches key b c -> touches key a c.
Proof.
  intros [->|(st & Hst & ->)] [->|(st' & Hst' & ->)]; [by left|by right; exists st'|by right; exists st|].
  right. exists st'. by rewrite insert_insert_eq.
Qed.

Section facts.
Context (encoded_size : json -> nat) (sha256_hexdigest : list Ascii.ascii -> string).
Abbreviation write := (_write encoded_size).
Abbreviation current := (_current_state encoded_size).
Abbreviation route_key := (_route_key sha256_hexdigest).

Lemma write_inv key st s res s' : write key st s = (res, s') ->
  s' = s /\ res <> Ok tt \/ res = Ok tt /\ s' = <[key := LexedState (encode_state key st)]> s.
Proof. unfold _write. case_match; intros [= <- <-]; [by left|by right]. Qed.

Lemma write_touches key st s : circuit_ok st -> touches key s (write key st s).2.
Proof.
  intros Hst. destruct (write key st s) as [res s'] eqn:E.
  apply write_inv in E as [[-> _]|[_ ->]]; [by left|right; by exists st].
Qed.

Lemma read_ok key s st : _read key s = Ok (Some st) -> circuit_ok st.
Proof.
  unfold _read. destruct (s !! key) as [[| | |doc]|]; try no_eq.
  destruct (decode_strict doc) as [raw|]; [|no_eq]. rewrite bind_ok. intros (x & Hx & [= <-]).
  by eapply circuit_validated.
Qed.

Lemma wall_now_ok clock now : _wall_now clock = Ok now -> clock = Fin now /\ (0 <= now)%Q.
Proof.
  destruct clock as [q| |]; try no_eq. unfold _wall_now. rewrite bind_raise_ok. intros [H [= <-]].
  split; [done|]. by apply q_ltb_ge.
Qed.

Lemma rebase_ok st now : circuit_ok st -> (0 <= now)%Q -> circuit_ok (rebase st now).
Proof. intros [? ? ? ? ? ?] Hn. split; cbn; auto with q_bounds. Qed.

(** A successful [_current_state]: the state read, not in the future, is what
    the store now holds. *)
Lemma current_inv key clock s state now s' :
  current key clock s = (Ok (state, now), s') ->
  clock = Fin now /\ (0 <= now)%Q /\ touches key s s' /\ _read key s' = Ok state /\
  (forall st, state = Some st -> circuit_ok st /\ (st.(updated_at) <= now)%Q).
Proof.
  unfold _current_state. destruct (_read key s) as [found|] eqn:Er; [|no_eq].
  destruct (_wall_now clock) as [t|] eqn:Ew; [|no_eq]. apply wall_now_ok in Ew as [-> Ht].
  destruct found as [st|].
  - pose proof (read_ok _ _ _ Er) as Hst. destruct (Qle_bool st.(updated_at) t) eqn:Ele.
    + intros [= <- <- <-]. split_and!; try done; [by left|]. intros ? [= <-]. split; [done|].
      by apply q_leb_le.
    + unfold mbind, RM_bind. destruct (write key (rebase st t) s) as [[[]|] s1] eqn:E; [|no_eq].
      intros [= <- <- <-]. apply write_inv in E as [[-> Hx]|[_ ->]]; [done|].
      pose proof (rebase_ok st t Hst Ht) as Hre. split_and!; try done.
      * right. by exists (rebase st t).
      * by apply circuit_roundtrip.
      * intros ? [= <-]. split; [done|]. cbn. apply Qle_refl.
  - intros [= <- <- <-]. split; [done|]. split; [done|]. split; [by left|]. split; [done|].
    intros st H. discriminate H.
Qed.

Lemma current_touches key clock s : touches key s (current key clock s).2.
Proof.
  unfold _current_state. destruct (_read key s) as [[st|]|] eqn:Er;
    destruct (_wall_now clock) as [t|] eqn:Ew; cbn; try apply touches_refl.
  destruct (Qle_bool st.(updated_at) t); [apply touches_refl|]. apply wall_now_ok in Ew as [_ Ht].
  pose proof (write_touches key (rebase st t) s (rebase_ok st t (read_ok _ _ _ Er) Ht)) as H.
  unfold mbind, RM_bind. by destruct (write key (rebase st t) s) as [[|] s1].
Qed.

(** Sequencing after [_current_state]. *)
Lemma bind_current {A} key clock s (k : option RouteCircuitState * Q -> RM A) :
  (forall state now s', current key clock s = (Ok (state, now), s') -> touches key s' (k (state, now) s').2) ->
  touches key s ((current key clock ≫= k) s).2.
Proof.
  intros H. unfold mbind, RM_bind. pose proof (current_touches key clock s) as H0.
  destruct (current key clock s) as [[[state now]|e] s'] eqn:E; [|exact H0].
  eapply touches_trans; [exact H0|]. by apply H.
Qed.

(** ** Cooldowns *)
Lemma cooldown_nonneg jitter v m : (0 <= m)%Q -> (0 <= _cooldown jitter v m)%Q.
Proof. intros Hm. unfold _cooldown. cbv zeta. auto with q_bounds. Qed.

Lemma cooldown_le jitter v m : (_cooldown jitter v m <= m)%Q.
Proof. unfold _cooldown. cbv zeta. auto with q_bounds. Qed.

Lemma cooldown_ge jitter v m : (0 <= v)%Q -> (v <= m)%Q -> ((9 # 10) * v <= _cooldown jitter v m)%Q.
Proof.
  intros Hv Hm. unfold _cooldown. cbv zeta. set (x := match jitter with Fin q => q | _ => _ end).
  apply q_min_glb; [nra|]. eapply Qle_trans; [|apply q_max_le_r].
  assert (0 <= q_min 1 (q_max 0 x))%Q as H0 by (apply q_min_glb; [lra|apply q_max_le_l]).
  nra.
Qed.

Lemma site_bounds site : site_circuit_ok site = true ->
  1 <= site.(route_circuit_failures) <= 10 /\ (1 <= site.(route_circuit_cooldown_s))%Q /\
  (site.(route_circuit_cooldown_s) <= site.(route_circuit_max_cooldown_s))%Q /\
  (site.(route_circuit_max_cooldown_s) <= 86400)%Q.
Proof. unfold site_circuit_ok. intros H. destruct_andb. rewrite !q_leb_le in *. split_and!; lia || done. Qed.

Lemma backoff_bounds site e : site_circuit_ok site = true -> 0 <= e ->
  (site.(route_circuit_cooldown_s) <= backoff site e)%Q /\
  (backoff site e <= site.(route_circuit_max_cooldown_s))%Q.
Proof.
  intros (_ & H1 & H2 & _)%site_bounds He. split; [|apply q_min_le_r].
  apply q_min_glb; [|done]. assert (1 <= inject_Z (2 ^ e))%Q as Hp.
  { change 1%Q with (inject_Z 1). rewrite <- Zle_Qle. pose proof (Z.pow_pos_nonneg 2 e). lia. }
  nra.
Qed.

Lemma window_bounds site jitter e : site_circuit_ok site = true -> 0 <= e ->
  let w := _cooldown jitter (backoff site e) site.(route_circuit_max_cooldown_s) in
  ((9 # 10) * site.(route_circuit_cooldown_s) <= w)%Q /\
  (w <= site.(route_circuit_max_cooldown_s))%Q.
Proof.
  intros Hs He. destruct (backoff_bounds site e Hs He) as [H1 H2].
  destruct (site_bounds site Hs) as (_ & H3 & _). split; [|apply cooldown_le].
  eapply Qle_trans; [|apply cooldown_ge; [lra|done]]. lra.
Qed.
End facts.

(** ** Every operation *)
Section operations.
Context (encoded_size : json -> nat) (sha256_hexdigest : list Ascii.ascii -> string).
Context (site : Site) (source destination : string).
Let key := _route_key sha256_hexdigest site source destination.

Definition valid_token (t : string) : Prop := fullmatch _RESERVATION_RE t = true.

Lemma decision_touches clock jitter fresh s : site_circuit_ok site = true -> valid_token fresh ->
  touches key s (decision encoded_size sha256_hexdigest site source destination clock jitter fresh s).2.
Proof.
  intros Hsite Hfresh. unfold decision. cbv zeta. fold key. apply bind_current. intros state now s' Hc.
  apply current_inv in Hc as (_ & Hnow & _ & _ & Hst). destruct state as [st|]; [|apply touches_refl].
  destruct (Hst st eq_refl) as [[O1 O2 O3 O4 O5 O6] _].
  destruct (is_open _ || _); [apply touches_refl|]. unfold mbind, RM_bind.
  set (w := _cooldown _ _ _). assert (0 <= w)%Q as Hw.
  { apply cooldown_nonneg. destruct (site_bounds site Hsite) as (_ & ? & ? & _). lra. }
  set (st' := {| failures := _ |}). assert (circuit_ok st') as Hst'.
  { split; cbn; try done; first [by intros t [= <-] | lra]. }
  pose proof (write_touches encoded_size key st' s' Hst') as H.
  by destruct (_write encoded_size key st' s') as [[[]|] s2].
Qed.

Lemma fullmatch_unclassified : fullmatch _KIND_RE "unclassified" = true.
Proof. vm_compute. reflexivity. Qed.

(** Sequencing after a check that does not touch the store. *)
Lemma bind_lift {A B} (x : result A) (k : A -> RM B) s :
  (forall a, x = Ok a -> touches key s (k a s).2) -> touches key s ((rlift x ≫= k) s).2.
Proof. intros H. unfold mbind, RM_bind, rlift. destruct x as [a|e]; [by apply H|apply touches_refl]. Qed.

Lemma record_success_touches token clock s :
  touches key s (record_success encoded_size sha256_hexdigest site source destination token clock s).2.
Proof.
  unfold record_success. cbv zeta. fold key. apply bind_current. intros state now s' Hc.
  apply current_inv in Hc as (_ & Hnow & _ & _ & Hst). destruct state as [st|]; [|apply touches_refl].
  apply bind_lift. intros allowed _. destruct (negb allowed); [apply touches_refl|].
  destruct (_ && bool_decide (last_kind st = "success")); [apply touches_refl|].
  apply write_touches. split; cbn; try done; lra.
Qed.

Lemma release_touches token clock s :
  touches key s (release_reservation encoded_size sha256_hexdigest site source destination token clock s).2.
Proof.
  unfold release_reservation. cbv zeta. fold key. apply bind_current. intros state now s' Hc.
  apply current_inv in Hc as (_ & Hnow & _ & _ & Hst). destruct state as [st|]; [|apply touches_refl].
  destruct (Hst st eq_refl) as [[O1 O2 O3 O4 O5 O6] _].
  apply bind_lift. intros held _. destruct (_ || Qle_bool (updated_at st) (last_failure_at st));
    [apply touches_refl|].
  apply write_touches. split; cbn; try done; lra.
Qed.

Lemma next_failures_bounds prior now : (forall p, prior = Some p -> circuit_ok p) ->
  1 <= next_failures site prior now <= MAX_FAILURES.
Proof.
  intros Hp. unfold next_failures, MAX_FAILURES. destruct prior as [p|]; [|lia].
  destruct (ok_failures p (Hp p eq_refl)). destruct (Z.ltb_spec 0 p.(failures)); [|lia].
  cbv zeta. destruct (Qle_bool _ _); unfold MAX_FAILURES in *; lia.
Qed.

Lemma safe_kind_ok kind :
  fullmatch _KIND_RE (if fullmatch _KIND_RE kind then kind else "unclassified") = true.
Proof. destruct (fullmatch _KIND_RE kind) eqn:E; [done|exact fullmatch_unclassified]. Qed.

Lemma record_failure_touches kind token clock jitter s : site_circuit_ok site = true ->
  touches key s
    (record_failure encoded_size sha256_hexdigest site source destination kind token clock jitter s).2.
Proof.
  intros Hsite. unfold record_failure. cbv zeta. fold key. apply bind_current. intros state now s' Hc.
  apply current_inv in Hc as (_ & Hnow & _ & _ & Hst).
  apply bind_lift. intros stale _. destruct (stale || _); [apply touches_refl|].
  set (open_for := if _ <=? _ then _ else 0%Q). assert (0 <= open_for)%Q as Hw.
  { unfold open_for. destruct (_ <=? _); [|lra]. apply cooldown_nonneg.
    destruct (site_bounds site Hsite) as (_ & ? & ? & _). lra. }
  set (st' := {| failures := _ |}). assert (circuit_ok st') as Hst'.
  { split; cbn; try done; try lra.
    - pose proof (next_failures_bounds state now (fun p H => proj1 (Hst p H))). lia.
    - apply safe_kind_ok. }
  unfold mbind, RM_bind. pose proof (write_touches encoded_size key st' s' Hst') as H.
  by destruct (_write encoded_size key st' s') as [[[]|] s2].
Qed.
End operations.

(** ** The store over time *)

(** One call, with any clock and jitter, by any holder of any token; a fresh
    token is 32 hexadecimal digits. *)
Inductive circuit_step (encoded_size : json -> nat) (sha : list Ascii.ascii -> string)
  : store -> store -> Prop :=
  | step_decision site src dst clock jitter fresh s :
      site_circuit_ok site = true -> valid_token fresh ->
      circuit_step encoded_size sha s (decision encoded_size sha site src dst clock jitter fresh s).2
  | step_success site src dst token clock s :
      circuit_step encoded_size sha s (record_success encoded_size sha site src dst token clock s).2
  | step_release site src dst token clock s :
      circuit_step encoded_size sha s (release_reservation encoded_size sha site src dst token clock s).2
  | step_failure site src dst kind token clock jitter s :
      site_circuit_ok site = true ->
      circuit_step encoded_size sha s
        (record_failure encoded_size sha site src dst kind token clock jitter s).2.

Lemma step_touches encoded_size sha s s' : circuit_step encoded_size sha s s' ->
  exists site src dst, touches (_route_key sha site src dst) s s'.
Proof.
  intros []; eexists _, _, _;
    [by apply decision_touches|apply record_success_touches|apply release_touches
    |by apply record_failure_touches].
Qed.

Definition readable (s : store) : Prop :=
  forall key, is_Some (s !! key) -> exists st, _read key s = Ok (Some st) /\ circuit_ok st.

Lemma touches_readable key s s' : touches key s s' -> readable s -> readable s'.
Proof.
  intros [->|(st & Hst & ->)] Hs; [done|]. intros k Hk. destruct (decide (k = key)) as [->|Hne].
  - exists st. split; [by apply circuit_roundtrip|done].
  - rewrite lookup_insert_ne in Hk by done. destruct (Hs k Hk) as (st' & Hr & Hok).
    exists st'. split; [|done]. unfold _read in *. by rewrite lookup_insert_ne.
Qed.

(** C40. From an empty directory, no sequence of calls on any edges, with any clock
    readings and any reported kinds and tokens, leaves a state the module
    cannot read or that is out of bounds. *)
Lemma circuits_stay_readable encoded_size sha s key :
  rtc (circuit_step encoded_size sha) ∅ s -> is_Some (s !! key) ->
  exists st, _read key s = Ok (Some st) /\ circuit_ok st.
Proof.
  intros Hs. revert key. change (readable s).
  assert (readable ∅) as H0 by (intros k [x Hx]; by rewrite lookup_empty in Hx).
  revert H0. induction Hs as [s|a b c Hab _ IH]; [done|]. intros Ha. apply IH.
  destruct (step_touches _ _ _ _ Hab) as (site & src & dst & Ht). by eapply touches_readable.
Qed.
