(* ===== verification/RouteTrial.v ===== *)
(** * The half-open trial and the cooldown ladder

    Who may probe an edge and when: one holder per cooldown interval, reports
    of anyone else ignored, bounded windows, and a wall clock that may be set
    back. *)

From S2P Require Import Prelude Text PyValue Config RouteHealth RouteSpec.

#[local] Opaque fullmatch.

(** A state whose clock has not been set back is returned as it is. *)
Lemma current_present encoded_size key s st t :
  _read key s = Ok (Some st) -> (0 <= t)%Q -> (st.(updated_at) <= t)%Q ->
  _current_state encoded_size key (Fin t) s = (Ok (Some st, t), s).
Proof.
  intros Hr Ht Hu. unfold _current_state. rewrite Hr. unfold _wall_now.
  rewrite (proj2 (q_ltb_ge t 0) Ht). cbn. by rewrite (proj2 (q_leb_le _ _) Hu).
Qed.

Lemma decision_open st now m :
  (_decision (Some st) now m).(is_open) = true <-> (0 < m)%Q /\ (now < st.(open_until))%Q.
Proof.
  cbn. rewrite q_ltb_lt. unfold q_min, q_max. repeat q_case; split; intros; try split; lra.
Qed.

Section trial.
Context (encoded_size : json -> nat) (sha : list Ascii.ascii -> string).
Context (site : Site) (source destination : string).
Let key := _route_key sha site source destination.

(** C25. The half-open trial is exclusive: a call that receives a token leaves a
    window, between nine tenths of the base cooldown and the maximum cooldown
    long, in which every other caller finds the circuit open, receives no
    token and changes nothing. *)
Lemma half_open_exclusive now jitter fresh s d tok s1 :
  site_circuit_ok site = true -> valid_token fresh ->
  decision encoded_size sha site source destination (Fin now) jitter fresh s = (Ok d, s1) ->
  d.(d_reservation_token) = Some tok ->
  tok = fresh /\ d.(is_open) = false /\
  exists until, (now + (9 # 10) * site.(route_circuit_cooldown_s) <= until)%Q /\
    (until <= now + site.(route_circuit_max_cooldown_s))%Q /\
    forall t jitter' fresh', (now <= t)%Q -> (t < until)%Q ->
      exists d', decision encoded_size sha site source destination (Fin t) jitter' fresh' s1 = (Ok d', s1) /\
        d'.(is_open) = true /\ d'.(d_reservation_token) = None /\
        (d'.(retry_after_s) <= site.(route_circuit_max_cooldown_s))%Q.
Proof.
  intros Hsite Hfresh. unfold decision at 1. cbv zeta. fold key. unfold mbind at 1, RM_bind at 1.
  destruct (_current_state encoded_size key (Fin now) s) as [[[state t0]|e] s'] eqn:Ec; [|no_eq].
  apply current_inv in Ec as (Hnow & H0 & _ & Hr & Hst). injection Hnow as <-.
  destruct state as [st|]; [|intros [= <- <-]; no_eq].
  destruct (is_open _ || _) eqn:Eo; [intros [= <- <-]; no_eq|].
  set (w := _cooldown _ _ _). set (st' := {| failures := _ |}).
  destruct (window_bounds site jitter (Z.min (Z.max 0 (failures st - route_circuit_failures site)) MAX_FAILURES)
    Hsite ltac:(unfold MAX_FAILURES; lia)) as [Hw1 Hw2]. fold w in Hw1, Hw2.
  destruct (site_bounds site Hsite) as (Hf & Hb & Hm & _).
  destruct (Hst st eq_refl) as [[O1 O2 O3 O4 O5 O6] _].
  assert (circuit_ok st') as Hst'.
  { split; cbn; try done; first [by intros t [= <-] | lra]. }
  unfold mbind, RM_bind. destruct (_write encoded_size key st' s') as [[[]|] s2] eqn:Ew; [|no_eq].
  intros [= <- <-]. cbn [d_reservation_token is_open]. intros [= <-].
  apply write_inv in Ew as [[_ Hx]|[_ ->]]; [done|]. split; [done|]. split; [done|].
  exists (now + w)%Q. split; [lra|]. split; [lra|]. intros t jitter' fresh' Ht1 Ht2.
  set (s2 := <[key := _]> s').
  assert (_current_state encoded_size key (Fin t) s2 = (Ok (Some st', t), s2)) as Hcur.
  { apply current_present; [by apply circuit_roundtrip|lra|cbn; lra]. }
  unfold decision. cbv zeta. fold key. unfold mbind, RM_bind. rewrite Hcur.
  assert ((_decision (Some st') t (route_circuit_max_cooldown_s site)).(is_open) = true) as Hopen.
  { apply decision_open. cbn. split; lra. }
  rewrite Hopen. cbn [orb]. eexists. split; [done|]. split; [exact Hopen|]. split; [done|].
  cbn. apply q_min_le_l.
Qed.

(** While a trial is reserved, reports by anyone who does not hold its token
    change nothing: no success closes the circuit, no failure extends it, no
    release gives the trial away. *)
Lemma foreign_reports_ignored s st tok token kind t jitter :
  _read key s = Ok (Some st) -> st.(reservation_token) = Some tok -> is_ascii tok = true ->
  (0 <= t)%Q -> (st.(updated_at) <= t)%Q -> token <> Some tok ->
  (forall other, token = Some other -> is_ascii other = true) ->
  record_success encoded_size sha site source destination token (Fin t) s = (Ok tt, s) /\
  release_reservation encoded_size sha site source destination token (Fin t) s = (Ok tt, s) /\
  record_failure encoded_size sha site source destination kind token (Fin t) jitter s
    = (Ok (_decision (Some st) t site.(route_circuit_max_cooldown_s)), s).
Proof.
  intros Hr Htok Hat Ht Hu Hne Hascii.
  pose proof (current_present encoded_size key s st t Hr Ht Hu) as Hcur.
  assert (holds st.(reservation_token) token = Ok false) as Hh.
  { rewrite Htok. unfold holds, hmac_compare. destruct token as [other|]; [|done].
    rewrite Hat, (Hascii other eq_refl). cbn [andb]. f_equal. apply bool_decide_eq_false. congruence. }
  split; [|split].
  - unfold record_success. cbv zeta. fold key. unfold mbind, RM_bind, rlift. rewrite Hcur.
    destruct token; [by rewrite Hh|by rewrite Htok].
  - unfold release_reservation. cbv zeta. fold key. unfold mbind, RM_bind, rlift. rewrite Hcur.
    by rewrite Hh.
  - unfold record_failure. cbv zeta. fold key. unfold mbind at 1, RM_bind at 1. rewrite Hcur.
    change ((Some st : option RouteCircuitState) ≫= reservation_token) with st.(reservation_token).
    rewrite Hh, Htok. by destruct token.
Qed.

(** An accepted failure: the count climbs by one and stops at 64, or restarts
    at one after a quiet period; below the site's threshold the circuit stays
    closed, from it on the circuit opens for at least nine tenths of the base
    cooldown and at most the maximum. *)
Lemma record_failure_ladder s prior kind token now jitter d s' :
  site_circuit_ok site = true ->
  _current_state encoded_size key (Fin now) s = (Ok (prior, now), s) ->
  (prior ≫= reservation_token) = token ->
  (forall t, token = Some t -> is_ascii t = true) ->
  record_failure encoded_size sha site source destination kind token (Fin now) jitter s = (Ok d, s') ->
  exists st, _read key s' = Ok (Some st) /\
    st.(failures) = next_failures site prior now /\ d.(d_failures) = st.(failures) /\
    1 <= st.(failures) <= MAX_FAILURES /\ st.(reservation_token) = None /\
    (st.(last_failure_at) = now) /\
    if st.(failures) <? site.(route_circuit_failures)
    then d.(is_open) = false
    else d.(is_open) = true /\
         (now + (9 # 10) * site.(route_circuit_cooldown_s) <= st.(open_until))%Q /\
         (st.(open_until) <= now + site.(route_circuit_max_cooldown_s))%Q.
Proof.
  intros Hsite Hcur Htok Hascii. pose proof Hcur as Hinv.
  apply current_inv in Hinv as (_ & H0 & _ & _ & Hst).
  assert (match token with None => Ok false
          | Some _ => held ← holds token token; Ok (negb held) end = Ok false) as Hstale.
  { destruct token as [t|]; [|done]. unfold holds, hmac_compare. rewrite (Hascii t eq_refl). cbn.
    by rewrite bool_decide_true. }
  assert (bool_decide (token = None) && bool_decide (is_Some token) = false) as Hother.
  { by destruct token. }
  unfold record_failure. cbv zeta. fold key. unfold mbind at 1, RM_bind at 1. rewrite Hcur.
  rewrite Htok. unfold mbind at 1, RM_bind at 1, rlift. rewrite Hstale, Hother. cbn [orb].
  pose proof (next_failures_bounds site prior now (fun p H => proj1 (Hst p H))) as Hn.
  destruct (site_bounds site Hsite) as (Hf & Hb & Hm & _).
  set (n := next_failures site prior now) in *. set (open_for := if _ <=? _ then _ else 0%Q).
  set (st := {| failures := n |}).
  assert (if n <? route_circuit_failures site then open_for = 0%Q
          else ((9 # 10) * route_circuit_cooldown_s site <= open_for)%Q /\
               (open_for <= route_circuit_max_cooldown_s site)%Q) as Hopen.
  { unfold open_for. destruct (Z.ltb_spec n (route_circuit_failures site)).
    - by destruct (Z.leb_spec (route_circuit_failures site) n); [lia|].
    - destruct (Z.leb_spec (route_circuit_failures site) n); [|lia].
      apply window_bounds; [done|unfold MAX_FAILURES; lia]. }
  assert (0 <= open_for)%Q as Hof.
  { destruct (n <? route_circuit_failures site); [by rewrite Hopen|]. destruct Hopen. lra. }
  assert (circuit_ok st) as Hok.
  { split; cbn; try done; try lra; [lia|]. apply safe_kind_ok. }
  unfold mbind, RM_bind. destruct (_write encoded_size key st s) as [[[]|] s2] eqn:Ew; [|no_eq].
  apply write_inv in Ew as [[_ Hx]|[_ ->]]; [done|]. intros [= <- <-].
  exists st. split; [by apply circuit_roundtrip|]. split_and!; try done; [cbn; lia..|].
  change (failures st) with n. destruct (n <? route_circuit_failures site).
  - change ((_decision (Some st) now (route_circuit_max_cooldown_s site)).(is_open) = false).
    apply not_true_iff_false. rewrite decision_open. cbn. rewrite Hopen. intros [_ ?]. lra.
  - split; [|cbn; lra].
    change ((_decision (Some st) now (route_circuit_max_cooldown_s site)).(is_open) = true).
    rewrite decision_open. cbn. lra.
Qed.

(** The holder's success closes the circuit for everyone. *)
Lemma owner_success_closes s st token t s' :
  _read key s = Ok (Some st) -> st.(reservation_token) = token -> 0 < st.(failures) ->
  (forall x, token = Some x -> is_ascii x = true) ->
  (0 <= t)%Q -> (st.(updated_at) <= t)%Q ->
  record_success encoded_size sha site source destination token (Fin t) s = (Ok tt, s') ->
  exists healthy, _read key s' = Ok (Some healthy) /\ healthy.(failures) = 0 /\
    healthy.(reservation_token) = None /\
    forall now, (0 <= now)%Q ->
      (_decision (Some healthy) now site.(route_circuit_max_cooldown_s)).(is_open) = false.
Proof.
  intros Hr Htok Hf Hascii Ht Hu.
  pose proof (current_present encoded_size key s st t Hr Ht Hu) as Hcur.
  assert (match token with Some _ => holds st.(reservation_token) token
          | None => Ok (bool_decide (st.(reservation_token) = None)) end = Ok true) as Hh.
  { rewrite Htok. destruct token as [x|]; [|by rewrite bool_decide_true].
    unfold holds, hmac_compare. rewrite (Hascii x eq_refl). cbn. by rewrite bool_decide_true. }
  unfold record_success. cbv zeta. fold key. unfold mbind, RM_bind, rlift. rewrite Hcur, Hh. cbn [negb].
  destruct (Z.eqb_spec st.(failures) 0); [lia|]. cbn [andb].
  set (healthy := {| failures := 0 |}).
  assert (circuit_ok healthy) as Hok by (split; cbn; try done; lra).
  intros Hw. apply write_inv in Hw as [[_ Hx]|[_ ->]]; [done|].
  exists healthy. split; [by apply circuit_roundtrip|]. split_and!; try done.
  intros now Hnow. apply not_true_iff_false. rewrite decision_open. cbn. intros [_ ?]. lra.
Qed.
End trial.

(** Setting the wall clock back keeps the verdict: at the earlier reading the
    circuit is open exactly as it was at its last update, for the same
    remaining time. *)
Lemma rollback_conserves_cooldown encoded_size key s st now state t s' m :
  _read key s = Ok (Some st) -> (now < st.(updated_at))%Q ->
  _current_state encoded_size key (Fin now) s = (Ok (state, t), s') ->
  t = now /\ exists moved, state = Some moved /\ _read key s' = Ok (Some moved) /\
    moved.(failures) = st.(failures) /\ moved.(reservation_token) = st.(reservation_token) /\
    ((_decision state now m).(retry_after_s) == (_decision (Some st) st.(updated_at) m).(retry_after_s))%Q.
Proof.
  intros Hr Hlt Hc. pose proof Hc as Hinv.
  apply current_inv in Hinv as (Hnow & H0 & _ & Hread & _). injection Hnow as <-.
  split; [done|]. unfold _current_state in Hc. rewrite Hr in Hc. unfold _wall_now in Hc.
  rewrite (proj2 (q_ltb_ge now 0) H0) in Hc. cbn [raise_if mbind result_bind] in Hc.
  rewrite (proj2 (q_leb_gt _ _) Hlt) in Hc. unfold mbind, RM_bind in Hc.
  destruct (_write encoded_size key (rebase st now) s) as [[[]|] s1]; [|discriminate Hc].
  injection Hc as <- <-. exists (rebase st now). split_and!; try done.
  cbn. unfold q_min, q_max. repeat q_case; lra.
Qed.

(** ** Edge keys *)

(** The character an escape stands for. *)
Definition hex_value (c : Ascii.ascii) : N := if (code c <? 58)%N then (code c - 48)%N else (code c - 87)%N.
Definition unescape (l : list Ascii.ascii) : option Ascii.ascii :=
  match l with
  | [] => None
  | a :: rest =>
      if negb (code a =? 92)%N then Some a
      else match rest with
      | [] => None
      | b :: rest =>
          if (code b =? 117)%N then
            match rest with
            | _ :: _ :: h :: g :: _ => Some (Ascii.ascii_of_N (16 * hex_value h + hex_value g)%N)
            | _ => None
            end
          else Some (Ascii.ascii_of_N match code b with
                                      | 98 => 8 | 116 => 9 | 110 => 10 | 102 => 12 | 114 => 13
                                      | n => n
                                      end%N)
      end
  end.

Lemma unescape_char c l : unescape (json_char c ++ l) = Some c.
Proof. destruct c as [[] [] [] [] [] [] [] []]; reflexivity. Qed.

Lemma json_char_head c : exists a l, json_char c = a :: l /\ a <> DOUBLE_QUOTE.
Proof. destruct c as [[] [] [] [] [] [] [] []]; eexists _, _; (split; [reflexivity|no_eq]). Qed.

(** An encoded text ends at its closing quote, and determines the text. *)
Lemma json_text_prefix a b r r' :
  json_text a ++ r = json_text b ++ r' -> a = b /\ r = r'.
Proof.
  unfold json_text. cbn [app]. intros [= H]. rewrite <- !app_assoc in H. cbn [app] in H.
  enough (chars a = chars b /\ r = r') as [?%chars_inj ?] by done.
  revert H. generalize (chars a) (chars b). clear a b. intros a.
  induction a as [|c a IH]; intros [|d b]; cbn [flat_map app].
  - intros H. by injection H as ->.
  - destruct (json_char_head d) as (x & l & -> & Hx). intros [= H _]. congruence.
  - destruct (json_char_head c) as (x & l & -> & Hx). intros [= H _]. congruence.
  - rewrite <- !app_assoc. intros H.
    assert (c = d) as ->.
    { apply (f_equal unescape) in H. rewrite !unescape_char in H. by injection H. }
    apply app_inv_head in H. destruct (IH _ H) as [-> ->]. done.
Qed.

(** The hashed material of an edge names it: two edges that share a key are
    the same edge, up to a collision of the digest. *)
Lemma route_material_injective site source destination site' source' destination' :
  route_material site source destination = route_material site' source' destination' ->
  site = site' /\ source = source' /\ destination = destination'.
Proof.
  unfold route_material. intros H.
  apply app_inv_head in H. apply json_text_prefix in H as [-> H].
  apply app_inv_head in H. apply json_text_prefix in H as [-> H].
  apply app_inv_head in H. apply json_text_prefix in H as [-> _]. done.
Qed.

(** Two damaged documents the validator lets escape as something other than
    [RouteHealthError]: a version that is a list, and a time that is an
    integer beyond the range of a float. *)
Definition damaged (schema time : json) : json :=
  JDict [("schema_version", schema); ("key_digest", JStr "k"); ("failures", JInt 1);
         ("open_until", time); ("last_failure_at", JInt 0); ("last_kind", JStr "probe.timeout");
         ("updated_at", JInt 0); ("reservation_token", JNull)].
Lemma validation_escapes :
  _validate_state (damaged (JList []) (JInt 0)) "k" = Err (TypeError "unhashable type: 'list'") /\
  _validate_state (damaged (JStr SCHEMA_VERSION) (JInt (10 ^ 400))) "k"
    = Err (OverflowError "int too large to convert to float") /\
  is_ok (_validate_state (damaged (JStr SCHEMA_VERSION) (JInt 5)) "k") = true.
Proof. split_and!; vm_compute; reflexivity. Qed.

(** ** Concrete circuits *)
Definition lab_site : Site :=
  {| site_name := "lab"; route_circuit_failures := 2; route_circuit_cooldown_s := 60;
     route_circuit_max_cooldown_s := 900 |}.
Definition sample_token : string := unchars (replicate 32 (Ascii.ascii_of_N 97)).
Definition small_size (_ : json) : nat := 200.
Definition plain_sha (l : list Ascii.ascii) : string := unchars l.
Definition sample_key : string := _route_key plain_sha lab_site "n1" "n2".

(** Two failures open the circuit; after the cooldown a trial is granted. *)
Definition failed_once : store :=
  (record_failure small_size plain_sha lab_site "n1" "n2" "probe.timeout" None (Fin 1000) (Fin 0) ∅).2.
Definition failed_twice : store :=
  (record_failure small_size plain_sha lab_site "n1" "n2" "probe.timeout" None (Fin 1010) (Fin 0)
     failed_once).2.
Definition trial_call : result RouteCircuitDecision * store :=
  decision small_size plain_sha lab_site "n1" "n2" (Fin 1100) (Fin 0) sample_token failed_twice.

Lemma trial_granted : exists d, trial_call = (Ok d, trial_call.2) /\
  d.(d_reservation_token) = Some sample_token.
Proof.
  assert (match trial_call.1 with
          | Ok d => bool_decide (d.(d_reservation_token) = Some sample_token) | Err _ => false end = true)
    as H by (vm_compute; reflexivity).
  destruct trial_call as [[d|] s]; [|discriminate H]. apply bool_decide_eq_true in H. by exists d.
Qed.

Lemma half_open_exclusive_witness :
  exists until, (1100 + (9 # 10) * 60 <= until)%Q.
Proof.
  destruct trial_granted as (d & Hcall & Htok).
  destruct (half_open_exclusive small_size plain_sha lab_site "n1" "n2" 1100%Q (Fin 0) sample_token
    failed_twice d sample_token trial_call.2 eq_refl eq_refl Hcall Htok) as (_ & _ & until & H & _).
  by exists until.
Defined.

Definition read_state (s : store) : option RouteCircuitState :=
  match _read sample_key s with Ok st => st | Err _ => None end.

Lemma read_state_some s (p : RouteCircuitState -> bool) :
  match read_state s with Some st => p st | None => false end = true ->
  exists st, _read sample_key s = Ok (Some st) /\ p st = true.
Proof.
  unfold read_state. destruct (_read sample_key s) as [[st|]|]; [|discriminate..]. by exists st.
Qed.

Lemma reserved_state : exists st, _read sample_key trial_call.2 = Ok (Some st) /\
  st.(reservation_token) = Some sample_token /\ (st.(updated_at) <= 1105)%Q /\ 0 < st.(failures).
Proof.
  destruct (read_state_some trial_call.2 (fun st =>
    bool_decide (st.(reservation_token) = Some sample_token) && Qle_bool st.(updated_at) 1105
    && (0 <? st.(failures)))) as (st & Hr & H); [vm_compute; reflexivity|].
  destruct_andb. exists st. rewrite bool_decide_eq_true, q_leb_le in *.
  split; [exact Hr|]. split; [assumption|]. split; [assumption|]. by apply Z.ltb_lt.
Qed.

Lemma foreign_reports_ignored_witness :
  record_success small_size plain_sha lab_site "n1" "n2" None (Fin 1105) trial_call.2
  = (Ok tt, trial_call.2).
Proof.
  destruct reserved_state as (st & Hr & Htok & Hu & _).
  apply (foreign_reports_ignored small_size plain_sha lab_site "n1" "n2" trial_call.2 st sample_token None
    "probe.timeout" 1105%Q (Fin 0) Hr Htok eq_refl); [lra|exact Hu|no_eq|intros other; no_eq].
Defined.

Lemma owner_success_closes_witness :
  exists s' healthy, record_success small_size plain_sha lab_site "n1" "n2" (Some sample_token)
    (Fin 1105) trial_call.2 = (Ok tt, s') /\ _read sample_key s' = Ok (Some healthy) /\
    healthy.(failures) = 0.
Proof.
  destruct reserved_state as (st & Hr & Htok & Hu & Hf).
  assert (is_ok (record_success small_size plain_sha lab_site "n1" "n2" (Some sample_token)
    (Fin 1105) trial_call.2).1 = true) as Hok by (vm_compute; reflexivity). revert Hok.
  destruct (record_success small_size plain_sha lab_site "n1" "n2" (Some sample_token)
    (Fin 1105) trial_call.2) as [[[]|] s'] eqn:E; [|discriminate]. intros _.
  destruct (owner_success_closes small_size plain_sha lab_site "n1" "n2" trial_call.2 st
    (Some sample_token) 1105%Q s' Hr Htok Hf) as (healthy & H1 & H2 & _);
    [intros x Hx; by injection Hx as <-|lra|exact Hu|exact E|].
  exists s', healthy. split; [reflexivity|]. split; [exact H1|exact H2].
Defined.

Lemma record_failure_ladder_witness : exists st, _read sample_key failed_once = Ok (Some st) /\
  st.(failures) = 1.
Proof.
  assert (is_ok (record_failure small_size plain_sha lab_site "n1" "n2" "probe.timeout" None (Fin 1000)
    (Fin 0) ∅).1 = true) as Hok by (vm_compute; reflexivity). revert Hok. unfold failed_once.
  destruct (record_failure small_size plain_sha lab_site "n1" "n2" "probe.timeout" None (Fin 1000)
    (Fin 0) ∅) as [[d|] s'] eqn:E; [|discriminate]. intros _.
  assert (_current_state small_size sample_key (Fin 1000) ∅ = (Ok (None, 1000%Q), ∅)) as Hcur
    by (unfold _current_state, _read; by rewrite lookup_empty).
  destruct (record_failure_ladder small_size plain_sha lab_site "n1" "n2" ∅ None "probe.timeout" None
    1000%Q (Fin 0) d s' eq_refl Hcur eq_refl ltac:(intros t; no_eq) E) as (st & H1 & H2 & _).
  exists st. split; [exact H1|exact H2].
Defined.

Lemma rollback_conserves_cooldown_witness :
  exists s' moved, _current_state small_size sample_key (Fin 500) trial_call.2 = (Ok (Some moved, 500%Q), s') /\
    moved.(reservation_token) = Some sample_token.
Proof.
  destruct (read_state_some trial_call.2 (fun st =>
    bool_decide (st.(reservation_token) = Some sample_token) && q_ltb 500 st.(updated_at)))
    as (st & Hr & H); [vm_compute; reflexivity|].
  apply andb_true_iff in H as [Htok%bool_decide_eq_true Hlt%q_ltb_lt].
  assert (is_ok (_current_state small_size sample_key (Fin 500) trial_call.2).1 = true) as Hok
    by (vm_compute; reflexivity). revert Hok.
  destruct (_current_state small_size sample_key (Fin 500) trial_call.2) as [[[state t]|] s'] eqn:E;
    [|discriminate]. intros _.
  destruct (rollback_conserves_cooldown small_size sample_key trial_call.2 st 500%Q state t s' 900%Q
    Hr Hlt E) as (-> & moved & -> & _ & _ & Ht & _).
  exists s', moved. split; [reflexivity|]. rewrite Ht. exact Htok.
Defined.

Lemma circuits_stay_readable_witness : exists st, _read sample_key failed_once = Ok (Some st).
Proof.
  destruct (circuits_stay_readable small_size plain_sha failed_once sample_key) as (st & H & _).
  - apply rtc_once. exact (step_failure small_size plain_sha lab_site "n1" "n2" "probe.timeout" None
      (Fin 1000) (Fin 0) ∅ eq_refl).
  - vm_compute. by eexists.
  - exists st. exact H.
Defined.

Lemma circuit_roundtrip_witness :
  let st := mkCircuit 2 64 10 "probe.timeout" 10 (Some sample_token) in
  _read sample_key (<[sample_key := LexedState (encode_state sample_key st)]> ∅) = Ok (Some st).
Proof.
  apply circuit_roundtrip. split; cbn; try done; [by intros t [= <-]|..]; lra.
Defined.
