(* ===== verification/Claim.v ===== *)
(** * The dispatch claim of a queued job ([dispatch/queued.py])

    A dispatcher that wants to launch a queued job first claims it: under the
    admission lock and the job lock it re-reads the row, compares the attempt
    it expects with the one the row carries, asks [admission_decision], and
    writes its own node, token and process identity into the row.  Every later
    queued-state change of that job must present the same attempt.

    The head's processes, the locks and the submission record are outside the
    registry: what a call observes of them is an argument. *)

From S2P Require Import Prelude Text PyValue Numerals Diagnostics JobEntry RegistryCodec Lifecycle Registry ActiveIndex RegistryOps Config Probe Placement Scheduler.

Definition COLON : Ascii.ascii := Ascii.ascii_of_N 58.
Definition DISPATCH_CLAIM_STALE_S : Q := 14400.

(** An outcome word and its detail. *)
Definition outcome : Type := string * option string.

(** [s.removeprefix("waiting: ")]. *)
Definition WAITING : string := "waiting: ".

Definition _existing_dispatch_outcome (entry : JobEntry) : outcome :=
  match entry.(status) with
  | Killed => ("killed", None)
  | Running => ("started", Some entry.(node))
  | Finished => ("finished", Some entry.(node))
  | Failed => ("failed", Some (or_str entry.(reason) "dispatch failed"))
  | Skipped => ("skipped", Some (or_str entry.(reason) "dependency predicate was false"))
  | Queued =>
      ("waiting",
       Some (removeprefix WAITING (or_str entry.(reason) "another dispatcher owns the queued attempt")))
  | Lost => ("failed", Some ("job is already " +:+ status_name entry.(status)))
  end.

(** ** Who owns a claim *)

(** What a dispatcher sees of the head: its own process, the boot identity
    file, each process' [stat] line, and the jobs its other threads dispatch. *)
Record HeadView := mkHeadView {
  own_pid : Z;
  boot_text : option string;
  stat_text : Z -> option string;
  inflight_others : list string;
}.

Definition _BOOT_ID_RE : list re_item := [Rep (fun c => is_alnum c || char_in "-" c) 1 64].
Definition _current_head_boot_id (h : HeadView) : string :=
  match h.(boot_text) with
  | None => "unknown"
  | Some text => let value := strip text in if fullmatch _BOOT_ID_RE value then value else "unknown"
  end.

(** [text.rpartition(")")[2]]. *)
Fixpoint after_last_paren (l : list Ascii.ascii) : list Ascii.ascii :=
  match l with
  | [] => []
  | c :: rest =>
      if bool_decide (Ascii.ascii_of_N 41 ∈ l)
      then if bool_decide (Ascii.ascii_of_N 41 ∈ rest) then after_last_paren rest
           else if bool_decide (c = Ascii.ascii_of_N 41) then rest else l
      else l
  end.
Definition _process_start_ticks (h : HeadView) (pid : Z) : option Z :=
  match h.(stat_text) pid with
  | None => None
  | Some text =>
      let fields := split_ws (unchars (after_last_paren (chars text))) in
      if (length fields <? 20)%nat then None
      else match fields !! 19%nat with Some f => int_or_none f | None => None end
  end.

Definition dispatch_owner_identity (h : HeadView) : string :=
  _current_head_boot_id h +:+ ":" +:+ pretty h.(own_pid) +:+ ":"
  +:+ pretty (default 0 (_process_start_ticks h h.(own_pid))).

Definition _dispatch_claim_hold_reason (h : HeadView) (now : Q) (entry : JobEntry) : option string :=
  let progress := "dispatch in progress on " +:+ default "None" entry.(dispatch_node) in
  match entry.(dispatch_owner) with
  | None => None
  | Some owner =>
  match split_on COLON owner with
  | [boot_id; pid_text; ticks_text] =>
  match int_or_none pid_text, int_or_none ticks_text with
  | Some pid, Some ticks =>
      if pid =? h.(own_pid) then
        if bool_decide (entry.(job_id) ∈ h.(inflight_others))
        then Some (progress +:+ " in this process") else None
      else if negb (bool_decide (boot_id = _current_head_boot_id h)) then None
      else match _process_start_ticks h pid with
      | None => None
      | Some observed_ticks =>
          if negb (ticks =? 0) && negb (observed_ticks =? ticks) then None
          else if match entry.(dispatch_claimed_at) with
                  | Some claimed_at => q_ltb DISPATCH_CLAIM_STALE_S (now - claimed_at)
                  | None => false
                  end then None
          else Some (progress +:+ " by live dispatcher pid " +:+ pretty pid)
      end
  | _, _ => None
  end
  | _ => None
  end end.

(** ** Committing a queued transition *)
Definition attempt : Type := option string * option string.
Definition attempt_of (entry : JobEntry) : attempt := (entry.(dispatch_node), entry.(dispatch_token)).

(** A failed or skipped row gets its missing terminal fields. *)
Definition settle_candidate (now : Q) (candidate : JobEntry) : result JobEntry :=
  let incomplete :=
    bool_decide (candidate.(finished_at) = None) || bool_decide (candidate.(result_state) = None) in
  if bool_decide (candidate.(status) = Failed) && incomplete then
    transition_terminal candidate "failed" "infra_failure" candidate.(reason) candidate.(finished_at) now
  else if bool_decide (candidate.(status) = Skipped) && incomplete then
    transition_terminal candidate "skipped" "dependency_skipped" candidate.(reason)
      candidate.(finished_at) now
  else Ok candidate.

(** The row a dispatcher is shown when the registry row is gone. *)
Definition removed_row (now : Q) (candidate : JobEntry) : JobEntry :=
  candidate <| status := Killed |> <| result_state := Some Cancelled |>
            <| reason := Some "registry row removed during dispatch" |>
            <| finished_at := Some now |> <| dispatch_node := None |> <| dispatch_token := None |>
            <| dispatch_owner := None |> <| dispatch_claimed_at := None |>.

(** [entry.dispatch_*] as a claim writes them. *)
Definition claim_row (h : HeadView) (now : Q) (node token : string) (current : JobEntry) : JobEntry :=
  current <| dispatch_node := Some node |> <| dispatch_token := Some token |>
          <| dispatch_owner := Some (dispatch_owner_identity h) |>
          <| dispatch_claimed_at := Some now |>
          <| reason := Some ("dispatching: " +:+ node) |>.

(** The result of a claim: whether it was won, the caller's row as the call
    leaves it, and [spec.dispatch_token]. *)
Record ClaimResult := mkClaimResult {
  won : bool;
  cl_entry : JobEntry;
  cl_token : option string;
}.

(** [diagnostic_excerpt(str(exc), fallback=type(exc).__name__)]. *)
Definition claim_detail (message : string) : string :=
  default "" (ok_option (diagnostic_excerpt [Some message] "RegistryError" MAX_DIAGNOSTIC_CHARS)).

Section transactions.
Context (encoded_size : json -> nat) (index_writable : bool).

(** [(newer row or None, the candidate as the call leaves it)]. *)
Definition _commit_queued_transition (now : Q) (writable : bool) (candidate : JobEntry)
    (persist : bool) (expected_attempt : option attempt) : M (option JobEntry * JobEntry) :=
  candidate ← lift (settle_candidate now candidate);
  found ← load now candidate.(job_id);
  match found with
  | None => mret (Some (removed_row now candidate), candidate)
  | Some current =>
      if negb (bool_decide (current.(status) = Queued)) then mret (Some current, candidate)
      else if negb (bool_decide (attempt_of current = default (attempt_of candidate) expected_attempt))
      then mret (Some current, candidate)
      else if persist then
        saved ← save encoded_size index_writable now writable candidate;
        mret (None, saved)
      else mret (None, candidate)
  end.

(** The write of a claim once its admission is decided. *)
Definition decide_claim (h : HeadView) (now : Q) (writable : bool) (node token : string)
    (current : JobEntry) (decision : AdmissionDecision) : M (bool * JobEntry) :=
  if negb decision.(allowed) then
    saved ← save encoded_size index_writable now writable
      (current <| reason := Some (WAITING +:+ decision.(ad_reason)) |>);
    mret (false, saved)
  else
    saved ← save encoded_size index_writable now writable (claim_row h now node token current);
    mret (true, saved).

(** The part of the claim inside both locks. *)
Definition claim_locked (cfg : HeadConfig) (h : HeadView) (now : Q) (writable : bool)
    (entry : JobEntry) (expected : attempt) (node token : string) : M (bool * JobEntry) :=
  found ← load now entry.(job_id);
  match found with
  | None => mret (false, entry)
  | Some current =>
      if negb (bool_decide (current.(status) = Queued))
         || negb (bool_decide (attempt_of current = expected)) then mret (false, current)
      else
        active ← active_entries encoded_size index_writable now true;
        r ← get;
        decide_claim h now writable node token current
          (admission_decision cfg current (with_dependency_predecessors now active.1 r) node
             (Z.of_nat (length active.2)) true now)
  end.

(** The attempt the caller expects to replace. *)
Definition expected_of (entry : JobEntry) (expected_token : option string) : attempt :=
  (match expected_token with Some _ => entry.(dispatch_node) | None => None end, expected_token).

(** [lock] is the admission lock: the message of a failure to open it, or
    whether it was acquired; [proof_error] is the failure, if any, of
    recording the remote launch proof of a submission request. *)
Definition _claim_queued_dispatch_attempt (cfg : HeadConfig) (h : HeadView) (now : Q)
    (writable : bool) (lock : string + bool) (proof_error : option string) (entry : JobEntry)
    (expected_token : option string) (node token : string) : M ClaimResult := fun r =>
  let refused reason_ r := (Ok (mkClaimResult false (entry <| reason := Some reason_ |>) expected_token), r) in
  match lock with
  | inl message => refused ("waiting: scheduler admission unavailable (" +:+ claim_detail message +:+ ")") r
  | inr false => refused "waiting: scheduler admission lock is busy" r
  | inr true =>
      match claim_locked cfg h now writable entry (expected_of entry expected_token) node token r with
      | (Err (RegistryError message), r') =>
          refused ("waiting: scheduler admission unavailable (" +:+ claim_detail message +:+ ")") r'
      | (Err e, r') => (Err e, r')
      | (Ok (false, entry), r') => (Ok (mkClaimResult false entry expected_token), r')
      | (Ok (true, entry), r') =>
          match entry.(request_id), proof_error with
          | Some _, Some message =>
              (Ok (mkClaimResult false
                 (entry <| reason :=
                    Some ("waiting: request launch proof unavailable (" +:+ claim_detail message +:+ ")") |>)
                 expected_token), r')
          | _, _ => (Ok (mkClaimResult true entry (Some token)), r')
          end
      end
  end.
End transactions.

(** ** Cards other live claims are about to take *)

(** [reserved.setdefault(node, []).extend([job_id] * gpus_requested)]. *)
Definition reserve_claim (h : HeadView) (now : Q) (entry : JobEntry)
    (reserved : gmap string (list string)) (row : JobEntry) : gmap string (list string) :=
  match row.(dispatch_node) with
  | Some node =>
      if bool_decide (row.(job_id) = entry.(job_id)) || negb (bool_decide (row.(status) = Queued))
         || (row.(gpus_requested) <=? 0)
         || bool_decide (_dispatch_claim_hold_reason h now row = None)
      then reserved
      else <[node := default [] (reserved !! node)
                     ++ replicate (Z.to_nat row.(gpus_requested)) row.(job_id)]> reserved
  | None => reserved
  end.

Fixpoint hide_cards (owners : list string) (gpus : list Gpu) : list Gpu :=
  match gpus with
  | [] => []
  | gpu :: rest =>
      match owners with
      | owner :: owners' =>
          if gpu.(Probe.free)
          then (gpu <| Probe.free := false |> <| leased := true |>
                    <| lease_owner := Some ("dispatching:" +:+ owner) |>) :: hide_cards owners' rest
          else gpu :: hide_cards owners rest
      | [] => gpu :: rest
      end
  end.

Definition hide_status (reserved : gmap string (list string)) (status : NodeStatus) : NodeStatus :=
  match default [] (reserved !! status.(s_node)), status.(s_error) with
  | [], _ => status
  | _, Some _ => status
  | owners, None => status <| s_gpus := hide_cards owners status.(s_gpus) |>
  end.

Section reserving.
Context (encoded_size : json -> nat) (index_writable : bool).

Definition _reserve_inflight_claims (h : HeadView) (now : Q) (entry : JobEntry)
    (statuses : list NodeStatus) : M (list NodeStatus) := fun r =>
  match active_entries encoded_size index_writable now true r with
  | (Err (RegistryError _), r') => (Ok statuses, r')
  | (Err e, r') => (Err e, r')
  | (Ok (rows, _), r') =>
      let reserved := fold_left (reserve_claim h now entry) rows (∅ : gmap string (list string)) in
      (Ok (hide_status reserved <$> statuses), r')
  end.
End reserving.

(** ** Counting placement attempts *)
Definition reason_kind (outcome_ reason_ : string) : string :=
  let kind := if bool_decide (outcome_ = "unreachable") then outcome_
              else strip (default "" (head (split_on COLON reason_))) in
  if bool_decide (kind = "") then outcome_ else kind.
Definition placement_pattern_of (reasons : list (string * string)) (outcome_ : string) : string :=
  let parts := (fun p => p.1 +:+ "=" +:+ reason_kind outcome_ p.2)
               <$> sort_by (fun a b => str_ltb a.1 b.1) reasons in
  let text := join ";" parts in
  if bool_decide (text = "") then outcome_ else text.

Definition _note_placement_attempt (entry : JobEntry) (pattern : string) (moment : Q) : JobEntry :=
  let entry :=
    if bool_decide (entry.(placement_pattern) = Some pattern) && (0 <? entry.(placement_attempts))
    then entry <| placement_attempts := entry.(placement_attempts) + 1 |>
    else entry <| placement_pattern := Some pattern |> <| placement_attempts := 1 |>
               <| placement_first_failed_at := Some moment |> in
  entry <| placement_last_failed_at := Some moment |>.
