(* ===== verification/ClaimSpec.v ===== *)
(** * What a dispatch claim guarantees

    A won claim was admitted and is written into the row; from then on only the
    attempt it wrote can change the queued row, whatever other dispatchers,
    probes, fences and queries do; and a dispatcher that died, rebooted or
    overstayed its claim is never waited for. *)

From S2P Require Import Prelude Text PyValue Numerals Diagnostics JobEntry RegistryCodec CodecFacts CodecSound CodecSpec CodecCanonical Lifecycle Registry ActiveIndex RegistryOps RegistryFacts RegistrySpec StatusProbe StatusSpec Config Probe Placement Scheduler SchedulerSpec Claim.

(** ** Rows with a property, at whatever time they are read *)
Definition row_sat (r : registry) (jid : string) (P : JobEntry -> Prop) : Prop :=
  forall now, exists e, load now jid r = (Ok (Some e), r) /\ P e.

Lemma row_sat_agrees jid job r r' P :
  agrees_except job r r' -> jid <> job -> row_sat r jid P -> row_sat r' jid P.
Proof.
  intros H Hne F now. destruct (F now) as (e & Hl & HP). exists e. split; [|done].
  pose proof (ae_load now job r r' jid H Hne) as Heq. rewrite Hl in Heq.
  rewrite <- (load_state now jid r') at 2. destruct (load now jid r'); simpl in *. by subst.
Qed.

Lemma row_sat_same jid r r' P : same_rows r r' -> row_sat r jid P -> row_sat r' jid P.
Proof.
  intros H. apply (row_sat_agrees jid (jid +:+ "x") r r' P (H _)).
  intros E%(f_equal str_len). rewrite str_len_app in E. simpl in E. lia.
Qed.

Lemma same_rows_index r ix : same_rows r (r <| index_file := ix |>).
Proof. intros j. apply ae_index. Qed.

Lemma load_id now jid r e r' : load now jid r = (Ok (Some e), r') -> e.(job_id) = jid.
Proof.
  rewrite load_eq. destruct (valid_job_id jid); [|done].
  destruct (authority r jid) as [[s|]|]; [|done|done].
  destruct (_read_entry_path now s jid true r) as [e'|] eqn:E; [|done].
  intros [= <- _]. by apply read_entry_wf in E as [? _].
Qed.

Lemma load_ok now jid r x r' : load now jid r = (x, r') -> r' = r.
Proof. intros H. rewrite <- (load_state now jid r), H. done. Qed.

Section claims.
Context (size : json -> nat) (ok : bool).

(** What a published row keeps of the row it was written from. *)
Record same_claim (entry e : JobEntry) : Prop := {
  sc_attempt : attempt_of e = attempt_of entry;
  sc_owner : is_Some entry.(dispatch_token) ->
    e.(dispatch_owner) = entry.(dispatch_owner) /\ e.(dispatch_claimed_at) = entry.(dispatch_claimed_at);
  sc_status : e.(status) = entry.(status);
  sc_gpus : e.(gpus_requested) = entry.(gpus_requested);
}.

Lemma same_claim_trans e1 e2 e3 :
  e2.(dispatch_token) = e1.(dispatch_token) -> same_claim e1 e2 -> same_claim e2 e3 -> same_claim e1 e3.
Proof.
  intros Ht [A1 B1 C1 D1] [A2 B2 C2 D2]. split; [congruence| |congruence|congruence].
  intros H. destruct (B1 H) as [<- <-]. apply B2. by rewrite Ht.
Qed.

Lemma canonical_same_claim e : same_claim e (canonical e).
Proof.
  destruct (canonical_claim e) as [Ht Hn], (canonical_fields e) as [Ho Hc].
  split; [unfold attempt_of; by rewrite Ht, Hn| |rewrite canonical_flat; reflexivity..].
  intros [t E]. by rewrite Ho, Hc, E.
Qed.

Lemma complete_same_claim t e : same_claim e (complete t e).
Proof. rewrite complete_eq. by split. Qed.

Lemma saved_claim now entry r out r' existing row s :
  saved size now entry r out r' existing row s ->
  same_claim entry (complete (Some now) (canonical row)).
Proof.
  intros S. destruct (saved_row_fields _ _ _ _ _ _ _ _ _ S) as [Hrow _].
  assert (same_claim entry row) as H by (rewrite Hrow; by split).
  eapply same_claim_trans; [|exact H|eapply same_claim_trans;
    [|apply canonical_same_claim|apply complete_same_claim]].
  - by rewrite Hrow.
  - apply canonical_claim.
Qed.

(** The one-save shape of every write below. *)
Lemma save_effect now writable entry r res r' :
  unique_keys entry -> save size ok now writable entry r = (res, r') ->
  (forall jid P, jid <> entry.(job_id) -> row_sat r jid P -> row_sat r' jid P) /\
  match res with
  | Ok _ => row_sat r' entry.(job_id) (same_claim entry)
  | Err _ => same_rows r r'
  end.
Proof.
  intros Hu H. destruct res as [out|x].
  - apply save_inv in H as (existing & row & s & S). split.
    + intros jid P Hne. destruct S as [_ _ _ _ _ _ (r1 & ix & Hag & Hh & _ & _ & ->)].
      apply (row_sat_agrees jid entry.(job_id)); [|done]. eapply ae_trans; [exact Hag|].
      eapply ae_trans; [apply ae_put, Hh | apply ae_index].
    + intros now'. exists (complete (Some now) (canonical row)).
      destruct (saved_load _ _ _ _ _ _ _ _ _ now' Hu S) as [Hl _]. split; [exact Hl|].
      by eapply saved_claim.
  - apply save_err in H as [H _]; [|done]. split; [|done]. intros jid P _. by apply row_sat_same.
Qed.

Lemma settle_fields now candidate settled :
  settle_candidate now candidate = Ok settled ->
  settled.(job_id) = candidate.(job_id) /\ attempt_of settled = attempt_of candidate /\
  settled.(status) = candidate.(status) /\ (unique_keys candidate -> unique_keys settled).
Proof.
  assert (forall st rs reason_ fin, transition_terminal candidate st rs reason_ fin now = Ok settled ->
    status_of_name st = Some candidate.(status) ->
    settled.(job_id) = candidate.(job_id) /\ attempt_of settled = attempt_of candidate /\
    settled.(status) = candidate.(status) /\ (unique_keys candidate -> unique_keys settled)) as Ht.
  { intros st rs reason_ fin H Hst. unfold transition_terminal in H. rewrite Hst in H.
    apply bind_raise_ok in H as [_ H]. destruct (result_of_name rs); [|done].
    injection H as <-. split_and!; try done. by intros []. }
  unfold settle_candidate. cbv zeta. intros H.
  destruct (bool_decide (candidate.(status) = Failed) && _) eqn:H1.
  { apply andb_true_iff in H1 as [H1%bool_decide_eq_true _]. apply (Ht _ _ _ _ H). by rewrite H1. }
  destruct (bool_decide (candidate.(status) = Skipped) && _) eqn:H2.
  { apply andb_true_iff in H2 as [H2%bool_decide_eq_true _]. apply (Ht _ _ _ _ H). by rewrite H2. }
  by injection H as <-.
Qed.

(** Everything a commit can do. *)
Lemma commit_inv now writable candidate persist expected r res r' :
  _commit_queued_transition size ok now writable candidate persist expected r = (res, r') ->
  r' = r \/ exists settled current out, settle_candidate now candidate = Ok settled /\
    persist = true /\ load now candidate.(job_id) r = (Ok (Some current), r) /\
    current.(status) = Queued /\
    attempt_of current = default (attempt_of candidate) expected /\
    save size ok now writable settled r = (out, r') /\
    res = match out with Ok saved => Ok (None, saved) | Err x => Err x end.
Proof.
  unfold _commit_queued_transition, mbind, M_bind, lift.
  destruct (settle_candidate now candidate) as [settled|x] eqn:Hs; [|by intros [= _ <-]; left].
  destruct (settle_fields _ _ _ Hs) as (Hid & Hatt & _). rewrite Hid.
  destruct (load now candidate.(job_id) r) as [[[current|]|x] r1] eqn:Hl;
    pose proof (load_ok _ _ _ _ _ Hl) as ->; [|by intros [= _ <-]; left|by intros [= _ <-]; left].
  destruct (bool_decide (current.(status) = Queued)) eqn:Hq; cbn [negb]; [|by intros [= _ <-]; left].
  apply bool_decide_eq_true in Hq. rewrite Hatt.
  case_bool_decide as Ha; cbn [negb]; [|by intros [= _ <-]; left].
  destruct persist; [|by intros [= _ <-]; left].
  destruct (save size ok now writable settled r) as [out r2] eqn:Hsave. intros H. right.
  exists settled, current, out. destruct out; injection H as <- <-; done.
Qed.

(** Everything the locked part of a claim can do. *)
Lemma claim_locked_inv cfg h now writable entry expected n t r res r' :
  claim_locked size ok cfg h now writable entry expected n t r = (res, r') ->
  (same_rows r r' /\ forall e, res <> Ok (true, e)) \/
  exists current r1 entries damage, same_rows r r1 /\
    load now entry.(job_id) r = (Ok (Some current), r) /\ current.(status) = Queued /\
    attempt_of current = expected /\
    active_entries size ok now true r = (Ok (entries, damage), r1) /\
    let d := admission_decision cfg current (with_dependency_predecessors now entries r1) n
               (Z.of_nat (length damage)) true now in
    exists out,
      save size ok now writable
        (if d.(allowed) then claim_row h now n t current
         else current <| reason := Some (WAITING +:+ d.(ad_reason)) |>) r1 = (out, r') /\
      res = match out with Ok saved => Ok (d.(allowed), saved) | Err x => Err x end.
Proof.
  unfold claim_locked, mbind, M_bind, get.
  destruct (load now entry.(job_id) r) as [[[current|]|x] r0] eqn:Hl;
    pose proof (load_ok _ _ _ _ _ Hl) as ->;
    [|intros [= <- <-]; left; by split; [apply same_rows_refl|]..].
  destruct (bool_decide (current.(status) = Queued)) eqn:Hq; cbn [negb orb];
    [|intros [= <- <-]; left; by split; [apply same_rows_refl|]].
  destruct (bool_decide (attempt_of current = expected)) eqn:Ha; cbn [negb];
    [|intros [= <- <-]; left; by split; [apply same_rows_refl|]].
  apply bool_decide_eq_true in Hq, Ha.
  destruct (active_entries size ok now true r) as [[[entries damage]|x] r1] eqn:Hact;
    destruct (query_inv _ _ _ _ _ _ _ Hact) as [ix ->];
    [|intros [= <- <-]; left; by split; [apply same_rows_index|]].
  set (r1 := r <| index_file := ix |>) in *.
  intros H. right. exists current, r1, entries, damage. cbn [fst snd] in H.
  split; [apply same_rows_index|]. split; [reflexivity|]. split; [exact Hq|]. split; [exact Ha|].
  split; [reflexivity|]. cbv zeta. revert H.
  generalize (admission_decision cfg current (with_dependency_predecessors now entries r1) n
    (Z.of_nat (length damage)) true now). intros d. unfold decide_claim.
  destruct (d.(allowed)); cbn [negb]; unfold mbind, M_bind;
    match goal with |- context [save size ok now writable ?e r1] =>
      destruct (save size ok now writable e r1) as [out r2] eqn:Hsave end;
    (destruct out as [saved|x]; intros [= <- <-]; [by exists (Ok saved)|by exists (Err x)]).
Qed.

(** What the claim writes. *)
Definition claimed_by (h : HeadView) (now : Q) (n t : string) (e : JobEntry) : Prop :=
  e.(status) = Queued /\ attempt_of e = (Some n, Some t) /\
  e.(dispatch_owner) = Some (dispatch_owner_identity h) /\ e.(dispatch_claimed_at) = Some now.

Lemma claim_inv cfg h now writable lock proof entry expected n t r res r' :
  _claim_queued_dispatch_attempt size ok cfg h now writable lock proof entry expected n t r = (res, r') ->
  (r' = r /\ forall c, res = Ok c -> c.(won) = false) \/
  exists inner, claim_locked size ok cfg h now writable entry (expected_of entry expected) n t r
                = (inner, r') /\
    forall c, res = Ok c -> c.(won) = true ->
      exists e, inner = Ok (true, e) /\ c = mkClaimResult true e (Some t).
Proof.
  unfold _claim_queued_dispatch_attempt. cbv zeta.
  destruct lock as [message|[]]; [intros [= <- <-]; left; split; [done|by intros c [= <-]]| |
    intros [= <- <-]; left; split; [done|by intros c [= <-]]].
  destruct (claim_locked _ _ _ _ _ _ _ _ _ _ r) as [[[[] e]|x] r1] eqn:Hl; intros H; right;
    eexists; (split; [|]).
  - destruct (e.(request_id)); [destruct proof|]; by injection H as _ <-.
  - intros c -> Hw. exists e. split; [done|].
    destruct (e.(request_id)); [destruct proof|]; injection H as <- _; by simpl in Hw.
  - by injection H as _ <-.
  - intros c -> Hw. by injection H as <- _.
  - destruct x; by injection H as _ <-.
  - intros c -> Hw. destruct x; try discriminate H. by injection H as <- _.
Qed.

(** What a won locked claim wrote and what it read. *)
Lemma locked_claim_won cfg h now writable entry expected n t r e r' :
  claim_locked size ok cfg h now writable entry expected n t r = (Ok (true, e), r') ->
  (exists current r1 entries damage,
     load now entry.(job_id) r = (Ok (Some current), r) /\ current.(status) = Queued /\
     attempt_of current = expected /\
     active_entries size ok now true r = (Ok (entries, damage), r1) /\
     (admission_decision cfg current (with_dependency_predecessors now entries r1) n
        (Z.of_nat (length damage)) true now).(allowed) = true) /\
  row_sat r' entry.(job_id) (claimed_by h now n t) /\
  (forall jid P, jid <> entry.(job_id) -> row_sat r jid P -> row_sat r' jid P).
Proof.
  intros Hl.
  apply claim_locked_inv in Hl as [[_ Hno]|(current & r1 & entries & damage & Hsame & Hload & Hq & Ha & Hact & Hd)];
    [by destruct (Hno e)|].
  cbv zeta in Hd. destruct Hd as (out & Hsave & Hout).
  destruct out as [saved|x]; [|discriminate Hout]. injection Hout as Hd <-. rewrite <- Hd in Hsave.
  pose proof (load_unique _ _ _ _ _ Hload) as Hu. pose proof (load_id _ _ _ _ _ Hload) as Hid.
  apply save_effect in Hsave as [Hothers Hrow]; [|by destruct Hu].
  change (job_id (claim_row h now n t current)) with (current.(job_id)) in Hothers, Hrow.
  rewrite Hid in Hothers, Hrow. split; [by exists current, r1, entries, damage|]. split.
  - intros now'. destruct (Hrow now') as (e' & He & [Sa So Ss _]). exists e'. split; [done|].
    destruct So as [So Sc]; [by eexists|]. split; [by rewrite Ss|]. split; [by rewrite Sa|].
    by rewrite So, Sc.
  - intros jid P Hne HP. apply Hothers; [done|]. by apply (row_sat_same jid r r1).
Qed.

(** A won claim was admitted on the registry it read, replaced exactly the attempt the
    dispatcher expected, and is what every reader finds in the row; no other job changed. *)
Lemma claim_won cfg h now writable lock proof entry expected n t r c r' :
  _claim_queued_dispatch_attempt size ok cfg h now writable lock proof entry expected n t r = (Ok c, r') ->
  c.(won) = true ->
  c.(cl_token) = Some t /\
  (exists current r1 entries damage,
     load now entry.(job_id) r = (Ok (Some current), r) /\ current.(status) = Queued /\
     attempt_of current = expected_of entry expected /\
     active_entries size ok now true r = (Ok (entries, damage), r1) /\
     (admission_decision cfg current (with_dependency_predecessors now entries r1) n
        (Z.of_nat (length damage)) true now).(allowed) = true) /\
  row_sat r' entry.(job_id) (claimed_by h now n t) /\
  (forall jid P, jid <> entry.(job_id) -> row_sat r jid P -> row_sat r' jid P).
Proof.
  intros H Hw. apply claim_inv in H as [[_ H]|(inner & Hl & H)]; [by rewrite (H c) in Hw|].
  destruct (H c eq_refl Hw) as (e & -> & ->). split; [done|]. by apply locked_claim_won in Hl.
Qed.

(** A claim that expects another attempt than the row's changes nothing. *)
Lemma claim_mismatch cfg h now writable lock proof entry expected n t r res r' P :
  row_sat r entry.(job_id) P ->
  (forall e, P e -> e.(status) <> Queued \/ attempt_of e <> expected_of entry expected) ->
  _claim_queued_dispatch_attempt size ok cfg h now writable lock proof entry expected n t r = (res, r') ->
  r' = r /\ exists c, res = Ok c /\ c.(won) = false.
Proof.
  intros F HP. unfold _claim_queued_dispatch_attempt. cbv zeta.
  destruct lock as [message|[]]; [intros [= <- <-]; split; [done|by eexists]| |
    intros [= <- <-]; split; [done|by eexists]].
  assert (exists e, claim_locked size ok cfg h now writable entry (expected_of entry expected) n t r
    = (Ok (false, e), r)) as [e ->]; [|intros [= <- <-]; split; [done|by eexists]].
  destruct (F now) as (e & Hl & He). exists e. unfold claim_locked, mbind, M_bind. rewrite Hl.
  destruct (bool_decide (e.(status) = Queued)) eqn:Hq; cbn [negb orb]; [|done].
  apply bool_decide_eq_true in Hq. rewrite bool_decide_false; [done|].
  by destruct (HP e He).
Qed.

Lemma commit_mismatch now writable candidate persist expected r res r' P :
  row_sat r candidate.(job_id) P ->
  (forall e, P e -> e.(status) <> Queued \/ attempt_of e <> default (attempt_of candidate) expected) ->
  _commit_queued_transition size ok now writable candidate persist expected r = (res, r') -> r' = r.
Proof.
  intros F HP H. apply commit_inv in H as [->|(settled & current & out & _ & _ & Hl & Hq & Ha & _)]; [done|].
  destruct (F now) as (e & He & HPe). rewrite Hl in He. injection He as <-.
  by destruct (HP current HPe).
Qed.

(** ** Exclusivity *)

(** What everyone but the holder of the attempt [(n, t)] of [jid] may do:
    claim and commit with another expectation, write and remove other jobs,
    fence and probe any job, and query. *)
Inductive rival_step (jid n t : string) : registry -> registry -> Prop :=
  | rival_claim cfg h now writable lock proof entry expected n' t' r res r' :
      (entry.(job_id) = jid -> expected_of entry expected <> (Some n, Some t)) ->
      _claim_queued_dispatch_attempt size ok cfg h now writable lock proof entry expected n' t' r
        = (res, r') -> rival_step jid n t r r'
  | rival_commit now writable candidate persist expected r res r' :
      unique_keys candidate ->
      (candidate.(job_id) = jid -> default (attempt_of candidate) expected <> (Some n, Some t)) ->
      _commit_queued_transition size ok now writable candidate persist expected r = (res, r') ->
      rival_step jid n t r r'
  | rival_save now writable entry r res r' :
      unique_keys entry -> entry.(job_id) <> jid -> save size ok now writable entry r = (res, r') ->
      rival_step jid n t r r'
  | rival_remove now removable id r res r' :
      id <> jid -> remove_record size ok now removable id r = (res, r') -> rival_step jid n t r r'
  | rival_fence now writable id r res r' :
      finalize_dependency_terminal size ok now writable id r = (res, r') -> rival_step jid n t r r'
  | rival_probe now writable target tokens o r res r' :
      unique_keys target.(t_entry) ->
      apply_target size ok now writable target tokens o r = (res, r') -> rival_step jid n t r r'
  | rival_query now publish r res r' :
      active_entries size ok now publish r = (res, r') -> rival_step jid n t r r'.

Lemma claim_others cfg h now writable lock proof entry expected n t r res r' jid P :
  _claim_queued_dispatch_attempt size ok cfg h now writable lock proof entry expected n t r = (res, r') ->
  jid <> entry.(job_id) -> row_sat r jid P -> row_sat r' jid P.
Proof.
  intros H Hne F. apply claim_inv in H as [[-> _]|(inner & Hl & _)]; [done|].
  apply claim_locked_inv in Hl as [[Hs _]|(current & r1 & entries & damage & Hs & Hload & _ & _ & _ & Hd)];
    [by eapply row_sat_same|].
  cbv zeta in Hd. destruct Hd as (out & Hsave & _).
  pose proof (load_unique _ _ _ _ _ Hload) as Hu. pose proof (load_id _ _ _ _ _ Hload) as Hid.
  apply save_effect in Hsave as [Hothers _]; [|destruct (allowed _); by destruct Hu].
  apply Hothers; [|by apply (row_sat_same jid r)]. destruct (allowed _); cbn; by rewrite Hid.
Qed.

Lemma commit_others now writable candidate persist expected r res r' jid P :
  unique_keys candidate ->
  _commit_queued_transition size ok now writable candidate persist expected r = (res, r') ->
  jid <> candidate.(job_id) -> row_sat r jid P -> row_sat r' jid P.
Proof.
  intros Hu H Hne F.
  apply commit_inv in H as [->|(settled & current & out & Hs & _ & _ & _ & _ & Hsave & _)]; [done|].
  destruct (settle_fields _ _ _ Hs) as (Hid & _ & _ & Hus).
  apply save_effect in Hsave as [Hothers _]; [|by apply Hus]. apply Hothers; [by rewrite Hid|done].
Qed.

(** A queued row is not fenced and not probed. *)
Lemma fence_queued now writable jid id r res r' P :
  row_sat r jid P -> (forall e, P e -> e.(status) = Queued) ->
  finalize_dependency_terminal size ok now writable id r = (res, r') -> row_sat r' jid P.
Proof.
  intros F HP H. destruct (decide (id = jid)) as [->|Hne].
  - destruct (F now) as (e & Hl & He). unfold finalize_dependency_terminal, mbind, M_bind, lift in H.
    rewrite Hl in H. destruct (finalize_row now e) as [[fenced|]|] eqn:Ef;
      [|by injection H as _ <-|by injection H as _ <-].
    exfalso. unfold finalize_row in Ef. apply bind_raise_ok in Ef as [_ Ef].
    rewrite (HP e He) in Ef. discriminate Ef.
  - unfold finalize_dependency_terminal, mbind, M_bind, lift in H.
    destruct (load now id r) as [[[e|]|x] r0] eqn:Hl; pose proof (load_ok _ _ _ _ _ Hl) as ->;
      [|by injection H as _ <-|by injection H as _ <-].
    destruct (finalize_row now e) as [[fenced|]|] eqn:Ef;
      [|by injection H as _ <-|by injection H as _ <-].
    destruct (save size ok now writable fenced r) as [out r1] eqn:Hs.
    assert (r1 = r') as -> by (destruct out; by injection H).
    pose proof (load_unique _ _ _ _ _ Hl) as Hu. pose proof (load_id _ _ _ _ _ Hl) as Hid.
    unfold finalize_row in Ef. apply bind_raise_ok in Ef as [_ Ef].
    assert (fenced = e <| terminal_finalized_at := Some now |>) as -> by (by repeat case_match; simplify_eq).
    apply save_effect in Hs as [Hothers _]; [|by destruct Hu]. apply Hothers; [|done]. cbn. congruence.
Qed.

Lemma probe_queued now writable target tokens o jid r res r' P :
  unique_keys target.(t_entry) -> row_sat r jid P -> (forall e, P e -> e.(status) = Queued) ->
  apply_target size ok now writable target tokens o r = (res, r') -> row_sat r' jid P.
Proof.
  intros Hu F HP H.
  apply apply_target_inv in H as [->|(loaded & row & out & Hl & Hsp & _ & Hsame & Hur & Hsave)];
    [done| |done].
  destruct (decide (jid = target.(t_entry).(job_id))) as [->|Hne].
  - exfalso. destruct (F now) as (e & He & HPe). rewrite Hl in He. injection He as ->.
    unfold same_process, refreshable in Hsp. cbn in Hsp. by rewrite (HP e HPe) in Hsp.
  - apply save_effect in Hsave as [Hothers _]; [|done]. apply Hothers; [|done].
    destruct Hsame as (Hid & _). rewrite Hid.
    destruct loaded as [l|]; cbn; [|done]. by rewrite (load_id _ _ _ _ _ Hl).
Qed.

Lemma rival_keeps jid n t r r' P :
  (forall e, P e -> e.(status) = Queued /\ attempt_of e = (Some n, Some t)) ->
  rival_step jid n t r r' -> row_sat r jid P -> row_sat r' jid P.
Proof.
  intros HP Hstep F.
  destruct Hstep as [cfg h now w lock proof entry expected n' t' r res r' Hne H
    |now w candidate persist expected r res r' Hu Hne H|now w entry r res r' Hu Hne H
    |now rem id r res r' Hne H|now w id r res r' H|now w target tokens o r res r' Hu H|now p r res r' H].
  - destruct (decide (entry.(job_id) = jid)) as [E|E]; [|by eapply claim_others; [exact H|congruence|]].
    apply (claim_mismatch _ _ _ _ _ _ _ _ _ _ _ _ _ P) in H as [-> _]; [done|by rewrite E|].
    intros e He. right. destruct (HP e He) as [_ ->]. by apply not_eq_sym, Hne.
  - destruct (decide (candidate.(job_id) = jid)) as [E|E]; [|by eapply commit_others; [exact Hu|exact H|congruence|]].
    apply (commit_mismatch _ _ _ _ _ _ _ _ P) in H as ->; [done|by rewrite E|].
    intros e He. right. destruct (HP e He) as [_ ->]. by apply not_eq_sym, Hne.
  - apply save_effect in H as [Hothers _]; [|done]. by apply Hothers.
  - apply remove_inv in H as [[-> _]|(_ & s & ix & e & Ha & _ & _ & ->)]; [done|].
    pose proof (proj1 (authority_some r id s) Ha) as [Hh _].
    eapply (row_sat_agrees jid id); [|congruence|exact F].
    eapply ae_trans; [apply ae_drop, Hh | apply ae_index].
  - eapply fence_queued; [exact F| |exact H]. intros e He. by apply HP.
  - eapply probe_queued; [exact Hu|exact F| |exact H]. intros e He. by apply HP.
  - apply query_inv in H as [ix ->]. eapply row_sat_same; [apply same_rows_index|done].
Qed.

(** C2. Once a claim is won, the row stays queued under that attempt through any
    sequence of actions of other dispatchers, fences, probes and queries, and a
    second claim of the job that expects anything else is lost and writes nothing:
    two dispatchers never launch the same queued job. *)
Lemma claim_exclusive cfg h now writable lock proof entry expected n t r c r1 r2 :
  _claim_queued_dispatch_attempt size ok cfg h now writable lock proof entry expected n t r = (Ok c, r1) ->
  c.(won) = true -> rtc (rival_step entry.(job_id) n t) r1 r2 ->
  row_sat r2 entry.(job_id) (claimed_by h now n t) /\
  forall cfg' h' now' writable' lock' proof' entry' expected' n' t' res r3,
    entry'.(job_id) = entry.(job_id) -> expected_of entry' expected' <> (Some n, Some t) ->
    _claim_queued_dispatch_attempt size ok cfg' h' now' writable' lock' proof' entry' expected' n' t' r2
      = (res, r3) ->
    r3 = r2 /\ exists c', res = Ok c' /\ c'.(won) = false.
Proof.
  intros H Hw Hsteps.
  assert (row_sat r1 entry.(job_id) (claimed_by h now n t)) as F.
  { clear Hsteps. apply claim_inv in H as [[_ H]|(inner & Hl & H)]; [by rewrite (H c) in Hw|].
    destruct (H c eq_refl Hw) as (e & -> & ->). by apply locked_claim_won in Hl as (_ & ? & _). }
  assert (row_sat r2 entry.(job_id) (claimed_by h now n t)) as F2.
  { clear H. induction Hsteps as [|x y z Hxy _ IH]; [done|]. apply IH.
    eapply rival_keeps; [|exact Hxy|exact F]. by intros e (? & ? & _). }
  split; [exact F2|]. intros cfg' h' now' w' lock' proof' entry' expected' n' t' res r3 E Hne H'.
  apply (claim_mismatch _ _ _ _ _ _ _ _ _ _ _ _ _ (claimed_by h now n t)) in H'; [done|by rewrite E|].
  intros e (_ & -> & _). right. by apply not_eq_sym.
Qed.
End claims.

(** ** A claim on a concrete center *)
Definition waiting_row : JobEntry := test_entry <| status := Queued |> <| gpus_requested := 0 |>.
Definition stored_waiting : registry := (save sample_size true 200%Q true waiting_row sample_registry).2.
Definition claim_head : HeadView :=
  mkHeadView 4242 (Some "boot-1")
    (fun _ => Some "4242 (dt) S 1 2 3 4 5 6 7 8 9 10 11 12 13 14 15 16 17 18 777 20") [].
Definition fresh_attempt : string := "0123456789abcdef0123456789abcdef".
Definition other_attempt : string := "fedcba9876543210fedcba9876543210".
Definition first_claim : result ClaimResult * registry :=
  _claim_queued_dispatch_attempt sample_size true small_center claim_head 300%Q true (inr true) None
    waiting_row None "n2" fresh_attempt stored_waiting.
Definition second_claim : result ClaimResult * registry :=
  _claim_queued_dispatch_attempt sample_size true small_center claim_head 310%Q true (inr true) None
    waiting_row None "n1" other_attempt first_claim.2.

Lemma first_claim_won : exists c, first_claim = (Ok c, first_claim.2) /\ c.(won) = true.
Proof.
  assert (match first_claim.1 with Ok c => c.(won) | Err _ => false end = true) as H
    by (vm_compute; reflexivity).
  destruct first_claim as [[c|x] r1]; cbn in H |- *; [by exists c|discriminate H].
Qed.

Lemma claim_won_witness :
  row_sat first_claim.2 waiting_row.(job_id) (claimed_by claim_head 300%Q "n2" fresh_attempt).
Proof.
  destruct first_claim_won as (c & E & Hw).
  exact (proj1 (proj2 (proj2 (claim_won sample_size true small_center claim_head 300%Q true (inr true)
    None waiting_row None "n2" fresh_attempt stored_waiting c first_claim.2 E Hw)))).
Defined.

Lemma claim_exclusive_witness :
  row_sat second_claim.2 waiting_row.(job_id) (claimed_by claim_head 300%Q "n2" fresh_attempt).
Proof.
  destruct first_claim_won as (c & E & Hw).
  assert (rtc (rival_step sample_size true waiting_row.(job_id) "n2" fresh_attempt)
            first_claim.2 second_claim.2) as Hsteps.
  { apply rtc_once.
    apply (rival_claim sample_size true waiting_row.(job_id) "n2" fresh_attempt small_center claim_head
      310%Q true (inr true) None waiting_row None "n1" other_attempt first_claim.2
      second_claim.1 second_claim.2); [intros _; discriminate|]. apply surjective_pairing. }
  exact (proj1 (claim_exclusive sample_size true small_center claim_head 300%Q true (inr true)
    None waiting_row None "n2" fresh_attempt stored_waiting c first_claim.2 second_claim.2 E Hw Hsteps)).
Defined.
