(* ===== verification/ClaimOwner.v ===== *)
(** * When a claim is waited for

    A dispatcher writes its boot identity, process and start time into the row
    it claims.  Another dispatcher leaves the claim alone exactly while that
    process is the one that wrote it and the claim is fresh; the cards such
    claims are about to take are hidden from every other placement. *)

From S2P Require Import Prelude Text PyValue Numerals JobEntry Lifecycle Registry RegistryOps RegistrySpec Config Probe Placement SchedulerSpec Claim ClaimSpec.

(** ** The owner's identity *)
Lemma boot_id_no_colon h : COLON ∉ chars (_current_head_boot_id h).
Proof.
  unfold _current_head_boot_id. destruct (h.(boot_text)) as [text|]; [|vm_compute; set_solver].
  cbv zeta. destruct (fullmatch _BOOT_ID_RE (strip text)) eqn:E; [|vm_compute; set_solver].
  unfold _BOOT_ID_RE in E. apply fullmatch_single in E as [_ E].
  intros Hin. rewrite Forall_forall in E. specialize (E _ Hin). by vm_compute in E.
Qed.

Lemma digits_no_colon l : Forall is_digit_char l -> COLON ∉ l.
Proof.
  intros H Hin. rewrite Forall_forall in H. destruct (H _ Hin) as (d & Hd & E).
  do 10 (destruct d as [|d]; [discriminate E|]). lia.
Qed.

Lemma split_three (a b c : string) :
  COLON ∉ chars a -> COLON ∉ chars b -> COLON ∉ chars c ->
  split_on COLON (a +:+ ":" +:+ b +:+ ":" +:+ c) = [a; b; c].
Proof.
  intros Ha Hb Hc. unfold split_on. rewrite !chars_app. change (chars ":") with [COLON].
  change (chars a ++ [COLON] ++ chars b ++ [COLON] ++ chars c)
    with (intersperse COLON [chars a; chars b; chars c]).
  rewrite split_intersperse; [by rewrite !fmap_cons, !unchars_chars|done|by repeat constructor].
Qed.

(** A process number and a tick count a kernel can show. *)
Definition kernel_number (z : Z) : Prop := 0 <= z < 10 ^ 20.

Lemma owner_parts h :
  kernel_number h.(own_pid) ->
  kernel_number (default 0 (_process_start_ticks h h.(own_pid))) ->
  split_on COLON (dispatch_owner_identity h)
    = [_current_head_boot_id h; pretty h.(own_pid);
       pretty (default 0 (_process_start_ticks h h.(own_pid)))] /\
  int_or_none (pretty h.(own_pid)) = Some h.(own_pid) /\
  int_or_none (pretty (default 0 (_process_start_ticks h h.(own_pid))))
    = Some (default 0 (_process_start_ticks h h.(own_pid))).
Proof.
  intros Hp Ht. split; [|split].
  - unfold dispatch_owner_identity. apply split_three; [apply boot_id_no_colon|..];
      apply digits_no_colon, pretty_digits; [apply Hp|apply Ht].
  - unfold int_or_none. by rewrite (py_int_pretty _ 20 Hp) by (vm_compute; lia).
  - unfold int_or_none. by rewrite (py_int_pretty _ 20 Ht) by (vm_compute; lia).
Qed.

(** C32. A claim is held by another dispatcher exactly while its owner is alive as
    the process that made it, on the same boot, and for at most
    [DISPATCH_CLAIM_STALE_S]; its own process holds it while one of its threads
    dispatches the job.  A crashed, rebooted or wedged owner never blocks a job
    for good. *)
Lemma claim_held_iff writer reader claimed_at now n t row :
  kernel_number writer.(own_pid) ->
  kernel_number (default 0 (_process_start_ticks writer writer.(own_pid))) ->
  is_Some (_dispatch_claim_hold_reason reader now (claim_row writer claimed_at n t row)) <->
  if writer.(own_pid) =? reader.(own_pid) then row.(job_id) ∈ reader.(inflight_others)
  else _current_head_boot_id writer = _current_head_boot_id reader /\
    (now - claimed_at <= DISPATCH_CLAIM_STALE_S)%Q /\
    exists ticks, _process_start_ticks reader writer.(own_pid) = Some ticks /\
      (default 0 (_process_start_ticks writer writer.(own_pid)) = 0 \/
       default 0 (_process_start_ticks writer writer.(own_pid)) = ticks).
Proof.
  intros Hp Ht. destruct (owner_parts writer Hp Ht) as (Hs & Hpid & Htick).
  unfold _dispatch_claim_hold_reason. cbv zeta.
  change (dispatch_owner (claim_row writer claimed_at n t row)) with (Some (dispatch_owner_identity writer)).
  change (dispatch_claimed_at (claim_row writer claimed_at n t row)) with (Some claimed_at).
  change (job_id (claim_row writer claimed_at n t row)) with (job_id row).
  cbv iota beta. rewrite Hs, Hpid, Htick.
  set (ticks := default 0 _) in *.
  destruct (Z.eqb_spec writer.(own_pid) reader.(own_pid)) as [E|E].
  { case_bool_decide as Hin; [by split; [|eexists]|]. split; [by intros [? [=]]|done]. }
  destruct (bool_decide (_current_head_boot_id writer = _current_head_boot_id reader)) eqn:Hb;
    cbn [negb]; [apply bool_decide_eq_true in Hb|apply bool_decide_eq_false in Hb; split;
      [by intros [? [=]]|by intros [? _]]].
  destruct (_process_start_ticks reader writer.(own_pid)) as [observed|];
    [|split; [by intros [? [=]]|by intros (_ & _ & ? & [=] & _)]].
  destruct (negb (ticks =? 0) && negb (observed =? ticks)) eqn:Eticks.
  { apply andb_true_iff in Eticks as [H1 H2]. autorewrite with to_prop in H1, H2.
    split; [by intros [? [=]]|]. intros (_ & _ & ? & [= <-] & [?|?]); congruence. }
  assert (ticks = 0 \/ ticks = observed) as Hticks.
  { apply andb_false_iff in Eticks. autorewrite with to_prop in Eticks. destruct Eticks; [by left|by right]. }
  q_case; split.
  - by intros [? [=]].
  - intros (_ & ? & _). lra.
  - intros _. split; [done|]. split; [lra|]. by exists observed.
  - by eexists.
Qed.

(** ** Hidden cards *)

(** The cards live claims of other jobs are about to take from a node. *)
Definition claimed_cards (h : HeadView) (now : Q) (entry : JobEntry) (node : string)
    (rows : list JobEntry) : list string :=
  concat ((fun row =>
    if bool_decide (row.(dispatch_node) = Some node) && bool_decide (row.(job_id) <> entry.(job_id))
       && bool_decide (row.(status) = Queued)
       && bool_decide (is_Some (_dispatch_claim_hold_reason h now row))
    then replicate (Z.to_nat row.(gpus_requested)) row.(job_id) else []) <$> rows).

Lemma reserve_claims_spec h now entry rows node : forall reserved,
  default [] (fold_left (reserve_claim h now entry) rows reserved !! node)
  = default [] (reserved !! node) ++ claimed_cards h now entry node rows.
Proof.
  induction rows as [|row rows IH]; intros reserved; [by rewrite app_nil_r|].
  cbn [fold_left]. rewrite IH. unfold claimed_cards. rewrite fmap_cons. cbn [concat].
  rewrite app_assoc. f_equal. unfold reserve_claim.
  destruct (row.(dispatch_node)) as [n|]; [|by rewrite bool_decide_false, app_nil_r].
  destruct (decide (n = node)) as [->|Hn].
  - rewrite (bool_decide_true (Some node = Some node)) by done.
    destruct (decide (row.(job_id) = entry.(job_id))) as [Ej|Ej].
    { rewrite bool_decide_true, (bool_decide_false (row.(job_id) <> _)) by naive_solver.
      cbn. by rewrite app_nil_r. }
    rewrite (bool_decide_false (row.(job_id) = _)), (bool_decide_true (row.(job_id) <> _)) by done.
    destruct (bool_decide (row.(status) = Queued)); cbn; [|by rewrite app_nil_r].
    destruct (_dispatch_claim_hold_reason h now row) as [d|].
    + rewrite (bool_decide_false (Some d = None)), (bool_decide_true (is_Some (Some d))) by done.
      rewrite orb_false_r. destruct (Z.leb_spec row.(gpus_requested) 0) as [Hg|Hg].
      * rewrite Z2Nat.nonpos by done. by rewrite app_nil_r.
      * by rewrite lookup_insert_eq.
    + rewrite (bool_decide_true (None = None)), (bool_decide_false (is_Some None)), orb_true_r
        by (done || by intros []). by rewrite app_nil_r.
  - rewrite (bool_decide_false (Some n = Some node)) by congruence. cbn. rewrite app_nil_r.
    repeat case_match; [done|]. by rewrite lookup_insert_ne.
Qed.

Lemma hide_cards_free owners : forall gpus,
  length (List.filter Probe.free (hide_cards owners gpus))
    = (length (List.filter Probe.free gpus) - length owners)%nat /\
  Forall2 (fun g g' => g'.(Probe.index) = g.(Probe.index) /\
    (g'.(Probe.free) = true -> g' = g)) gpus (hide_cards owners gpus).
Proof.
  intros gpus. revert owners. induction gpus as [|g gpus IH]; intros owners; [by split|].
  cbn [hide_cards]. destruct owners as [|o owners].
  { split; [cbn [length]; lia|]. constructor; [done|]. clear. induction gpus; by constructor. }
  destruct (g.(Probe.free)) eqn:E; cbn [List.filter].
  - destruct (IH owners) as [H1 H2]. rewrite E. cbn [Probe.free set_field length]. cbn.
    split; [exact H1|]. by constructor.
  - destruct (IH (o :: owners)) as [H1 H2]. rewrite E. split; [exact H1|]. by constructor.
Qed.

(** The statuses placement sees show, on each node that answered, the free
    cards less those other live claims are about to take, and never a card as
    free that the probe did not show free. *)
Lemma inflight_claims_hidden size ok h now entry statuses r rows damage r1 out r' :
  active_entries size ok now true r = (Ok (rows, damage), r1) ->
  _reserve_inflight_claims size ok h now entry statuses r = (Ok out, r') ->
  Forall2 (fun s s' => s'.(s_node) = s.(s_node) /\ s'.(s_error) = s.(s_error) /\
    (s.(s_error) = None ->
       length (free_gpus s') = (length (free_gpus s) - length (claimed_cards h now entry s.(s_node) rows))%nat) /\
    Forall2 (fun g g' => g'.(Probe.index) = g.(Probe.index) /\ (g'.(Probe.free) = true -> g' = g))
      s.(s_gpus) s'.(s_gpus)) statuses out.
Proof.
  intros Ha. unfold _reserve_inflight_claims. rewrite Ha. cbv zeta. intros [= <- _].
  pose proof (fun node => reserve_claims_spec h now entry rows node ∅) as Hres.
  set (reserved := fold_left _ rows ∅) in *. clearbody reserved.
  assert (forall gpus : list Gpu, Forall2 (fun g g' => g'.(Probe.index) = g.(Probe.index) /\
    (g'.(Probe.free) = true -> g' = g)) gpus gpus) as Hrefl by (intros l; by induction l; constructor).
  induction statuses as [|s l IH]; [constructor|]. rewrite fmap_cons. constructor; [|exact IH].
  specialize (Hres s.(s_node)). rewrite lookup_empty in Hres. cbn [default app] in Hres.
  unfold hide_status. rewrite Hres.
  destruct (claimed_cards h now entry s.(s_node) rows) as [|o owners] eqn:Eo.
  - split_and!; try done. intros _. cbn [length]. lia.
  - destruct (s.(s_error)) as [e|] eqn:Ee.
    + rewrite Ee. split_and!; try done.
    + destruct (hide_cards_free (o :: owners) s.(s_gpus)) as [H1 H2]. cbn. rewrite Ee.
      split_and!; try done.
Qed.

(** ** Attempt patterns *)
Lemma sorted_pairs_unique {B} (l l' : list (string * B)) :
  NoDup l.*1 -> l ≡ₚ l' ->
  sort_by (fun a b => str_ltb a.1 b.1) l = sort_by (fun a b => str_ltb a.1 b.1) l'.
Proof.
  intros Hnd Hp.
  apply (StronglySorted_unique_strong (fun a b : string * B => str_ltb b.1 a.1 = false)).
  - intros x y Hx Hy H1 H2. rewrite sort_by_perm in Hx, Hy. rewrite <- Hp in Hy.
    assert (x.1 = y.1) as E by (by apply str_ltb_total).
    apply list_elem_of_lookup in Hx as [i Hi], Hy as [j Hj].
    assert (i = j) as ->; [|congruence].
    apply (NoDup_lookup l.*1 i j x.1); [done|..]; rewrite list_lookup_fmap;
      [by rewrite Hi|by rewrite Hj; cbn; rewrite E].
  - apply sort_by_sorted; [intros a b c; apply str_ltb_false_trans|intros a b; apply str_ltb_asym].
  - apply sort_by_sorted; [intros a b c; apply str_ltb_false_trans|intros a b; apply str_ltb_asym].
  - by rewrite !sort_by_perm.
Qed.

(** The pattern of a placement attempt does not depend on the order the nodes
    were tried in, nor, for an outage, on what the transport said. *)
Lemma placement_pattern_stable reasons reasons' o :
  NoDup reasons.*1 -> NoDup reasons'.*1 ->
  (fun p => (p.1, reason_kind o p.2)) <$> reasons ≡ₚ (fun p => (p.1, reason_kind o p.2)) <$> reasons' ->
  placement_pattern_of reasons o = placement_pattern_of reasons' o.
Proof.
  intros Hn Hn' Hp. unfold placement_pattern_of. cbv zeta.
  assert (forall l : list (string * string),
    (fun p => p.1 +:+ "=" +:+ reason_kind o p.2) <$> sort_by (fun a b => str_ltb a.1 b.1) l
    = (fun p => p.1 +:+ "=" +:+ p.2) <$>
        sort_by (fun a b => str_ltb a.1 b.1) ((fun p => (p.1, reason_kind o p.2)) <$> l)) as Hmap.
  { intros l. rewrite <- (sort_by_fmap (fun p => (p.1, reason_kind o p.2))
      (fun a b => str_ltb a.1 b.1) (fun a b => str_ltb a.1 b.1)) by done.
    by rewrite <- list_fmap_compose. }
  rewrite !Hmap. erewrite sorted_pairs_unique; [reflexivity| |exact Hp].
  by rewrite <- list_fmap_compose.
Qed.

(** ** A live owner, a stale one and two refusals *)
Definition other_head : HeadView :=
  mkHeadView 77 (Some "boot-1") (claim_head.(stat_text)) [].

Lemma claim_held_iff_witness :
  is_Some (_dispatch_claim_hold_reason other_head 400%Q (claim_row claim_head 300%Q "n2" fresh_attempt waiting_row)) /\
  ~ is_Some (_dispatch_claim_hold_reason other_head 20000%Q (claim_row claim_head 300%Q "n2" fresh_attempt waiting_row)).
Proof.
  assert (kernel_number claim_head.(own_pid)) as Hp by (vm_compute; split; [intros [=]|reflexivity]).
  assert (kernel_number (default 0 (_process_start_ticks claim_head claim_head.(own_pid)))) as Ht
    by (vm_compute; split; [intros [=]|reflexivity]).
  split.
  - apply (claim_held_iff claim_head other_head 300%Q 400%Q "n2" fresh_attempt waiting_row Hp Ht).
    split; [reflexivity|]. split; [vm_compute; intros [=]|]. exists 777. split; [vm_compute; reflexivity|].
    right. vm_compute. reflexivity.
  - intros H. apply (claim_held_iff claim_head other_head 300%Q 20000%Q "n2" fresh_attempt waiting_row Hp Ht) in H.
    destruct H as (_ & H & _). vm_compute in H. by apply H.
Defined.

Lemma inflight_claims_hidden_witness :
  match _reserve_inflight_claims sample_size true claim_head 400%Q waiting_row
          [mkStatus "n2" [] None None None false false] stored_waiting with
  | (Ok out, _) => 1%nat = length out
  | _ => False
  end.
Proof.
  assert (match active_entries sample_size true 400%Q true stored_waiting with
          | (Ok _, _) => true | _ => false end = true) as Ha by (vm_compute; reflexivity).
  destruct (active_entries sample_size true 400%Q true stored_waiting) as [[[rows damage]|] r1] eqn:E;
    [|discriminate Ha].
  assert (match (_reserve_inflight_claims sample_size true claim_head 400%Q waiting_row
          [mkStatus "n2" [] None None None false false] stored_waiting).1 with Ok _ => true | _ => false end = true)
    as Hb by (vm_compute; reflexivity).
  destruct (_reserve_inflight_claims _ _ _ _ _ _ stored_waiting) as [[out|x] r'] eqn:E'; [|discriminate Hb].
  pose proof (inflight_claims_hidden sample_size true claim_head 400%Q waiting_row _ stored_waiting rows damage r1
    out r' E E') as H. exact (Forall2_length _ _ _ H).
Defined.

Lemma placement_pattern_stable_witness :
  placement_pattern_of [("n2", "busy: a"); ("n1", "ssh: no route")] "unreachable"
  = placement_pattern_of [("n1", "ssh: timeout"); ("n2", "busy: b")] "unreachable".
Proof.
  apply placement_pattern_stable; [apply (bool_decide_unpack _); vm_compute; exact I..|].
  vm_compute. apply perm_swap.
Defined.
