(* ===== verification/Gate.v ===== *)
(** * The dependency gate of a queued job ([dispatch/queued.py])

    Before a queued job is placed, its lost predecessors are fenced where their
    rescue window has passed, and then, under the job's lock, each dependency
    is judged on the predecessor's row: the job passes, waits, fails or is
    skipped, and what the judgement decides is saved before anything else. *)

From S2P Require Import Prelude Text PyValue JobEntry Lifecycle Registry ActiveIndex RegistryOps Placement Scheduler Claim.

(** What the gate does with the queued row for one dependency. *)
Inductive action :=
  | Pass
  | WaitFor (detail : string)
  | FailWith (detail : string)
  | SkipWith (detail : string).

(** [_load_predecessor]: the row, no row, or one that cannot be read. *)
Inductive predecessor :=
  | Found (entry : JobEntry)
  | NotFound
  | Unreadable (detail : string).

Definition _job_succeeded (entry : JobEntry) : bool :=
  bool_decide (entry.(status) = Finished) && bool_decide (entry.(exit_code) = Some 0)
  && bool_decide (effective_result_state entry = Some Success).

(** ** The three judgements *)
Definition judge_success (dependency : string) (p : predecessor) : action :=
  match p with
  | Unreadable detail => WaitFor detail
  | NotFound => FailWith ("dependency " +:+ dependency +:+ " was not found")
  | Found p =>
      if negb (dependency_settled p) then
        WaitFor (if bool_decide (p.(status) = Lost)
                 then "dependency " +:+ dependency +:+ " is lost but inside the rescue window"
                 else "dependency " +:+ dependency +:+ " is " +:+ status_name p.(status))
      else if negb (_job_succeeded p) then
        SkipWith ("dependency " +:+ dependency +:+ " did not succeed: " +:+ status_name p.(status)
          +:+ match p.(exit_code) with Some c => ", exit " +:+ pretty c | None => "" end
          +:+ (if bool_decide (p.(result_state) = Some ScientificReject)
               then ", result " +:+ result_name ScientificReject else ""))
      else Pass
  end.

Definition judge_complete (dependency : string) (p : predecessor) : action :=
  match p with
  | Unreadable detail => WaitFor detail
  | NotFound => FailWith ("completion dependency " +:+ dependency +:+ " was not found")
  | Found p =>
      if negb (dependency_settled p)
      then WaitFor ("completion dependency " +:+ dependency +:+ " is " +:+ status_name p.(status))
      else Pass
  end.

Definition judge_result (states : list result_state_t) (dependency : string) (p : predecessor)
  : action :=
  match p with
  | Unreadable detail => WaitFor detail
  | NotFound => FailWith ("result dependency " +:+ dependency +:+ " was not found")
  | Found p =>
      if negb (dependency_settled p)
      then WaitFor ("result dependency " +:+ dependency +:+ " is " +:+ status_name p.(status))
      else if negb (bool_decide (observed_result p ∈ result_name <$> states)) then
        SkipWith ("result dependency " +:+ dependency +:+ " completed as " +:+ observed_result p
          +:+ "; expected one of " +:+ join "," (result_name <$> states))
      else Pass
  end.

(** [dict.fromkeys(dependencies)]: the first occurrence of each key. *)
Fixpoint from_keys (seen l : list (option string)) : list (option string) :=
  match l with
  | [] => []
  | d :: rest =>
      if bool_decide (d ∈ seen) then from_keys seen rest else d :: from_keys (d :: seen) rest
  end.

Section gate.
Context (encoded_size : json -> nat) (index_writable : bool) (now : Q) (writable : bool).

Definition _load_predecessor (dependency : string) : M predecessor := fun r =>
  let unreadable := Unreadable ("registry row for dependency " +:+ dependency +:+ " is unreadable") in
  match load now dependency r with
  | (Ok (Some p), r') => (Ok (Found p), r')
  | (Ok None, r') => (Ok NotFound, r')
  | (Err e, r') =>
      if is_value_error e || match e with RegistryError _ => true | _ => false end
      then (Ok unreadable, r') else (Err e, r')
  end.

Fixpoint finalize_rows (dependent : string) (dependencies_ : list (option string)) : M unit :=
  match dependencies_ with
  | [] => mret tt
  | None :: rest => finalize_rows dependent rest
  | Some d :: rest =>
      if bool_decide (d = dependent) then finalize_rows dependent rest
      else fun r =>
        match finalize_dependency_terminal encoded_size index_writable now writable d r with
        | (Ok _, r') => finalize_rows dependent rest r'
        | (Err e, r') =>
            if is_value_error e || match e with RegistryError _ => true | _ => false end
            then finalize_rows dependent rest r' else (Err e, r')
        end
  end.
Definition _finalize_dependency_rows (dependencies_ : list (option string)) (dependent : string)
  : M unit := finalize_rows dependent (from_keys [] dependencies_).

(** The row an action writes; [None] when the stored row already says it. *)
Definition action_row (current : JobEntry) (a : action) : option JobEntry :=
  match a with
  | Pass => match current.(reason) with None => None | Some _ => Some (current <| reason := None |>) end
  | WaitFor detail =>
      if bool_decide (current.(reason) = Some (WAITING +:+ detail)) then None
      else Some (current <| reason := Some (WAITING +:+ detail) |>)
  | FailWith detail =>
      Some (current <| status := Failed |> <| result_state := Some InfraFailure |>
                    <| reason := Some detail |> <| finished_at := Some now |>)
  | SkipWith detail =>
      Some (current <| status := Skipped |> <| result_state := Some DependencySkipped |>
                    <| reason := Some detail |> <| finished_at := Some now |>)
  end.
Definition action_outcome (a : action) : option outcome :=
  match a with
  | Pass => None
  | WaitFor detail => Some ("waiting", Some detail)
  | FailWith detail => Some ("failed", Some detail)
  | SkipWith detail => Some ("skipped", Some detail)
  end.

(** The outcome to return, or [None] to go on, with the row as saved. *)
Definition act (current : JobEntry) (a : action) : M (option outcome * JobEntry) :=
  match action_row current a with
  | None => mret (action_outcome a, current)
  | Some row => saved ← save encoded_size index_writable now writable row;
                mret (action_outcome a, saved)
  end.

(** One block of the gate; [kind] starts its messages. *)
Definition gate_block (kind : string) (judge : string -> predecessor -> action)
    (dependency : option string) (current : JobEntry) : M (option outcome * JobEntry) :=
  match dependency with
  | None => mret (None, current)
  | Some d =>
      if bool_decide (d = current.(job_id))
      then act current (FailWith (kind +:+ " " +:+ d +:+ " points to the same job"))
      else p ← _load_predecessor d; act current (judge d p)
  end.

(** The blocks in order, while none stops. *)
Definition and_then (m : M (option outcome * JobEntry)) (f : JobEntry -> M (option outcome * JobEntry))
  : M (option outcome * JobEntry) :=
  x ← m; match x.1 with Some _ => mret x | None => f x.2 end.

Definition gate_blocks (current : JobEntry) : M (option outcome * JobEntry) :=
  and_then (gate_block "dependency" judge_success current.(after_success) current) (fun current =>
  and_then (gate_block "completion dependency" judge_complete current.(after_complete) current) (fun current =>
  gate_block "result dependency" (judge_result current.(after_result_states)) current.(after_result)
    current)).

(** [_dispatch_queued_gated] up to the call of [_dispatch_queued_active]: the
    outcome it returns, or [None] when placement may proceed, with the caller's
    row as it leaves it. *)
Definition _dispatch_queued_gated (entry : JobEntry) : M (option outcome * JobEntry) :=
  _finalize_dependency_rows [entry.(after_success); entry.(after_complete); entry.(after_result)]
    entry.(job_id) ;;
  found ← load now entry.(job_id);
  let current := default entry found in
  if negb (bool_decide (current.(status) = Queued))
  then mret (Some (_existing_dispatch_outcome current), current)
  else gate_blocks current.
End gate.
