(* ===== verification/GateSpec.v ===== *)
(** * What the dependency gate guarantees

    A job reaches placement only while its row is queued and every predecessor
    it names is settled and satisfies the condition; a skip or a failure is
    stored before it is reported, and a skip only follows a settled
    predecessor.  The queue forecast and the gate judge alike. *)

From S2P Require Import Prelude Text PyValue JobEntry RegistryCodec CodecFacts CodecSound CodecSpec CodecCanonical Lifecycle Registry ActiveIndex RegistryOps RegistryFacts RegistrySpec Placement Scheduler Claim ClaimSpec Gate.

(** ** The judgements *)
Lemma judge_success_pass d p :
  judge_success d p = Pass <->
  exists e, p = Found e /\ dependency_settled e = true /\ _job_succeeded e = true.
Proof.
  split.
  - destruct p as [e| |why]; cbn; [|done|done]. intros H. exists e.
    destruct (dependency_settled e), (_job_succeeded e); cbn in H; try done.
  - intros (e & -> & Hs & Hok). cbn. by rewrite Hs, Hok.
Qed.

Lemma judge_complete_pass d p :
  judge_complete d p = Pass <-> exists e, p = Found e /\ dependency_settled e = true.
Proof.
  split.
  - destruct p as [e| |why]; cbn; [|done|done]. intros H. exists e.
    by destruct (dependency_settled e).
  - intros (e & -> & Hs). cbn. by rewrite Hs.
Qed.

Lemma judge_result_pass states d p :
  judge_result states d p = Pass <->
  exists e, p = Found e /\ dependency_settled e = true /\ observed_result e ∈ result_name <$> states.
Proof.
  split.
  - destruct p as [e| |why]; unfold judge_result; [|done|done]. intros H. exists e.
    destruct (dependency_settled e); cbn [negb] in H; [|done].
    split; [done|]. split; [done|]. by case_bool_decide.
  - intros (e & -> & Hs & Hin). unfold judge_result. rewrite Hs. cbn [negb].
    by rewrite bool_decide_true.
Qed.

(** A judgement skips only on a predecessor it found settled. *)
Definition skips_settled (judge : string -> predecessor -> action) : Prop :=
  forall d p detail, judge d p = SkipWith detail ->
    exists e, p = Found e /\ dependency_settled e = true.

Lemma judge_success_skips : skips_settled judge_success.
Proof.
  intros d [e| |why] detail; cbn; try done. intros H. exists e.
  by destruct (dependency_settled e).
Qed.
Lemma judge_complete_skips : skips_settled judge_complete.
Proof. intros d [e| |why] detail; cbn; try done. by destruct (dependency_settled e). Qed.
Lemma judge_result_skips states : skips_settled (judge_result states).
Proof.
  intros d [e| |why] detail; unfold judge_result; try done. intros H. exists e.
  by destruct (dependency_settled e).
Qed.

(** ** The row through a save *)

(** What the gate reads of its row survives publication. *)
Record same_gate (a b : JobEntry) : Prop := {
  sg_id : b.(job_id) = a.(job_id);
  sg_status : b.(status) = a.(status);
  sg_result : b.(result_state) = a.(result_state);
  sg_finished : b.(finished_at) = a.(finished_at);
  sg_success : b.(after_success) = a.(after_success);
  sg_complete : b.(after_complete) = a.(after_complete);
  sg_after : b.(after_result) = a.(after_result);
  sg_states : b.(after_result_states) = a.(after_result_states);
  sg_final : b.(terminal_finalized_at) = a.(terminal_finalized_at);
}.
Lemma same_gate_refl a : same_gate a a.
Proof. by split. Qed.
Lemma same_gate_trans a b c : same_gate a b -> same_gate b c -> same_gate a c.
Proof. intros [] []. split; congruence. Qed.
Lemma same_gate_sym a b : same_gate a b -> same_gate b a.
Proof. intros []. by split. Qed.

Lemma canonical_same_gate e : same_gate e (canonical e).
Proof. rewrite canonical_flat. by split. Qed.
Lemma complete_same_gate t e : same_gate e (complete t e).
Proof. rewrite complete_eq. by split. Qed.

Section gate.
Context (size : json -> nat) (ok : bool) (now : Q) (writable : bool).

(** The row of a job, as a reader finds it now. *)
Definition row_now (r : registry) (jid : string) (P : JobEntry -> Prop) : Prop :=
  exists e, load now jid r = (Ok (Some e), r) /\ P e.

Lemma row_now_load r r' jid P :
  (load now jid r').1 = (load now jid r).1 -> row_now r jid P -> row_now r' jid P.
Proof.
  intros Heq (e & Hl & HP). exists e. split; [|done]. rewrite Hl in Heq.
  rewrite <- (load_state now jid r') at 2. destruct (load now jid r'); cbn in Heq |- *. by subst.
Qed.

Lemma saved_out entry r out r' existing row s :
  saved size now entry r out r' existing row s -> unique_keys entry ->
  same_gate entry row /\ same_gate entry out /\ unique_keys out.
Proof.
  intros S Hu. destruct (saved_row_fields _ _ _ _ _ _ _ _ _ S) as [Hrow _].
  assert (same_gate entry row) as Hg by (rewrite Hrow; by split). split; [done|].
  pose proof (saved_unique _ _ _ _ _ _ _ _ _ Hu S) as Hur.
  destruct S as [_ _ _ (filled & persisted & Hf & _ & _ & -> & _) _ _ _].
  destruct (filled.(custom_env_loaded)) eqn:E; [done|].
  pose proof (unique_keys_fill r.(head_role) existing entry Hu) as Huf. rewrite <- Hf in Huf.
  assert (stamp now filled = filled <| updated_at := Some now |>) as ->.
  { unfold stamp. cbn. by rewrite E. }
  split.
  - subst filled. unfold fill_layout. by repeat case_match; split.
  - by destruct Huf.
Qed.

Lemma save_gate entry r out r' :
  unique_keys entry -> save size ok now writable entry r = (Ok out, r') ->
  same_gate entry out /\ unique_keys out /\ row_now r' entry.(job_id) (same_gate entry).
Proof.
  intros Hu H. apply save_inv in H as (existing & row & s & S).
  destruct (saved_out _ _ _ _ _ _ _ S Hu) as (Hg & Ho & Huo). split; [done|]. split; [done|].
  exists (complete (Some now) (canonical row)). split; [by eapply saved_load|].
  eapply same_gate_trans; [exact Hg|]. eapply same_gate_trans; [apply canonical_same_gate|].
  apply complete_same_gate.
Qed.

(** ** One action *)

(** What an action leaves of the row. *)
Definition after_action (current : JobEntry) (a : action) : JobEntry :=
  match a with
  | Pass | WaitFor _ => current
  | FailWith _ => current <| status := Failed |> <| result_state := Some InfraFailure |>
                          <| finished_at := Some now |>
  | SkipWith _ => current <| status := Skipped |> <| result_state := Some DependencySkipped |>
                          <| finished_at := Some now |>
  end.

Lemma action_row_gate current a row :
  action_row now current a = Some row -> unique_keys current ->
  same_gate (after_action current a) row /\ unique_keys row.
Proof.
  intros H Hu. destruct a; cbn in H.
  - destruct (current.(reason)); [|done]. injection H as <-. split; [by split|by destruct Hu].
  - case_bool_decide; [done|]. injection H as <-. split; [by split|by destruct Hu].
  - injection H as <-. split; [by split|by destruct Hu].
  - injection H as <-. split; [by split|by destruct Hu].
Qed.

(** The stored row of the job, if any, is the gate's. *)
Definition stored_as (r : registry) (current : JobEntry) : Prop :=
  forall e, load now current.(job_id) r = (Ok (Some e), r) -> same_gate current e.

Lemma row_now_stored r current :
  row_now r current.(job_id) (same_gate current) -> stored_as r current.
Proof. intros (e & Hl & He) e' Hl'. rewrite Hl in Hl'. by injection Hl' as <-. Qed.

Definition same_others (jid : string) (r r' : registry) : Prop :=
  forall j, j <> jid -> (load now j r').1 = (load now j r).1.

(** What an action did to the store and to the row the gate goes on with. *)
Record acted (current : JobEntry) (r : registry) (a : action) (current' : JobEntry) (r' : registry)
  : Prop := {
  at_unique : unique_keys current';
  at_row : same_gate (after_action current a) current';
  at_kept : stored_as r current -> stored_as r' current';
  at_stored : match a with FailWith _ | SkipWith _ => row_now r' current.(job_id) (same_gate current')
              | _ => True end;
  at_others : same_others current.(job_id) r r';
}.

Lemma act_spec current a r o current' r' :
  unique_keys current -> act size ok now writable current a r = (Ok (o, current'), r') ->
  o = action_outcome a /\ acted current r a current' r'.
Proof.
  intros Hu H. unfold act in H.
  destruct (action_row now current a) as [row|] eqn:Ha.
  - apply M_bind_ok in H as (out & r1 & Hs & H).
    apply M_ret_ok in H as [E <-]. injection E as -> ->.
    destruct (action_row_gate _ _ _ Ha Hu) as [Hg Hur].
    assert (row.(job_id) = current.(job_id)) as Hid.
    { rewrite (sg_id _ _ Hg). by destruct a. }
    destruct (save_gate _ _ _ _ Hur Hs) as (Ho & Huo & Hr). rewrite Hid in Hr.
    assert (row_now r' current.(job_id) (same_gate out)) as Hrow.
    { destruct Hr as (e & He & Hse). exists e. split; [done|].
      eapply same_gate_trans; [apply same_gate_sym, Ho|done]. }
    assert (out.(job_id) = current.(job_id)) as Hoid by (rewrite (sg_id _ _ Ho); done).
    split; [done|]. split; [done|by eapply same_gate_trans| |by destruct a|].
    { intros _. apply row_now_stored. by rewrite Hoid. }
    intros jid Hne. eapply save_others; [exact Hur|exact Hs|congruence].
  - apply M_ret_ok in H as [E ->]. injection E as -> ->.
    assert (after_action current a = current) as E by (by destruct a).
    split; [done|]. split; [done|rewrite E; apply same_gate_refl|done|by destruct a|done].
Qed.

Lemma acted_id current r a current' r' :
  acted current r a current' r' -> current'.(job_id) = current.(job_id).
Proof. intros [_ H _ _ _]. rewrite (sg_id _ _ H). by destruct a. Qed.

(** ** One block *)

(** The reads of a predecessor leave the store alone. *)
Lemma load_predecessor_inv d r p r' :
  _load_predecessor now d r = (Ok p, r') ->
  r' = r /\ forall e, p = Found e -> load now d r = (Ok (Some e), r).
Proof.
  unfold _load_predecessor. destruct (load now d r) as [x r1] eqn:Hl.
  pose proof (load_ok _ _ _ _ _ Hl) as ->.
  destruct x as [[e|]|x]; [intros [= <- <-]|intros [= <- <-]|]; [by split; [|intros ? [= ->]]|done|].
  destruct (is_value_error x || _); [intros [= <- <-]|done]. done.
Qed.

Definition passes_found (judge : string -> predecessor -> action) : Prop :=
  forall d p, judge d p = Pass -> exists e, p = Found e.

Lemma block_spec kind judge dep current r o current' r' :
  skips_settled judge -> passes_found judge -> unique_keys current ->
  gate_block size ok now writable kind judge dep current r = (Ok (o, current'), r') ->
  exists a, o = action_outcome a /\ acted current r a current' r' /\
    (a = Pass -> forall d, dep = Some d ->
       d <> current.(job_id) /\ row_now r' d (fun e => judge d (Found e) = Pass)) /\
    (forall detail, a = SkipWith detail -> exists d, dep = Some d /\ d <> current.(job_id) /\
       row_now r' d (fun e => dependency_settled e = true /\ judge d (Found e) = SkipWith detail)).
Proof.
  intros Hskip Hfound Hu H. unfold gate_block in H. destruct dep as [d|].
  2:{ apply M_ret_ok in H as [E ->]. injection E as -> ->. exists Pass.
      split; [done|]. split; [|done]. split; [done|apply same_gate_refl|done|done|done]. }
  case_bool_decide as Hself.
  { apply act_spec in H as [-> Hacted]; [|done]. eexists. split; [done|]. split; [exact Hacted|done]. }
  apply M_bind_ok in H as (p & r1 & Hp & H). apply load_predecessor_inv in Hp as [-> Hp].
  apply act_spec in H as [-> Hacted]; [|done]. exists (judge d p). split; [done|].
  split; [exact Hacted|].
  assert (forall e, p = Found e -> forall P : JobEntry -> Prop, P e -> row_now r' d P) as Hrow.
  { intros e -> P HP. apply (row_now_load r); [by apply Hacted|]. exists e. split; [by apply Hp|done]. }
  split.
  - intros Ha d' [= <-]. split; [done|]. destruct (Hfound _ _ Ha) as [e Ep]. rewrite Ep in Ha. by eapply Hrow.
  - intros detail Ha. exists d. split; [done|]. split; [done|].
    destruct (Hskip _ _ _ Ha) as (e & Ep & Hs). rewrite Ep in Ha. by eapply Hrow.
Qed.

(** ** The three blocks *)

(** A dependency the gate let through. *)
Definition satisfied (r : registry) (jid : string) (dep : option string) (P : JobEntry -> Prop) : Prop :=
  forall d, dep = Some d -> d <> jid /\ row_now r d P.

Lemma satisfied_others r r' jid dep P :
  same_others jid r r' -> satisfied r jid dep P -> satisfied r' jid dep P.
Proof.
  intros Ho H d Hd. destruct (H d Hd) as [Hne Hrow]. split; [done|].
  eapply row_now_load; [by apply Ho|done].
Qed.

(** Every predecessor a row names is settled and meets its condition. *)
Record ready (r : registry) (e : JobEntry) : Prop := {
  rd_success : satisfied r e.(job_id) e.(after_success) (fun p =>
    dependency_settled p = true /\ _job_succeeded p = true);
  rd_complete : satisfied r e.(job_id) e.(after_complete) (fun p => dependency_settled p = true);
  rd_result : satisfied r e.(job_id) e.(after_result) (fun p =>
    dependency_settled p = true /\ observed_result p ∈ result_name <$> e.(after_result_states));
}.

(** Why a row is stopped: what is stored, and the settled predecessor of a skip. *)
Record stopped (r' : registry) (q : JobEntry) (a : action) (current : JobEntry) : Prop := {
  st_row : same_gate (after_action q a) current;
  st_stored : match a with FailWith _ | SkipWith _ => row_now r' q.(job_id) (same_gate current)
              | _ => True end;
  st_skip : forall detail, a = SkipWith detail ->
    exists d, Some d ∈ dependencies q /\ d <> q.(job_id) /\
      row_now r' d (fun p => dependency_settled p = true);
}.

Lemma satisfied_weaken r jid dep P Q :
  (forall e, P e -> Q e) -> satisfied r jid dep P -> satisfied r jid dep Q.
Proof. intros H F d Hd. destruct (F d Hd) as (? & e & ? & ?). split; [done|]. exists e. auto. Qed.

Lemma and_then_ok m f r x r' :
  and_then m f r = (Ok x, r') ->
  (exists o, x.1 = Some o /\ m r = (Ok x, r')) \/
  exists c r1, m r = (Ok (None, c), r1) /\ f c r1 = (Ok x, r').
Proof.
  unfold and_then. intros (y & r1 & Hm & H)%M_bind_ok. destruct y as [[o|] c]; cbn in H.
  - left. apply M_ret_ok in H as [-> ->]. by exists o.
  - right. by exists c, r1.
Qed.

Lemma after_action_gate q q1 a : same_gate q q1 -> same_gate (after_action q a) (after_action q1 a).
Proof. intros []. by destruct a; split. Qed.

Lemma dependencies_gate q q1 : same_gate q q1 -> dependencies q1 = dependencies q.
Proof. intros []. unfold dependencies. congruence. Qed.

Lemma stopped_gate r q q1 a current :
  same_gate q q1 -> stopped r q1 a current -> stopped r q a current.
Proof.
  intros Hg [Hrow Hst Hskip]. pose proof (sg_id _ _ Hg) as Hid. split.
  - eapply same_gate_trans; [by apply after_action_gate|done].
  - by rewrite <- Hid.
  - rewrite <- Hid, <- (dependencies_gate q q1 Hg). done.
Qed.

(** Where one or more blocks leave the row: going on with [R], or stopped. *)
Record passed_or_stopped (r : registry) (current : JobEntry) (o : option outcome)
    (current' : JobEntry) (r' : registry) (R : Prop) : Prop := {
  ps_unique : unique_keys current';
  ps_id : current'.(job_id) = current.(job_id);
  ps_kept : stored_as r current -> stored_as r' current';
  ps_others : same_others current.(job_id) r r';
  ps_verdict : (o = None /\ same_gate current current' /\ R) \/
    exists a, a <> Pass /\ o = action_outcome a /\ stopped r' current a current';
}.

Lemma block_verdict kind judge dep current r o current' r' (P : JobEntry -> Prop) :
  skips_settled judge ->
  (forall d p, judge d p = Pass -> exists e, p = Found e /\ P e) ->
  Some (default "" dep) ∈ dependencies current \/ dep = None -> unique_keys current ->
  gate_block size ok now writable kind judge dep current r = (Ok (o, current'), r') ->
  passed_or_stopped r current o current' r' (satisfied r' current.(job_id) dep P).
Proof.
  intros Hskip Hpass Hdep Hu H. apply block_spec in H as (a & -> & Ha & Hp & Hs); [|done| |done].
  2:{ intros d p Hj. destruct (Hpass d p Hj) as (e & ? & _). by exists e. }
  split; [apply Ha|by eapply acted_id|apply Ha|apply Ha|].
  destruct (decide (action_outcome a = None)) as [E|E].
  - left. assert (a = Pass) as -> by (by destruct a). split; [done|]. split; [apply Ha|].
    intros d Hd. destruct (Hp eq_refl d Hd) as (Hne & e & Hl & He). split; [done|].
    exists e. split; [done|]. by destruct (Hpass d (Found e) He) as (? & [= <-] & ?).
  - right. exists a. split; [by intros ->|]. split; [done|]. split; [apply Ha|apply Ha|].
    intros detail Hd. destruct (Hs detail Hd) as (d & -> & Hne & e & Hl & He & _).
    exists d. destruct Hdep as [Hdep|]; [|done]. split; [done|]. split; [done|]. by exists e.
Qed.

Lemma verdict_then r current o1 current1 r1 R1 o current' r' (R R' : Prop) :
  passed_or_stopped r current o1 current1 r1 R1 ->
  passed_or_stopped r1 current1 o current' r' R -> o1 = None ->
  (same_others current.(job_id) r1 r' -> same_gate current current1 ->
   same_gate current1 current' -> R1 -> R -> R') ->
  passed_or_stopped r current o current' r' R'.
Proof.
  intros [_ I1 K1 O1 V1] [U I K O V] E HR. destruct V1 as [(_ & Hg & H1)|(a & Ha & Ho & _)].
  2:{ rewrite E in Ho. by destruct a. }
  rewrite I1 in O. split; [done|congruence|auto| |].
  - intros jid Hne. rewrite O by done. auto.
  - destruct V as [(Ho & Hg' & H)|(a & Ha & Ho & Hs)].
    + left. split; [done|]. split; [by eapply same_gate_trans|auto].
    + right. exists a. split; [done|]. split; [done|]. by eapply stopped_gate.
Qed.

Lemma verdict_stop r current o current' r' R R' :
  passed_or_stopped r current (Some o) current' r' R ->
  passed_or_stopped r current (Some o) current' r' R'.
Proof. intros [? ? ? ? [[? _]|?]]; [done|]. split; auto. Qed.

Lemma judge_success_found d p : judge_success d p = Pass ->
  exists e, p = Found e /\ dependency_settled e = true /\ _job_succeeded e = true.
Proof. by intros ?%judge_success_pass. Qed.
Lemma judge_complete_found d p : judge_complete d p = Pass ->
  exists e, p = Found e /\ dependency_settled e = true.
Proof. by intros ?%judge_complete_pass. Qed.
Lemma judge_result_found states d p : judge_result states d p = Pass ->
  exists e, p = Found e /\ dependency_settled e = true /\
    observed_result e ∈ result_name <$> states.
Proof. by intros ?%judge_result_pass. Qed.

Lemma dependency_member current :
  (forall d, Some d = current.(after_success) -> Some d ∈ dependencies current) /\
  (forall d, Some d = current.(after_complete) -> Some d ∈ dependencies current) /\
  (forall d, Some d = current.(after_result) -> Some d ∈ dependencies current).
Proof. unfold dependencies. set_solver. Qed.

Ltac block_at current Hu H :=
  let M1 := fresh in let M2 := fresh in let M3 := fresh in
  destruct (dependency_member current) as (M1 & M2 & M3);
  eapply block_verdict in H;
    [| first [apply judge_success_skips | apply judge_complete_skips | apply judge_result_skips]
     | first [exact judge_success_found | exact judge_complete_found | apply judge_result_found]
     | match goal with |- Some (default _ ?d) ∈ _ \/ _ => destruct d eqn:?; [left; cbn; auto | by right] end
     | exact Hu];
  clear M1 M2 M3.

Lemma gate_blocks_spec current r o current' r' :
  unique_keys current -> gate_blocks size ok now writable current r = (Ok (o, current'), r') ->
  passed_or_stopped r current o current' r' (ready r' current').
Proof.
  intros Hu H. unfold gate_blocks in H.
  apply and_then_ok in H as [(x & E & H)|(c1 & r1 & H1 & H)].
  { cbn in E. subst o. block_at current Hu H. by eapply verdict_stop. }
  block_at current Hu H1. pose proof (ps_unique _ _ _ _ _ _ H1) as Hu1.
  apply and_then_ok in H as [(x & E & H)|(c2 & r2 & H2 & H)].
  { cbn in E. subst o. block_at c1 Hu1 H.
    eapply verdict_then; [exact H1|eapply verdict_stop, H|done|intros _ _ _ _ HR; exact HR]. }
  block_at c1 Hu1 H2. pose proof (ps_unique _ _ _ _ _ _ H2) as Hu2. block_at c2 Hu2 H.
  pose proof (ps_id _ _ _ _ _ _ H1) as I1. pose proof (ps_id _ _ _ _ _ _ H2) as I2.
  eapply verdict_then; [exact H1| |done|].
  - eapply verdict_then; [exact H2|exact H|done|]. intros Ho Hg Hg' S2 S3.
    exact (conj Hg' (conj (satisfied_others _ _ _ _ _ Ho S2) S3)).
  - intros Ho Hg Hg' S1%(satisfied_others _ _ _ _ _ Ho) (Hg2 & S2 & S3).
    rewrite I2, I1 in S3. rewrite I1 in S2. pose proof (same_gate_trans _ _ _ Hg Hg') as Hg1.
    split; rewrite (sg_id _ _ Hg1).
    + by rewrite (sg_success _ _ Hg1).
    + by rewrite (sg_complete _ _ Hg').
    + by rewrite (sg_after _ _ Hg2), (sg_states _ _ Hg2).
Qed.

(** ** The whole gate *)

(** The row the gate works on: the stored one, or the caller's. *)
Lemma gated_inv entry r res r' :
  _dispatch_queued_gated size ok now writable entry r = (Ok res, r') -> unique_keys entry ->
  exists q r0, unique_keys q /\ q.(job_id) = entry.(job_id) /\ stored_as r0 q /\
    ((q.(status) <> Queued /\ res = (Some (_existing_dispatch_outcome q), q) /\ r' = r0) \/
     (q.(status) = Queued /\ gate_blocks size ok now writable q r0 = (Ok res, r'))).
Proof.
  intros H Hu. unfold _dispatch_queued_gated in H.
  apply M_bind_ok in H as ([] & r0 & _ & H). apply M_bind_ok in H as (found & r1 & Hl & H).
  pose proof (load_ok _ _ _ _ _ Hl) as ->. exists (default entry found), r0.
  assert (unique_keys (default entry found)) as Hq.
  { destruct found as [e|]; [|done]. by eapply load_unique. }
  assert ((default entry found).(job_id) = entry.(job_id)) as Hid.
  { destruct found as [e|]; [|done]. by apply load_id in Hl. }
  split; [done|]. split; [done|]. split.
  { intros e He. rewrite Hid, Hl in He. destruct found as [e'|]; [|discriminate He].
    injection He as <-. apply same_gate_refl. }
  cbv zeta in H. case_bool_decide as Hs; cbn [negb] in H; [by right|left].
  apply M_ret_ok in H as [-> ->]. done.
Qed.

(** C17. The job goes on to placement only while it is queued and every predecessor it names
    reads as settled and meets its condition in the store the gate leaves; no job waits for
    itself; and the row stored is the one that goes on. *)
Lemma gate_proceeds entry r current r' :
  unique_keys entry ->
  _dispatch_queued_gated size ok now writable entry r = (Ok (None, current), r') ->
  current.(status) = Queued /\ current.(job_id) = entry.(job_id) /\ stored_as r' current /\
  ready r' current.
Proof.
  intros Hu H. apply gated_inv in H as (q & r0 & Hq & Hid & Hst & [(_ & E & _)|[Hs H]]); [done| |done].
  apply gate_blocks_spec in H as [U I K _ [(_ & Hg & HR)|(a & Ha & Ho & _)]]; [| |done].
  - split; [by rewrite (sg_status _ _ Hg)|]. split; [congruence|]. split; [by apply K|done].
  - by destruct a.
Qed.

(** What stops a job is stored before it is reported: a wait leaves it queued, a failure and
    a skip are terminal in the row every later reader finds, and a skip was decided on a
    predecessor that is settled. *)
Lemma gate_stops entry r o current r' :
  unique_keys entry ->
  _dispatch_queued_gated size ok now writable entry r = (Ok (Some o, current), r') ->
  (current.(status) <> Queued /\ o = _existing_dispatch_outcome current) \/
  exists q a, q.(status) = Queued /\ q.(job_id) = entry.(job_id) /\ a <> Pass /\
    Some o = action_outcome a /\ stopped r' q a current.
Proof.
  intros Hu H. apply gated_inv in H as (q & r0 & Hq & Hid & Hst & [(Hs & E & _)|[Hs H]]); [| |done].
  - left. injection E as -> ->. done.
  - right. apply gate_blocks_spec in H as [_ _ _ _ [(? & _)|(a & Ha & Ho & Hst')]]; [done| |done].
    by exists q, a.
Qed.

(** ** The gate and the queue forecast *)

(** What submission guarantees: at most one kind of dependency, not on itself. *)
Definition one_dependency (e : JobEntry) : Prop :=
  (length (omap id (dependencies e)) <= 1)%nat /\ Some e.(job_id) ∉ dependencies e.

(** The snapshot's index holds the predecessors the store holds. *)
Definition indexed (r : registry) (e : JobEntry) (by_id : gmap string JobEntry) : Prop :=
  forall d, Some d ∈ dependencies e -> load now d r = (Ok (by_id !! d), r).

Lemma satisfied_none r jid P : satisfied r jid None P.
Proof. intros d. discriminate. Qed.

Lemma satisfied_indexed r e by_id d P :
  indexed r e by_id -> Some d ∈ dependencies e -> one_dependency e ->
  satisfied r e.(job_id) (Some d) P <-> exists p, by_id !! d = Some p /\ P p.
Proof.
  intros Hi Hd [_ Hself]. specialize (Hi d Hd). split.
  - intros H. destruct (H d eq_refl) as (_ & p & Hl & HP). rewrite Hi in Hl. injection Hl as Hl. by exists p.
  - intros (p & Hp & HP) ? [= <-]. split; [by intros ->|]. exists p. by rewrite Hi, Hp.
Qed.

(** The forecast's conditions, one dependency kind at a time. *)
Lemma result_state_none e by_id d :
  e.(after_result) = Some d ->
  _dependency_state e by_id = None <->
  exists p, by_id !! d = Some p /\ dependency_settled p = true /\
    observed_result p ∈ result_name <$> e.(after_result_states).
Proof.
  intros E. unfold _dependency_state. rewrite E. destruct (by_id !! d) as [p|].
  2:{ split; [done|]. by intros (? & ? & _). }
  split.
  - destruct (dependency_settled p) eqn:Es; cbn [negb]; [|done].
    case_bool_decide; cbn [negb]; [|done]. intros _. by exists p.
  - intros (? & [= <-] & -> & Hin). cbn [negb]. by rewrite bool_decide_true.
Qed.

Lemma complete_state_none e by_id d :
  e.(after_result) = None -> e.(after_complete) = Some d ->
  _dependency_state e by_id = None <->
  exists p, by_id !! d = Some p /\ dependency_settled p = true.
Proof.
  intros E1 E. unfold _dependency_state. rewrite E1, E. destruct (by_id !! d) as [p|].
  2:{ split; [done|]. by intros (? & ? & _). }
  split.
  - destruct (dependency_settled p) eqn:Es; cbn [negb]; [|done]. intros _. by exists p.
  - by intros (? & [= <-] & ->).
Qed.

Lemma success_state_none e by_id d :
  e.(after_result) = None -> e.(after_complete) = None -> e.(after_success) = Some d ->
  _dependency_state e by_id = None <->
  exists p, by_id !! d = Some p /\ dependency_settled p = true /\ _job_succeeded p = true.
Proof.
  intros E1 E2 E. unfold _dependency_state. rewrite E1, E2, E. destruct (by_id !! d) as [p|].
  2:{ split; [done|]. by intros (? & ? & _). }
  assert (_job_succeeded p = negb (negb (bool_decide (p.(status) = Finished))
    || negb (bool_decide (p.(exit_code) = Some 0))
    || negb (bool_decide (effective_result_state p = Some Success)))) as Hok.
  { unfold _job_succeeded. by rewrite !negb_orb, !negb_involutive. }
  revert Hok. generalize (negb (bool_decide (p.(status) = Finished))
    || negb (bool_decide (p.(exit_code) = Some 0))
    || negb (bool_decide (effective_result_state p = Some Success))). intros b Hok.
  split.
  - destruct (dependency_settled p) eqn:Es; cbn [negb]; [|done].
    destruct b; [done|]. intros _. by exists p.
  - intros (? & [= <-] & -> & H). cbn [negb]. rewrite Hok in H. by destruct b.
Qed.

(** A row is ready exactly when the forecast sees nothing it waits for. *)
Lemma forecast_ready r e by_id :
  one_dependency e -> indexed r e by_id -> ready r e <-> _dependency_state e by_id = None.
Proof.
  intros Hone Hi.
  assert (forall d P, Some d ∈ dependencies e ->
    satisfied r e.(job_id) (Some d) P <-> exists p, by_id !! d = Some p /\ P p) as Hsat.
  { intros d P Hd. by apply satisfied_indexed. }
  destruct (dependency_member e) as (M1 & M2 & M3).
  assert (ready r e <->
    satisfied r e.(job_id) e.(after_success) (fun p => dependency_settled p = true /\ _job_succeeded p = true) /\
    satisfied r e.(job_id) e.(after_complete) (fun p => dependency_settled p = true) /\
    satisfied r e.(job_id) e.(after_result) (fun p =>
      dependency_settled p = true /\ observed_result p ∈ result_name <$> e.(after_result_states))) as ->.
  { split; [by intros []|intros (? & ? & ?); by split]. }
  destruct Hone as [Hlen _]. revert Hlen. unfold dependencies.
  destruct (after_result e) as [d|] eqn:E3, (after_complete e) as [d2|] eqn:E2,
    (after_success e) as [d1|] eqn:E1; cbn; intros Hlen; try lia.
  - rewrite (result_state_none e by_id d), Hsat by auto. pose proof satisfied_none. naive_solver.
  - rewrite (complete_state_none e by_id d2), Hsat by auto. pose proof satisfied_none. naive_solver.
  - rewrite (success_state_none e by_id d1), Hsat by auto. pose proof satisfied_none. naive_solver.
  - unfold _dependency_state. rewrite E1, E2, E3. pose proof satisfied_none. naive_solver.
Qed.

(** A ready row with nothing to clear goes through without a write. *)
Lemma block_passes kind judge dep e r P :
  satisfied r e.(job_id) dep P -> (forall d p, P p -> judge d (Found p) = Pass) -> e.(reason) = None ->
  gate_block size ok now writable kind judge dep e r = (Ok (None, e), r).
Proof.
  intros Hs Hj Hr. unfold gate_block. destruct dep as [d|]; [|done].
  destruct (Hs d eq_refl) as (Hne & p & Hl & HP). rewrite bool_decide_false by done.
  unfold mbind, M_bind, _load_predecessor. rewrite Hl, (Hj d p HP).
  unfold act, action_row. by rewrite Hr.
Qed.

Lemma ready_passes e r :
  ready r e -> e.(reason) = None ->
  gate_blocks size ok now writable e r = (Ok (None, e), r).
Proof.
  intros [S1 S2 S3] Hr. unfold gate_blocks, and_then, mbind, M_bind.
  rewrite (block_passes _ _ _ _ _ _ S1) by (try done; intros d p ?; apply judge_success_pass; by exists p).
  cbn [fst snd].
  rewrite (block_passes _ _ _ _ _ _ S2) by (try done; intros d p ?; apply judge_complete_pass; by exists p).
  cbn [fst snd].
  by rewrite (block_passes _ _ _ _ _ _ S3) by (try done; intros d p ?; apply judge_result_pass; by exists p).
Qed.

End gate.

(** ** A chain of two jobs *)
Definition first_job : JobEntry :=
  test_entry <| status := Finished |> <| exit_code := Some 0 |> <| finished_at := Some 150%Q |>
             <| result_state := Some Success |>.
Definition failed_job : JobEntry :=
  test_entry <| status := Finished |> <| exit_code := Some 3 |> <| finished_at := Some 150%Q |>
             <| result_state := Some InfraFailure |>.
Definition second_job : JobEntry :=
  test_entry <| job_id := "20260101-0001_next_0123456789abcdef" |> <| status := Queued |>
             <| after_success := Some first_job.(job_id) |>.
Definition chain_after (predecessor : JobEntry) : registry :=
  (save sample_size true 210%Q true second_job
    (save sample_size true 200%Q true predecessor sample_registry).2).2.
Definition gated (predecessor : JobEntry) : result (option outcome * JobEntry) * registry :=
  _dispatch_queued_gated sample_size true 300%Q true second_job (chain_after predecessor).

Lemma second_job_unique : unique_keys second_job.
Proof. by destruct test_entry_unique. Qed.

Lemma gated_shape predecessor o :
  match (gated predecessor).1 with Ok (x, _) => bool_decide (x = o) | Err _ => false end = true ->
  exists current, gated predecessor = (Ok (o, current), (gated predecessor).2).
Proof.
  destruct (gated predecessor) as [[[x c]|x] r']; cbn; [|done].
  intros ->%bool_decide_eq_true. by exists c.
Qed.

Lemma gate_proceeds_witness :
  exists current r', gated first_job = (Ok (None, current), r') /\ ready 300%Q r' current.
Proof.
  assert (exists current, gated first_job = (Ok (None, current), (gated first_job).2)) as [c E].
  { apply gated_shape. vm_compute. reflexivity. }
  exists c, (gated first_job).2. split; [exact E|].
  exact (proj2 (proj2 (proj2 (gate_proceeds sample_size true 300%Q true second_job _ c _
    second_job_unique E)))).
Defined.

Definition skip_detail : string :=
  "dependency 20260101-0000_base_0123456789abcdef did not succeed: finished, exit 3".
Lemma gate_stops_witness :
  exists current, (current.(status) <> Queued /\
      ("skipped", Some skip_detail) = _existing_dispatch_outcome current) \/
    exists q a, q.(status) = Queued /\ q.(job_id) = second_job.(job_id) /\ a <> Pass /\
      Some ("skipped", Some skip_detail) = action_outcome a /\
      stopped 300%Q (gated failed_job).2 q a current.
Proof.
  assert (exists current, gated failed_job
    = (Ok (Some ("skipped", Some skip_detail), current), (gated failed_job).2)) as [c E].
  { apply gated_shape. vm_compute. reflexivity. }
  exists c. exact (gate_stops sample_size true 300%Q true second_job _ _ c _ second_job_unique E).
Defined.

Definition chain_index (r : registry) : gmap string JobEntry :=
  match (load 300%Q first_job.(job_id) r).1 with
  | Ok (Some p) => {[ first_job.(job_id) := p ]}
  | _ => ∅
  end.
