(* ===== verification/Agent.v ===== *)
(** * One tick of the resident dispatcher ([agent.py])

    The walk over the queue in FIFO order, its backoff bookkeeping and the pool
    of concurrent dispatches.  A dispatch, which probes and launches over SSH,
    is an argument: an arbitrary function of the row, the reserved nodes and a
    world it advances.  Log lines and notifications are left out. *)

From S2P Require Import Prelude Text PyValue JobEntry Lifecycle Registry ActiveIndex RegistryOps StatusProbe Config Scheduler Claim.

(** ** Backoff of blocked jobs *)
Definition BLOCKED_BACKOFF_BASE_S : Q := 5.
Definition BLOCKED_BACKOFF_CAP_S : Q := 300.

(** [dict[str, tuple[int, float]]]: retries so far and the next deadline. *)
Abbreviation Backoff := (gmap string (Z * Q)).

Definition backoff_delay (retries : Z) : Q :=
  let exponent := Z.min retries 16 in
  q_min BLOCKED_BACKOFF_CAP_S (BLOCKED_BACKOFF_BASE_S * inject_Z (2 ^ exponent)).
Definition _bump_blocked_backoff (monotonic : Q) (blocked_backoff : option Backoff) (job_id : string)
  : option Backoff :=
  match blocked_backoff with
  | None => None
  | Some state =>
      let retries := from_option fst 0 (state !! job_id) in
      Some (<[job_id := (Z.min (retries + 1) 16, (monotonic + backoff_delay retries)%Q)]> state)
  end.

Definition _REPORTED_DISPATCH_OUTCOMES : list string :=
  ["started"; "finished"; "failed"; "skipped"; "killed"; "cancel-failed"].
Definition _QUOTA_CHANGING_OUTCOMES : list string := _REPORTED_DISPATCH_OUTCOMES.
Definition DISPATCH_WORKERS : nat := 4.

(** ** What the agent remembers of an outcome *)

(** [blocked_log_state] and [blocked_backoff], each kept by the resident loop
    or absent in a one-shot tick. *)
Record Memory := mkMemory {
  blocked_log_state : option (gmap string string);
  blocked_backoff : option Backoff;
}.
#[export] Instance eta_Memory : Eta Memory := fun m =>
  mkMemory m.(blocked_log_state) m.(blocked_backoff).

(** What a dispatch returned, or the bounded text of what it raised. *)
Definition dispatched : Type := (string * option string) + string.

(** [_note_dispatch_outcome]. *)
Definition _note_dispatch_outcome (monotonic : Q) (job_id : string) (d : dispatched) (m : Memory)
  : Memory :=
  match d with
  | inr detail =>
      let detail := if bool_decide (detail = "") then "unknown error" else detail in
      mkMemory (<[job_id := detail]> <$> m.(blocked_log_state))
               (_bump_blocked_backoff monotonic m.(blocked_backoff) job_id)
  | inl (outcome, detail) =>
      let log_state := if bool_decide (outcome ∈ ["blocked"; "unreachable"; "waiting"])
                       then m.(blocked_log_state) else delete job_id <$> m.(blocked_log_state) in
      let backoff := if bool_decide (outcome ∈ ["blocked"; "unreachable"])
                     then m.(blocked_backoff) else delete job_id <$> m.(blocked_backoff) in
      if bool_decide (outcome ∈ _REPORTED_DISPATCH_OUTCOMES) then mkMemory log_state backoff
      else
        let reason := or_str detail "reason unavailable" in
        if bool_decide (outcome ∈ ["blocked"; "unreachable"]) then
          mkMemory (<[job_id := reason]> <$> log_state) (_bump_blocked_backoff monotonic backoff job_id)
        else if bool_decide (outcome = "waiting") then
          mkMemory (<[job_id := reason]> <$> log_state) backoff
        else mkMemory log_state backoff
  end.

(** ** The pool of dispatches *)

(** A dispatch on a worker thread: its future is pending or holds a result. *)
Record _InflightDispatch := mkInflightDispatch {
  if_entry : JobEntry;
  future : option dispatched;
  if_started_at : Q;
  if_pin_node : option string;
}.
(** [_inflight] is a dict: insertion order, one item per job. *)
Record DispatchPool := mkDispatchPool {
  workers : nat;
  in_flight : list (string * _InflightDispatch);
}.
#[export] Instance eta_DispatchPool : Eta DispatchPool := fun p =>
  mkDispatchPool p.(workers) p.(in_flight).

Definition new_pool (workers : nat) : DispatchPool := mkDispatchPool (Nat.max 1 workers) [].
Definition inflight (p : DispatchPool) (job_id : string) : option _InflightDispatch :=
  snd <$> List.find (fun kv => bool_decide (kv.1 = job_id)) p.(in_flight).
Definition saturated (p : DispatchPool) : bool := (p.(workers) <=? length p.(in_flight))%nat.

(** [self._inflight[entry.job_id] = item]. *)
Fixpoint set_item (job_id : string) (item : _InflightDispatch) (l : list (string * _InflightDispatch))
  : list (string * _InflightDispatch) :=
  match l with
  | [] => [(job_id, item)]
  | (k, i) :: rest =>
      if bool_decide (k = job_id) then (k, item) :: rest else (k, i) :: set_item job_id item rest
  end.
Definition submit (monotonic : Q) (entry : JobEntry) (p : DispatchPool) : DispatchPool :=
  p <| in_flight := set_item entry.(job_id)
         (mkInflightDispatch entry None monotonic entry.(pin_node)) p.(in_flight) |>.

Definition future_done (i : _InflightDispatch) : bool := bool_decide (is_Some i.(future)).
Definition harvest (p : DispatchPool) : list (JobEntry * dispatched) * DispatchPool :=
  (omap (fun kv => pair kv.2.(if_entry) <$> kv.2.(future)) p.(in_flight),
   p <| in_flight := List.filter (fun kv => negb (future_done kv.2)) p.(in_flight) |>).

(** The notes of one harvest, in order. *)
Definition note_harvest (monotonic : Q) (finished : list (JobEntry * dispatched)) (m : Memory)
  : Memory :=
  fold_left (fun m f => _note_dispatch_outcome monotonic f.1.(job_id) f.2 m) finished m.

(** ** The walk over the queue *)
Section tick.
(** The world a dispatch runs in: time passes and nodes change only there. *)
Context {W : Type} (monotonic time : W -> Q)
  (dispatch_queued : JobEntry -> gset string -> W -> JobEntry * dispatched * W)
  (cfg : HeadConfig) (registry_damage : list RegistryDamage).

(** The local variables of the pass; [tk_entries] is the tick's snapshot, whose
    rows a dispatch mutates in place. *)
Record Tick := mkTick {
  tk_world : W;
  tk_entries : list JobEntry;
  tk_running : Z;
  tk_results : list (string * string);
  tk_busy_pins : gset string;
  tk_unpinned_gpu_wait : bool;
  tk_inflight_nodes : gset string;
  tk_memory : Memory;
  tk_pool : option DispatchPool;
}.
#[export] Instance eta_Tick : Eta Tick := fun t =>
  mkTick t.(tk_world) t.(tk_entries) t.(tk_running) t.(tk_results) t.(tk_busy_pins)
    t.(tk_unpinned_gpu_wait) t.(tk_inflight_nodes) t.(tk_memory) t.(tk_pool).

Definition report (entry : JobEntry) (outcome : string) (t : Tick) : Tick :=
  t <| tk_results := t.(tk_results) ++ [(entry.(job_id), outcome)] |>.
Definition wants_gpu (entry : JobEntry) : bool := 0 <? entry.(gpus_requested).

Definition quota_now (w : W) (entries : list JobEntry) : Z :=
  Z.of_nat (occupancy (time w) entries registry_damage).
Definition capped (t : Tick) (entry : JobEntry) : bool :=
  match cfg.(queue).(max_my_jobs) with
  | None => false
  | Some cap => cap <=? t.(tk_running) - Z.b2z (occupies_quota entry (time t.(tk_world)))
  end.

(** A job behind earlier work that waits for the same cards. *)
Definition fifo_busy (t : Tick) (entry : JobEntry) : bool :=
  wants_gpu entry
  && (t.(tk_unpinned_gpu_wait)
      || match entry.(pin_node) with
         | Some pin => bool_decide (pin ∈ t.(tk_busy_pins))
         | None => false
         end).
Definition backing_off (t : Tick) (entry : JobEntry) : bool :=
  match state ← t.(tk_memory).(blocked_backoff); state !! entry.(job_id) with
  | Some (_, deadline) => q_ltb (monotonic t.(tk_world)) deadline
  | None => false
  end.
Definition reserved_for_earlier (t : Tick) (entry : JobEntry) : gset string :=
  if bool_decide (entry.(pin_node) = None) && wants_gpu entry
  then t.(tk_busy_pins) ∪ t.(tk_inflight_nodes) else ∅.

(** A job whose dispatch is still on a worker thread. *)
Definition still_dispatching (t : Tick) (entry : JobEntry) : Tick :=
  let t := report entry "dispatching" t in
  match or_str entry.(dispatch_node) "", entry.(pin_node) with
  | "", None => if wants_gpu entry then t <| tk_unpinned_gpu_wait := true |> else t
  | "", Some pin => t <| tk_inflight_nodes := {[ pin ]} ∪ t.(tk_inflight_nodes) |>
  | node, _ => t <| tk_inflight_nodes := {[ node ]} ∪ t.(tk_inflight_nodes) |>
  end.

(** Handing the job to the pool. *)
Definition pin_in_flight (t : Tick) (entry : JobEntry) : bool :=
  match entry.(pin_node) with
  | Some pin => bool_decide (pin ∈ t.(tk_inflight_nodes))
  | None => false
  end.
Definition submit_entry (p : DispatchPool) (t : Tick) (entry : JobEntry) : Tick :=
  if pin_in_flight t entry || saturated p then report entry "busy" t
  else
    let t := t <| tk_pool := Some (submit (monotonic t.(tk_world)) entry p) |> in
    let t := report entry "dispatching" t in
    match entry.(pin_node) with
    | Some pin => t <| tk_inflight_nodes := {[ pin ]} ∪ t.(tk_inflight_nodes) |>
    | None => if wants_gpu entry then t <| tk_unpinned_gpu_wait := true |> else t
    end.

(** The dispatch on the tick's own thread: the row it leaves replaces the
    snapshot's. *)
Definition replace_row (job_id_ : string) (entry : JobEntry) (entries : list JobEntry) : list JobEntry :=
  (fun e => if bool_decide (e.(job_id) = job_id_) then entry else e) <$> entries.
Definition dispatch_entry (t : Tick) (entry : JobEntry) : Tick :=
  let '(entry', d, w) := dispatch_queued entry (reserved_for_earlier t entry) t.(tk_world) in
  let t := t <| tk_world := w |> <| tk_entries := replace_row entry.(job_id) entry' t.(tk_entries) |> in
  let note t := t <| tk_memory :=
                  _note_dispatch_outcome (monotonic w) entry'.(job_id) d t.(tk_memory) |> in
  match d with
  | inr _ => report entry' "blocked" (note t)
  | inl (outcome, _) =>
      let t := report entry' outcome t in
      let t := if bool_decide (outcome ∈ _QUOTA_CHANGING_OUTCOMES)
               then t <| tk_running := quota_now w t.(tk_entries) |> else t in
      let t := note t in
      if bool_decide (outcome = "busy") && wants_gpu entry' then
        match entry'.(pin_node) with
        | None => t <| tk_unpinned_gpu_wait := true |>
        | Some pin => t <| tk_busy_pins := {[ pin ]} ∪ t.(tk_busy_pins) |>
        end
      else t
  end.

(** One entry, when the quota does not end the pass. *)
Definition walk_entry (t : Tick) (entry : JobEntry) : Tick :=
  if bool_decide (is_Some (p ← t.(tk_pool); inflight p entry.(job_id))) then still_dispatching t entry
  else if fifo_busy t entry then report entry "busy" t
  else if backing_off t entry then report entry "blocked" t
  else match t.(tk_pool) with
       | Some p => submit_entry p t entry
       | None => dispatch_entry t entry
       end.

Fixpoint walk (t : Tick) (queue_ : list JobEntry) : Tick :=
  match queue_ with
  | [] => t
  | entry :: rest =>
      if capped t entry then report entry "capped" t else walk (walk_entry t entry) rest
  end.

(** Forgetting jobs that are neither queued nor in flight. *)
Definition remembered (p : option DispatchPool) (queued_ids : list string) (job_id_ : string) : bool :=
  bool_decide (job_id_ ∈ queued_ids) || bool_decide (is_Some (p ← p; inflight p job_id_)).
Definition prune {A} (p : option DispatchPool) (queued_ids : list string) (state : gmap string A)
  : gmap string A :=
  filter (fun kv => Is_true (remembered p queued_ids kv.1)) state.

(** The pass over the queue of [_process_once_with_snapshot], from the
    refreshed snapshot [entries] to its results. *)
Definition start_tick (entries : list JobEntry) (m : Memory) (p : option DispatchPool) (w : W) : Tick :=
  mkTick w entries (quota_now w entries) [] ∅ false ∅ m p.
Definition queue_of (entries : list JobEntry) : list JobEntry :=
  by_created_at (List.filter is_queued entries).
Definition dispatch_pass (entries : list JobEntry) (m : Memory) (p : option DispatchPool) (w : W) : Tick :=
  let queue_ := queue_of entries in
  let t := walk (start_tick entries m p w) queue_ in
  let ids := job_id <$> queue_ in
  t <| tk_memory := mkMemory (prune t.(tk_pool) ids <$> t.(tk_memory).(blocked_log_state))
                             (prune t.(tk_pool) ids <$> t.(tk_memory).(blocked_backoff)) |>.
End tick.

(** ** Before the pass *)
Definition is_running (e : JobEntry) : bool := bool_decide (e.(status) = Running).
Definition running_ids (entries : list JobEntry) : gset string :=
  list_to_set (job_id <$> List.filter is_running entries).

(** A job that left a node invalidates every blocked diagnosis. *)
Definition clear_on_capacity (before after : list JobEntry) (m : Memory) : Memory :=
  match m.(blocked_backoff) with
  | Some state =>
      if negb (bool_decide (state = ∅)) && negb (bool_decide (running_ids before ∖ running_ids after = ∅))
      then m <| blocked_backoff := Some ∅ |> else m
  | None => m
  end.

(** The rows [_reconcile_jobs] probes. *)
Definition recheck (now : Q) (e : JobEntry) : bool :=
  is_running e
  || bool_decide (e.(status) = Lost)
     && match e.(finished_at) with
        | Some t => Qle_bool (now - t) LOST_RECHECK_S
        | None => false
        end.
(** [entries[by_job_id[job_id]] = refreshed[job_id]] for each candidate. *)
Definition merge_refreshed (candidates : list JobEntry) (refreshed : gmap string JobEntry)
    (entries : list JobEntry) : list JobEntry :=
  (fun e => if bool_decide (e.(job_id) ∈ (job_id <$> candidates))
            then default e (refreshed !! e.(job_id)) else e) <$> entries.
