(* ===== verification/AgentSpec.v ===== *)
(** * What one dispatcher tick guarantees

    Every queued job gets a verdict in FIFO order; nothing overtakes a job that
    waits for a card it could use; concurrent dispatches stay within the pool
    and go to different nodes; and a blocked job is retried within the backoff
    ceiling. *)

From S2P Require Import Prelude Text PyValue JobEntry Lifecycle Registry ActiveIndex RegistryOps StatusProbe Config Probe Placement Queue Scheduler SchedulerSpec Claim Agent.

(** ** The backoff ladder *)
Lemma backoff_delay_bounds retries :
  0 <= retries -> (BLOCKED_BACKOFF_BASE_S <= backoff_delay retries <= BLOCKED_BACKOFF_CAP_S)%Q.
Proof.
  intros Hr. unfold backoff_delay, BLOCKED_BACKOFF_BASE_S, BLOCKED_BACKOFF_CAP_S. cbv zeta.
  assert (1 <= inject_Z (2 ^ Z.min retries 16))%Q as H1.
  { change 1%Q with (inject_Z 1). rewrite <- Zle_Qle. assert (0 < 2 ^ Z.min retries 16) by (apply Z.pow_pos_nonneg; lia). lia. }
  split; [apply q_min_glb; lra|apply q_min_le_l].
Qed.

Lemma backoff_delay_mono a b :
  0 <= a <= b -> (backoff_delay a <= backoff_delay b)%Q.
Proof.
  intros Hab. unfold backoff_delay, BLOCKED_BACKOFF_BASE_S, BLOCKED_BACKOFF_CAP_S. cbv zeta.
  assert (inject_Z (2 ^ Z.min a 16) <= inject_Z (2 ^ Z.min b 16))%Q as H.
  { rewrite <- Zle_Qle. apply Z.pow_le_mono_r; lia. }
  unfold q_min. repeat q_case; lra.
Qed.

(** The clamp of the exponent is never visible: the ceiling is reached first. *)
Lemma backoff_delay_exact k :
  0 <= k -> (backoff_delay k == q_min 300 (5 * inject_Z (2 ^ k)))%Q.
Proof.
  intros Hk. unfold backoff_delay, BLOCKED_BACKOFF_BASE_S, BLOCKED_BACKOFF_CAP_S. cbv zeta.
  destruct (decide (k <= 16)) as [H|H]; [by rewrite Z.min_l by lia|]. rewrite Z.min_r by lia.
  assert (inject_Z (2 ^ 16) <= inject_Z (2 ^ k))%Q as Hp.
  { rewrite <- Zle_Qle. apply Z.pow_le_mono_r; lia. }
  change (inject_Z (2 ^ 16)) with (65536 # 1)%Q in *. unfold q_min. repeat q_case; lra.
Qed.

(** Consecutive blocked outcomes, at the given clock readings. *)
Definition bumps (job_id : string) (clocks : list Q) (state : option Backoff) : option Backoff :=
  fold_left (fun s now => _bump_blocked_backoff now s job_id) clocks state.

Lemma bumps_count job_id clocks state :
  state !! job_id = None -> exists state', bumps job_id clocks (Some state) = Some state' /\
    from_option fst 0 (state' !! job_id) = Z.min (Z.of_nat (length clocks)) 16.
Proof.
  intros Hnone. induction clocks as [|now clocks IH] using rev_ind.
  - exists state. split; [done|]. rewrite Hnone. cbn. lia.
  - destruct IH as (s & Hs & Hn). unfold bumps in *. rewrite fold_left_app, Hs. cbn.
    eexists. split; [done|]. rewrite lookup_insert_eq. cbn. rewrite Hn, length_app. cbn. lia.
Qed.

(** The [k+1]-th blocked outcome in a row, at time [now], postpones the next attempt by
    [5 * 2^k] seconds up to the ceiling of 300, and never by less than 5; other jobs keep
    their deadlines. *)
Lemma backoff_ladder job_id clocks now state :
  state !! job_id = None ->
  exists state', bumps job_id (clocks ++ [now]) (Some state) = Some state' /\
    state' !! job_id = Some (Z.min (Z.of_nat (length clocks) + 1) 16,
                             (now + backoff_delay (Z.of_nat (length clocks)))%Q) /\
    (backoff_delay (Z.of_nat (length clocks))
       == q_min 300 (5 * inject_Z (2 ^ Z.of_nat (length clocks))))%Q /\
    (5 <= backoff_delay (Z.of_nat (length clocks)) <= 300)%Q /\
    forall other, other <> job_id -> state' !! other = state !! other.
Proof.
  intros Hnone. destruct (bumps_count job_id clocks state Hnone) as (s & Hs & Hn).
  assert (forall other, other <> job_id -> s !! other = state !! other) as Ho.
  { clear Hn Hnone. revert s Hs. induction clocks as [|t clocks IH] using rev_ind; [by intros ? [= ->]|].
    unfold bumps in *. intros s. rewrite fold_left_app. cbn.
    destruct (fold_left _ clocks (Some state)) as [s0|]; [|done].
    cbn. intros [= <-] other Hne. rewrite lookup_insert_ne by done. by apply IH. }
  unfold bumps in *. rewrite fold_left_app, Hs. cbn. eexists. split; [done|].
  rewrite lookup_insert_eq, Hn. split.
  { assert (Z.min (Z.min (Z.of_nat (length clocks)) 16) 16 = Z.min (Z.of_nat (length clocks)) 16) as E by lia.
    unfold backoff_delay. rewrite E. do 2 f_equal. lia. }
  split; [apply backoff_delay_exact; lia|]. split; [apply backoff_delay_bounds; lia|]. intros other Hne. rewrite lookup_insert_ne by done. auto.
Qed.

(** ** Nothing overtakes *)
Section pass.
Context {W : Type} (monotonic time : W -> Q)
  (dispatch_queued : JobEntry -> gset string -> W -> JobEntry * dispatched * W)
  (cfg : HeadConfig) (registry_damage : list RegistryDamage).

(** The dispatches of a pass, recorded in the world they run in. *)
Definition calls : Type := list (JobEntry * gset string).
Definition traced (e : JobEntry) (reserved : gset string) (w : W * calls)
  : JobEntry * dispatched * (W * calls) :=
  let '(e', d, w') := dispatch_queued e reserved w.1 in (e', d, (w', w.2 ++ [(e, reserved)])).

Abbreviation Tick := (Tick (W := W * calls)).
Abbreviation step := (walk_entry (fun w : W * calls => monotonic w.1) (fun w => time w.1) traced registry_damage).
Abbreviation pass := (walk (fun w : W * calls => monotonic w.1) (fun w => time w.1) traced cfg registry_damage).

Definition called (t : Tick) : calls := t.(tk_world).2.

(** What a waiting job holds is never given back within the pass. *)
Record grows (t t' : Tick) : Prop := {
  gr_pins : t.(tk_busy_pins) ⊆ t'.(tk_busy_pins);
  gr_wait : t.(tk_unpinned_gpu_wait) = true -> t'.(tk_unpinned_gpu_wait) = true;
  gr_nodes : t.(tk_inflight_nodes) ⊆ t'.(tk_inflight_nodes);
}.
Lemma grows_refl t : grows t t.
Proof. by split. Qed.
Lemma grows_trans t1 t2 t3 : grows t1 t2 -> grows t2 t3 -> grows t1 t3.
Proof. intros [] []. split; [etrans; eassumption|auto|etrans; eassumption]. Qed.

(** A dispatch that does not overtake what [t] holds. *)
Definition behind (t : Tick) (c : JobEntry * gset string) : Prop :=
  wants_gpu c.1 = true ->
  t.(tk_unpinned_gpu_wait) = false /\
  match c.1.(pin_node) with
  | Some pin => pin ∉ t.(tk_busy_pins)
  | None => t.(tk_busy_pins) ∪ t.(tk_inflight_nodes) ⊆ c.2
  end.
Lemma behind_grows t t' c : grows t t' -> behind t' c -> behind t c.
Proof.
  intros [Hp Hw Hn] H Hg. destruct (H Hg) as [Hu Hm]. split.
  - destruct (tk_unpinned_gpu_wait t); [|done]. by rewrite Hw in Hu.
  - destruct (c.1.(pin_node)); set_solver.
Qed.

Lemma still_dispatching_grows t e :
  grows t (still_dispatching t e) /\ (still_dispatching t e).(tk_world) = t.(tk_world).
Proof.
  unfold still_dispatching, report. cbv zeta.
  destruct (or_str _ _), (e.(pin_node)), (wants_gpu e); (split; [split|]; cbn; [set_solver|done|set_solver|done]).
Qed.

Lemma submit_entry_grows p t e :
  grows t (submit_entry (fun w : W * calls => monotonic w.1) p t e) /\
  (submit_entry (fun w : W * calls => monotonic w.1) p t e).(tk_world) = t.(tk_world).
Proof.
  unfold submit_entry, report. cbv zeta. destruct (_ || _); [by split|].
  destruct (e.(pin_node)), (wants_gpu e); (split; [split|]; cbn; [set_solver|done|set_solver|done]).
Qed.

Lemma dispatch_entry_grows t e :
  let t' := dispatch_entry (fun w : W * calls => monotonic w.1) (fun w => time w.1) traced registry_damage t e in
  grows t t' /\ called t' = called t ++ [(e, reserved_for_earlier t e)].
Proof.
  cbv zeta. unfold dispatch_entry, traced.
  destruct (dispatch_queued e (reserved_for_earlier t e) t.(tk_world).1) as [[e' [[o why]|why]] w].
  - unfold report. cbv zeta. destruct (bool_decide (o ∈ _)), (bool_decide (o = "busy") && wants_gpu e'),
      (e'.(pin_node)); (split; [split|]; cbn; [set_solver|done|set_solver|done]).
  - by split.
Qed.

Lemma step_calls t e :
  grows t (step t e) /\
  (called (step t e) = called t \/
   called (step t e) = called t ++ [(e, reserved_for_earlier t e)] /\ behind t (e, reserved_for_earlier t e)).
Proof.
  unfold walk_entry, called.
  case_bool_decide; [destruct (still_dispatching_grows t e) as [? ->]; auto|].
  destruct (fifo_busy t e) eqn:Hf; [split; [by split|by left]|].
  destruct (backing_off _ t e); [split; [by split|by left]|].
  destruct (tk_pool t) as [p|]; [destruct (submit_entry_grows p t e) as [? ->]; auto|].
  destruct (dispatch_entry_grows t e) as [Hg Hc]. split; [done|]. right. split; [exact Hc|].
  intros Hgpu. unfold fifo_busy in Hf. cbn in Hgpu. rewrite Hgpu in Hf. cbn in Hf.
  apply orb_false_iff in Hf as [Hu Hp]. split; [done|]. cbn.
  unfold reserved_for_earlier. destruct (e.(pin_node)) as [pin|]; [by apply bool_decide_eq_false in Hp|].
  rewrite bool_decide_true, Hgpu by done. done.
Qed.

(** No dispatch of the rest of a pass overtakes what earlier jobs hold. *)
Lemma pass_calls queue_ t :
  exists ext, called (pass t queue_) = called t ++ ext /\
    Forall (fun c => c.1 ∈ queue_ /\ behind t c) ext.
Proof.
  revert t. induction queue_ as [|e rest IH]; intros t; cbn [walk].
  { exists []. by rewrite app_nil_r. }
  destruct (capped _ cfg t e); [exists []; rewrite app_nil_r; by split|].
  destruct (step_calls t e) as [Hg Hc]. destruct (IH (step t e)) as (ext & Hext & Hall).
  assert (Forall (fun c => c.1 ∈ e :: rest /\ behind t c) ext) as Hall'.
  { eapply Forall_impl; [exact Hall|]. intros c [Hin Hb]. split; [by right|]. by eapply behind_grows. }
  rewrite Hext. destruct Hc as [->|[-> Hb]]; [by exists ext|].
  exists ((e, reserved_for_earlier t e) :: ext). rewrite <- app_assoc. split; [done|].
  constructor; [split; [by left|done]|done].
Qed.

End pass.

(** ** Every job gets a verdict *)
Section reports.
Context {W : Type} (monotonic time : W -> Q)
  (dispatch_queued : JobEntry -> gset string -> W -> JobEntry * dispatched * W)
  (cfg : HeadConfig) (registry_damage : list RegistryDamage).
(** A dispatch leaves the row of the job it was given. *)
Hypothesis dispatch_same_job : forall e reserved w, (dispatch_queued e reserved w).1.1.(job_id) = e.(job_id).

Abbreviation Tick := (Tick (W := W)).
Abbreviation step := (walk_entry monotonic time dispatch_queued registry_damage).
Abbreviation pass := (walk monotonic time dispatch_queued cfg registry_damage).

Lemma report_results (t : Tick) e o : (report e o t).(tk_results) = t.(tk_results) ++ [(e.(job_id), o)].
Proof. done. Qed.

Lemma step_reports t e : exists o, (step t e).(tk_results) = t.(tk_results) ++ [(e.(job_id), o)].
Proof.
  unfold walk_entry. case_bool_decide.
  { exists "dispatching". unfold still_dispatching. cbv zeta.
    by destruct (or_str _ _), (e.(pin_node)), (wants_gpu e). }
  destruct (fifo_busy t e); [by eexists|]. destruct (backing_off _ t e); [by eexists|].
  destruct (tk_pool t) as [p|].
  - unfold submit_entry. destruct (_ || _); [by eexists|]. exists "dispatching". cbv zeta.
    by destruct (e.(pin_node)), (wants_gpu e).
  - unfold dispatch_entry. pose proof (dispatch_same_job e (reserved_for_earlier t e) t.(tk_world)) as Hid.
    destruct (dispatch_queued _ _ _) as [[e' [[o why]|why]] w]; cbn in Hid; rewrite <- Hid.
    + exists o. cbv zeta. destruct (bool_decide (o ∈ _)), (bool_decide (o = "busy") && wants_gpu e'); [|done| |done];
        by destruct (e'.(pin_node)).
    + by exists "blocked".
Qed.

(** A pass reports the queue in order, one verdict per job, whatever the dispatches do: it
    stops early only at the job it reports as capped, when the quota is used up. *)
Lemma pass_reports queue_ t :
  exists outcomes, (pass t queue_).(tk_results)
      = t.(tk_results) ++ zip (job_id <$> take (length outcomes) queue_) outcomes /\
    (length outcomes <= length queue_)%nat /\
    (length outcomes = length queue_ \/
     last outcomes = Some "capped" /\ is_Some cfg.(queue).(max_my_jobs)).
Proof.
  revert t. induction queue_ as [|e rest IH]; intros t; cbn [walk].
  { exists []. rewrite app_nil_r. cbn. auto. }
  destruct (capped time cfg t e) eqn:Hc.
  - exists ["capped"]. rewrite report_results. cbn. split; [done|]. split; [lia|]. right. split; [done|].
    unfold capped in Hc. by destruct (max_my_jobs _).
  - destruct (step_reports t e) as [o Ho]. destruct (IH (step t e)) as (os & Hos & Hlen & Hcase).
    exists (o :: os). rewrite Hos, Ho, <- app_assoc. cbn. split; [done|]. split; [lia|].
    destruct Hcase as [Hcase|[Hl Hq]]; [left; lia|right]. split; [|done].
    destruct os; [done|]. exact Hl.
Qed.
End reports.

(** ** The pool *)
Section pooled.
Context {W : Type} (monotonic time : W -> Q)
  (dispatch_queued : JobEntry -> gset string -> W -> JobEntry * dispatched * W)
  (cfg : HeadConfig) (registry_damage : list RegistryDamage).
Abbreviation Tick := (Tick (W := W)).
Abbreviation step := (walk_entry monotonic time dispatch_queued registry_damage).
Abbreviation pass := (walk monotonic time dispatch_queued cfg registry_damage).

(** The dispatches a pass handed to the pool. *)
Lemma assign_new id item l :
  (forall kv, kv ∈ l -> kv.1 <> id) -> set_item id item l = l ++ [(id, item)].
Proof.
  induction l as [|[k i] l IH]; intros H; [done|]. cbn.
  rewrite bool_decide_false by (apply (H (k, i)); by left). rewrite IH; [done|]. intros kv Hkv. apply H. by right.
Qed.
Lemma inflight_none p id : inflight p id = None -> forall kv, kv ∈ p.(in_flight) -> kv.1 <> id.
Proof.
  unfold inflight. intros H kv Hkv E.
  destruct (List.find _ p.(in_flight)) as [x|] eqn:Ef; [done|].
  pose proof (find_none _ _ Ef kv) as Hn. rewrite list_elem_of_In in Hkv. specialize (Hn Hkv).
  cbv beta in Hn. by rewrite bool_decide_true in Hn.
Qed.

Definition unpinned_gpu (i : _InflightDispatch) : bool :=
  bool_decide (i.(if_pin_node) = None) && wants_gpu i.(if_entry).
Definition pins (l : list (string * _InflightDispatch)) : list string := omap (fun kv => kv.2.(if_pin_node)) l.

(** What a pass adds to the pool, starting from the tick state [t]. *)
Record launched (t : Tick) (before new : list (string * _InflightDispatch)) (t' : Tick) : Prop := {
  la_pool : exists n, t'.(tk_pool) = Some (mkDispatchPool n (before ++ new)) /\
                      t.(tk_pool) = Some (mkDispatchPool n before) /\
                      (new <> [] -> (length (before ++ new) <= n)%nat);
  la_pins : NoDup (pins new) /\ (forall pin, pin ∈ pins new -> pin ∉ t.(tk_inflight_nodes)) /\
            (forall pin, pin ∈ pins new \/ pin ∈ t.(tk_inflight_nodes) -> pin ∈ t'.(tk_inflight_nodes));
  la_wait : t.(tk_unpinned_gpu_wait) = true ->
            t'.(tk_unpinned_gpu_wait) = true /\ Forall (fun kv => wants_gpu kv.2.(if_entry) = false) new;
  la_unpinned : forall l1 kv l2, new = l1 ++ kv :: l2 -> unpinned_gpu kv.2 = true ->
            t'.(tk_unpinned_gpu_wait) = true /\ Forall (fun kv => wants_gpu kv.2.(if_entry) = false) l2;
  la_world : t'.(tk_world) = t.(tk_world);
}.

Lemma launched_none t t' n before :
  t.(tk_pool) = Some (mkDispatchPool n before) -> t'.(tk_pool) = t.(tk_pool) ->
  t.(tk_inflight_nodes) ⊆ t'.(tk_inflight_nodes) ->
  (t.(tk_unpinned_gpu_wait) = true -> t'.(tk_unpinned_gpu_wait) = true) ->
  t'.(tk_world) = t.(tk_world) -> launched t before [] t'.
Proof.
  intros Hp Hp' Hn Hw Hwo. split; [| | | |done].
  - exists n. rewrite app_nil_r, Hp', Hp. split; [done|]. split; [done|]. by intros [].
  - cbn. split; [constructor|]. split; [set_solver|]. intros pin [?%elem_of_nil|?]; [done|set_solver].
  - auto.
  - intros [|] ? ?; discriminate.
Qed.

Lemma launched_trans t1 t2 t3 before new1 new2 :
  launched t1 before new1 t2 -> launched t2 (before ++ new1) new2 t3 -> launched t1 before (new1 ++ new2) t3.
Proof.
  intros [(n & P2 & P1 & L1) (N1 & D1 & I1) W1 U1 O1] [(n' & P3 & P2' & L2) (N2 & D2 & I2) W2 U2 O2].
  rewrite P2 in P2'. injection P2' as <-.
  assert (pins (new1 ++ new2) = pins new1 ++ pins new2) as Hpins by apply omap_app.
  split; [| | | |congruence].
  - exists n. rewrite app_assoc. split; [done|]. split; [done|]. intros Hne.
    destruct new2 as [|x new2]; [rewrite app_nil_r in *; auto|]. by apply L2.
  - rewrite Hpins. split; [|split].
    + apply NoDup_app. split; [done|]. split; [|done]. intros pin H1 H2. eapply D2; [exact H2|]. auto.
    + intros pin [H|H]%elem_of_app; [auto|]. intros Hin. eapply D2; [exact H|]. auto.
    + intros pin H. apply I2. rewrite elem_of_app in H. destruct H as [[H|H]|H]; auto.
  - intros Hw. destruct (W1 Hw) as [Hw2 F1]. destruct (W2 Hw2) as [Hw3 F2].
    split; [done|]. by apply Forall_app.
  - intros l1 kv l2 E Hu. apply app_eq_inv in E as [(k & -> & E)|(k & -> & E)].
    + destruct k as [|kv' k]; cbn in E.
      * apply (U2 [] kv l2); [by rewrite <- E|done].
      * injection E as <- ->. destruct (U1 l1 kv k eq_refl Hu) as [Hw F].
        destruct (W2 Hw) as [Hw3 F2]. split; [done|]. by apply Forall_app.
    + by apply (U2 k kv l2).
Qed.

Lemma submit_launched p t e :
  t.(tk_pool) = Some p -> inflight p e.(job_id) = None -> fifo_busy t e = false ->
  exists new, launched t p.(in_flight) new (submit_entry monotonic p t e).
Proof.
  intros Hp Hnone Hf. destruct p as [n before]. cbn in Hp |- *. unfold submit_entry.
  destruct (pin_in_flight t e) eqn:Hpin; cbn [orb];
    [exists []; by eapply launched_none|].
  destruct (saturated _) eqn:Hs; [exists []; by eapply launched_none|].
  set (item := mkInflightDispatch e None (monotonic t.(tk_world)) e.(pin_node)).
  exists [(e.(job_id), item)].
  assert (submit (monotonic t.(tk_world)) e (mkDispatchPool n before)
    = mkDispatchPool n (before ++ [(e.(job_id), item)])) as ->.
  { unfold submit. cbn [in_flight]. rewrite assign_new; [done|]. by apply (inflight_none _ _ Hnone). }
  unfold saturated in Hs. cbn in Hs. apply Nat.leb_gt in Hs.
  assert (length (before ++ [(e.(job_id), item)]) <= n)%nat as Hlen by (rewrite length_app; cbn; lia).
  cbv zeta. unfold pin_in_flight in Hpin. unfold fifo_busy in Hf.
  split.
  - exists n. split; [|done]. by destruct (e.(pin_node)), (wants_gpu e).
  - unfold pins. cbn. destruct (e.(pin_node)) as [pin|]; cbn.
    + apply bool_decide_eq_false in Hpin. split; [apply NoDup_singleton|]. set_solver.
    + split; [constructor|]. split; [set_solver|]. intros pin [?%elem_of_nil|?]; [done|].
      by destruct (wants_gpu e).
  - intros Hw. rewrite Hw in Hf. cbn in Hf. rewrite andb_true_r in Hf. split; [|by repeat constructor].
    by destruct (e.(pin_node)), (wants_gpu e).
  - intros [|x [|y l1]] kv l2 E; [|discriminate..]. injection E as <- <-.
    unfold unpinned_gpu. cbn. intros [H1%bool_decide_eq_true H2]%andb_true_iff. rewrite H1, H2.
    split; [done|constructor].
  - by destruct (e.(pin_node)), (wants_gpu e).
Qed.

Lemma step_launched t e p :
  t.(tk_pool) = Some p -> exists new, launched t p.(in_flight) new (step t e).
Proof.
  intros Hp. destruct p as [n before] eqn:Ep. rewrite <- Ep in *. cbn.
  unfold walk_entry. rewrite Hp. cbn [mbind option_bind].
  case_bool_decide as Hin.
  { exists []. eapply launched_none; [by rewrite Hp, Ep|..]; unfold still_dispatching; cbv zeta;
      destruct (or_str _ _), (e.(pin_node)), (wants_gpu e); first [done|cbn; set_solver]. }
  destruct (fifo_busy t e) eqn:Hf; [exists []; eapply launched_none; [by rewrite Hp, Ep|done..]|].
  destruct (backing_off monotonic t e); [exists []; eapply launched_none; [by rewrite Hp, Ep|done..]|].
  apply submit_launched; [done| |done]. destruct (inflight p e.(job_id)); [|done].
  by destruct Hin.
Qed.

(** With the pool, a pass only submits: the dispatches it adds stay within the workers, no
    two of them and no earlier one is pinned to the same node, and behind the one that is
    unpinned and wants cards only CPU jobs are submitted. *)
Lemma pool_launches queue_ t p :
  t.(tk_pool) = Some p -> exists new, launched t p.(in_flight) new (pass t queue_).
Proof.
  revert t p. induction queue_ as [|e rest IH]; intros t p Hp; cbn [walk].
  { exists []. destruct p as [n before] eqn:Ep. eapply launched_none; [done|..]; done. }
  destruct (capped time cfg t e).
  { exists []. destruct p as [n before] eqn:Ep. eapply launched_none; [exact Hp|..]; done. }
  destruct (step_launched t e p Hp) as [new1 H1].
  pose proof H1 as [(n & P1 & _ & _) _ _ _ _]. destruct (IH _ _ P1) as [new2 H2].
  exists (new1 ++ new2). by eapply launched_trans.
Qed.
End pooled.

(** ** What is remembered *)

(** After a pass the agent remembers nothing of a job that is neither queued nor in flight. *)
Lemma pass_forgets {W} (monotonic time : W -> Q) dispatch cfg damage entries m p w :
  let t := dispatch_pass monotonic time dispatch cfg damage entries m p w in
  let known id := id ∈ (job_id <$> queue_of entries) \/ is_Some (p ← t.(tk_pool); inflight p id) in
  (forall state id, t.(tk_memory).(blocked_backoff) = Some state -> is_Some (state !! id) -> known id) /\
  (forall state id, t.(tk_memory).(blocked_log_state) = Some state -> is_Some (state !! id) -> known id).
Proof.
  cbv zeta. unfold dispatch_pass. set (t := walk _ _ _ _ _ _ _). cbn.
  assert (forall A (s : gmap string A) id,
    is_Some (prune t.(tk_pool) (job_id <$> queue_of entries) s !! id) ->
    id ∈ (job_id <$> queue_of entries) \/ is_Some (p ← t.(tk_pool); inflight p id)) as H.
  { intros A s id [x Hx]. unfold prune in Hx. apply map_lookup_filter_Some in Hx as [_ Hx].
    cbn in Hx. apply Is_true_true in Hx. unfold remembered in Hx.
    apply orb_true_iff in Hx as [Hx|Hx]; apply bool_decide_eq_true in Hx; auto. }
  split; intros state id Hs Hid; apply fmap_Some in Hs as (s & _ & ->); by eapply H.
Qed.

(** ** A concrete pass *)
Definition gpu_job (id : string) (pin : option string) (created : Q) : JobEntry :=
  test_entry <| job_id := id |> <| status := Queued |> <| gpus_requested := 1 |>
             <| pin_node := pin |> <| created_at := created |>.
Definition cpu_job (id : string) (created : Q) : JobEntry :=
  gpu_job id None created <| gpus_requested := 0 |>.
(** Every GPU job finds its cards busy, every CPU job starts. *)
Definition crowded (e : JobEntry) (reserved : gset string) (clock : Q) : JobEntry * dispatched * Q :=
  (e, if wants_gpu e then inl ("busy", Some "no free card") else inl ("started", Some "n1"), (clock + 1)%Q).
Definition open_center : HeadConfig :=
  small_center <| queue := {| max_my_jobs := None; reserve_free_per_node := 0 |} |>.
Definition pinned_first : list JobEntry :=
  [gpu_job "a" (Some "n1") 1; gpu_job "b" (Some "n1") 2; gpu_job "c" None 3; cpu_job "d" 4; gpu_job "e" None 5].
Definition quiet : Memory := mkMemory (Some ∅) (Some ∅).

Lemma backoff_ladder_witness :
  exists state', bumps "j" [0%Q; 10%Q; 30%Q; 70%Q] (Some ∅) = Some state' /\
    state' !! "j" = Some (4, (70 + backoff_delay 3)%Q).
Proof.
  destruct (backoff_ladder "j" [0%Q; 10%Q; 30%Q] 70%Q ∅ (lookup_empty _)) as (s & Hs & Hj & _).
  exists s. split; [exact Hs | exact Hj].
Defined.


Lemma crowded_same_job e reserved w : (crowded e reserved w).1.1.(job_id) = e.(job_id).
Proof. done. Qed.
Lemma pass_reports_witness :
  let t := start_tick (fun w : Q => w) [] pinned_first quiet None 1%Q in
  exists outcomes, (walk (fun w => w) (fun w => w) crowded open_center [] t pinned_first).(tk_results)
      = zip (job_id <$> take (length outcomes) pinned_first) outcomes /\
    (length outcomes <= 5)%nat.
Proof.
  intros t.
  destruct (pass_reports (fun w : Q => w) (fun w => w) crowded open_center [] crowded_same_job
    pinned_first t) as (os & Hos & Hlen & _).
  exists os. split; [exact Hos | exact Hlen].
Defined.

Lemma pool_launches_witness :
  let t := start_tick (fun w : Q => w) [] pinned_first quiet (Some (new_pool DISPATCH_WORKERS)) 1%Q in
  exists new, launched t [] new (walk (fun w => w) (fun w => w) crowded open_center [] t pinned_first).
Proof.
  intros t.
  exact (pool_launches (fun w : Q => w) (fun w => w) crowded open_center [] pinned_first t
    (new_pool DISPATCH_WORKERS) eq_refl).
Defined.
