(* ===== verification/AgentTick.v ===== *)
(** * A whole tick: reconciliation, automatic retries, the pass ([agent.py])

    The world is the registry with the rest of the machine, [X]; submitting a
    fork and dispatching a job act on both and are arguments. *)

From S2P Require Import Prelude Text PyValue Diagnostics JobEntry RegistryCodec Lifecycle Registry ActiveIndex RegistryOps RegistryFacts RegistrySpec StatusProbe Config Probe Placement Queue Scheduler Claim ClaimSpec Agent.

Definition RETRY_SUBMITS_PER_TICK : nat := 4.

(** The request identity of an automatic retry. *)
Definition retry_request_id (entry : JobEntry) : string :=
  entry.(job_id) +:+ ":retry:" +:+ pretty (entry.(retry_count) + 1).

Section tick.
Context (encoded_size : json -> nat) (index_writable : bool)
  (run_on : string -> bool -> option string -> list _ProbeTarget -> StatusProbe.reply)
  (now : Q) (writable : bool).

(** ** Reconciliation *)

(** Newly lost jobs are probed again besides the running ones; a failing
    refresh leaves the snapshot as it was. *)
Definition _reconcile_jobs (delimiters : nat -> string) (entries : list JobEntry)
  : M (list JobEntry) := fun r =>
  match List.filter (recheck now) entries with
  | [] => (Ok entries, r)
  | candidates =>
      match refresh_statuses encoded_size index_writable run_on now writable delimiters candidates r with
      | (Ok (refreshed, _), r') => (Ok (merge_refreshed candidates refreshed entries), r')
      | (Err _, r') => (Ok entries, r')
      end
  end.

(** ** Automatic retries *)
Context {X : Type}.

(** [submit_fork] with the retry's specification: the replacement row, or the
    exception. *)
Context (submit_retry : JobEntry -> registry * X -> result JobEntry * (registry * X)).

(** The fence a lost attempt needs first; [None] skips the entry. *)
Definition fence_first (entry : JobEntry) (r : registry) : option JobEntry * registry :=
  if retry_pending_fence entry then
    match finalize_dependency_terminal encoded_size index_writable now writable entry.(job_id) r with
    | (Ok fenced, r') => (fenced, r')
    | (Err _, r') => (None, r')
    end
  else (Some entry, r).

(** The commit point: the old attempt names its replacement. *)
Definition mark_retried (id replacement : string) : M unit :=
  current ← load now id;
  match current with
  | Some current =>
      match current.(retried_by) with
      | None => _ ← save encoded_size index_writable now writable (current <| retried_by := Some replacement |>);
                mret tt
      | Some _ => mret tt
      end
  | None => mret tt
  end.

(** The loop of [_submit_retries]: the number submitted and the snapshot, whose
    submitted rows carry their replacement. *)
Fixpoint submit_retries (submitted : nat) (entries : list JobEntry) (w : registry * X)
  : (nat * list JobEntry) * (registry * X) :=
  match entries with
  | [] => ((submitted, []), w)
  | snapshot_entry :: rest =>
      let continue_ row submitted w :=
        let '((n, rows), w) := submit_retries submitted rest w in ((n, row :: rows), w) in
      let '(fenced, r) := fence_first snapshot_entry w.1 in
      let w := (r, w.2) in
      match fenced with
      | None => continue_ snapshot_entry submitted w
      | Some entry =>
          if bool_decide (is_Some (retry_blocked_reason entry))
          then continue_ snapshot_entry submitted w
          else if (RETRY_SUBMITS_PER_TICK <=? submitted)%nat then ((submitted, entries), w)
          else match submit_retry entry w with
               | (Err _, w) => continue_ snapshot_entry submitted w
               | (Ok replacement, w) =>
                   let '(_, r) := mark_retried entry.(job_id) replacement.(job_id) w.1 in
                   let row := if retry_pending_fence snapshot_entry then snapshot_entry
                              else snapshot_entry <| retried_by := Some replacement.(job_id) |> in
                   continue_ row (S submitted) (r, w.2)
               end
      end
  end.
Definition _submit_retries (entries : list JobEntry) (w : registry * X)
  : (nat * list JobEntry) * (registry * X) := submit_retries 0 entries w.

(** ** The tick *)
Context (monotonic : registry * X -> Q)
  (dispatch_queued : JobEntry -> gset string -> registry * X -> JobEntry * dispatched * (registry * X))
  (cfg : HeadConfig).

(** [_process_once_with_snapshot]: the results and the refreshed snapshot, with
    the memory and the pool as the tick leaves them. *)
Definition _process_once_with_snapshot (delimiters : nat -> string) (m : Memory)
    (pool : option DispatchPool) (w : registry * X)
  : result (list (string * string) * list JobEntry * Memory * option DispatchPool) * (registry * X) :=
  let '(finished, pool) :=
    match pool with
    | None => ([], None)
    | Some p => let '(finished, p) := harvest p in (finished, Some p)
    end in
  let m := note_harvest (monotonic w) finished m in
  match active_entries encoded_size index_writable now true w.1 with
  | (Err e, r) => (Err e, (r, w.2))
  | (Ok (active, registry_damage), r) =>
      match _reconcile_jobs delimiters active r with
      | (Err e, r) => (Err e, (r, w.2))
      | (Ok entries, r) =>
          let m := clear_on_capacity active entries m in
          let '((_, entries), w) := _submit_retries entries (r, w.2) in
          let t := dispatch_pass monotonic (fun _ => now) dispatch_queued cfg registry_damage
                     entries m pool w in
          (Ok (t.(tk_results), t.(tk_entries), t.(tk_memory), t.(tk_pool)), t.(tk_world))
      end
  end.
End tick.
