(* ===== verification/AgentTickSpec.v ===== *)
(** * What a whole tick guarantees

    Automatic retries are bounded, go only to attempts whose failure is final
    in the registry, and retire the attempt they replace; and nothing a tick
    does reopens a finalized verdict. *)

From S2P Require Import Prelude Text PyValue Diagnostics JobEntry RegistryCodec CodecFacts CodecSound CodecSpec CodecCanonical Lifecycle Registry ActiveIndex RegistryOps RegistryFacts RegistrySpec StatusProbe StatusSpec Config Probe Placement Queue Scheduler SchedulerSpec Claim ClaimSpec Gate GateSpec Agent AgentTick.

Section tick.
Context (size : json -> nat) (ok : bool) (now : Q) (writable : bool).

(** ** The fence *)
Lemma finalize_row_final e fenced :
  finalize_row now e = Ok (Some fenced) -> fenced = e <| terminal_finalized_at := Some now |>.
Proof.
  unfold finalize_row. intros H. apply bind_raise_ok in H as [_ H]. by repeat case_match; simplify_eq.
Qed.

(** The row the fence returns is the stored one. *)
Lemma fenced_row id r e r' :
  finalize_dependency_terminal size ok now writable id r = (Ok (Some e), r') ->
  e.(job_id) = id /\ row_now now r' id (same_gate e).
Proof.
  unfold finalize_dependency_terminal. intros (found & r1 & Hl & H)%M_bind_ok.
  pose proof (load_ok _ _ _ _ _ Hl) as ->. destruct found as [loaded|]; [|by apply M_ret_ok in H as [? _]].
  pose proof (load_id _ _ _ _ _ Hl) as Hid. pose proof (load_unique _ _ _ _ _ Hl) as Hu.
  apply M_bind_ok in H as (decision & r1 & Hd & H). apply lift_ok in Hd as [Hd ->].
  destruct decision as [fenced|].
  - apply finalize_row_final in Hd as ->.
    apply M_bind_ok in H as (out & r1 & Hs & H). apply M_ret_ok in H as [E <-]. injection E as ->.
    assert (unique_keys (loaded <| terminal_finalized_at := Some now |>)) as Hu' by (by destruct Hu).
    destruct (save_gate _ _ _ _ _ _ _ _ Hu' Hs) as (Ho & _ & row & Hrow & Hsr).
    pose proof (sg_id _ _ Ho) as Hoid. cbn in Hoid, Hrow. rewrite Hid in *. split; [done|].
    exists row. split; [done|]. eapply same_gate_trans; [apply same_gate_sym, Ho|done].
  - apply M_ret_ok in H as [E <-]. injection E as ->. split; [done|]. exists loaded.
    split; [done|apply same_gate_refl].
Qed.

(** ** Retries *)
Section retries.
Context {X : Type} (submit_retry : JobEntry -> registry * X -> result JobEntry * (registry * X)).

(** The submissions of a tick, each with the registry it was made on. *)
Abbreviation submissions := (list (JobEntry * registry)).
Definition traced_submit (e : JobEntry) (w : registry * (X * submissions))
  : result JobEntry * (registry * (X * submissions)) :=
  let '(res, w') := submit_retry e (w.1, w.2.1) in (res, (w'.1, (w'.2, w.2.2 ++ [(e, w.1)]))).

Abbreviation retries := (submit_retries size ok now writable traced_submit).

(** What justifies a submission: the attempt is retryable, and a lost one that still had to
    be fenced has its fence in the registry by then. *)
Definition justified (entries : list JobEntry) (c : JobEntry * registry) : Prop :=
  retry_blocked_reason c.1 = None /\
  exists snapshot, snapshot ∈ entries /\
    (c.1 = snapshot /\ retry_pending_fence snapshot = false \/
     c.1.(job_id) = snapshot.(job_id) /\ row_now now c.2 c.1.(job_id) (same_gate c.1)).

Lemma fence_first_inv entry r e r' :
  fence_first size ok now writable entry r = (Some e, r') ->
  (e = entry /\ retry_pending_fence entry = false /\ r' = r) \/
  (e.(job_id) = entry.(job_id) /\ row_now now r' e.(job_id) (same_gate e)).
Proof.
  unfold fence_first. destruct (retry_pending_fence entry); [|intros [= <- <-]; by left].
  destruct (finalize_dependency_terminal size ok now writable entry.(job_id) r) as [[fenced|x] r1] eqn:E;
    [|discriminate]. intros [= -> <-]. right.
  apply fenced_row in E as [Hid Hrow]. by rewrite Hid.
Qed.

Lemma justified_cons e entries c : justified entries c -> justified (e :: entries) c.
Proof. intros [Hb (s & Hs & H)]. split; [done|]. exists s. split; [by right|done]. Qed.

(** One tick submits at most [RETRY_SUBMITS_PER_TICK] replacements, and every submission is
    justified on the registry it sees: a lost attempt is resubmitted only once the registry
    holds the fence that makes its loss irreversible. *)
Lemma retries_guarded entries submitted w n rows w' :
  (submitted <= RETRY_SUBMITS_PER_TICK)%nat ->
  retries submitted entries w = ((n, rows), w') ->
  (submitted <= n <= RETRY_SUBMITS_PER_TICK)%nat /\
  (job_id <$> rows) = (job_id <$> entries) /\
  exists ext, w'.2.2 = w.2.2 ++ ext /\ Forall (justified entries) ext.
Proof.
  revert submitted w n rows w'. induction entries as [|e rest IH]; intros submitted w n rows w' Hle H.
  { injection H as <- <- <-. split; [lia|]. split; [done|]. exists []. by rewrite app_nil_r. }
  cbn [submit_retries] in H. cbv zeta in H.
  destruct (fence_first size ok now writable e w.1) as [fenced r] eqn:Hf.
  assert (forall row submitted' w0 ext0, row.(job_id) = e.(job_id) ->
    (submitted <= submitted' <= RETRY_SUBMITS_PER_TICK)%nat ->
    w0.2.2 = w.2.2 ++ ext0 -> Forall (justified (e :: rest)) ext0 ->
    (let '((n, rows), w) := retries submitted' rest w0 in ((n, row :: rows), w)) = ((n, rows), w') ->
    (submitted <= n <= RETRY_SUBMITS_PER_TICK)%nat /\ (job_id <$> rows) = (job_id <$> e :: rest) /\
    exists ext, w'.2.2 = w.2.2 ++ ext /\ Forall (justified (e :: rest)) ext) as Hgo.
  { intros row submitted' w0 ext0 Hrow Hs Hw0 Hext0 Hr.
    destruct (retries submitted' rest w0) as [[n1 rows1] w1] eqn:E. injection Hr as <- <- <-.
    destruct (IH _ _ _ _ _ (proj2 Hs) E) as (Hn & Hids & ext & Hext & Hall). split; [lia|].
    split; [cbn; by rewrite Hrow, Hids|]. exists (ext0 ++ ext). rewrite Hext, Hw0, app_assoc. split; [done|].
    apply Forall_app. split; [done|]. eapply Forall_impl; [exact Hall|]. apply justified_cons. }
  assert ((let '((n, rows), w) := retries submitted rest (r, w.2) in ((n, e :: rows), w)) = ((n, rows), w') ->
    (submitted <= n <= RETRY_SUBMITS_PER_TICK)%nat /\ (job_id <$> rows) = (job_id <$> e :: rest) /\
    exists ext, w'.2.2 = w.2.2 ++ ext /\ Forall (justified (e :: rest)) ext) as Hskip.
  { apply (Hgo e submitted (r, w.2) []); [done|lia|by rewrite app_nil_r|constructor]. }
  destruct fenced as [entry|]; [|by apply Hskip].
  case_bool_decide as Hb; [by apply Hskip|].
  destruct (RETRY_SUBMITS_PER_TICK <=? submitted)%nat eqn:Hcap.
  { injection H as <- <- <-. split; [lia|]. split; [done|]. exists []. by rewrite app_nil_r. }
  apply Nat.leb_gt in Hcap.
  assert (justified (e :: rest) (entry, r)) as Hj.
  { split; [cbn; by destruct (retry_blocked_reason entry); [destruct Hb|]|].
    exists e. split; [by left|]. apply fence_first_inv in Hf as [(-> & Hp & _)|Hf]; [by left|by right]. }
  unfold traced_submit in H at 1. cbn [fst snd] in H.
  destruct (submit_retry entry (r, w.2.1)) as [[rep|x] w1]; cbn [fst snd] in H.
  - destruct (mark_retried size ok now writable entry.(job_id) rep.(job_id) w1.1) as [mk r2].
    eapply (Hgo _ (S submitted) _ [(entry, r)]); [|lia| | |exact H]; [|done|by constructor].
    by destruct (retry_pending_fence e).
  - eapply (Hgo _ submitted _ [(entry, r)]); [|lia| | |exact H]; [done|done|by constructor].
Qed.
End retries.

(** ** Retirement *)

Lemma retried_blocked e by_ : e.(retried_by) = Some by_ -> is_Some (retry_blocked_reason e).
Proof. intros Hr. unfold retry_blocked_reason. rewrite Hr. destruct (_ <=? 0); by eexists. Qed.

(** Once the marker is written, a reader finds the attempt retired: the registry names a
    replacement and no later tick can retry the attempt again. *)
Lemma marked_is_retired id replacement current r r' :
  load now id r = (Ok (Some current), r) ->
  mark_retried size ok now writable id replacement r = (Ok tt, r') ->
  row_now now r' id (fun e =>
    e.(retried_by) = Some (default replacement current.(retried_by)) /\ is_Some (retry_blocked_reason e)).
Proof.
  intros Hl. unfold mark_retried, mbind, M_bind. rewrite Hl.
  destruct (current.(retried_by)) as [b|] eqn:Eb.
  { intros [= <-]. exists current. split; [done|]. split; [done|]. by eapply retried_blocked. }
  destruct (save _ _ _ _ _ r) as [[out|x] r1] eqn:Hs; [|discriminate]. intros [= <-].
  pose proof (load_unique _ _ _ _ _ Hl) as Hu. pose proof (load_id _ _ _ _ _ Hl) as Hid.
  apply save_inv in Hs as (existing & row & s & S).
  assert (unique_keys (current <| retried_by := Some replacement |>)) as Hu' by (by destruct Hu).
  destruct (saved_row_fields _ _ _ _ _ _ _ _ _ S) as [Hrow _].
  destruct (saved_load _ _ _ _ _ _ _ _ _ now Hu' S) as [Hl' _].
  cbn in Hl'. rewrite Hid in Hl'. eexists. split; [exact Hl'|].
  assert ((complete (Some now) (canonical row)).(retried_by) = Some replacement) as Hr.
  { rewrite complete_eq, canonical_flat, Hrow. reflexivity. }
  split; [exact Hr|]. by eapply retried_blocked.
Qed.

(** ** Finality through a whole tick *)
Lemma stream_unique r : Forall unique_keys (_stream_active_registry now r).1.
Proof.
  assert (Forall unique_keys (iter_all now r).1) as H.
  { unfold iter_all. destruct (scan_directories r) as [slots damage]. cbn. rewrite <- list_fmap_compose.
    apply Forall_concat, Forall_fmap, Forall_true. intros s. cbn. rewrite <- list_fmap_compose.
    apply Forall_concat, Forall_fmap, Forall_true. intros n. cbn. unfold scan_name.
    destruct (1 <? _)%nat; [destruct (bool_decide _); constructor|].
    destruct (_read_entry_path now s n false r) eqn:E; [|constructor].
    constructor; [|constructor]. by eapply read_entry_unique. }
  unfold _stream_active_registry. destruct (iter_all now r) as [rows damage]. cbn in *.
  apply Forall_forall. intros e He. unfold by_job_id in He. rewrite sort_by_perm, elem_of_filterb in He.
  rewrite Forall_forall in H. apply H, He.
Qed.

Lemma load_indexed_unique ids r entries :
  load_indexed now ids r = Some entries -> Forall unique_keys entries.
Proof.
  revert entries. induction ids as [|id ids IH]; intros entries; cbn; [intros [= <-]; constructor|].
  destruct (load now id r) as [x r1] eqn:Hl. cbn. destruct x as [[e|]|]; [|done|done].
  destruct (load_indexed now ids r) as [more|]; [|done]. intros [= <-].
  destruct (_active_index_member e now); [|by apply IH]. constructor; [by eapply load_unique|by apply IH].
Qed.

Lemma active_entries_unique publish r entries damage r' :
  active_entries size ok now publish r = (Ok (entries, damage), r') -> Forall unique_keys entries.
Proof.
  assert (forall res, rebuild size ok now publish r = (Ok res, r') -> Forall unique_keys res.1) as Hr.
  { intros [es dmg] H. unfold rebuild, mbind, M_bind, get in H.
    assert ((rebuild_scan now r r r).1.1 = (_stream_active_registry now r).1) as Hscan.
    { unfold rebuild_scan. destruct (_stream_active_registry now r).
      destruct (_registry_directory_revisions r); [by destruct (json_eqb _ _)|done]. }
    destruct (rebuild_scan now r r r) as [[active found] stable]. cbn in Hscan |- *.
    assert (es = active) as ->.
    { destruct stable as [a|]; [destruct publish; [destruct (rebuild_publish _ _ _ _ _ r) as [[[]|] r1]; [|done]|]|];
        by injection H as -> _ _. }
    rewrite Hscan. apply stream_unique. }
  unfold active_entries, mbind, M_bind, get. destruct (_read_active_index r) as [index|]; [|apply Hr].
  destruct (load_indexed now index.(job_ids) r) as [es|] eqn:E; [|apply Hr].
  intros [= <- _ _]. by eapply load_indexed_unique.
Qed.

Section final.
Context (run_on : string -> bool -> option string -> list _ProbeTarget -> StatusProbe.reply).
Context {X : Type} (submit_retry : JobEntry -> registry * X -> result JobEntry * (registry * X))
  (monotonic : registry * X -> Q)
  (dispatch_queued : JobEntry -> gset string -> registry * X -> JobEntry * dispatched * (registry * X))
  (cfg : HeadConfig) (jid : string) (t : Q).
(** Submitting a fork and dispatching a job leave a finalized loss final, as every write of
    the registry does. *)
Hypothesis submit_keeps : forall e w, finalized w.1 jid t -> finalized (submit_retry e w).2.1 jid t.
Hypothesis dispatch_keeps : forall e reserved w,
  finalized w.1 jid t -> finalized (dispatch_queued e reserved w).2.1 jid t.

Lemma fence_keeps entry r : finalized r jid t -> finalized (fence_first size ok now writable entry r).2 jid t.
Proof.
  intros F. unfold fence_first. destruct (retry_pending_fence entry); [|done].
  destruct (finalize_dependency_terminal _ _ _ _ _ r) as [res r1] eqn:E.
  assert (finalized r1 jid t) by
    (apply finalize_inv in E as [->|(e & out & Hu & Hs)]; [done|by eapply save_keeps_finality]).
  by destruct res.
Qed.

Lemma mark_keeps id replacement r res r' :
  mark_retried size ok now writable id replacement r = (res, r') -> finalized r jid t -> finalized r' jid t.
Proof.
  unfold mark_retried, mbind, M_bind. destruct (load now id r) as [x r0] eqn:Hl.
  pose proof (load_ok _ _ _ _ _ Hl) as ->. destruct x as [[e|]|]; [|by intros [= _ <-]|by intros [= _ <-]].
  destruct (e.(retried_by)); [by intros [= _ <-]|].
  destruct (save _ _ _ _ _ r) as [out r1] eqn:Hs. intros H F.
  assert (r1 = r') as -> by (destruct out; by injection H).
  eapply save_keeps_finality; [|exact Hs|exact F]. pose proof (load_unique _ _ _ _ _ Hl) as Hu. by destruct Hu.
Qed.

Lemma retries_keep entries submitted w :
  finalized w.1 jid t -> finalized (submit_retries size ok now writable submit_retry submitted entries w).2.1 jid t.
Proof.
  revert submitted w. induction entries as [|e rest IH]; intros submitted w F; [done|].
  cbn [submit_retries]. cbv zeta.
  pose proof (fence_keeps e w.1 F) as F1.
  destruct (fence_first size ok now writable e w.1) as [fenced r]. cbn [snd] in F1.
  assert (forall row n w0, finalized w0.1 jid t -> finalized
    (let '((n, rows), w) := submit_retries size ok now writable submit_retry n rest w0
     in ((n, row :: rows), w)).2.1 jid t) as Hgo.
  { intros row n w0 F0. pose proof (IH n w0 F0).
    by destruct (submit_retries _ _ _ _ _ n rest w0) as [[? ?] ?]. }
  destruct fenced as [entry|]; [|by apply Hgo].
  destruct (bool_decide _); [by apply Hgo|]. destruct (_ <=? _)%nat; [done|].
  pose proof (submit_keeps entry (r, w.2) F1) as F2.
  destruct (submit_retry entry (r, w.2)) as [[rep|x] w1]; [|by apply Hgo].
  destruct (mark_retried _ _ _ _ _ _ _) as [mk r2] eqn:E. apply Hgo. cbn. by eapply mark_keeps.
Qed.

Lemma walk_keeps damage queue_ tk :
  finalized tk.(tk_world).1 jid t ->
  finalized (walk monotonic (fun _ => now) dispatch_queued cfg damage tk queue_).(tk_world).1 jid t.
Proof.
  revert tk. induction queue_ as [|e rest IH]; intros tk F; cbn [walk]; [done|].
  destruct (capped _ _ _ _); [done|]. apply IH. unfold walk_entry.
  destruct (bool_decide _).
  { unfold still_dispatching. cbv zeta. by destruct (or_str _ _), (e.(pin_node)), (wants_gpu e). }
  destruct (fifo_busy tk e); [done|]. destruct (backing_off _ tk e); [done|].
  destruct (tk_pool tk) as [p|].
  - unfold submit_entry. destruct (_ || _); [done|]. cbv zeta. by destruct (e.(pin_node)), (wants_gpu e).
  - unfold dispatch_entry. pose proof (dispatch_keeps e (reserved_for_earlier tk e) _ F) as F1.
    destruct (dispatch_queued _ _ _) as [[e' [[o why]|why]] w]; [|done]. cbv zeta.
    by destruct (bool_decide (o ∈ _)), (bool_decide (o = "busy") && wants_gpu e'), (e'.(pin_node)).
Qed.

End final.
End tick.

(** ** A lost attempt with a retry budget *)
Definition retryable : JobEntry :=
  test_entry <| status := Lost |> <| result_state := Some InfraFailure |> <| retry_limit := 2 |>
             <| updated_at := Some 100%Q |> <| finished_at := Some 100%Q |>.
Definition stored_retryable : registry := (save sample_size true 100%Q true retryable sample_registry).2.
Definition fork_of (e : JobEntry) (w : registry * unit) : result JobEntry * (registry * unit) :=
  (Ok (e <| job_id := "20260101-0002_next_0123456789abcdef" |> <| status := Queued |>), w).
Definition retried : (nat * list JobEntry) * (registry * (unit * list (JobEntry * registry))) :=
  submit_retries sample_size true 900%Q true (traced_submit fork_of) 0 [retryable; retryable]
    (stored_retryable, (tt, [])).

Lemma retries_guarded_witness :
  exists n rows w', retried = ((n, rows), w') /\ (n <= RETRY_SUBMITS_PER_TICK)%nat /\
    Forall (justified 900%Q [retryable; retryable]) w'.2.2 /\ length w'.2.2 = 1%nat.
Proof.
  destruct retried as [[n rows] w'] eqn:E. exists n, rows, w'. split; [reflexivity|].
  destruct (retries_guarded sample_size true 900%Q true fork_of [retryable; retryable] 0
    (stored_retryable, (tt, [])) n rows w' (Nat.le_0_l _) E) as (Hn & _ & ext & Hext & Hall).
  split; [exact (proj2 Hn)|]. cbn in Hext. rewrite Hext. split; [exact Hall|].
  assert (length w'.2.2 = 1%nat) as Hlen.
  { change w' with (n, rows, w').2. rewrite <- E. vm_compute. reflexivity. }
  rewrite Hext in Hlen. exact Hlen.
Defined.

Definition marked : result unit * registry :=
  mark_retried sample_size true 900%Q true retryable.(job_id) "replacement" stored_retryable.
Lemma marked_is_retired_witness :
  row_now 900%Q marked.2 retryable.(job_id) (fun e => is_Some (retry_blocked_reason e)).
Proof.
  assert (match load 900%Q retryable.(job_id) stored_retryable with
          | (Ok (Some e), _) => bool_decide (e.(retried_by) = None) | _ => false end = true) as H
    by (vm_compute; reflexivity).
  destruct (load 900%Q retryable.(job_id) stored_retryable) as [[[e|]|] r] eqn:Hl; try discriminate H.
  pose proof (load_ok _ _ _ _ _ Hl) as ->.
  assert (match marked.1 with Ok tt => true | Err _ => false end = true) as Hm by (vm_compute; reflexivity).
  destruct (marked) as [[[]|] r'] eqn:E; try discriminate Hm.
  destruct (marked_is_retired sample_size true 900%Q true retryable.(job_id) "replacement" e
    stored_retryable r' Hl E) as (row & Hrow & _ & Hb).
  exists row. split; [exact Hrow | exact Hb].
Defined.

Definition waits (e : JobEntry) (_ : gset string) (w : registry * unit)
  : JobEntry * dispatched * (registry * unit) := (e, inl ("busy", None), w).
Definition silent (_ : string) (_ : bool) (_ : option string) (_ : list _ProbeTarget) : StatusProbe.reply :=
  StatusProbe.Raised "timed out" "TimeoutError".

