(* ===== verification/Intent.v ===== *)
(** * Submission receipts ([submission_intent.py])

    One durable record per request identity: its decoding, the transitions
    between its states, the remote proof it may be bound to, and the pure
    disposition of an interrupted request. *)

From S2P Require Import Prelude Text PyValue Diagnostics JobEntry RegistryCodec Lifecycle Registry.

Definition REQUEST_SCHEMA_V1 : string := "dt_submission_request_v1".
Definition REQUEST_SCHEMA_V2 : string := "dt_submission_request_v2".
Definition REQUEST_SCHEMA : string := "dt_submission_request_v3".
Definition REQUEST_ID_RE : list re_item :=
  [Rep is_alnum 1 1; Rep (fun c => is_alnum c || char_in "._:@+-" c) 0 127].
Definition REQUEST_STATES : list string :=
  ["preparing"; "replay_authorized"; "confirmed"; "rejected"; "uncertain"].
Definition PROOF_REQUIREMENTS : list string := ["none"; "remote_launch_marker"; "legacy_unknown"].
Definition REMOTE_PROOF_OUTCOMES : list string := ["absent"; "running"; "finished"; "unavailable"; "invalid"].
Definition RETRYABLE_REJECTION_KINDS : list string :=
  ["NoCapacity"; "NoReachableNode"; "claimed_action_interrupted"].
Definition _V1_RECORD_FIELDS : list string :=
  ["schema"; "request_id"; "intent_sha256"; "job_id"; "state"; "created_at"; "updated_at";
   "error_kind"; "error_message"].
Definition _RECORD_FIELDS : list string :=
  _V1_RECORD_FIELDS ++ ["proof_requirement"; "proof_node"; "proof_job_dir"; "launch_identity_sha256"].
Definition _ERROR_KIND_RE : list re_item :=
  [Rep is_alpha 1 1; Rep (fun c => is_alnum c || char_in "_.:-" c) 0 63].
Definition LAUNCH_TOKEN_RE : list re_item := [Rep is_hex 32 32].

(** ** Data *)
Record RequestRecord := mkRequestRecord {
  rq_schema : string;
  rq_id : string;
  intent_sha256 : string;
  rq_job_id : string;
  rq_state : string;
  rq_created_at : Q;
  rq_updated_at : Q;
  error_kind : option string;
  error_message : option string;
  proof_requirement : string;
  proof_node : option string;
  proof_job_dir : option string;
  launch_identity_sha256 : option string;
}.
#[export] Instance eta_RequestRecord : Eta RequestRecord := fun r =>
  mkRequestRecord r.(rq_schema) r.(rq_id) r.(intent_sha256) r.(rq_job_id) r.(rq_state)
    r.(rq_created_at) r.(rq_updated_at) r.(error_kind) r.(error_message) r.(proof_requirement)
    r.(proof_node) r.(proof_job_dir) r.(launch_identity_sha256).

Record RemoteLaunchProof := mkProof {
  rp_outcome : string;
  rp_node : string;
  rp_job_dir : string;
  rp_identity : string;
}.
(** [schema_version] is constant. *)
Record RequestDisposition := mkDisposition {
  disposition : string;
  ds_request_id : string;
  ds_job_id : string;
  retry_safe : bool;
  facts : list string;
  actions : list string;
}.

Definition validate_request_id (request_id : string) : result string :=
  if fullmatch REQUEST_ID_RE request_id then Ok request_id
  else Err (InvalidRequestId "--request-id must be 1-128 characters: letters, digits, . _ : @ + -").

(** ** Decoding *)

(** [isinstance(value, (int, float))], not a bool, finite and positive;
    [float] of a huge integer raises. *)
Definition timestamp (v : json) : result Q :=
  let invalid := Err (RequestRecordError "submission request timestamps are invalid") in
  if is_bool v || negb (is_int v || is_float v) then invalid
  else f ← py_float v;
       match f with
       | Fin q => if Qle_bool q 0 then invalid else Ok q
       | _ => invalid
       end.

Definition printable (s : string) : bool := forallb (fun c => (32 <=? code c)%N) (chars s).
Definition PROOF_DIR_LIMIT : nat := N.to_nat 4096.
Definition locator_ok (limit : nat) (s : string) : bool :=
  negb (bool_decide (s = "")) && (str_len s <=? limit)%nat && printable s.
Definition opt_text (ok : string -> bool) (v : json) : bool :=
  match v with JNull => true | JStr s => ok s | _ => false end.

(** [proof_requirement not in PROOF_REQUIREMENTS] hashes its operand. *)
Definition check_requirement (v : json) : result string :=
  match v with
  | JStr s => if bool_decide (s ∈ PROOF_REQUIREMENTS) then Ok s
              else Err (RequestRecordError "submission request proof requirement is invalid")
  | JList _ | JDict _ => Err (TypeError "unhashable type")
  | _ => Err (RequestRecordError "submission request proof requirement is invalid")
  end.

Definition text_of (v : json) : string := match v with JStr s => s | _ => "" end.
Definition opt_text_of (v : json) : option string := match v with JStr s => Some s | _ => None end.

Definition bad_record (what : string) : exn := RequestRecordError ("submission request " +:+ what).

Definition _decode (raw : json) (expected_request_id : string) : result RequestRecord :=
  match raw with
  | JDict kv =>
      let field name := dict_get name kv in
      let v1 := match field "schema" with JStr s => bool_decide (s = REQUEST_SCHEMA_V1) | _ => false end in
      raise_if (negb (same_keys kv (if v1 then _V1_RECORD_FIELDS else _RECORD_FIELDS)))
        (bad_record "record has an invalid schema") ;;
      raise_if (negb (forallb (fun name => is_str (field name))
                        ["schema"; "request_id"; "intent_sha256"; "job_id"; "state"]))
        (bad_record "record has invalid fields") ;;
      created ← timestamp (field "created_at");
      updated ← timestamp (field "updated_at");
      raise_if (negb (opt_text (fullmatch _ERROR_KIND_RE) (field "error_kind")))
        (bad_record "error kind is invalid") ;;
      raise_if (negb (opt_text (fun s => (str_len s <=? 512)%nat) (field "error_message")))
        (bad_record "error message is invalid") ;;
      requirement ← check_requirement (default (JStr "legacy_unknown") (assoc "proof_requirement" kv));
      raise_if (negb (opt_text (locator_ok 255) (field "proof_node")))
        (bad_record "proof node is invalid") ;;
      raise_if (negb (opt_text (locator_ok PROOF_DIR_LIMIT) (field "proof_job_dir")))
        (bad_record "proof job directory is invalid") ;;
      raise_if (negb (opt_text (fullmatch SHA256_RE) (field "launch_identity_sha256")))
        (bad_record "launch identity is invalid") ;;
      let proof_fields := [field "proof_node"; field "proof_job_dir"; field "launch_identity_sha256"] in
      raise_if (bool_decide (requirement = "remote_launch_marker") && existsb is_null proof_fields)
        (bad_record "remote proof locator is incomplete") ;;
      raise_if (bool_decide (requirement ∈ ["none"; "legacy_unknown"])
                && negb (forallb is_null proof_fields))
        (bad_record "has an unexpected proof locator") ;;
      let record := mkRequestRecord (text_of (field "schema")) (text_of (field "request_id"))
        (text_of (field "intent_sha256")) (text_of (field "job_id")) (text_of (field "state"))
        created updated (opt_text_of (field "error_kind")) (opt_text_of (field "error_message"))
        requirement (opt_text_of (field "proof_node")) (opt_text_of (field "proof_job_dir"))
        (opt_text_of (field "launch_identity_sha256")) in
      raise_if (negb (bool_decide
          (record.(rq_schema) ∈ [REQUEST_SCHEMA_V1; REQUEST_SCHEMA_V2; REQUEST_SCHEMA])))
        (RequestRecordError "unsupported submission request schema") ;;
      raise_if (negb (bool_decide (record.(rq_id) = expected_request_id)))
        (bad_record "digest does not match its identity") ;;
      raise_if (negb (fullmatch SHA256_RE record.(intent_sha256)))
        (bad_record "intent digest is invalid") ;;
      raise_if (negb (fullmatch JOB_ID_RE record.(rq_job_id)))
        (bad_record "job identity is invalid") ;;
      raise_if (negb (bool_decide (record.(rq_state) ∈ REQUEST_STATES)))
        (bad_record "state is invalid") ;;
      raise_if (bool_decide (record.(rq_state) = "replay_authorized")
                && negb (bool_decide (record.(rq_schema) = REQUEST_SCHEMA)))
        (bad_record "replay authorization requires the v3 schema") ;;
      Ok record
  | _ => Err (bad_record "record has an invalid schema")
  end.

(** [asdict]: the fields in declaration order. *)
Definition asdict (r : RequestRecord) : list (string * json) :=
  let text v := match v with Some s => JStr s | None => JNull end in
  [("schema", JStr r.(rq_schema)); ("request_id", JStr r.(rq_id));
   ("intent_sha256", JStr r.(intent_sha256)); ("job_id", JStr r.(rq_job_id));
   ("state", JStr r.(rq_state)); ("created_at", JFloat (Fin r.(rq_created_at)));
   ("updated_at", JFloat (Fin r.(rq_updated_at))); ("error_kind", text r.(error_kind));
   ("error_message", text r.(error_message)); ("proof_requirement", JStr r.(proof_requirement));
   ("proof_node", text r.(proof_node)); ("proof_job_dir", text r.(proof_job_dir));
   ("launch_identity_sha256", text r.(launch_identity_sha256))].

(** ** Transitions *)
Definition create (request_id intent_sha256_ job_id_ : string) (now : Q) : result RequestRecord :=
  request_id ← validate_request_id request_id;
  Ok (mkRequestRecord REQUEST_SCHEMA request_id intent_sha256_ job_id_ "preparing" now now
        None None "none" None None None).

(** [" ".join(message.split())[:512]] of a non-empty message. *)
Definition bounded_message (message : option string) : option string :=
  match message with
  | Some m => if bool_decide (m = "") then None else Some (str_take 512 (normalize_ws m))
  | None => None
  end.

Definition transition (record : RequestRecord) (state : string) (kind message : option string) (now : Q)
  : result RequestRecord :=
  raise_if (negb (bool_decide (state ∈ REQUEST_STATES))) (ValueError "invalid submission request state") ;;
  raise_if (bool_decide (state = "replay_authorized"))
    (ValueError "use authorize_replay for a replay authorization") ;;
  raise_if (bool_decide (record.(rq_state) = "replay_authorized") && negb (bool_decide (state = "confirmed")))
    (ValueError "use reclaim_replay to consume a replay authorization") ;;
  Ok (record <| rq_schema := REQUEST_SCHEMA |> <| rq_state := state |> <| rq_updated_at := now |>
             <| error_kind := kind |> <| error_message := bounded_message message |>).

Definition rejection_is_retryable (record : RequestRecord) : bool :=
  bool_decide (record.(rq_state) = "rejected")
  && match record.(error_kind) with
     | Some kind => bool_decide (kind ∈ RETRYABLE_REJECTION_KINDS)
     | None => false
     end
  && bool_decide (record.(proof_requirement) = "none").

Definition authorize_replay (record : RequestRecord) (d : RequestDisposition) (now : Q)
  : result RequestRecord :=
  raise_if (negb (bool_decide (d.(ds_request_id) = record.(rq_id)))
            || negb (bool_decide (d.(ds_job_id) = record.(rq_job_id)))
            || negb (bool_decide (d.(disposition) = "safe_replay")) || negb d.(retry_safe))
    (ValueError "submission request lacks an exact safe-replay disposition") ;;
  if bool_decide (record.(rq_state) = "replay_authorized") then Ok record
  else
    raise_if (negb (bool_decide (record.(rq_state) ∈ ["preparing"; "uncertain"]))
              && negb (rejection_is_retryable record))
      (ValueError "submission request state cannot authorize replay") ;;
    Ok (record <| rq_schema := REQUEST_SCHEMA |> <| rq_state := "replay_authorized" |>
               <| rq_updated_at := now |> <| error_kind := Some "proven_absent" |>
               <| error_message := Some "no registry job or matching remote launch marker exists" |>).

Definition reclaim_replay (record : RequestRecord) (now : Q) : result RequestRecord :=
  raise_if (negb (bool_decide (record.(rq_state) = "replay_authorized")))
    (ValueError "submission request is not authorized for replay") ;;
  Ok (mkRequestRecord REQUEST_SCHEMA record.(rq_id) record.(intent_sha256) record.(rq_job_id) "preparing"
        record.(rq_created_at) now None None "none" None None None).

(** One file per request digest. *)
Abbreviation request_store := (gmap string file).

Section digest.
Context (sha256_hexdigest : list Ascii.ascii -> string).

Definition bind_remote_attempt (record : RequestRecord) (node job_dir launch_token : string) (now : Q)
  : result RequestRecord :=
  raise_if (bool_decide (record.(rq_state) = "replay_authorized"))
    (ValueError "replay authorization must be reclaimed before launch") ;;
  raise_if (negb (locator_ok 255 node)) (ValueError "remote proof node is invalid") ;;
  raise_if (negb (locator_ok PROOF_DIR_LIMIT job_dir)) (ValueError "remote proof job directory is invalid") ;;
  raise_if (negb (fullmatch LAUNCH_TOKEN_RE launch_token)) (ValueError "remote launch token is invalid") ;;
  Ok (record <| rq_schema := REQUEST_SCHEMA |> <| rq_updated_at := now |>
             <| proof_requirement := "remote_launch_marker" |> <| proof_node := Some node |>
             <| proof_job_dir := Some job_dir |>
             <| launch_identity_sha256 := Some (sha256_hexdigest (chars launch_token)) |>).

(** ** The store *)

(** What the disk does to a write: nothing, the new document with its
    directory entry synced, or the new document with the sync failing. *)
Inductive disk := WriteFails | Published | PublishedUnsynced.

Definition request_digest (request_id : string) : result string :=
  request_id ← validate_request_id request_id; Ok (sha256_hexdigest (utf8_encode request_id)).

Definition read_record_document (f : option file) : result (option json) :=
  match f with
  | None => Ok None
  | Some SpecialFile | Some UnreadableFile =>
      Err (RequestRecordError "cannot safely open or read submission request record")
  | Some (StoredFile None _) => Err (RequestRecordError "submission request record is invalid JSON")
  | Some (StoredFile (Some lexed) _) =>
      match decode_strict lexed with
      | Ok document => Ok (Some document)
      | Err _ => Err (RequestRecordError "submission request record is invalid JSON")
      end
  end.

Definition load_record (request_id : string) (s : request_store) : result (option RequestRecord) :=
  digest ← request_digest request_id;
  raw ← read_record_document (s !! digest);
  match raw with
  | None => Ok None
  | Some raw => record ← _decode raw request_id; Ok (Some record)
  end.

(** [save], with the store it leaves. *)
Definition save_record (d : disk) (record : RequestRecord) (s : request_store)
  : result unit * request_store :=
  match validate_request_id record.(rq_id) with
  | Err e => (Err e, s)
  | Ok request_id =>
      let record := if bool_decide (record.(rq_schema) = REQUEST_SCHEMA) then record
                    else record <| rq_schema := REQUEST_SCHEMA |> in
      match _decode (JDict (asdict record)) request_id with
      | Err e => (Err e, s)
      | Ok _ =>
          let published := <[sha256_hexdigest (utf8_encode request_id) :=
                             StoredFile (Some (JDict (asdict record))) 0%Q]> s in
          match d with
          | WriteFails => (Err (OSError "cannot write submission request record"), s)
          | Published => (Ok tt, published)
          | PublishedUnsynced =>
              (Err (RequestDurabilityUnknown
                 "submission request record was published but its durability is unknown"), published)
          end
      end
  end.
End digest.

(** ** Disposition *)
Definition conclude (record : RequestRecord) (what : string) (safe : bool) (facts_ : list string)
    (action : string) : RequestDisposition :=
  mkDisposition what record.(rq_id) record.(rq_job_id) safe
    (("request_state=" +:+ record.(rq_state)) :: facts_) [action].

(** The remote proof names exactly the marker the record is bound to. *)
Definition proof_matches (record : RequestRecord) (p : RemoteLaunchProof) : bool :=
  bool_decide (p.(rp_outcome) ∈ REMOTE_PROOF_OUTCOMES)
  && bool_decide ((Some p.(rp_node), Some p.(rp_job_dir), Some p.(rp_identity))
       = (record.(proof_node), record.(proof_job_dir), record.(launch_identity_sha256))).

Definition marker_disposition (record : RequestRecord) (remote_proof : option RemoteLaunchProof)
  : RequestDisposition :=
  let node := default "None" record.(proof_node) in
  match remote_proof with
  | Some p =>
      if proof_matches record p then
        let facts_ := ["registry_job=absent"; "remote_proof=" +:+ p.(rp_outcome)] in
        if bool_decide (p.(rp_outcome) = "absent") then
          conclude record "safe_replay" true facts_
            "persist a rejected proven-absent receipt before retrying"
        else conclude record "inspect_remote" false facts_
          (if bool_decide (p.(rp_outcome) = "unavailable")
           then "restore connectivity to " +:+ node +:+ " and repeat exact proof"
           else if bool_decide (p.(rp_outcome) = "invalid")
           then "quarantine and inspect the bound capsule for job " +:+ record.(rq_job_id)
           else "recover job " +:+ record.(rq_job_id) +:+ " from the bound remote marker")
      else conclude record "inspect_remote" false
             ["registry_job=absent"; "remote_proof=missing_or_mismatched"]
             ("inspect the bound launch marker on " +:+ node)
  | None => conclude record "inspect_remote" false
              ["registry_job=absent"; "remote_proof=missing_or_mismatched"]
              ("inspect the bound launch marker on " +:+ node)
  end.

Definition resolve_disposition (record : RequestRecord) (registry_job_present : option bool)
    (remote_proof : option RemoteLaunchProof) : RequestDisposition :=
  if bool_decide (registry_job_present = Some true) then
    conclude record "confirmed" false ["registry_job=present"] ("inspect job " +:+ record.(rq_job_id))
  else if bool_decide (record.(rq_state) = "confirmed") then
    conclude record "confirmed" false ["durable_receipt=confirmed"]
      ("inspect retained history for job " +:+ record.(rq_job_id))
  else if bool_decide (record.(rq_state) = "rejected") then
    if rejection_is_retryable record && bool_decide (registry_job_present = Some false) then
      conclude record "safe_replay" true ["registry_job=absent"; "durable_receipt=retryable_rejection"]
        "retry the exact original command with this request id"
    else conclude record "rejected" false ["durable_receipt=rejected"] "do not retry this request id"
  else if bool_decide (registry_job_present = None) then
    conclude record "in_progress" false ["registry_job=unchecked"] "query the authoritative registry"
  else if bool_decide (record.(rq_state) = "replay_authorized") then
    conclude record "safe_replay" true ["registry_job=absent"; "durable_replay=authorized"]
      "retry the exact original command with this request id"
  else if bool_decide (record.(proof_requirement) = "none") then
    conclude record "safe_replay" true ["registry_job=absent"; "remote_launch=impossible"]
      "persist a rejected pre-launch receipt before retrying"
  else if bool_decide (record.(proof_requirement) = "legacy_unknown") then
    conclude record "inspect_remote" false ["registry_job=absent"; "remote_proof=legacy_unknown"]
      "inspect legacy worker state before any retry"
  else marker_disposition record remote_proof.

Definition converge_disposition (record : RequestRecord) (d : RequestDisposition) (now : Q)
  : result RequestRecord :=
  raise_if (negb (bool_decide (d.(ds_request_id) = record.(rq_id)))
            || negb (bool_decide (d.(ds_job_id) = record.(rq_job_id))))
    (ValueError "request disposition identity mismatch") ;;
  if bool_decide (d.(disposition) = "confirmed") then transition record "confirmed" None None now
  else if bool_decide (d.(disposition) = "safe_replay") then authorize_replay record d now
  else if bool_decide (d.(disposition) = "rejected") then Ok record
  else Err (ValueError "request disposition is not conclusive").
