(* ===== verification/IntentSpec.v ===== *)
(** * What a submission receipt guarantees

    A record that can be written can be read back; every transition of a
    readable record is readable; a replay is safe only on conclusive absence;
    and the identity of an automatic retry is always admissible. *)

From S2P Require Import Prelude Text PyValue Numerals Diagnostics JobEntry RegistryCodec Lifecycle Registry Intent.

(** Decompose a long successful block, guard by guard. *)
Ltac ok_steps H :=
  repeat match type of H with
    | mbind _ (raise_if _ _) = Ok _ => let G := fresh "G" in apply bind_raise_ok in H as [G H]
    | mbind _ _ = Ok _ =>
        let a := fresh "v" in let E := fresh "E" in apply bind_ok in H as (a & E & H)
    end.

(** ** Well-formed records *)
Definition opt_ok {A} (ok : A -> bool) (v : option A) : Prop :=
  match v with Some a => ok a = true | None => True end.

Record wf_record (r : RequestRecord) : Prop := {
  wr_schema : r.(rq_schema) ∈ [REQUEST_SCHEMA_V1; REQUEST_SCHEMA_V2; REQUEST_SCHEMA];
  wr_intent : fullmatch SHA256_RE r.(intent_sha256) = true;
  wr_job : fullmatch JOB_ID_RE r.(rq_job_id) = true;
  wr_state : r.(rq_state) ∈ REQUEST_STATES;
  wr_replay : r.(rq_state) = "replay_authorized" -> r.(rq_schema) = REQUEST_SCHEMA;
  wr_created : (0 < r.(rq_created_at))%Q;
  wr_updated : (0 < r.(rq_updated_at))%Q;
  wr_kind : opt_ok (fullmatch _ERROR_KIND_RE) r.(error_kind);
  wr_message : opt_ok (fun s => (str_len s <=? 512)%nat) r.(error_message);
  wr_requirement : r.(proof_requirement) ∈ PROOF_REQUIREMENTS;
  wr_node : opt_ok (locator_ok 255) r.(proof_node);
  wr_dir : opt_ok (locator_ok PROOF_DIR_LIMIT) r.(proof_job_dir);
  wr_identity : opt_ok (fullmatch SHA256_RE) r.(launch_identity_sha256);
  wr_bound : r.(proof_requirement) = "remote_launch_marker" ->
    is_Some r.(proof_node) /\ is_Some r.(proof_job_dir) /\ is_Some r.(launch_identity_sha256);
  wr_unbound : r.(proof_requirement) <> "remote_launch_marker" ->
    r.(proof_node) = None /\ r.(proof_job_dir) = None /\ r.(launch_identity_sha256) = None;
}.

(** ** Decoding *)
Lemma timestamp_ok v q : timestamp v = Ok q -> (0 < q)%Q.
Proof.
  unfold timestamp. cbv zeta. destruct (is_bool v || _); [done|].
  intros (f & _ & H)%bind_ok. destruct f as [q'| |]; [|done|done]. q_case; [done|]. by injection H as <-.
Qed.

Lemma opt_text_ok ok v : opt_text ok v = true -> opt_ok ok (opt_text_of v) /\
  (is_null v = true <-> opt_text_of v = None).
Proof. by destruct v. Qed.

Lemma requirement_ok v s : check_requirement v = Ok s -> s ∈ PROOF_REQUIREMENTS.
Proof. destruct v; cbn; try done. case_bool_decide; [|done]. by intros [= <-]. Qed.

Lemma other_requirement s :
  s ∈ PROOF_REQUIREMENTS -> s <> "remote_launch_marker" -> s ∈ ["none"; "legacy_unknown"].
Proof. unfold PROOF_REQUIREMENTS. set_solver. Qed.

(** Every record the decoder accepts is well-formed and carries the identity it was read
    under. *)
Lemma decode_record_wf raw id r : _decode raw id = Ok r -> wf_record r /\ r.(rq_id) = id.
Proof.
  destruct raw as [| | | | | |kv]; try done. unfold _decode. cbv zeta.
  set (field name := dict_get name kv). intros H. ok_steps H.
  injection H as <-. cbn -[fullmatch locator_ok] in *. autorewrite with to_prop in *.
  repeat match goal with E : timestamp _ = Ok _ |- _ => apply timestamp_ok in E end.
  match goal with E : check_requirement _ = Ok _ |- _ => apply requirement_ok in E end.
  repeat match goal with E : opt_text _ _ = true |- _ => apply opt_text_ok in E as [? ?] end.
  assert (forall v, is_null v = false -> (is_null v = true <-> opt_text_of v = None) -> is_Some (opt_text_of v))
    as Hsome.
  { intros w Hn [_ Hw]. destruct (opt_text_of w); [by eexists|]. by rewrite Hw in Hn. }
  split; [|done]. split; cbn -[fullmatch locator_ok]; try done.
  - intros Hst. match goal with G : _ <> "replay_authorized" \/ _ |- _ => by destruct G end.
  - intros Hst. match goal with G : _ <> "remote_launch_marker" \/ _ |- _ => destruct G as [G|(? & ? & ? & _)] end;
      [done|auto].
  - intros Hst. match goal with G : _ ∉ ["none"; "legacy_unknown"] \/ _ |- _ => destruct G as [G|(N1 & N2 & N3 & _)] end.
    + exfalso. match goal with N : _ ∉ ["none"; "legacy_unknown"] |- _ => apply N end. by apply other_requirement.
    + split_and!; match goal with N : is_null ?v = true, H : is_null ?v = true <-> _ |- opt_text_of ?v = None =>
        by apply H end.
Qed.

Lemma text_field ok v : opt_ok ok v ->
  opt_text ok (match v with Some s => JStr s | None => JNull end) = true /\
  opt_text_of (match v with Some s => JStr s | None => JNull end) = v /\
  is_null (match v with Some s => JStr s | None => JNull end) = negb (bool_decide (is_Some v)).
Proof. destruct v; cbn; intros H; (split; [done|]); split; done. Qed.

Lemma timestamp_float q : (0 < q)%Q -> timestamp (JFloat (Fin q)) = Ok q.
Proof. intros H. unfold timestamp. cbn. q_case; [lra|done]. Qed.

Lemma raise_if_false c e : c = false -> raise_if c e = Ok tt.
Proof. by intros ->. Qed.

Lemma asdict_keys r : same_keys (asdict r) _RECORD_FIELDS = true.
Proof. reflexivity. Qed.

(** What is written reads back as the record. *)
Lemma decode_asdict r :
  wf_record r -> r.(rq_schema) <> REQUEST_SCHEMA_V1 -> _decode (JDict (asdict r)) r.(rq_id) = Ok r.
Proof.
  intros [] Hv1. pose proof (asdict_keys r) as Hk.
  set (text v := match v with Some s => JStr s | None => JNull end).
  assert (dict_get "schema" (asdict r) = JStr r.(rq_schema) /\
    dict_get "request_id" (asdict r) = JStr r.(rq_id) /\
    dict_get "intent_sha256" (asdict r) = JStr r.(intent_sha256) /\
    dict_get "job_id" (asdict r) = JStr r.(rq_job_id) /\
    dict_get "state" (asdict r) = JStr r.(rq_state) /\
    dict_get "created_at" (asdict r) = JFloat (Fin r.(rq_created_at)) /\
    dict_get "updated_at" (asdict r) = JFloat (Fin r.(rq_updated_at)) /\
    dict_get "error_kind" (asdict r) = text r.(error_kind) /\
    dict_get "error_message" (asdict r) = text r.(error_message) /\
    assoc "proof_requirement" (asdict r) = Some (JStr r.(proof_requirement)) /\
    dict_get "proof_node" (asdict r) = text r.(proof_node) /\
    dict_get "proof_job_dir" (asdict r) = text r.(proof_job_dir) /\
    dict_get "launch_identity_sha256" (asdict r) = text r.(launch_identity_sha256))
    as (E1 & E2 & E3 & E4 & E5 & E6 & E7 & E8 & E9 & E10 & E11 & E12 & E13) by (split_and!; reflexivity).
  revert Hk E1 E2 E3 E4 E5 E6 E7 E8 E9 E10 E11 E12 E13. generalize (asdict r) as kv.
  intros kv Hk E1 E2 E3 E4 E5 E6 E7 E8 E9 E10 E11 E12 E13. unfold _decode. cbv beta zeta.
  rewrite E10. cbn [forallb existsb default from_option id].
  rewrite E1, E2, E3, E4, E5, E6, E7, E8, E9, E11, E12, E13.
  rewrite (bool_decide_false _ Hv1), Hk, !timestamp_float by done.
  destruct (text_field _ _ wr_kind0) as (K1 & K2 & _), (text_field _ _ wr_message0) as (M1 & M2 & _),
    (text_field _ _ wr_node0) as (N1 & N2 & N3), (text_field _ _ wr_dir0) as (D1 & D2 & D3),
    (text_field _ _ wr_identity0) as (I1 & I2 & I3).
  unfold text. rewrite K1, K2, M1, M2, N1, N2, N3, D1, D2, D3, I1, I2, I3.
  cbn [negb raise_if mbind result_bind is_str andb check_requirement text_of
       rq_schema rq_id intent_sha256 rq_job_id rq_state].
  rewrite (bool_decide_true _ wr_requirement0). cbn [negb raise_if mbind result_bind].
  assert (bool_decide (r.(proof_requirement) = "remote_launch_marker") &&
    (negb (bool_decide (is_Some r.(proof_node))) || (negb (bool_decide (is_Some r.(proof_job_dir))) ||
     (negb (bool_decide (is_Some r.(launch_identity_sha256))) || false))) = false) as ->.
  { destruct (bool_decide (_ = _)) eqn:Hreq; [apply bool_decide_eq_true in Hreq|done].
    by destruct (wr_bound0 Hreq) as ([? ->] & [? ->] & [? ->]). }
  assert (bool_decide (r.(proof_requirement) ∈ ["none"; "legacy_unknown"]) &&
    negb (negb (bool_decide (is_Some r.(proof_node))) && (negb (bool_decide (is_Some r.(proof_job_dir))) &&
     (negb (bool_decide (is_Some r.(launch_identity_sha256))) && true))) = false) as ->.
  { destruct (bool_decide (_ ∈ _)) eqn:Hreq; [apply bool_decide_eq_true in Hreq|done].
    destruct wr_unbound0 as (-> & -> & ->); [|done].
    intros E. rewrite E in Hreq. set_solver. }
  rewrite (bool_decide_true _ wr_schema0), (bool_decide_true (r.(rq_id) = r.(rq_id)) eq_refl), wr_intent0,
    wr_job0, (bool_decide_true _ wr_state0).
  assert (bool_decide (r.(rq_state) = "replay_authorized") &&
    negb (bool_decide (r.(rq_schema) = REQUEST_SCHEMA)) = false) as ->.
  { destruct (bool_decide (_ = "replay_authorized")) eqn:Hst; [apply bool_decide_eq_true in Hst|done].
    by rewrite (bool_decide_true _ (wr_replay0 Hst)). }
  by destruct r.
Qed.

(** ** The store *)
Lemma asdict_strict r : decode_strict (JDict (asdict r)) = Ok (JDict (asdict r)).
Proof.
  apply decode_strict_spec. split; [done|]. cbn. split; [|by destruct (error_kind r), (error_message r),
    (proof_node r), (proof_job_dir r), (launch_identity_sha256 r)].
  apply (bool_decide_unpack _). vm_compute. exact I.
Qed.

Section store.
Context (sha : list Ascii.ascii -> string).

(** Whether the call replaced the document. *)
Definition replaced (res : result unit) : bool :=
  match res with Ok _ | Err (RequestDurabilityUnknown _) => true | Err _ => false end.

Definition not_unsynced (x : exn) : Prop :=
  match x with RequestDurabilityUnknown _ => False | _ => True end.
Lemma timestamp_err v x : timestamp v = Err x -> not_unsynced x.
Proof.
  unfold timestamp. cbv zeta. destruct (is_bool v || _); [by intros [= <-]|].
  destruct v as [|b|z|f|s|l|kv]; cbn; try (by intros [= <-]).
  - destruct (Qle_bool _ 0); [by intros [= <-]|done].
  - destruct (FLOAT_OVERFLOW <=? Z.abs z); cbn; [by intros [= <-]|].
    destruct (Qle_bool _ 0); [by intros [= <-]|done].
  - destruct f as [q| |]; [destruct (Qle_bool q 0); [by intros [= <-]|done]|by intros [= <-]..].
Qed.
Lemma requirement_err v x : check_requirement v = Err x -> not_unsynced x.
Proof.
  destruct v as [| | | |s| |]; cbn; try (by intros [= <-]). by case_bool_decide; [|intros [= <-]].
Qed.
Lemma bind_err_no {A B} (m : result A) (f : A -> result B) x :
  (forall y, m = Err y -> not_unsynced y) -> (forall a y, f a = Err y -> not_unsynced y) ->
  (m ≫= f) = Err x -> not_unsynced x.
Proof. intros Hm Hf. destruct m as [a|y]; cbn; [apply Hf|]. intros [= <-]. by apply Hm. Qed.
Lemma raise_err c e x : not_unsynced e -> raise_if c e = Err x -> not_unsynced x.
Proof. destruct c; cbn; [by intros ? [= <-]|done]. Qed.

Lemma decode_err raw id x : _decode raw id = Err x -> not_unsynced x.
Proof.
  destruct raw as [| | | | | |kv]; try (by intros [= <-]). unfold _decode. cbv zeta.
  repeat first [ apply bind_err_no; [intros ?; first [by apply raise_err | apply timestamp_err | apply requirement_err]
                                    | intros ? ? ] | discriminate ].
Qed.

(** The document of a record decodes to that record or not at all. *)
Lemma decode_asdict_inv r id dec :
  r.(rq_schema) = REQUEST_SCHEMA -> _decode (JDict (asdict r)) id = Ok dec -> dec = r.
Proof.
  intros Hs. unfold _decode. cbv zeta. intros H. ok_steps H.
  injection H as <-.
  repeat match goal with
    | E : timestamp ?v = Ok _ |- _ =>
        let w := eval hnf in v in change v with w in E;
        unfold timestamp in E; cbn in E; destruct (Qle_bool _ 0) in E; [discriminate E|]; injection E as <-
    | E : check_requirement ?v = Ok _ |- _ =>
        change v with (JStr r.(proof_requirement)) in E; cbn in E;
        destruct (bool_decide (r.(proof_requirement) ∈ PROOF_REQUIREMENTS)); [|discriminate E]; injection E as <-
    end.
  destruct r as [? ? ? ? ? ? ? [|] [|] ? [|] [|] [|]]; reflexivity.
Qed.

(** A published record is what the next reader loads, in the current schema; a call that
    fails before publishing leaves the store alone, and no other request is ever touched. *)
Lemma save_record_spec d r s res s' :
  save_record sha d r s = (res, s') ->
  (if replaced res
   then load_record sha r.(rq_id) s' = Ok (Some (r <| rq_schema := REQUEST_SCHEMA |>))
   else s' = s) /\
  (forall other, sha (utf8_encode other) <> sha (utf8_encode r.(rq_id)) ->
    load_record sha other s' = load_record sha other s).
Proof.
  intros H. unfold save_record, validate_request_id in H.
  destruct (fullmatch REQUEST_ID_RE r.(rq_id)) eqn:Hid; [|by injection H as <- <-].
  set (r3 := if bool_decide (r.(rq_schema) = REQUEST_SCHEMA) then r else r <| rq_schema := REQUEST_SCHEMA |>) in *.
  assert (r3 = r <| rq_schema := REQUEST_SCHEMA |>) as E.
  { unfold r3. case_bool_decide as Hs; [|done]. destruct r. cbn in Hs |- *. by rewrite Hs. }
  clearbody r3. subst r3. set (r3 := r <| rq_schema := REQUEST_SCHEMA |>) in *. cbv zeta in H.
  destruct (_decode (JDict (asdict r3)) r.(rq_id)) as [dec|x] eqn:Hd.
  2:{ injection H as <- <-. split; [|done]. destruct x; try done. by destruct (decode_err _ _ _ Hd). }
  assert (_decode (JDict (asdict r3)) r.(rq_id) = Ok r3) as Hr3.
  { rewrite Hd. f_equal. by eapply decode_asdict_inv. }
  set (published := <[_ := _]> s) in *.
  assert (load_record sha r.(rq_id) published = Ok (Some r3)) as Hload.
  { unfold load_record, request_digest, validate_request_id. rewrite Hid. cbn [mbind result_bind].
    unfold published. rewrite lookup_insert_eq. cbn [read_record_document]. rewrite asdict_strict.
    cbn [mbind result_bind]. by rewrite Hr3. }
  assert (forall other, sha (utf8_encode other) <> sha (utf8_encode r.(rq_id)) ->
    load_record sha other published = load_record sha other s) as Hother.
  { intros other Hne. unfold load_record, request_digest, validate_request_id.
    destruct (fullmatch REQUEST_ID_RE other); [|done]. cbn [mbind result_bind].
    unfold published. by rewrite lookup_insert_ne by done. }
  destruct d; injection H as <- <-; [done|by split..].
Qed.
End store.

(** ** Transitions *)

(** What every transition keeps of a receipt. *)
Definition same_identity (r r' : RequestRecord) : Prop :=
  r'.(rq_id) = r.(rq_id) /\ r'.(intent_sha256) = r.(intent_sha256) /\ r'.(rq_job_id) = r.(rq_job_id).

Lemma bounded_message_ok m : opt_ok (fun s => (str_len s <=? 512)%nat) (bounded_message m).
Proof.
  destruct m as [m|]; cbn; [|done]. destruct (bool_decide (m = "")); cbn; [done|].
  apply Nat.leb_le, take_length_le.
Qed.

Lemma schema_v3_in : REQUEST_SCHEMA ∈ [REQUEST_SCHEMA_V1; REQUEST_SCHEMA_V2; REQUEST_SCHEMA].
Proof. set_solver. Qed.

Lemma receipt_transition_inv r state kind message now r' :
  transition r state kind message now = Ok r' ->
  state ∈ REQUEST_STATES /\ state <> "replay_authorized" /\
  (r.(rq_state) = "replay_authorized" -> state = "confirmed") /\
  r' = r <| rq_schema := REQUEST_SCHEMA |> <| rq_state := state |> <| rq_updated_at := now |>
         <| error_kind := kind |> <| error_message := bounded_message message |>.
Proof.
  unfold transition. intros H. ok_steps H. injection H as <-.
  autorewrite with to_prop in *. split; [done|]. split; [done|]. split; [|done]. tauto.
Qed.

Lemma transition_wf r state kind message now r' :
  wf_record r -> (0 < now)%Q -> opt_ok (fullmatch _ERROR_KIND_RE) kind ->
  transition r state kind message now = Ok r' ->
  wf_record r' /\ r'.(rq_schema) = REQUEST_SCHEMA /\ same_identity r r'.
Proof.
  intros [] Hnow Hkind (Hst & Hra & _ & ->)%receipt_transition_inv. split; [|by split].
  split; cbn -[fullmatch locator_ok]; try done; [apply schema_v3_in|apply bounded_message_ok].
Qed.

Lemma authorize_inv r d now r' :
  authorize_replay r d now = Ok r' ->
  d.(ds_request_id) = r.(rq_id) /\ d.(ds_job_id) = r.(rq_job_id) /\ d.(disposition) = "safe_replay" /\
  d.(retry_safe) = true /\
  ((r.(rq_state) = "replay_authorized" /\ r' = r) \/
   ((r.(rq_state) ∈ ["preparing"; "uncertain"] \/ rejection_is_retryable r = true) /\
    r' = r <| rq_schema := REQUEST_SCHEMA |> <| rq_state := "replay_authorized" |> <| rq_updated_at := now |>
           <| error_kind := Some "proven_absent" |>
           <| error_message := Some "no registry job or matching remote launch marker exists" |>)).
Proof.
  unfold authorize_replay. intros H. apply bind_raise_ok in H as [Hc H].
  apply orb_false_iff in Hc as [Hc Hs]. apply orb_false_iff in Hc as [Hc Hd].
  apply orb_false_iff in Hc as [Hi Hj]. autorewrite with to_prop in Hi, Hj, Hd, Hs.
  split; [done|]. split; [done|]. split; [done|]. split; [done|].
  destruct (bool_decide (r.(rq_state) = "replay_authorized")) eqn:E.
  - left. apply bool_decide_eq_true in E. by injection H as <-.
  - right. apply bind_raise_ok in H as [Hc H]. injection H as <-. split; [|done].
    apply andb_false_iff in Hc as [Hc|Hc]; apply negb_false_iff in Hc; [left|right; done].
    by apply bool_decide_eq_true in Hc.
Qed.

Lemma authorize_wf r d now r' :
  wf_record r -> (0 < now)%Q -> authorize_replay r d now = Ok r' ->
  wf_record r' /\ r'.(rq_schema) = REQUEST_SCHEMA /\ same_identity r r' /\ r'.(rq_state) = "replay_authorized".
Proof.
  intros W Hnow (_ & _ & _ & _ & [[Hs ->]|[_ ->]])%authorize_inv.
  - split; [done|]. split; [by apply W|]. by split.
  - destruct W. split; [|by split]. split; cbn -[fullmatch locator_ok]; try done; [apply schema_v3_in|set_solver].
Qed.

Lemma reclaim_wf r now r' :
  wf_record r -> (0 < now)%Q -> reclaim_replay r now = Ok r' ->
  r.(rq_state) = "replay_authorized" /\ wf_record r' /\ r'.(rq_schema) = REQUEST_SCHEMA /\ same_identity r r' /\
  r'.(rq_state) = "preparing" /\ r'.(proof_requirement) = "none".
Proof.
  intros [] Hnow H. unfold reclaim_replay in H. apply bind_raise_ok in H as [Hs H]. injection H as <-.
  autorewrite with to_prop in Hs. split; [done|]. split; [|by split].
  split; cbn -[fullmatch locator_ok]; try done; try set_solver.
Qed.

Lemma create_wf id intent job now r :
  fullmatch SHA256_RE intent = true -> valid_job_id job = true -> (0 < now)%Q ->
  create id intent job now = Ok r ->
  wf_record r /\ r.(rq_schema) = REQUEST_SCHEMA /\ r.(rq_id) = id /\ r.(intent_sha256) = intent /\
  r.(rq_job_id) = job /\ r.(rq_state) = "preparing" /\ r.(proof_requirement) = "none".
Proof.
  intros Hi Hj Hnow. unfold create, validate_request_id. destruct (fullmatch REQUEST_ID_RE id); [|done].
  intros [= <-]. split; [|done]. split; cbn -[fullmatch locator_ok]; try done; try set_solver.
Qed.

Section bind.
Context (sha : list Ascii.ascii -> string).
Context (sha_hex : forall data, fullmatch SHA256_RE (sha data) = true).

Lemma bind_wf r node dir token now r' :
  wf_record r -> (0 < now)%Q -> bind_remote_attempt sha r node dir token now = Ok r' ->
  wf_record r' /\ r'.(rq_schema) = REQUEST_SCHEMA /\ same_identity r r' /\ r'.(rq_state) = r.(rq_state) /\
  r'.(proof_requirement) = "remote_launch_marker" /\ r.(rq_state) <> "replay_authorized".
Proof using sha_hex.
  intros [] Hnow. unfold bind_remote_attempt. intros H. ok_steps H. injection H as <-.
  repeat match goal with E : negb _ = false |- _ => apply negb_false_iff in E end.
  autorewrite with to_prop in *. split; [|done].
  split; cbn -[fullmatch locator_ok]; try done; try (apply schema_v3_in); try set_solver; try apply sha_hex.
Qed.
End bind.

(** ** Disposition *)

(** The proof is of the marker the record is bound to, and it is absent. *)
Definition proven_absent (r : RequestRecord) (proof : option RemoteLaunchProof) : Prop :=
  exists p, proof = Some p /\ p.(rp_outcome) = "absent" /\ Some p.(rp_node) = r.(proof_node) /\
    Some p.(rp_job_dir) = r.(proof_job_dir) /\ Some p.(rp_identity) = r.(launch_identity_sha256).

Lemma conclude_safe r what safe f a : (conclude r what safe f a).(retry_safe) = safe.
Proof. done. Qed.

Lemma marker_safe r proof : (marker_disposition r proof).(retry_safe) = true <-> proven_absent r proof.
Proof.
  unfold marker_disposition, proven_absent. destruct proof as [p|]; [|split; [done|by intros (? & ? & _)]].
  unfold proof_matches. split.
  - destruct (bool_decide (_ ∈ REMOTE_PROOF_OUTCOMES)); cbn [andb]; [|done].
    destruct (bool_decide (_ = _)) eqn:Hm; [apply bool_decide_eq_true in Hm|done].
    destruct (bool_decide (p.(rp_outcome) = "absent")) eqn:Ha; [apply bool_decide_eq_true in Ha|done].
    intros _. exists p. injection Hm as -> -> ->. done.
  - intros (? & [= <-] & Ha & H1 & H2 & H3). rewrite Ha, H1, H2, H3.
    rewrite !bool_decide_true; [done..|]. unfold REMOTE_PROOF_OUTCOMES. set_solver.
Qed.

(** A replay is declared safe exactly when the registry was searched and holds no such job,
    and the receipt already carries a replay authorization, or its rejection provably preceded
    any launch, or, while unsettled, no remote marker was ever bound or the marker it is bound
    to is proven absent: an unknown, an unreachable or a mismatched answer is never enough. *)
Lemma replay_safe_iff r present proof :
  wf_record r ->
  (resolve_disposition r present proof).(retry_safe) = true <->
  present = Some false /\
  (r.(rq_state) = "replay_authorized" \/ rejection_is_retryable r = true \/
   (r.(rq_state) ∈ ["preparing"; "uncertain"] /\
    (r.(proof_requirement) = "none" \/
     r.(proof_requirement) = "remote_launch_marker" /\ proven_absent r proof))).
Proof.
  intros W. pose proof (wr_state r W) as Hst. pose proof (wr_requirement r W) as Hreq.
  unfold resolve_disposition.
  assert (rejection_is_retryable r = true -> r.(rq_state) = "rejected") as Hrej.
  { unfold rejection_is_retryable. intros H. apply andb_true_iff in H as [H _].
    apply andb_true_iff in H as [H _]. by apply bool_decide_eq_true in H. }
  destruct present as [[]|].
  - rewrite bool_decide_true by done. cbn. split; [done|]. by intros [? _].
  - rewrite (bool_decide_false (Some false = Some true)), (bool_decide_false (Some false = None)),
      (bool_decide_true (Some false = Some false)) by done.
    assert (forall s, r.(rq_state) = s -> bool_decide (r.(rq_state) = s) = true) as Hyes
      by (intros s; apply bool_decide_true).
    unfold REQUEST_STATES, PROOF_REQUIREMENTS in *.
    destruct (rejection_is_retryable r) eqn:Hrr; [specialize (Hrej eq_refl)|clear Hrej].
    { rewrite Hrej. cbn. split; auto. }
    repeat (apply elem_of_cons in Hst as [Hst|Hst]); [..|by apply elem_of_nil in Hst]; rewrite Hst; cbn -[marker_disposition].
    + repeat (apply elem_of_cons in Hreq as [Hreq|Hreq]); [..|by apply elem_of_nil in Hreq]; rewrite Hreq; cbn -[marker_disposition].
      * split; [|done]. intros _. split; [done|]. right. right. split; [left|by left].
      * etransitivity; [exact (marker_safe r proof)|]. split; [|naive_solver].
        intros Ha. split; [done|]. right. right. split; [left|by right].
      * split; [done|]. naive_solver.
    + split; auto.
    + split; [done|]. intros [_ [H|[H|[H _]]]]; [done|done|]. set_solver.
    + split; [done|]. intros [_ [H|[H|[H _]]]]; [done|done|]. set_solver.
    + repeat (apply elem_of_cons in Hreq as [Hreq|Hreq]); [..|by apply elem_of_nil in Hreq]; rewrite Hreq; cbn -[marker_disposition].
      * split; [|done]. intros _. split; [done|]. right. right. split; [right; left|by left].
      * etransitivity; [exact (marker_safe r proof)|]. split; [|naive_solver].
        intros Ha. split; [done|]. right. right. split; [right; left|by right].
      * split; [done|]. naive_solver.
  - split; [|by intros [? _]]. rewrite (bool_decide_false (None = Some true)), (bool_decide_false (None = Some false)) by done.
    rewrite andb_false_r. destruct (bool_decide (_ = "confirmed")); [done|].
    by destruct (bool_decide (_ = "rejected")).
Qed.

(** ** The receipt's state machine *)
Section machine.
Context (sha : list Ascii.ascii -> string).
Context (sha_hex : forall data, fullmatch SHA256_RE (sha data) = true).

(** Everything the program does to an existing receipt: a plain transition, the settlement
    of an interrupted request, a reclaimed replay, a bound launch. *)
Inductive receipt_step (r r' : RequestRecord) : Prop :=
  | step_transition state kind message now :
      (0 < now)%Q -> opt_ok (fullmatch _ERROR_KIND_RE) kind ->
      transition r state kind message now = Ok r' -> receipt_step r r'
  | step_converge present proof now :
      (0 < now)%Q ->
      converge_disposition r (resolve_disposition r present proof) now = Ok r' -> receipt_step r r'
  | step_reclaim now : (0 < now)%Q -> reclaim_replay r now = Ok r' -> receipt_step r r'
  | step_bind node dir token now :
      (0 < now)%Q -> bind_remote_attempt sha r node dir token now = Ok r' -> receipt_step r r'.

Lemma converge_inv r d now r' :
  converge_disposition r d now = Ok r' ->
  (d.(disposition) = "confirmed" /\ transition r "confirmed" None None now = Ok r') \/
  (d.(disposition) = "safe_replay" /\ authorize_replay r d now = Ok r') \/
  (d.(disposition) = "rejected" /\ r' = r).
Proof.
  unfold converge_disposition. intros H. apply bind_raise_ok in H as [_ H].
  destruct (bool_decide (_ = "confirmed")) eqn:E1; [apply bool_decide_eq_true in E1; by left|].
  destruct (bool_decide (_ = "safe_replay")) eqn:E2; [apply bool_decide_eq_true in E2; right; by left|].
  destruct (bool_decide (_ = "rejected")) eqn:E3; [|done]. apply bool_decide_eq_true in E3.
  injection H as <-. right. by right.
Qed.

Lemma receipt_step_wf r r' : receipt_step r r' -> wf_record r -> wf_record r' /\ same_identity r r'.
Proof using sha_hex.
  intros [state kind message now Hn Hk H|present proof now Hn H|now Hn H|node dir token now Hn H] W.
  - by destruct (transition_wf _ _ _ _ _ _ W Hn Hk H) as (? & _ & ?).
  - apply converge_inv in H as [[_ H]|[[_ H]|[_ ->]]].
    + by destruct (transition_wf _ _ None _ _ _ W Hn I H) as (? & _ & ?).
    + by destruct (authorize_wf _ _ _ _ W Hn H) as (? & _ & ? & _).
    + done.
  - by destruct (reclaim_wf _ _ _ W Hn H) as (_ & ? & _ & ? & _).
  - by destruct (bind_wf sha sha_hex _ _ _ _ _ _ W Hn H) as (? & _ & ? & _).
Qed.

(** C27. Whatever happens to a receipt, it can be written and read back: no transition poisons a
    request identity, and the request, its intent and its job never change under it. *)
Lemma receipts_stay_readable r r' s :
  rtc receipt_step r r' -> wf_record r ->
  fullmatch REQUEST_ID_RE r.(rq_id) = true ->
  same_identity r r' /\
  exists s', save_record sha Published r' s = (Ok tt, s') /\
    load_record sha r.(rq_id) s' = Ok (Some (r' <| rq_schema := REQUEST_SCHEMA |>)).
Proof using sha_hex.
  intros Hsteps W Hid.
  assert (wf_record r' /\ same_identity r r') as [W' (Hi & Hint & Hj)].
  { clear Hid. induction Hsteps as [|x y z Hxy _ IH]; [done|].
    destruct (receipt_step_wf x y Hxy W) as [Wy (Y1 & Y2 & Y3)]. destruct (IH Wy) as [Wz (Z1 & Z2 & Z3)].
    split; [done|]. split_and!; congruence. }
  split; [done|].
  assert (exists s', save_record sha Published r' s = (Ok tt, s')) as [s' Hs].
  { unfold save_record, validate_request_id. rewrite Hi, Hid. cbv zeta.
    set (r3 := if bool_decide _ then _ else _).
    assert (r3 = r' <| rq_schema := REQUEST_SCHEMA |>) as E.
    { unfold r3. case_bool_decide as Hs; [|done]. clear -Hs. destruct r'. cbn in Hs |- *. by rewrite Hs. }
    assert (wf_record r3) as W3.
    { rewrite E. destruct W'. split; cbn -[fullmatch locator_ok]; try done. apply schema_v3_in. }
    assert (r3.(rq_id) = r.(rq_id)) as <- by (by rewrite E).
    rewrite decode_asdict; [by eexists|done|by rewrite E]. }
  exists s'. split; [done|]. apply save_record_spec in Hs as [Hl _]. cbn in Hl. by rewrite Hi in Hl.
Qed.

(** C28. A receipt becomes authorized for replay only by settling it against a registry that was
    searched and holds no such job, with no launch ever bound or the bound marker proven absent. *)
Lemma replay_needs_absence r r' :
  wf_record r -> receipt_step r r' -> r'.(rq_state) = "replay_authorized" ->
  r.(rq_state) <> "replay_authorized" ->
  exists present proof now, converge_disposition r (resolve_disposition r present proof) now = Ok r' /\
    present = Some false /\
    (rejection_is_retryable r = true \/
     r.(rq_state) ∈ ["preparing"; "uncertain"] /\
     (r.(proof_requirement) = "none" \/
      r.(proof_requirement) = "remote_launch_marker" /\ proven_absent r proof)).
Proof.
  intros W [state kind message now Hn Hk H|present proof now Hn H|now Hn H|node dir token now Hn H] Hr' Hr.
  - apply receipt_transition_inv in H as (_ & Hne & _ & ->). by destruct Hne.
  - exists present, proof, now. split; [done|].
    apply converge_inv in H as [[_ H]|[[_ H]|[_ ->]]]; [| |done].
    + apply receipt_transition_inv in H as (_ & Hne & _ & ->). by destruct Hne.
    + apply authorize_inv in H as (_ & _ & _ & Hsafe & _). apply (replay_safe_iff _ _ _ W) in Hsafe.
      naive_solver.
  - unfold reclaim_replay in H. apply bind_raise_ok in H as [_ H]. by injection H as <-.
  - unfold bind_remote_attempt in H. ok_steps H. by injection H as <-.
Qed.
End machine.

(** ** Identities of automatic retries *)
Definition is_request_char (c : Ascii.ascii) : bool := is_alnum c || char_in "._:@+-" c.

Lemma request_id_intro c l :
  is_alnum c = true -> Forall (fun c => is_request_char c = true) l -> (length l <= 127)%nat ->
  re_match REQUEST_ID_RE (c :: l) = true.
Proof.
  intros Hc Hl Hlen. unfold REQUEST_ID_RE.
  assert (re_match [Rep is_request_char 0 127] l = true) as Hrest by (apply re_match_single; split; [lia|done]).
  revert Hrest. change (Rep (fun c => is_alnum c || char_in "._:@+-" c) 0 127) with (Rep is_request_char 0 127).
  generalize [Rep is_request_char 0 127] as tail. intros tail Ht. cbn. by rewrite Hc, take_0, drop_0, Ht.
Qed.

Lemma name_request_char c : is_name_char c = true -> is_request_char c = true.
Proof. apply (ascii_forall is_name_char is_request_char). vm_compute. reflexivity. Qed.
Lemma digit_request_char c : is_digit_char c -> is_request_char c = true.
Proof. intros (d & Hd & ->). do 10 (destruct d as [|d]; [done|]). lia. Qed.

Lemma pretty_length z k : 0 <= z -> (0 < k)%nat -> z < 10 ^ Z.of_nat k -> (str_len (pretty z) <= k)%nat.
Proof.
  intros Hz Hk Hlt. destruct z as [|p|p]; [cbn; lia| |done].
  change (pretty (Z.pos p)) with (pretty_N_go (N.pos p) "").
  destruct (pretty_go_digits (N.pos p) "") as (l & Hl & _ & _ & _ & Hlen); [lia|].
  rewrite <- chars_length, Hl. cbn [chars]. rewrite app_nil_r. apply (Hlen k); [done|].
  apply N2Z.inj_lt. rewrite N2Z.inj_pow, nat_N_Z. exact Hlt.
Qed.

Section retry.
Context (sha : list Ascii.ascii -> string).
Context (sha_hex : forall data, fullmatch SHA256_RE (sha data) = true).

(** The request identity derived for an automatic retry of a generated job is always
    admissible: the composition fits the limit. *)
Lemma retry_identity_valid stamp suffix name ordinal :
  fullmatch [Rep is_digit 8 8; one "-"; Rep is_digit 4 4] stamp = true ->
  fullmatch [Rep is_hex 16 16] suffix = true -> 0 <= ordinal <= MAX_RETRY_LIMIT ->
  let id := new_job_id sha stamp suffix name +:+ ":retry:" +:+ pretty (ordinal + 1) in
  validate_request_id id = Ok id.
Proof using sha_hex.
  intros Hstamp Hsuffix Hord. cbv zeta. unfold validate_request_id.
  set (id := _ +:+ _). assert (fullmatch REQUEST_ID_RE id = true) as ->; [|done].
  pose proof (new_job_id_valid sha sha_hex stamp suffix name Hstamp Hsuffix) as Hjob.
  apply fullmatch_single in Hjob as [_ Hjob].
  assert ((str_len (new_job_id sha stamp suffix name) <= 95)%nat) as Hlen.
  { destruct (sanitize_name_safe sha sha_hex name) as (_ & _ & Hs).
    apply fullmatch_single in Hsuffix as [Hx _]. apply re_match_length in Hstamp.
    rewrite chars_length in Hstamp. cbn in Hstamp. unfold new_job_id, MAX_SAFE_NAME_LENGTH in *.
    rewrite !str_len_app. cbn. lia. }
  assert (exists c l, chars (new_job_id sha stamp suffix name) = c :: l /\ is_alnum c = true) as (c & l & Hc & Halnum).
  { unfold new_job_id. rewrite chars_app. unfold fullmatch in Hstamp.
    destruct (chars stamp) as [|c l] eqn:E; [by vm_compute in Hstamp|].
    exists c. eexists. split; [reflexivity|]. cbn in Hstamp.
    destruct (is_digit c) eqn:Hd; [|by rewrite ?andb_false_r in Hstamp].
    unfold is_alnum. rewrite Hd. by rewrite orb_true_r. }
  unfold fullmatch, id. rewrite !chars_app, Hc. cbn [app]. apply request_id_intro; [done| |].
  - rewrite Hc in Hjob. apply Forall_cons in Hjob as [_ Hjob]. apply Forall_app. split.
    + eapply Forall_impl; [exact Hjob|]. intros x. apply name_request_char.
    + apply Forall_app. split; [repeat (constructor; [done|]); constructor|].
      eapply Forall_impl; [apply pretty_digits; lia|]. intros x. apply digit_request_char.
  - rewrite !length_app, !chars_length. unfold MAX_RETRY_LIMIT in Hord.
    assert ((str_len (pretty (ordinal + 1)%Z) <= 2)%nat) by (apply pretty_length; lia).
    assert (S (length l) <= 95)%nat by (change (S (length l)) with (length (c :: l)); by rewrite <- Hc, chars_length).
    cbn. lia.
Qed.
End retry.

(** ** One request, from its claim to a replay *)
Definition zero_sha (_ : list Ascii.ascii) : string :=
  "0000000000000000000000000000000000000000000000000000000000000000".
Lemma zero_sha_hex data : fullmatch SHA256_RE (zero_sha data) = true.
Proof. vm_compute. reflexivity. Qed.

Definition claimed_receipt : RequestRecord :=
  mkRequestRecord REQUEST_SCHEMA "nightly:1" (zero_sha []) "20260101-0000_base_0123456789abcdef" "preparing"
    100%Q 100%Q None None "none" None None None.
Definition authorized_receipt : RequestRecord :=
  claimed_receipt <| rq_state := "replay_authorized" |> <| rq_updated_at := 200%Q |>
    <| error_kind := Some "proven_absent" |>
    <| error_message := Some "no registry job or matching remote launch marker exists" |>.
Definition bound_receipt : RequestRecord :=
  claimed_receipt <| rq_updated_at := 300%Q |> <| proof_requirement := "remote_launch_marker" |>
    <| proof_node := Some "gpu1" |> <| proof_job_dir := Some "~/dt/jobs/base" |>
    <| launch_identity_sha256 := Some (zero_sha []) |>.

Lemma claimed_wf : wf_record claimed_receipt.
Proof.
  split; try done; try (vm_compute; reflexivity); try (by intros).
  all: apply (bool_decide_unpack _); vm_compute; exact I.
Qed.
Lemma authorizing : receipt_step zero_sha claimed_receipt authorized_receipt.
Proof. apply (step_converge _ _ _ (Some false) None 200%Q); vm_compute; reflexivity. Qed.
Lemma reclaiming : receipt_step zero_sha authorized_receipt (claimed_receipt <| rq_updated_at := 250%Q |>).
Proof. apply (step_reclaim _ _ _ 250%Q); vm_compute; reflexivity. Qed.
Lemma binding : receipt_step zero_sha (claimed_receipt <| rq_updated_at := 250%Q |>) bound_receipt.
Proof.
  apply (step_bind _ _ _ "gpu1" "~/dt/jobs/base" "0123456789abcdef0123456789abcdef" 300%Q); vm_compute; reflexivity.
Qed.

Lemma receipts_stay_readable_witness :
  exists s', save_record zero_sha Published bound_receipt ∅ = (Ok tt, s') /\
    load_record zero_sha "nightly:1" s' = Ok (Some bound_receipt).
Proof.
  destruct (receipts_stay_readable zero_sha zero_sha_hex claimed_receipt bound_receipt ∅) as [_ (s' & Hs & Hl)].
  - eapply rtc_l; [exact authorizing|]. eapply rtc_l; [exact reclaiming|]. apply rtc_once, binding.
  - exact claimed_wf.
  - vm_compute. reflexivity.
  - exists s'. split; [exact Hs|exact Hl].
Defined.

Lemma replay_needs_absence_witness :
  exists present proof now,
    converge_disposition claimed_receipt (resolve_disposition claimed_receipt present proof) now
      = Ok authorized_receipt /\ present = Some false.
Proof.
  destruct (replay_needs_absence zero_sha claimed_receipt authorized_receipt claimed_wf authorizing)
    as (present & proof & now & H & Hp & _); [reflexivity|discriminate|].
  exists present, proof, now. split; [exact H|exact Hp].
Defined.

Lemma retry_identity_valid_witness :
  let id := new_job_id zero_sha "20260101-0000" "0123456789abcdef" "nightly" +:+ ":retry:" +:+ pretty (10 + 1)%Z in
  validate_request_id id = Ok id.
Proof.
  apply (retry_identity_valid zero_sha zero_sha_hex "20260101-0000" "0123456789abcdef" "nightly" 10).
  - vm_compute. reflexivity.
  - vm_compute. reflexivity.
  - unfold MAX_RETRY_LIMIT. lia.
Defined.
