(* ===== verification/Submission.v ===== *)
(** * Idempotent submission ([dispatch/submission.py], [dispatch/__init__.py])

    A submission with a request identity claims it durably before it launches
    anything, answers a repeated request from the receipt and the registry, and
    records the verdict of a failed launch.  The launch itself is an argument,
    as are the claimed action, the compatibility check of the resident agent
    and the lookup of a multi-job record under the same identity. *)

From S2P Require Import Prelude Text PyValue Diagnostics JobEntry RegistryCodec Lifecycle Registry Intent.

(** What the launch and the claimed action may raise. *)
Inductive launch_class := Interrupted | StartFailed | Refused | Unexpected.
#[export] Instance launch_class_eq_dec : EqDecision launch_class.
Proof. solve_decision. Defined.
(** [type(exc).__name__], [str(exc)] and the [retry_safe] attribute. *)
Record launch_exn := mkLaunchExn {
  lx_class : launch_class;
  lx_name : string;
  lx_message : string;
  lx_retry_safe : bool;
}.

(** What a submission returns or raises. *)
Inductive submitted :=
  | Launched (entry : JobEntry)
  | Replayed (entry : JobEntry)
  | RequestOutcomeUnknown (job_id : string)
  | RequestRejected
  | RequestConflict
  | FailedBeforeStart (entry : JobEntry)
  | LaunchRaised (x : launch_exn)
  | Escaped (e : exn).

(** [except (OSError, RegistryError, RequestRecordError, ValueError)] and
    without [RegistryError]. *)
Definition is_record_failure (e : exn) : bool :=
  is_value_error e
  || match e with OSError _ | RequestRecordError _ | RequestDurabilityUnknown _ => true | _ => false end.
Definition is_reconcile_failure (e : exn) : bool :=
  is_record_failure e || match e with RegistryError _ => true | _ => false end.

(** ** Reconciling an interrupted receipt *)
Definition never_started (entry : JobEntry) : bool :=
  bool_decide (entry.(started_at) = None) && bool_decide (entry.(pgid) = None).
Definition uncertain_reason (entry : JobEntry) : bool :=
  starts_with UNCERTAIN_LAUNCH_PREFIX (default "" entry.(reason)).

(** The new receipt, or [None] when it stays as it is. *)
Definition reconciled (record : RequestRecord) (existing : JobEntry) (now : Q)
  : option (result RequestRecord) :=
  let before_start := transition record "confirmed" (Some "failed_before_start") existing.(reason) now in
  let confirmed := transition record "confirmed" None None now in
  if bool_decide (record.(rq_state) = "preparing") then
    Some (if uncertain_reason existing then
            transition record "uncertain" (Some "launch_outcome_unknown") existing.(reason) now
          else if bool_decide (existing.(status) = Failed) && never_started existing
          then before_start else confirmed)
  else if bool_decide (record.(rq_state) = "replay_authorized") then Some confirmed
  else if bool_decide (record.(rq_state) = "uncertain") then
    if is_uncertain_launch existing || bool_decide (existing.(status) = Lost) then None
    else Some (if bool_decide (existing.(status) ∈ [Killed; Failed; Skipped]) && never_started existing
               then before_start else confirmed)
  else None.

Section submission.
Context (sha256_hexdigest : list Ascii.ascii -> string) (now : Q).

(** [load] reads the registry and leaves it alone. *)
Definition load_job (r : registry) (job_id : string) : result (option JobEntry) := (load now job_id r).1.

Definition reconcile_submission_request (r : registry) (d : disk) (record : RequestRecord)
    (s : request_store) : result (RequestRecord * option JobEntry) * request_store :=
  match load_job r record.(rq_job_id) with
  | Err e => (Err e, s)
  | Ok None => (Ok (record, None), s)
  | Ok (Some existing) =>
      match reconciled record existing now with
      | None => (Ok (record, Some existing), s)
      | Some (Err e) => (Err e, s)
      | Some (Ok updated) =>
          match save_record sha256_hexdigest d updated s with
          | (Err e, s) => (Err e, s)
          | (Ok _, s) => (Ok (updated, Some existing), s)
          end
      end
  end.

(** ** A prior receipt: the answer, or the record authorized for replay *)
Definition _resolve_prior_request (r : registry) (d : disk) (record : RequestRecord)
    (s : request_store) : (submitted + RequestRecord) * request_store :=
  match reconcile_submission_request r d record s with
  | (Err e, s) => (inl (if is_reconcile_failure e then RequestOutcomeUnknown record.(rq_job_id)
                        else Escaped e), s)
  | (Ok (record, existing), s) =>
      let unknown := inl (RequestOutcomeUnknown record.(rq_job_id)) in
      let answer :=
        if bool_decide (record.(rq_state) = "confirmed") then
          match existing with
          | Some existing =>
              inl (if bool_decide (record.(error_kind) = Some "failed_before_start")
                   then FailedBeforeStart existing else Replayed existing)
          | None => inl RequestRejected
          end
        else
          let authorized :=
            if bool_decide (record.(rq_state) = "rejected") then
              let disposition := resolve_disposition record (Some (bool_decide (is_Some existing))) None in
              if disposition.(retry_safe) then
                match authorize_replay record disposition now with
                | Ok record => inr record
                | Err e => inl (Escaped e)
                end
              else inl RequestRejected
            else inr record in
          match authorized with
          | inl stop => inl stop
          | inr record =>
              if negb (bool_decide (record.(rq_state) = "replay_authorized")) then unknown
              else if bool_decide (is_Some existing) then unknown
              else inr record
          end in
      (answer, s)
  end.

(** ** The durable claim *)

(** [new_id] is the identity [new_job_id] draws. *)
Definition _claim_request_identity (new_id request_id intent_sha256_ : string) (d : disk)
    (record : option RequestRecord) (s : request_store)
  : (submitted + RequestRecord) * request_store :=
  match record with
  | None =>
      match create request_id intent_sha256_ new_id now with
      | Err e => (inl (Escaped e), s)
      | Ok record =>
          match save_record sha256_hexdigest d record s with
          | (Ok _, s) => (inr record, s)
          | (Err (RequestDurabilityUnknown _), s) => (inl (RequestOutcomeUnknown new_id), s)
          | (Err e, s) => (inl (if is_record_failure e then RequestRejected else Escaped e), s)
          end
      end
  | Some record =>
      let failed e := inl (if is_record_failure e then RequestOutcomeUnknown record.(rq_job_id)
                           else Escaped e) in
      match reclaim_replay record now with
      | Err e => (failed e, s)
      | Ok record =>
          match save_record sha256_hexdigest d record s with
          | (Ok _, s) => (inr record, s)
          | (Err e, s) => (failed e, s)
          end
      end
  end.

(** ** The verdict of a launch *)

(** The state and error kind of a failed submission. *)
Definition failure_verdict (existing : option JobEntry) (x : launch_exn) (claimed_action_in_progress : bool)
  : string * string :=
  if claimed_action_in_progress then
    ("rejected", if x.(lx_retry_safe) then "claimed_action_interrupted" else "claimed_action_failed")
  else if bool_decide (x.(lx_class) = Interrupted) then ("uncertain", "interrupted")
  else if match existing with Some e => uncertain_reason e | None => false end
  then ("uncertain", "launch_outcome_unknown")
  else if bool_decide (x.(lx_class) = StartFailed) && bool_decide (is_Some existing)
  then ("confirmed", "failed_before_start")
  else if bool_decide (x.(lx_class) ∈ [StartFailed; Refused]) then ("rejected", x.(lx_name))
  else ("uncertain", x.(lx_name)).

(** [load(cfg, request_id) or record], then the transition, then [save]. *)
Definition settle_receipt (request_id : string) (d : disk) (record : RequestRecord) (state : string)
    (kind message : option string) (s : request_store) : result unit * request_store :=
  match latest ← load_record sha256_hexdigest request_id s;
        transition (default record latest) state kind message now with
  | Err e => (Err e, s)
  | Ok settled => save_record sha256_hexdigest d settled s
  end.

(** The exception the caller sees in the end. *)
Definition _record_submission_failure (r : registry) (d : disk) (request_id : string)
    (record : RequestRecord) (x : launch_exn) (claimed_action_in_progress : bool) (s : request_store)
  : submitted * request_store :=
  let existing :=
    match load_job r record.(rq_job_id) with
    | Ok found => Ok found
    | Err e => if is_value_error e || match e with RegistryError _ => true | _ => false end
               then Ok None else Err e
    end in
  match existing with
  | Err e => (Escaped e, s)
  | Ok existing =>
      let '(state, kind) := failure_verdict existing x claimed_action_in_progress in
      match settle_receipt request_id d record state (Some kind) (Some x.(lx_message)) s with
      | (Ok _, s) => (LaunchRaised x, s)
      | (Err e, s) => (if is_record_failure e then RequestOutcomeUnknown record.(rq_job_id) else Escaped e, s)
      end
  end.

Definition _confirm_request (request_id : string) (d : disk) (record : RequestRecord) (entry : JobEntry)
    (s : request_store) : submitted * request_store :=
  match settle_receipt request_id d record "confirmed" None None s with
  | (Ok _, s) => (Launched entry, s)
  | (Err e, s) => (if is_record_failure e then RequestOutcomeUnknown record.(rq_job_id) else Escaped e, s)
  end.

(** ** Settling an interrupted request ([dt request]) *)

(** The generated [__eq__] of the record. *)
Definition same_record (a b : RequestRecord) : bool :=
  bool_decide ((a.(rq_schema), a.(rq_id), a.(intent_sha256), a.(rq_job_id), a.(rq_state))
             = (b.(rq_schema), b.(rq_id), b.(intent_sha256), b.(rq_job_id), b.(rq_state)))
  && Qeq_bool a.(rq_created_at) b.(rq_created_at) && Qeq_bool a.(rq_updated_at) b.(rq_updated_at)
  && bool_decide ((a.(error_kind), a.(error_message), a.(proof_requirement))
                = (b.(error_kind), b.(error_message), b.(proof_requirement)))
  && bool_decide ((a.(proof_node), a.(proof_job_dir), a.(launch_identity_sha256))
                = (b.(proof_node), b.(proof_job_dir), b.(launch_identity_sha256))).

(** The body of [request_status] under the request's lock; [inspect] is
    [inspect_request_remote_proof]. *)
Definition settle_request (inspect : RequestRecord -> RemoteLaunchProof) (r : registry) (d d' : disk)
    (record : RequestRecord) (s : request_store)
  : result (RequestRecord * RequestDisposition) * request_store :=
  match reconcile_submission_request r d record s with
  | (Err e, s) => (Err e, s)
  | (Ok (record, entry), s) =>
      let remote_proof :=
        if negb (bool_decide (is_Some entry)) && bool_decide (record.(proof_requirement) = "remote_launch_marker")
           && negb (bool_decide (record.(rq_state) ∈ ["confirmed"; "rejected"]))
        then Some (inspect record) else None in
      let disposition_ := resolve_disposition record (Some (bool_decide (is_Some entry))) remote_proof in
      if bool_decide (disposition_.(disposition) ∈ ["safe_replay"; "confirmed"]) then
        match converge_disposition record disposition_ now with
        | Err e => (Err e, s)
        | Ok converged =>
            if same_record converged record then (Ok (record, disposition_), s)
            else match save_record sha256_hexdigest d' converged s with
                 | (Err e, s) => (Err e, s)
                 | (Ok _, s) => (Ok (converged, disposition_), s)
                 end
        end
      else (Ok (record, disposition_), s)
  end.

(** ** The submission *)
Context {X : Type}.

(** The head: the registry, the receipts, and everything else. *)
Record Head := mkHead {
  hd_registry : registry;
  hd_requests : request_store;
  hd_outside : X;
}.
#[export] Instance eta_Head : Eta Head := fun h => mkHead h.(hd_registry) h.(hd_requests) h.(hd_outside).

(** [_submit_prepared_once] with the claimed job identity and submission time. *)
Context (submit_once : string -> string -> Q -> Head -> (JobEntry + launch_exn) * Head).

(** The disk's answer to each of the three writes a submission can make. *)
Record disks := mkDisks { on_reconcile : disk; on_claim : disk; on_verdict : disk }.

(** After the claim: the action, the launch, the verdict. *)
Definition launch_claimed (ds : disks) (request_id : string) (record : RequestRecord)
    (claimed_action : option (Head -> option launch_exn * Head)) (h : Head) : submitted * Head :=
  let failed x in_progress h :=
    let '(out, s) := _record_submission_failure h.(hd_registry) ds.(on_verdict) request_id record x
                       in_progress h.(hd_requests) in
    (out, h <| hd_requests := s |>) in
  let '(raised, h) := match claimed_action with Some act => act h | None => (None, h) end in
  match raised with
  | Some x => failed x true h
  | None =>
      match submit_once request_id record.(rq_job_id) record.(rq_created_at) h with
      | (inr x, h) => failed x false h
      | (inl entry, h) =>
          let '(out, s) := _confirm_request request_id ds.(on_verdict) record entry h.(hd_requests) in
          (out, h <| hd_requests := s |>)
      end
  end.

(** The part of [_submit_prepared] under the request's lock: [group] tells
    whether a multi-job record owns the identity, [compatible] whether the
    resident agent is compatible. *)
Definition _submit_prepared (ds : disks) (group : result bool) (compatible : result unit)
    (new_id request_id intent_sha256_ : string)
    (claimed_action : option (Head -> option launch_exn * Head)) (h : Head) : submitted * Head :=
  match group_record ← group; found ← load_record sha256_hexdigest request_id h.(hd_requests);
        Ok (group_record : bool, found) with
  | Err (RequestRecordError _ | RequestDurabilityUnknown _) => (RequestOutcomeUnknown "-", h)
  | Err e => (Escaped e, h)
  | Ok (true, _) => (RequestConflict, h)
  | Ok (false, found) =>
      if match found with Some r => negb (bool_decide (r.(intent_sha256) = intent_sha256_)) | None => false end
      then (RequestConflict, h)
      else
        let '(prior, s) :=
          match found with
          | None => (inr None, h.(hd_requests))
          | Some record =>
              match _resolve_prior_request h.(hd_registry) ds.(on_reconcile) record h.(hd_requests) with
              | (inl answer, s) => (inl answer, s)
              | (inr record, s) => (inr (Some record), s)
              end
          end in
        let h := h <| hd_requests := s |> in
        match prior with
        | inl answer => (answer, h)
        | inr record =>
            match compatible with
            | Err e => (Escaped e, h)
            | Ok _ =>
                match _claim_request_identity new_id request_id intent_sha256_ ds.(on_claim) record
                        h.(hd_requests) with
                | (inl stop, s) => (stop, h <| hd_requests := s |>)
                | (inr record, s) =>
                    launch_claimed ds request_id record claimed_action (h <| hd_requests := s |>)
                end
            end
        end
  end.
End submission.

(** ** Binding the launch to its receipt *)
Definition _bind_request_remote_attempt (sha256_hexdigest : list Ascii.ascii -> string) (now : Q) (d : disk)
    (request_id job_id node job_dir launch_token : string) (s : request_store)
  : result unit * request_store :=
  match load_record sha256_hexdigest request_id s with
  | Err e => (Err e, s)
  | Ok None => (Err (RequestRecordError "submission request record is missing or belongs to another job"), s)
  | Ok (Some record) =>
      if negb (bool_decide (record.(rq_job_id) = job_id)) then
        (Err (RequestRecordError "submission request record is missing or belongs to another job"), s)
      else if bool_decide (record.(rq_state) = "rejected") then
        (Err (RequestRecordError "submission request was rejected before remote launch"), s)
      else
        match bind_remote_attempt sha256_hexdigest record node job_dir launch_token now with
        | Err e => (Err e, s)
        | Ok bound => save_record sha256_hexdigest d bound s
        end
  end.
