(* ===== verification/SubmissionSpec.v ===== *)
(** * One request, one launch

    A submission launches only under a fresh claim or a consumed replay
    authorization; once its launch is bound to the receipt, no repetition of
    the request, no settlement without proof of absence and no change of the
    registry ever launches it again. *)

From S2P Require Import Prelude Text PyValue Diagnostics JobEntry RegistryCodec Lifecycle Registry ActiveIndex RegistryOps RegistryFacts RegistrySpec Intent IntentSpec Submission.

(** A receipt that answers, or refuses, every repetition of its request. *)
Definition blocked (r : RequestRecord) : Prop :=
  r.(rq_state) <> "replay_authorized" /\ rejection_is_retryable r = false.
(** A receipt whose launch is bound to a remote marker. *)
Definition bound (r : RequestRecord) : Prop :=
  r.(rq_state) <> "replay_authorized" /\ r.(proof_requirement) = "remote_launch_marker".

Lemma bound_blocked r : bound r -> blocked r.
Proof.
  intros [Hs Hp]. split; [done|]. unfold rejection_is_retryable. rewrite Hp.
  rewrite (bool_decide_false ("remote_launch_marker" = "none")) by done. by rewrite andb_false_r.
Qed.

Lemma blocked_state r s :
  r.(rq_state) = s -> s <> "replay_authorized" -> s <> "rejected" -> blocked r.
Proof.
  intros <- H1 H2. split; [done|]. unfold rejection_is_retryable. by rewrite (bool_decide_false (_ = "rejected")).
Qed.

Section submission.
Context (sha : list Ascii.ascii -> string) (now : Q).

Definition receipt (id : string) (s : request_store) (P : RequestRecord -> Prop) : Prop :=
  exists r, load_record sha id s = Ok (Some r) /\ r.(rq_id) = id /\ P r.

Lemma load_record_id id s r : load_record sha id s = Ok (Some r) -> wf_record r /\ r.(rq_id) = id.
Proof.
  unfold load_record. intros H. apply bind_ok in H as (digest & _ & H). apply bind_ok in H as (raw & _ & H).
  destruct raw as [raw|]; [|discriminate H]. apply bind_ok in H as (r' & Hd & H). injection H as ->.
  by apply decode_record_wf in Hd.
Qed.

(** Properties of a receipt that do not depend on its schema's version. *)
Definition schema_free (P : RequestRecord -> Prop) : Prop := forall r, P r -> P (r <| rq_schema := REQUEST_SCHEMA |>).
Lemma blocked_schema : schema_free blocked.
Proof. by intros r [? ?]. Qed.
Lemma bound_schema : schema_free bound.
Proof. by intros r [? ?]. Qed.

(** A write of a record that has the property keeps it, whatever the disk does. *)
Lemma save_keeps id d r s res s' P :
  schema_free P -> save_record sha d r s = (res, s') -> r.(rq_id) = id -> P r ->
  receipt id s P -> receipt id s' P.
Proof.
  intros HP H Hid Hr Hs. apply save_record_spec in H as [H _]. destruct (replaced res).
  - rewrite Hid in H. exists (r <| rq_schema := REQUEST_SCHEMA |>). split; [done|]. split; [done|by apply HP].
  - by subst s'.
Qed.

(** ** Reconciliation *)
Lemma reconciled_inv record existing updated :
  reconciled record existing now = Some (Ok updated) ->
  updated.(rq_id) = record.(rq_id) /\ updated.(proof_requirement) = record.(proof_requirement) /\
  (updated.(rq_state) = "uncertain" \/ updated.(rq_state) = "confirmed").
Proof.
  unfold reconciled. cbv zeta. intros H.
  assert (forall st k m, transition record st k m now = Ok updated -> (st = "uncertain" \/ st = "confirmed") ->
    updated.(rq_id) = record.(rq_id) /\ updated.(proof_requirement) = record.(proof_requirement) /\
    (updated.(rq_state) = "uncertain" \/ updated.(rq_state) = "confirmed")) as Ht.
  { by intros st k m (_ & _ & _ & ->)%receipt_transition_inv Hst. }
  repeat (case_match; [|]); simplify_eq; eauto.
Qed.

(** A property of receipts that repetition preserves and that forbids another attempt. *)
Record stable (P : RequestRecord -> Prop) : Prop := {
  sb_schema : schema_free P;
  sb_settled : forall r u, P r -> (u.(rq_state) = "uncertain" \/ u.(rq_state) = "confirmed") ->
    u.(proof_requirement) = r.(proof_requirement) -> P u;
  sb_blocked : forall r, P r -> blocked r;
}.
Lemma blocked_stable : stable blocked.
Proof. split; [exact blocked_schema| |done]. intros r u _ [H|H] _; by eapply blocked_state. Qed.
Lemma bound_stable : stable bound.
Proof.
  split; [exact bound_schema| |exact bound_blocked]. intros r u [_ Hp] Hu Hpu.
  split; [destruct Hu as [-> | ->]; discriminate|congruence].
Qed.

Section keeping.
Context (id : string) (P : RequestRecord -> Prop) (HP : stable P).

Lemma reconcile_keeps r d record s out s' :
  record.(rq_id) = id -> P record ->
  reconcile_submission_request sha now r d record s = (out, s') ->
  receipt id s P -> receipt id s' P /\
  forall record' existing, out = Ok (record', existing) -> P record' /\ record'.(rq_id) = id.
Proof using HP.
  intros Hid Hr H Hs. unfold reconcile_submission_request in H.
  destruct (load_job now r record.(rq_job_id)) as [[existing|]|x];
    [|injection H as <- <-; split; [done|]; by intros ? ? [=]; subst|by injection H as <- <-].
  destruct (reconciled record existing now) as [[updated|x]|] eqn:Hrec;
    [|by injection H as <- <-|injection H as <- <-; split; [done|]; by intros ? ? [=]; subst].
  apply reconciled_inv in Hrec as (Hi & Hp & Hst).
  destruct (save_record sha d updated s) as [res s1] eqn:Hsave.
  assert (s1 = s') as -> by (destruct res; by injection H).
  assert (P updated) as Hu by (by eapply (sb_settled _ HP)).
  split; [eapply save_keeps; [apply HP|exact Hsave|congruence|done|done]|].
  intros record' existing' ->. destruct res; [|discriminate H]. injection H as <- _.
  split; [done|congruence].
Qed.

(** Such a receipt answers: it never authorizes another attempt. *)
Lemma resolve_keeps r d record s out s' :
  record.(rq_id) = id -> P record ->
  _resolve_prior_request sha now r d record s = (out, s') ->
  receipt id s P -> receipt id s' P /\ exists answer, out = inl answer /\
    (forall e, answer <> Launched e) /\ (forall x, answer <> LaunchRaised x).
Proof using HP.
  intros Hid Hb H Hs. unfold _resolve_prior_request in H.
  destruct (reconcile_submission_request sha now r d record s) as [res s1] eqn:Hrec.
  apply reconcile_keeps in Hrec as [Hs1 Hout]; [|done..].
  destruct res as [[record' existing]|x];
    [|injection H as <- <-; split; [done|]; eexists; split; [done|]; by destruct (is_reconcile_failure x)].
  destruct (Hout _ _ eq_refl) as (Hb' & Hid'). injection H as <- <-. split; [done|].
  apply (sb_blocked _ HP) in Hb' as [Hra Hrr].
  destruct (bool_decide (_ = "confirmed")).
  { destruct existing; [destruct (bool_decide (_ = Some "failed_before_start"))|]; eexists; by split. }
  destruct (bool_decide (record'.(rq_state) = "rejected")) eqn:Hrej.
  - apply bool_decide_eq_true in Hrej.
    assert ((resolve_disposition record' (Some (bool_decide (is_Some existing))) None).(retry_safe) = false) as ->;
      [|eexists; by split].
    unfold resolve_disposition. destruct (bool_decide (is_Some existing)); [by rewrite bool_decide_true|].
    rewrite (bool_decide_false (Some false = Some true)) by done. rewrite Hrej.
    by rewrite (bool_decide_false ("rejected" = "confirmed")), (bool_decide_true ("rejected" = "rejected")), Hrr.
  - rewrite (bool_decide_false (_ = "replay_authorized")) by done. eexists; by split.
Qed.

(** ** Repeating a request *)
Context {X : Type} (submit_once : string -> string -> Q -> Head (X:=X) -> (JobEntry + launch_exn) * Head (X:=X)).

(** A repetition of a request whose receipt has the property launches nothing and runs no
    claimed action: it only reads the registry and the receipt, whatever the caller's intent,
    the disk and the registry are. *)
Lemma repetition_quiet ds group compatible new_id intent action h out h' :
  receipt id h.(hd_requests) P ->
  _submit_prepared sha now submit_once ds group compatible new_id id intent action h = (out, h') ->
  h'.(hd_registry) = h.(hd_registry) /\ h'.(hd_outside) = h.(hd_outside) /\
  receipt id h'.(hd_requests) P /\
  (forall e, out <> Launched e) /\ (forall x, out <> LaunchRaised x).
Proof using HP.
  intros Hs H. destruct Hs as (record & Hl & Hid & Hr). assert (receipt id h.(hd_requests) P) as Hs by (by exists record).
  unfold _submit_prepared in H. rewrite Hl in H.
  destruct group as [g|x]; cbn [mbind result_bind] in H.
  2:{ destruct x; injection H as <- <-; by split. }
  destruct g; [injection H as <- <-; by split|].
  destruct (negb _); [injection H as <- <-; by split|].
  destruct (_resolve_prior_request sha now h.(hd_registry) ds.(on_reconcile) record h.(hd_requests))
    as [prior s1] eqn:Hprior.
  apply resolve_keeps in Hprior as [Hs1 (answer & -> & Hne)]; [|done..].
  cbv zeta in H. injection H as <- <-. cbn. done.
Qed.
End keeping.

(** A request whose receipt is unsettled, confirmed, or rejected for good is answered from
    the receipt and the registry: repeating it runs neither the launch nor the claimed action. *)
Lemma repetition_inert id {X : Type} (submit_once : string -> string -> Q -> Head (X:=X) -> (JobEntry + launch_exn) * Head (X:=X))
    ds group compatible new_id intent action h out h' :
  receipt id h.(hd_requests) blocked ->
  _submit_prepared sha now submit_once ds group compatible new_id id intent action h = (out, h') ->
  h'.(hd_registry) = h.(hd_registry) /\ h'.(hd_outside) = h.(hd_outside) /\
  receipt id h'.(hd_requests) blocked /\
  (forall e, out <> Launched e) /\ (forall x, out <> LaunchRaised x).
Proof. apply (repetition_quiet id blocked blocked_stable). Qed.

(** ** Settlement and binding *)
Lemma bound_safe r b proof :
  bound r -> (resolve_disposition r (Some b) proof).(retry_safe) = true -> proven_absent r proof.
Proof.
  intros Hb. pose proof (bound_blocked r Hb) as [_ Hrr]. destruct Hb as [Hs Hp].
  unfold resolve_disposition. destruct b; [by rewrite bool_decide_true|].
  rewrite (bool_decide_false (Some false = Some true)), (bool_decide_false (Some false = None)) by done.
  destruct (bool_decide (_ = "confirmed")); [done|].
  destruct (bool_decide (_ = "rejected")); [by rewrite Hrr|].
  rewrite (bool_decide_false (_ = "replay_authorized")), Hp by done.
  rewrite (bool_decide_false (_ = "none")), (bool_decide_false (_ = "legacy_unknown")) by done.
  apply marker_safe.
Qed.

Lemma settle_keeps_bound id inspect r d d' record s out s' :
  (forall rec, (inspect rec).(rp_outcome) <> "absent") ->
  record.(rq_id) = id -> bound record -> receipt id s bound ->
  settle_request sha now inspect r d d' record s = (out, s') -> receipt id s' bound.
Proof.
  intros Hna Hid Hb Hs H. unfold settle_request in H.
  destruct (reconcile_submission_request sha now r d record s) as [res s1] eqn:Hrec.
  apply (reconcile_keeps id bound bound_stable) in Hrec as [Hs1 Hout]; [|done..].
  destruct res as [[record' entry]|x]; [|by injection H as _ <-].
  destruct (Hout _ _ eq_refl) as (Hb' & Hid'). cbv zeta in H.
  match type of H with context [resolve_disposition record' _ ?p] => set (proof := p) in H end.
  assert (~ proven_absent record' proof) as Hnp.
  { intros (p & Hp & Ha & _). unfold proof in Hp.
    match type of Hp with (if ?c then _ else _) = _ => destruct c; [|done] end.
    injection Hp as <-. by apply (Hna record'). }
  destruct (bool_decide (_ ∈ ["safe_replay"; "confirmed"])); [|by injection H as _ <-].
  destruct (converge_disposition record' _ now) as [converged|x] eqn:Hc; [|by injection H as _ <-].
  destruct (same_record converged record'); [by injection H as _ <-|].
  destruct (save_record sha d' converged s1) as [res s2] eqn:Hsave.
  assert (s2 = s') as -> by (destruct res; by injection H).
  assert (converged.(rq_id) = id /\ bound converged) as [Hci Hcb].
  { apply converge_inv in Hc as [[_ Hc]|[[_ Hc]|[_ ->]]]; [| |done].
    - apply receipt_transition_inv in Hc as (_ & _ & _ & ->). split; [done|].
      eapply (sb_settled _ bound_stable record'); [done|by right|done].
    - apply authorize_inv in Hc as (_ & _ & _ & Hsafe & _). exfalso. by apply Hnp, (bound_safe record' (bool_decide (is_Some entry)) proof). }
  eapply save_keeps; [exact bound_schema|exact Hsave|done..].
Qed.

Lemma bind_keeps_bound id d job node dir token s res s' :
  _bind_request_remote_attempt sha now d id job node dir token s = (res, s') ->
  receipt id s bound -> receipt id s' bound.
Proof.
  intros H Hs. destruct Hs as (r & Hl & Hid & Hb). assert (receipt id s bound) as Hs by (by exists r).
  unfold _bind_request_remote_attempt in H. rewrite Hl in H.
  destruct (negb _); [by injection H as _ <-|]. destruct (bool_decide _); [by injection H as _ <-|].
  destruct (bind_remote_attempt sha r node dir token now) as [b|x] eqn:E; [|by injection H as _ <-].
  eapply save_keeps; [exact bound_schema|exact H| | |exact Hs].
  - unfold bind_remote_attempt in E. ok_steps E. by injection E as <-.
  - unfold bind_remote_attempt in E. ok_steps E. injection E as <-. split; [|done].
    cbn. apply Hb.
Qed.

(** ** A bound request is launched once *)
Section history.
Context (id : string).
Context {X : Type} (submit_once : string -> string -> Q -> Head (X:=X) -> (JobEntry + launch_exn) * Head (X:=X)).
Abbreviation Head := (Head (X:=X)).

(** What may happen on the head afterwards: the request is submitted again, with any intent;
    it is settled by an inspection that does not prove the marker absent; another attempt is
    bound to it; the registry changes. *)
Inductive later : Head -> Head -> Prop :=
  | later_submit ds group compatible new_id intent action h out h' :
      _submit_prepared sha now submit_once ds group compatible new_id id intent action h = (out, h') ->
      later h h'
  | later_settle inspect d d' record h out s' :
      (forall rec, (inspect rec).(rp_outcome) <> "absent") ->
      load_record sha id h.(hd_requests) = Ok (Some record) ->
      settle_request sha now inspect h.(hd_registry) d d' record h.(hd_requests) = (out, s') ->
      later h (h <| hd_requests := s' |>)
  | later_bind d job node dir token h res s' :
      _bind_request_remote_attempt sha now d id job node dir token h.(hd_requests) = (res, s') ->
      later h (h <| hd_requests := s' |>)
  | later_registry r h : later h (h <| hd_registry := r |>).

Lemma later_keeps h h' :
  later h h' -> receipt id h.(hd_requests) bound ->
  receipt id h'.(hd_requests) bound /\ h'.(hd_outside) = h.(hd_outside).
Proof.
  intros [ds g c n i a h0 out h1 H|inspect d d' record h0 out s' Hna Hl H|d job node dir token h0 res s' H|r h0] Hs;
    [|split; [|done]..].
  - apply (repetition_quiet id bound bound_stable) in H; [|done]. by destruct H as (_ & ? & ? & _).
  - destruct Hs as (r & Hl' & Hid & Hb). rewrite Hl in Hl'. injection Hl' as ->.
    eapply settle_keeps_bound; [exact Hna|exact Hid|exact Hb| |exact H]. by exists r.
  - by eapply bind_keeps_bound.
  - done.
Qed.

(** C11. Once a launch is bound to the receipt of its request, no sequence of repetitions, of
    settlements without proof of absence, of bindings and of registry changes ever runs the
    launch or the claimed action of that request again. *)
Lemma bound_never_relaunched h h' :
  rtc later h h' -> receipt id h.(hd_requests) bound ->
  receipt id h'.(hd_requests) bound /\ h'.(hd_outside) = h.(hd_outside).
Proof.
  induction 1 as [|x y z Hxy _ IH]; [done|]. intros Hs.
  destruct (later_keeps _ _ Hxy Hs) as [Hy Ho]. destruct (IH Hy) as [Hz Ho']. split; [done|congruence].
Qed.

(** ** What a launch leaves *)

(** A launch leaves its receipt preparing: it changes it only by binding it. *)
Context (launch_binds : forall job t h res h',
  submit_once id job t h = (res, h') -> receipt id h.(hd_requests) (fun r => r.(rq_state) = "preparing") ->
  receipt id h'.(hd_requests) (fun r => r.(rq_state) = "preparing")).

Lemma settle_receipt_spec d record state kind message s r res s' :
  load_record sha id s = Ok (Some r) -> r.(rq_state) = "preparing" ->
  settle_receipt sha now id d record state kind message s = (res, s') ->
  exists r', load_record sha id s' = Ok (Some r') /\ r'.(proof_requirement) = r.(proof_requirement) /\
    r'.(rq_state) <> "replay_authorized" /\
    ((r'.(rq_state) = state /\ r'.(error_kind) = kind) \/ r'.(rq_state) = "preparing").
Proof.
  intros Hl Hst H. unfold settle_receipt in H. rewrite Hl in H. cbn [mbind result_bind] in H.
  change (default record (Some r)) with r in H.
  assert (r.(rq_state) <> "replay_authorized") as Hnr by (rewrite Hst; discriminate).
  destruct (transition r state kind message now) as [settled|x] eqn:Ht.
  2:{ injection H as _ <-. exists r. auto. }
  apply receipt_transition_inv in Ht as (_ & Hne & _ & ->).
  apply save_record_spec in H as [H _]. apply load_record_id in Hl as Hid. destruct Hid as [_ Hid].
  destruct (replaced res).
  - cbn in H. rewrite Hid in H. eexists. split; [exact H|]. split; [done|]. split; [done|]. by left.
  - subst s'. exists r. auto.
Qed.

Lemma resolved_id r d record s record' s' :
  record.(rq_id) = id -> _resolve_prior_request sha now r d record s = (inr record', s') -> record'.(rq_id) = id.
Proof.
  intros Hid H. unfold _resolve_prior_request in H.
  destruct (reconcile_submission_request sha now r d record s) as [[[rec existing]|x] s1] eqn:Hrec; [|done].
  assert (rec.(rq_id) = id) as Hrid.
  { unfold reconcile_submission_request in Hrec. destruct (load_job _ _ _) as [[e|]|x]; [|by simplify_eq|done].
    destruct (reconciled record e now) as [[u|x]|] eqn:Hu; [|done|by simplify_eq].
    destruct (save_record _ _ _ _) as [[|x] s2]; [|done]. simplify_eq. apply reconciled_inv in Hu. naive_solver. }
  cbv zeta in H. injection H as H _. destruct (bool_decide (_ = "confirmed")); [by destruct existing|].
  destruct (bool_decide (rec.(rq_state) = "rejected")).
  - destruct (retry_safe _); [|done].
    destruct (authorize_replay rec _ now) as [a|x] eqn:Ha; [|done].
    assert (a.(rq_id) = id).
    { apply authorize_inv in Ha as (_ & _ & _ & _ & [[_ ->]|[_ ->]]); done. }
    destruct (negb _); [done|]. destruct (bool_decide _); [done|]. by injection H as <-.
  - destruct (negb _); [done|]. destruct (bool_decide _); [done|]. by injection H as <-.
Qed.

Lemma claim_prepares new_id intent d record s claimed s' :
  (forall r, record = Some r -> r.(rq_id) = id) ->
  _claim_request_identity sha now new_id id intent d record s = (inr claimed, s') ->
  exists r, load_record sha id s' = Ok (Some r) /\ r.(rq_state) = "preparing" /\
    r.(proof_requirement) = "none" /\ r.(rq_job_id) = claimed.(rq_job_id).
Proof.
  intros Hid H. unfold _claim_request_identity in H.
  assert (forall rec out s0, save_record sha d rec s = (Ok out, s0) -> rec.(rq_id) = id ->
    rec.(rq_state) = "preparing" -> rec.(proof_requirement) = "none" ->
    exists r, load_record sha id s0 = Ok (Some r) /\ r.(rq_state) = "preparing" /\
      r.(proof_requirement) = "none" /\ r.(rq_job_id) = rec.(rq_job_id)) as Hsave.
  { intros rec out s0 Hs Hi Hst Hp. apply save_record_spec in Hs as [Hl _]. cbn in Hl. rewrite Hi in Hl.
    by exists (rec <| rq_schema := REQUEST_SCHEMA |>). }
  destruct record as [r|].
  - unfold reclaim_replay in H. destruct (bool_decide (_ = "replay_authorized")); [|done]. cbn [negb raise_if mbind result_bind] in H.
    destruct (save_record _ _ _ _) as [[[]|x] s1] eqn:Hs; [|done]. injection H as <- <-.
    by apply (Hsave _ _ _ Hs); [exact (Hid r eq_refl)|..].
  - unfold create, validate_request_id in H. destruct (fullmatch REQUEST_ID_RE id); [|done]. cbn [mbind result_bind] in H.
    destruct (save_record _ _ _ _) as [[[]|x] s1] eqn:Hs; [|by destruct x]. injection H as <- <-.
    by eapply Hsave.
Qed.

(** The receipt refuses every repetition, unless the launcher refused the job before binding a
    marker, with a kind that is retryable. *)
Definition settled_launch (res : JobEntry + launch_exn) (s : request_store) : Prop :=
  receipt id s (fun r => blocked r \/
    r.(rq_state) = "rejected" /\ r.(proof_requirement) = "none" /\
    exists x, res = inr x /\ x.(lx_class) ∈ [StartFailed; Refused] /\
      x.(lx_name) ∈ RETRYABLE_REJECTION_KINDS /\ r.(error_kind) = Some x.(lx_name)).

Lemma settled_cases r' state kind :
  r'.(rq_state) <> "replay_authorized" ->
  ((r'.(rq_state) = state /\ r'.(error_kind) = kind) \/ r'.(rq_state) = "preparing") ->
  blocked r' \/ (r'.(rq_state) = "rejected" /\ state = "rejected" /\ r'.(proof_requirement) = "none" /\
    exists k, kind = Some k /\ r'.(error_kind) = Some k /\ k ∈ RETRYABLE_REJECTION_KINDS).
Proof.
  intros Hra Hc. destruct (rejection_is_retryable r') eqn:Hrr; [right|by left].
  unfold rejection_is_retryable in Hrr. apply andb_true_iff in Hrr as [Hrr Hp].
  apply andb_true_iff in Hrr as [Hs Hk]. apply bool_decide_eq_true in Hs, Hp.
  destruct Hc as [[Hst Hkd]|Hst]; [|congruence]. split; [done|]. split; [congruence|]. split; [done|].
  rewrite Hkd in Hk. destruct kind as [k|]; [|done]. apply bool_decide_eq_true in Hk. by exists k.
Qed.

Lemma verdict_rejected existing x kind :
  failure_verdict existing x false = ("rejected", kind) ->
  x.(lx_class) ∈ [StartFailed; Refused] /\ kind = x.(lx_name).
Proof.
  unfold failure_verdict. intros H. repeat (case_match; simplify_eq; try done).
  all: match goal with H : bool_decide (_ ∈ _) = true |- _ => by apply bool_decide_eq_true in H end.
Qed.

Lemma verdict_settles d record state kind message res s out s' :
  receipt id s (fun r => r.(rq_state) = "preparing") ->
  settle_receipt sha now id d record state kind message s = (out, s') ->
  (state = "rejected" -> exists x, res = inr x /\ x.(lx_class) ∈ [StartFailed; Refused] /\ kind = Some x.(lx_name)) ->
  settled_launch res s'.
Proof.
  intros (r & Hl & Hid & Hst) H Hrej.
  destruct (settle_receipt_spec _ _ _ _ _ _ _ _ _ Hl Hst H) as (r' & Hl' & _ & Hra & Hc).
  exists r'. split; [done|]. split; [by apply load_record_id in Hl' as [_ ?]|].
  destruct (settled_cases _ _ _ Hra Hc) as [?|(Hs & Hs' & Hp & k & -> & Hk & Hin)]; [by left|right].
  destruct (Hrej Hs') as (x & -> & Hx & [= ->]). split; [done|]. split; [done|]. by exists x.
Qed.

Lemma launch_settles ds record h out h' :
  receipt id h.(hd_requests) (fun r => r.(rq_state) = "preparing") ->
  launch_claimed sha now submit_once ds id record None h = (out, h') ->
  exists res h2, submit_once id record.(rq_job_id) record.(rq_created_at) h = (res, h2) /\
    h'.(hd_registry) = h2.(hd_registry) /\ h'.(hd_outside) = h2.(hd_outside) /\
    settled_launch res h'.(hd_requests).
Proof using launch_binds.
  intros Hp H. unfold launch_claimed in H. cbv beta iota zeta in H.
  destruct (submit_once id record.(rq_job_id) record.(rq_created_at) h) as [res h1] eqn:Hlaunch.
  apply (launch_binds _ _ _ _ _ Hlaunch) in Hp as Hp1. exists res, h1. split; [done|].
  assert (settled_launch res h1.(hd_requests)) as Hkept.
  { destruct Hp1 as (r & Hl & Hid & Hst). exists r. split; [done|]. split; [done|]. left. by eapply blocked_state. }
  destruct res as [entry|x]; unfold _confirm_request, _record_submission_failure in H; cbv zeta in H.
  - destruct (settle_receipt _ _ _ _ _ _ _ _ _) as [[u|y] s1] eqn:Hs;
      (injection H as _ <-; split; [done|]; split; [done|]); by eapply verdict_settles.
  - match type of H with context [match ?e with Ok _ => _ | Err _ => _ end] => destruct e as [existing|y] end;
      [|by injection H as _ <-].
    destruct (failure_verdict existing x false) as [state kind] eqn:Hv.
    destruct (settle_receipt _ _ _ _ _ _ _ _ _) as [[u|y] s1] eqn:Hs;
      (injection H as _ <-; split; [done|]; split; [done|]); eapply verdict_settles; [done|exact Hs| |done|exact Hs|];
      intros ->; apply verdict_rejected in Hv as [? ->]; by exists x.
Qed.

End history.
End submission.

(** ** A bound request, submitted again *)
Abbreviation SmallHead := (Head (X := nat)).
Definition bound_store : request_store := (save_record zero_sha Published bound_receipt ∅).2.
Definition bound_head : SmallHead := mkHead sample_registry bound_store 0%nat.
(** A launcher that counts its calls. *)
Definition count_launch (_ job : string) (t : Q) (h : SmallHead) : (JobEntry + launch_exn) * SmallHead :=
  (inr (mkLaunchExn Refused "NoCapacity" "no free capacity" false), h <| hd_outside := S h.(hd_outside) |>).
Definition healthy : disks := mkDisks Published Published Published.
Definition resubmit (h : SmallHead) : submitted * SmallHead :=
  _submit_prepared zero_sha 400%Q count_launch healthy (Ok false) (Ok tt) "20260101-0009_next_0123456789abcdef"
    "nightly:1" (zero_sha []) None h.

Lemma bound_receipt_stored : receipt zero_sha "nightly:1" bound_store bound.
Proof. exists bound_receipt. split; [vm_compute; reflexivity|]. by split. Qed.

Lemma resubmit_later (h : SmallHead) : later zero_sha 400%Q "nightly:1" count_launch h (resubmit h).2.
Proof.
  destruct (resubmit h) as [out h'] eqn:E. unfold resubmit in E. exact (later_submit _ _ _ _ _ _ _ _ _ _ _ _ _ E).
Qed.

Lemma bound_never_relaunched_witness :
  receipt zero_sha "nightly:1" (resubmit (resubmit bound_head).2).2.(hd_requests) bound /\
  (resubmit (resubmit bound_head).2).2.(hd_outside) = 0%nat.
Proof.
  apply (bound_never_relaunched zero_sha 400%Q "nightly:1" count_launch bound_head).
  - eapply rtc_l; [apply resubmit_later|]. apply rtc_once, resubmit_later.
  - exact bound_receipt_stored.
Defined.

Lemma bound_receipt_blocked : receipt zero_sha "nightly:1" bound_store blocked.
Proof. exists bound_receipt. split; [vm_compute; reflexivity|]. split; [done|]. by apply bound_blocked. Qed.

Lemma repetition_inert_witness :
  (resubmit bound_head).2.(hd_outside) = 0%nat /\ forall x, (resubmit bound_head).1 <> LaunchRaised x.
Proof.
  destruct (resubmit bound_head) as [out h'] eqn:E. cbn [fst snd].
  destruct (repetition_inert zero_sha 400%Q "nightly:1" count_launch _ _ _ _ _ _ bound_head out h'
    bound_receipt_blocked E) as (_ & Ho & _ & _ & Hx).
  split; [exact Ho|exact Hx].
Defined.

(** ** A first submission, refused by the launcher *)
Definition empty_head : SmallHead := mkHead sample_registry ∅ 0%nat.
Lemma count_launch_binds job t (h : SmallHead) res h' :
  count_launch "nightly:1" job t h = (res, h') ->
  receipt zero_sha "nightly:1" h.(hd_requests) (fun r => r.(rq_state) = "preparing") ->
  receipt zero_sha "nightly:1" h'.(hd_requests) (fun r => r.(rq_state) = "preparing").
Proof. by intros [= <- <-]. Qed.


(** ** A receipt whose settlement forgets the failed start *)

(** The job was refused before it started; its receipt says so. *)
Definition refused_receipt : RequestRecord :=
  bound_receipt <| rq_state := "confirmed" |> <| error_kind := Some "failed_before_start" |>
    <| error_message := Some "setup failed" |>.
Definition refused_job : JobEntry := test_entry <| status := Failed |> <| result_state := Some InfraFailure |>
  <| finished_at := Some 100%Q |> <| updated_at := Some 100%Q |> <| started_at := None |> <| pgid := None |>.
Definition refused_head : SmallHead :=
  mkHead (save sample_size true 100%Q true refused_job sample_registry).2
    (save_record zero_sha Published (refused_receipt <| rq_job_id := refused_job.(job_id) |>) ∅).2 0%nat.
(** [dt request] on that receipt. *)
Definition settled_head : SmallHead :=
  match load_record zero_sha "nightly:1" refused_head.(hd_requests) with
  | Ok (Some record) =>
      refused_head <| hd_requests := (settle_request zero_sha 500%Q (fun _ => mkProof "unavailable" "" "" "")
        refused_head.(hd_registry) Published Published record refused_head.(hd_requests)).2 |>
  | _ => refused_head
  end.
Definition is_failed_start (o : submitted) : bool := match o with FailedBeforeStart _ => true | _ => false end.
Definition is_replayed (o : submitted) : bool := match o with Replayed _ => true | _ => false end.

(** Before [dt request] a repetition of the request raises [FailedBeforeStart]; after it, the
    same repetition returns the failed job as a success. *)
Lemma settlement_forgets_failed_start :
  is_failed_start (resubmit refused_head).1 = true /\ is_replayed (resubmit settled_head).1 = true.
Proof. split; vm_compute; reflexivity. Qed.

