(* ===== verification/Contract.v ===== *)
(** * Validation of a submission ([dispatch._validate_run_spec])

    Every submission passes this gate before anything is probed, snapshotted
    or launched.  It rejects, and it normalizes: the environment is sorted, the
    artifact links are checked and sorted, the result predicates become a
    sorted set, the cache contract gets its mode and normal paths.  The spec is
    typed, so the source's [isinstance] tests hold; messages leave out the
    [repr] of the offending value. *)

From S2P Require Import Prelude Text PyValue Diagnostics Layout Shlex CustomEnv JobEntry RegistryCodec RunSpec Registry Intent.

Definition ARTIFACT_TARGET_MAX_PATH_CHARS : nat := N.to_nat 1024.

(** ** Artifact links *)
Definition _artifact_target_path_error (path side : string) : option string :=
  let problem what := Some ("artifact target " +:+ side +:+ " " +:+ what) in
  if bool_decide (path = "") || bool_decide (strip path = "")
  then problem "must be a non-empty relative path"
  else if (ARTIFACT_TARGET_MAX_PATH_CHARS <? str_len path)%nat then problem "is longer than 1024 characters"
  else if negb (bool_decide (path = strip path)) then problem "must not start or end with whitespace"
  else if existsb (fun c => (code c <? 32)%N || (code c =? 127)%N) (chars path)
  then problem "must not contain control characters"
  else if has_char BACKSLASH path then problem "must use forward slashes"
  else if starts_with "/" path || starts_with "~" path then problem "must be a relative path"
  else if occurs_in ".." path then problem "must not contain '..'"
  else let parts := split_on SLASH path in
       if existsb (fun part => bool_decide (part ∈ [""; "."])) parts
       then problem "must be a normalized relative path without empty or '.' components"
       else if bool_decide (head parts = Some ".dt") then problem "must not enter the private .dt tree"
       else None.

(** [a == b], or one is below the other. *)
Definition nested (existing target : string) : bool :=
  bool_decide (existing = target) || starts_with (existing +:+ "/") target
  || starts_with (target +:+ "/") existing.

Fixpoint validate_targets (targets validated : list (string * string)) (names : list string)
  : result (list (string * string)) :=
  match names with
  | [] => Ok validated
  | target :: rest =>
      let source := default "" (assoc target targets) in
      let check path side := match _artifact_target_path_error path side with
                             | Some problem => Err (ConfigError problem)
                             | None => Ok tt
                             end in
      check target "path" ;;
      check source "source" ;;
      raise_if (existsb (fun existing => nested existing.1 target) validated)
        (ConfigError "artifact targets overlap; each workspace link must be independent") ;;
      validate_targets targets (validated ++ [(target, source)]) rest
  end.
Definition validate_artifact_targets (targets : list (string * string))
  : result (list (string * string)) :=
  validate_targets targets [] (sort_strings targets.*1).

(** ** The cache-reuse contract *)

(** [re.fullmatch(r"[A-Za-z0-9_-]+", s)], and the same for paths. *)
Definition safe_identity (s : string) : bool :=
  negb (bool_decide (s = "")) && forallb is_name_char (chars s).
Definition safe_path (s : string) : bool :=
  negb (bool_decide (s = "")) && forallb (fun c => is_alnum c || char_in "._/-" c) (chars s).
Definition env_name (s : string) : bool :=
  match chars s with
  | c :: rest => (is_alpha c || char_in "_" c) && forallb (fun c => is_alnum c || char_in "_" c) rest
  | [] => false
  end.

(** [PurePosixPath(p).as_posix()]. *)
Definition as_posix (p : string) : string :=
  let text := pure_root p +:+ join "/" (pure_components p) in
  if bool_decide (text = "") then "." else text.

Definition reserved_cache_envs : list string :=
  ["HOME"; "PATH"; "PYTHONPATH"; "VIRTUAL_ENV"; "UV_PROJECT_ENVIRONMENT"; "CUDA_VISIBLE_DEVICES"].
Definition truthy (v : option string) : bool :=
  match v with Some s => negb (bool_decide (s = "")) | None => false end.
Definition text_or (v : option string) : string := default "" v.

Definition normalized_source_dir (source_value : string) : result string :=
  let unsafe := ConfigError "cache source job directory is unsafe" in
  if starts_with "~/" source_value || starts_with "/" source_value then
    match normalize_node_root source_value with
    | Ok root => Ok root
    | Err e => Err (if is_value_error e then unsafe else e)
    end
  else
    raise_if (pure_is_absolute source_value || bool_decide (".." ∈ pure_parts source_value)
              || bool_decide (pure_parts source_value = []) || negb (safe_path (as_posix source_value))) unsafe ;;
    Ok (as_posix source_value).

Definition _validate_cache_reuse_contract (spec : RunSpec) (cache_values : list (option string))
  : result RunSpec :=
  raise_if (negb (forallb truthy cache_values)) (ConfigError "cache reuse contract is incomplete") ;;
  raise_if (negb (safe_identity (text_or spec.(sp_forked_from))))
    (ConfigError "cache reuse requires safe fork provenance") ;;
  raise_if (negb (safe_identity (text_or spec.(sp_cache_source_job))))
    (ConfigError "cache source job identity is unsafe") ;;
  source_dir ← normalized_source_dir (text_or spec.(sp_cache_source_job_dir));
  let relative := text_or spec.(sp_cache_source_path) in
  raise_if (pure_is_absolute relative || (length (pure_parts relative) <? 2)%nat
            || negb (bool_decide (head (pure_parts relative) = Some "outputs"))
            || bool_decide (".." ∈ pure_parts relative) || negb (safe_path (as_posix relative)))
    (ConfigError "reuse-cache must be a directory below the source job's outputs/") ;;
  let variable := text_or spec.(sp_cache_env) in
  raise_if (negb (env_name variable)) (ConfigError "cache-env must be a valid environment variable name") ;;
  raise_if (bool_decide (variable ∈ reserved_cache_envs)
            || (starts_with "DT_" variable && negb (bool_decide (variable = "DT_REUSED_CACHE_DIR"))))
    (ConfigError "cache-env is reserved") ;;
  raise_if (negb (fullmatch ENV_HASH_RE (text_or spec.(sp_cache_source_env_hash))))
    (ConfigError "cache source environment identity is invalid") ;;
  raise_if (negb (fullmatch SHA256_RE (text_or spec.(sp_cache_source_snapshot_sha256))))
    (ConfigError "cache source snapshot identity is invalid") ;;
  mode ← match spec.(sp_cache_mode) with
         | None => Ok "shared"
         | Some mode => raise_if (negb (bool_decide (mode ∈ ["shared"; "clone"])))
                          (ConfigError "cache mode must be shared or clone") ;; Ok mode
         end;
  Ok (spec <| sp_cache_mode := Some mode |> <| sp_cache_source_job_dir := Some source_dir |>
           <| sp_cache_source_path := Some (as_posix relative) |>).

(** ** The gate, group by group *)

(** [value is not None and test fails]. *)
Definition unless {A} (ok : A -> bool) (v : option A) : bool :=
  match v with Some a => negb (ok a) | None => false end.

(** Command, environment, placement. *)
Definition check_command (spec : RunSpec) : result RunSpec :=
  raise_if (negb (existsb (fun part => negb (bool_decide (strip part = ""))) spec.(sp_cmd)))
    (ConfigError "command must not be empty") ;;
  env ← match validate (as_json spec.(sp_custom_env)) with
        | Ok env => Ok env
        | Err (CustomEnvironmentError message) => Err (ConfigError message)
        | Err e => Err e
        end;
  raise_if (spec.(sp_gpus) <? 0) (ConfigError "gpus must be non-negative") ;;
  raise_if (unless (forallb (fullmatch _CONFIG_ID_RE)) spec.(sp_exclude_nodes))
    (ConfigError "excluded node names must be configuration identifiers") ;;
  raise_if (match spec.(sp_exclude_nodes), spec.(sp_node) with
            | Some excluded, Some node => bool_decide (node ∈ excluded)
            | _, _ => false
            end)
    (ConfigError "--node and --exclude-node contradict each other") ;;
  raise_if (unless (fullmatch TOKEN_RE) spec.(sp_dispatch_token)) (ConfigError "dispatch token is unsafe") ;;
  raise_if (negb (bool_decide (spec.(sp_gpu_isolation) = "advisory")))
    (ConfigError "gpu_isolation must be advisory; this DT build has no physical GPU device-isolation backend") ;;
  Ok (spec <| sp_custom_env := env |>).

(** Disk, time and memory limits. *)
Definition check_limits (spec : RunSpec) : result unit :=
  let positive v := unless (Z.ltb 0) v in
  raise_if (positive spec.(sp_require_disk_gib)) (ConfigError "require_disk_gib must be a positive integer") ;;
  raise_if (unless (fun h => match h with Fin q => q_ltb 0 q | _ => false end) spec.(sp_max_hours))
    (ConfigError "max_hours must be a finite positive number") ;;
  let card_limit v label :=
    raise_if (positive v) (ConfigError (label +:+ " must be a positive integer")) ;;
    raise_if (bool_decide (is_Some v) && (spec.(sp_gpus) =? 0))
      (ConfigError (label +:+ " requires at least one GPU")) in
  card_limit spec.(sp_min_vram_mib) "min_vram_mib" ;;
  card_limit spec.(sp_max_vram_mib) "max_vram_mib" ;;
  raise_if (positive spec.(sp_max_job_memory_mib)) (ConfigError "max_job_memory_mib must be a positive integer").

(** Payload and artifact identities. *)
Definition check_artifacts (spec : RunSpec) : result RunSpec :=
  raise_if (unless (fullmatch SHA256_RE) spec.(sp_payload_sha256))
    (ConfigError "payload_sha256 must be 64 lowercase hex characters") ;;
  raise_if (unless (fullmatch SHA256_RE) spec.(sp_artifact_manifest))
    (ConfigError "artifact_manifest must be a lowercase SHA-256 digest") ;;
  match spec.(sp_artifact_targets) with
  | None | Some [] => Ok spec
  | Some targets =>
      raise_if (bool_decide (spec.(sp_artifact_manifest) = None))
        (ConfigError "artifact targets require an artifact manifest: the links must point at verified content") ;;
      validated ← validate_artifact_targets targets;
      Ok (spec <| sp_artifact_targets := Some validated |>)
  end.

(** Lineage and automatic retries. *)
Definition check_lineage (spec : RunSpec) : result unit :=
  raise_if (unless safe_identity spec.(sp_rerun_of)) (ConfigError "rerun_of must be a safe job identity") ;;
  let ordinal z label :=
    raise_if (negb ((0 <=? z) && (z <=? MAX_RETRY_LIMIT)))
      (ConfigError (label +:+ " must be an integer between 0 and 10")) in
  ordinal spec.(sp_retry_limit) "retry" ;;
  ordinal spec.(sp_retry_count) "retry ordinal" ;;
  raise_if (unless (fun mode => bool_decide (mode ∈ RETRY_ON_MODES)) spec.(sp_retry_on))
    (ConfigError "retry_on must be one of: infra, always") ;;
  raise_if (bool_decide (is_Some spec.(sp_retry_on)) && (spec.(sp_retry_limit) =? 0))
    (ConfigError "retry_on requires a positive --retry budget") ;;
  raise_if (unless safe_identity spec.(sp_retry_of)) (ConfigError "retry_of must be a safe job identity").

(** Dependencies and the request identity. *)
Definition spec_dependencies (spec : RunSpec) : list (option string) :=
  [spec.(sp_after_success); spec.(sp_after_complete); spec.(sp_after_result)].
Definition check_dependencies (spec : RunSpec) : result RunSpec :=
  raise_if (unless safe_identity spec.(sp_after_success)) (ConfigError "after_success must be a safe job identity") ;;
  raise_if (unless safe_identity spec.(sp_after_complete)) (ConfigError "after_complete must be a safe job identity") ;;
  raise_if (unless safe_identity spec.(sp_after_result)) (ConfigError "after_result must be a safe job identity") ;;
  raise_if (1 <? length (omap id (spec_dependencies spec)))%nat
    (ConfigError "dependency policies are mutually exclusive") ;;
  match spec.(sp_after_result) with
  | Some _ =>
      raise_if (bool_decide (spec.(sp_after_result_states) = []))
        (ConfigError "after_result requires at least one result state") ;;
      raise_if (negb (forallb (fun s => bool_decide (s ∈ result_name <$> RESULT_STATES))
                        spec.(sp_after_result_states)))
        (ConfigError "unknown dependency result state(s)") ;;
      Ok (spec <| sp_after_result_states := sort_strings (remove_dups spec.(sp_after_result_states)) |>)
  | None =>
      raise_if (negb (bool_decide (spec.(sp_after_result_states) = [])))
        (ConfigError "result states require after_result") ;;
      Ok spec
  end.

(** Request identity, environment reuse, rerun source. *)
Definition check_environment (spec : RunSpec) : result unit :=
  raise_if (unless (fullmatch REQUEST_ID_RE) spec.(sp_request_id))
    (ConfigError "--request-id must be 1-128 characters: letters, digits, . _ : @ + -") ;;
  raise_if (negb (bool_decide (spec.(sp_env_mode) ∈ ["sync"; "reuse"])))
    (ConfigError "environment mode must be sync or reuse") ;;
  (if bool_decide (spec.(sp_env_mode) = "reuse") then
     raise_if (negb (fullmatch ENV_HASH_RE (text_or spec.(sp_env_hash_override))))
       (ConfigError "environment reuse requires a valid 12-hex identity") ;;
     raise_if (negb (safe_identity (text_or spec.(sp_env_source_job))))
       (ConfigError "environment reuse requires a safe source job identity") ;;
     raise_if (bool_decide (spec.(sp_node) = None))
       (ConfigError "environment reuse requires an explicit source node")
   else raise_if (bool_decide (is_Some spec.(sp_env_hash_override))
                  || bool_decide (is_Some spec.(sp_env_source_job)))
          (ConfigError "environment override requires reuse mode")) ;;
  match spec.(sp_rerun_source_snapshot_sha256) with
  | None => Ok tt
  | Some sha =>
      raise_if (bool_decide (spec.(sp_rerun_of) = None))
        (ConfigError "rerun source snapshot requires rerun_of lineage") ;;
      raise_if (negb (fullmatch SHA256_RE sha))
        (ConfigError "rerun_source_snapshot_sha256 must be 64 lowercase hex characters")
  end.

Definition cache_values (spec : RunSpec) : list (option string) :=
  [spec.(sp_cache_source_job); spec.(sp_cache_source_job_dir); spec.(sp_cache_source_path);
   spec.(sp_cache_env); spec.(sp_cache_source_env_hash); spec.(sp_cache_source_snapshot_sha256)].
Definition check_cache (spec : RunSpec) : result RunSpec :=
  if existsb (fun v => bool_decide (is_Some v)) (cache_values spec)
  then _validate_cache_reuse_contract spec (cache_values spec)
  else raise_if (bool_decide (is_Some spec.(sp_cache_mode)))
         (ConfigError "cache mode requires a complete cache source contract") ;; Ok spec.

Definition _validate_run_spec (spec : RunSpec) : result RunSpec :=
  spec ← check_command spec;
  check_limits spec ;;
  spec ← check_artifacts spec;
  check_lineage spec ;;
  spec ← check_dependencies spec;
  check_environment spec ;;
  check_cache spec.
