(* ===== verification/ContractSpec.v ===== *)
(** * What an accepted submission guarantees

    The artifact links of an accepted submission are independent of each other
    and stay below their roots. *)

From S2P Require Import Prelude Text PyValue Layout Shlex CustomEnv JobEntry RegistryCodec RunSpec Registry Intent Contract.

(** ** Paths and their components *)
Definition components (p : string) : list string := split_on SLASH p.

Lemma split_go_app sep l r : split_on_go sep (l ++ sep :: r) = split_on_go sep l ++ split_on_go sep r.
Proof.
  induction l as [|c l IH]; cbn [app split_on_go]; [by rewrite bool_decide_true|].
  case_bool_decide; [by rewrite IH|]. rewrite IH. pose proof (split_on_go_nonnil sep l).
  by destruct (split_on_go sep l).
Qed.

Lemma components_app a b : components (a +:+ "/" +:+ b) = components a ++ components b.
Proof.
  unfold components, split_on. rewrite !chars_app. change (chars "/" ++ chars b) with (SLASH :: chars b).
  by rewrite split_go_app, fmap_app.
Qed.

Lemma intersperse_app {A} (sep : A) a b :
  a <> [] -> b <> [] -> intersperse sep (a ++ b) = intersperse sep a ++ sep :: intersperse sep b.
Proof.
  intros Ha Hb. induction a as [|x a IH]; [done|]. destruct a as [|y a]; [by destruct b|].
  change (intersperse sep ((x :: y :: a) ++ b)) with (x ++ sep :: intersperse sep ((y :: a) ++ b)).
  rewrite IH by done. cbn [intersperse]. by rewrite <- app_assoc.
Qed.

Lemma chars_unchars_list (l : list (list Ascii.ascii)) : chars <$> (unchars <$> l) = l.
Proof. induction l as [|x l IH]; [done|]. cbn. rewrite chars_unchars. by f_equal. Qed.

Lemma components_inj a b : components a = components b -> a = b.
Proof.
  unfold components, split_on. intros H. apply (f_equal (fmap chars)) in H. rewrite !chars_unchars_list in H.
  apply chars_inj. by rewrite <- (intersperse_split SLASH (chars a)), H, intersperse_split.
Qed.

(** [nested] compares the paths component by component. *)
Lemma nested_spec a b :
  nested a b = true <-> components a `prefix_of` components b \/ components b `prefix_of` components a.
Proof.
  assert (forall a b, starts_with (a +:+ "/") b = true <-> exists t, b = a +:+ "/" +:+ t) as Hs.
  { intros x y. rewrite starts_with_spec. split; intros [t ->]; exists t; apply chars_inj; rewrite !chars_app;
      by rewrite <- ?app_assoc. }
  assert (forall a b, components a `prefix_of` components b -> a = b \/ starts_with (a +:+ "/") b = true) as Hp.
  { intros x y [k Hk]. destruct k as [|w k]; [left; apply components_inj; by rewrite app_nil_r in Hk|right].
    apply Hs. unfold components, split_on in Hk.
    set (ws := split_on_go SLASH (chars x)) in *. set (vs := split_on_go SLASH (chars y)) in *.
    assert (vs = ws ++ (chars <$> w :: k)) as E.
    { apply (f_equal (fmap chars)) in Hk. by rewrite fmap_app, !chars_unchars_list in Hk. }
    exists (unchars (intersperse SLASH (chars <$> w :: k))). apply chars_inj. rewrite !chars_app, chars_unchars.
    rewrite <- (intersperse_split SLASH (chars y)), <- (intersperse_split SLASH (chars x)). fold vs ws. rewrite E.
    apply intersperse_app; [apply split_on_go_nonnil|done]. }
  unfold nested. rewrite !orb_true_iff, bool_decide_eq_true. split.
  - intros [[-> | H]|H]; [by left|left|right]; apply Hs in H as [t ->]; rewrite components_app; by eexists.
  - intros [H|H]; apply Hp in H as [-> | H]; auto.
Qed.

(** ** Substrings *)
Lemma occurs_in_spec needle s : occurs_in needle s = true <-> exists a b, s = a +:+ needle +:+ b.
Proof.
  induction s as [|c s IH]; cbn [occurs_in]; rewrite ?orb_true_iff, starts_with_spec.
  - split.
    + intros [[t Ht]|]; [|done]. by exists "", t.
    + intros (a & b & H). destruct a; [|done]. left. by exists b.
  - rewrite IH. split.
    + intros [[t Ht]|(a & b & ->)]; [by exists "", t|by exists (String c a), b].
    + intros ([|d a] & b & H); [left; by exists b|right]. injection H as <- ->. by exists a, b.
Qed.

Lemma component_occurs w p : w ∈ components p -> occurs_in w p = true.
Proof.
  unfold components, split_on. intros (l & -> & Hl)%list_elem_of_fmap. apply occurs_in_spec.
  apply list_elem_of_split in Hl as (l1 & l2 & Hs).
  exists (unchars (match l1 with [] => [] | _ => intersperse SLASH l1 ++ [SLASH] end)),
    (unchars (match l2 with [] => [] | _ => SLASH :: intersperse SLASH l2 end)).
  apply chars_inj. rewrite !chars_app, !chars_unchars, <- (intersperse_split SLASH (chars p)), Hs.
  assert (intersperse SLASH (l :: l2) = l ++ match l2 with [] => [] | _ => SLASH :: intersperse SLASH l2 end) as E.
  { destruct l2; [by rewrite app_nil_r|done]. }
  destruct l1 as [|x l1]; [exact E|]. rewrite intersperse_app, E by done. by rewrite <- !app_assoc.
Qed.

(** ** Artifact links *)

(** A path that stays below the directory it is joined to, fits a line and a
    tab-separated column, and does not enter the private tree. *)
Record clean_path (p : string) : Prop := {
  cp_components : Forall (fun c => c ∉ [""; "."; ".."]) (components p);
  cp_private : head (components p) <> Some ".dt";
  cp_relative : pure_is_absolute p = false /\ starts_with "~" p = false;
  cp_printable : Forall (fun c => 32 <= code c)%N (chars p);
}.

Lemma path_error_none p side : _artifact_target_path_error p side = None -> clean_path p.
Proof.
  unfold _artifact_target_path_error. cbv zeta. intros H.
  destruct (_ || _); [done|]. destruct (_ <? _)%nat; [done|]. destruct (negb _); [done|].
  destruct (existsb (fun c => _ || _) _) eqn:Hc; [done|]. destruct (has_char _ _); [done|].
  destruct (starts_with "/" p || starts_with "~" p) eqn:Hr; [done|]. apply orb_false_iff in Hr as [Hr Ht].
  destruct (occurs_in ".." p) eqn:Hd; [done|].
  destruct (existsb _ (split_on SLASH p)) eqn:Hp; [done|].
  destruct (bool_decide (head _ = _)) eqn:Hh; [done|]. apply bool_decide_eq_false in Hh. split.
  - apply Forall_forall. intros c Hin Hbad.
    assert (c = ".." \/ c ∈ [""; "."]) as [-> | Hb].
    { apply elem_of_cons in Hbad as [-> | Hbad]; [right; left|].
      apply elem_of_cons in Hbad as [-> | Hbad]; [right; right; left|]. left. set_solver. }
    + apply component_occurs in Hin. by rewrite Hd in Hin.
    + assert (existsb (fun part => bool_decide (part ∈ [""; "."])) (split_on SLASH p) = true); [|congruence].
      apply existsb_exists. exists c. split; [by apply list_elem_of_In|by apply bool_decide_eq_true].
  - done.
  - split; [|done]. unfold pure_is_absolute, pure_root. rewrite Hr.
    destruct (starts_with "//" p) eqn:H2; [|done]. apply starts_with_spec in H2 as [t ->]. done.
  - apply Forall_forall. intros c Hin.
    destruct (code c <? 32)%N eqn:E; [|by apply N.ltb_ge in E].
    assert (existsb (fun c => (code c <? 32)%N || (code c =? 127)%N) (chars p) = true); [|congruence].
    apply existsb_exists. exists c. split; [by apply list_elem_of_In|by rewrite E].
Qed.

Lemma validate_targets_inv targets validated names v :
  validate_targets targets validated names = Ok v ->
  v = validated ++ ((fun t => (t, default "" (assoc t targets))) <$> names) /\
  Forall (fun t => clean_path t /\ clean_path (default "" (assoc t targets))) names /\
  (forall t p, t ∈ names -> p ∈ validated -> nested p.1 t = false) /\
  ForallOrdPairs (fun a b => nested a b = false) names.
Proof.
  revert validated. induction names as [|t names IH]; intros validated H; cbn [validate_targets] in H.
  - injection H as <-. rewrite app_nil_r. split_and!; [done|constructor|set_solver|constructor].
  - destruct (_artifact_target_path_error t "path") eqn:H1; [done|].
    destruct (_artifact_target_path_error (default "" (assoc t targets)) "source") eqn:H2; [done|].
    cbn [mbind result_bind] in H. apply bind_raise_ok in H as [Hn H].
    apply IH in H as (-> & Hall & Hold & Hnew). split; [by rewrite <- app_assoc|].
    apply path_error_none in H1, H2. split; [by constructor|].
    assert (forall p, p ∈ validated -> nested p.1 t = false) as Ht.
    { intros p Hp. destruct (nested p.1 t) eqn:E; [|done].
      assert (existsb (fun e => nested e.1 t) validated = true); [|congruence].
      apply existsb_exists. exists p. by rewrite <- list_elem_of_In. }
    split.
    + intros t' p Ht' Hp. apply elem_of_cons in Ht' as [-> | Ht']; [by apply Ht|]. apply Hold; set_solver.
    + constructor; [|done]. apply Forall_forall. intros b Hb.
      apply (Hold b (t, default "" (assoc t targets))); [done|set_solver].
Qed.

(** The links of an accepted submission are the submitted ones in path order; every link and
    source stays below its root, and no link lies at or below another one. *)
Lemma targets_independent targets v :
  validate_artifact_targets targets = Ok v -> NoDup targets.*1 ->
  v ≡ₚ targets /\ StronglySorted (fun a b => str_ltb b a = false) v.*1 /\
  Forall (fun p => clean_path p.1 /\ clean_path p.2) v /\
  (forall a b, a ∈ v.*1 -> b ∈ v.*1 -> components a `prefix_of` components b -> a = b).
Proof.
  intros H Hnd. apply validate_targets_inv in H as (Hv & Hall & _ & Hpairs). cbn [app] in Hv.
  assert (v.*1 = sort_strings targets.*1) as Hk.
  { rewrite Hv, <- list_fmap_compose. by rewrite (list_fmap_ext _ id), list_fmap_id. }
  split_and!.
  - rewrite Hv. unfold sort_strings. rewrite sort_by_perm, <- list_fmap_compose.
    rewrite (Forall_fmap_ext_1 _ id), list_fmap_id; [done|]. apply Forall_forall. intros [k x] Hin.
    cbn. by rewrite (elem_assoc k x targets Hnd Hin).
  - rewrite Hk. apply sort_by_sorted; [apply str_ltb_false_trans|apply str_ltb_asym].
  - rewrite Hv. apply Forall_fmap. exact Hall.
  - rewrite Hk. set (names := sort_strings targets.*1) in *. clearbody names. clear -Hpairs.
    induction Hpairs as [|x l Hx Hl IH]; intros a b Ha Hb Hab; [set_solver|].
    rewrite Forall_forall in Hx. apply elem_of_cons in Ha as [-> | Ha], Hb as [-> | Hb].
    + done.
    + pose proof (Hx b Hb) as Hn. assert (nested x b = true); [|congruence]. apply nested_spec. by left.
    + pose proof (Hx a Ha) as Hn. assert (nested x a = true); [|congruence]. apply nested_spec. by right.
    + by apply IH.
Qed.

Definition sample_targets : list (string * string) := [("data/raw", "shared/raw"); ("data/cache", "shared/c"); ("model", "m")].
Lemma targets_independent_witness :
  exists v, validate_artifact_targets sample_targets = Ok v /\ v.*1 = ["data/cache"; "data/raw"; "model"] /\
    forall a b, a ∈ v.*1 -> b ∈ v.*1 -> components a `prefix_of` components b -> a = b.
Proof.
  destruct (validate_artifact_targets sample_targets) as [v|] eqn:E; [|by vm_compute in E].
  exists v. split; [done|].
  assert (NoDup sample_targets.*1) as Hnd by (by apply (bool_decide_unpack _)).
  destruct (targets_independent sample_targets v E Hnd) as (_ & _ & _ & H).
  split; [|exact H]. vm_compute in E. by injection E as <-.
Defined.
