(* ===== verification/Derive.v ===== *)
(** * Submissions derived from jobs, and jobs from submissions ([dispatch])

    A queued row carries its submission's contract, and the dispatcher rebuilds
    the [RunSpec] from it; reruns, exact forks, automatic retries, environment
    reuse and inherited caches rebuild other [RunSpec]s from a row.  The
    messages of the errors leave out the [repr] of the offending value. *)

From S2P Require Import Prelude Text PyValue Layout Shlex CustomEnv JobEntry RegistryCodec RunSpec Lifecycle Registry Config Contract.

(** [entry.x or None] on a number and on a list. *)
Definition nonzero (v : option Z) : option Z := match v with Some 0 => None | _ => v end.
Definition nonempty {A} (v : option (list A)) : option (list A) :=
  match v with Some [] => None | _ => v end.
(** [a or b] on optional texts. *)
Definition or_text (a b : option string) : option string := if truthy a then a else b.

(** ** What every derived submission replays *)
Definition _resource_spec_kwargs (entry : JobEntry) (spec : RunSpec) : RunSpec :=
  spec <| sp_gpus := entry.(gpus_requested) |> <| sp_project := Some entry.(project) |>
       <| sp_require_path := entry.(require_path) |>
       <| sp_require_disk_gib := nonzero entry.(require_disk_gib) |>
       <| sp_max_hours := Fin <$> entry.(max_hours) |> <| sp_min_vram_mib := entry.(min_vram_mib) |>
       <| sp_max_vram_mib := entry.(max_vram_mib) |>
       <| sp_max_job_memory_mib := entry.(max_job_memory_mib) |>
       <| sp_setup := entry.(setup) |> <| sp_setup_inputs := entry.(setup_inputs) |>
       <| sp_exclude_nodes := entry.(exclude_nodes) |>
       <| sp_extras := nonempty (Some entry.(extras)) |> <| sp_custom_env := entry.(custom_env) |>
       <| sp_artifact_targets := nonempty entry.(artifact_targets) |>.

(** [RunSpec(name=..., cmd=..., node=..., **_resource_spec_kwargs(entry))]. *)
Definition derived (entry : JobEntry) (name : string) (cmd_ : list string) (node_ : option string) : RunSpec :=
  _resource_spec_kwargs entry (new_spec name entry.(gpus_requested) cmd_ <| sp_node := node_ |>).

Definition spec_from_entry (entry : JobEntry) (name_ : option string) : result RunSpec :=
  command ← shlex_split entry.(cmd);
  Ok (derived entry (or_str name_ entry.(name)) command entry.(pin_node)
        <| sp_after_success := entry.(after_success) |> <| sp_after_complete := entry.(after_complete) |>
        <| sp_after_result := entry.(after_result) |>
        <| sp_after_result_states := result_name <$> entry.(after_result_states) |>
        <| sp_rerun_of := Some entry.(job_id) |>
        <| sp_rerun_source_snapshot_sha256 := entry.(snapshot_sha256) |>
        <| sp_artifact_manifest := entry.(artifact_manifest) |>).

(** ** Exact forks *)
Definition _normalize_cache_reuse_path (path : string) : string :=
  if negb (pure_is_absolute path) && negb (bool_decide (pure_parts path = []))
     && negb (bool_decide (head (pure_parts path) = Some "outputs"))
  then join "/" ("outputs" :: pure_parts path) else as_posix path.

Definition COLD_PREFIX : string :=
  "cache_dir=" +:+ String DQUOTE ("$DT_JOB_DIR/outputs/.cache/dt-cold" +:+ String DQUOTE
    ("; mkdir -p " +:+ String DQUOTE ("$cache_dir" +:+ String DQUOTE "; export "))).
Definition COLD_SUFFIX : string :=
  "=" +:+ String DQUOTE ("$cache_dir" +:+ String DQUOTE ("; exec " +:+ String DQUOTE ("$@" +:+ String DQUOTE ""))).
Definition _unwrap_dt_cold_fork (command : list string) : list string :=
  match command with
  | shell :: flag :: script :: marker :: ((_ :: _) as rest) =>
      if negb (bool_decide ([shell; flag] = ["bash"; "-c"])) || negb (bool_decide (marker = "dt-cold-fork"))
         || negb (starts_with COLD_PREFIX script) || negb (ends_with COLD_SUFFIX script)
      then command
      else
        let variable := str_drop (str_len COLD_PREFIX)
                          (str_take (str_len script - str_len COLD_SUFFIX) script) in
        if env_name variable then rest else command
  | _ => command
  end.

Definition fork_spec_from_entry (entry : JobEntry) (name_ : option string) (cmd_ : option (list string))
    (reuse_cache clone_cache : option string) (cache_env_ : string) (artifact_manifest_ : option string)
  : result RunSpec :=
  raise_if (truthy reuse_cache && truthy clone_cache)
    (ConfigError "use either reuse_cache or clone_cache, not both") ;;
  let requested_cache := or_text clone_cache reuse_cache in
  let requested := truthy requested_cache in
  let actual_node := if bool_decide (entry.(node) = "-") then entry.(pin_node) else Some entry.(node) in
  fork_command ← match nonempty cmd_ with
                 | Some command => Ok command
                 | None => shlex_split entry.(cmd)
                 end;
  let fork_command := if requested && bool_decide (cmd_ = None) then _unwrap_dt_cold_fork fork_command
                      else fork_command in
  let cached {A} (v : option A) : option A := if requested then v else None in
  Ok (derived entry (or_str name_ (entry.(name) +:+ "-fork")) fork_command actual_node
        <| sp_artifact_manifest := or_text artifact_manifest_ entry.(artifact_manifest) |>
        <| sp_forked_from := Some entry.(job_id) |>
        <| sp_cache_source_job := cached (Some entry.(job_id)) |>
        <| sp_cache_source_job_dir := cached (Some entry.(job_dir)) |>
        <| sp_cache_source_path := cached (_normalize_cache_reuse_path <$> requested_cache) |>
        <| sp_cache_env := cached (Some cache_env_) |>
        <| sp_cache_source_env_hash := cached entry.(env_hash) |>
        <| sp_cache_source_snapshot_sha256 := cached entry.(snapshot_sha256) |>
        <| sp_cache_mode := if truthy clone_cache then Some "clone"
                            else if truthy reuse_cache then Some "shared" else None |>).

(** The fork with every other argument at its default. *)
Definition plain_fork (entry : JobEntry) (name_ : option string) (cmd_ : option (list string)) : result RunSpec :=
  fork_spec_from_entry entry name_ cmd_ None None "DT_REUSED_CACHE_DIR" None.

(** ** Automatic retries *)
Definition retry_spec_from_entry (entry : JobEntry) : result RunSpec :=
  let ordinal := entry.(retry_count) + 1 in
  spec ← plain_fork entry (Some entry.(name)) None;
  Ok (spec <| sp_node := entry.(pin_node) |>
           <| sp_request_id := Some (entry.(job_id) +:+ ":retry:" +:+ pretty ordinal) |>
           <| sp_retry_limit := entry.(retry_limit) |> <| sp_retry_on := entry.(retry_on) |>
           <| sp_retry_count := ordinal |> <| sp_retry_of := Some entry.(job_id) |>).

(** ** Environment reuse and inherited caches *)
Definition environment_reuse_spec_from_entry (entry : JobEntry) (cmd_ : list string) (name_ : option string)
    (gpus_ : Z) (request_id_ : option string) : result RunSpec :=
  raise_if (bool_decide (entry.(node) = "-") || bool_decide (entry.(status) = Queued))
    (ConfigError "environment source job has not started on a node") ;;
  raise_if (negb (fullmatch ENV_HASH_RE (text_or entry.(env_hash))))
    (ConfigError "environment source job has no reproducible environment") ;;
  raise_if (negb (truthy entry.(snapshot_sha256)))
    (ConfigError "environment source job has no exact snapshot identity") ;;
  spec ← plain_fork entry (Some (or_str name_ (entry.(name) +:+ "-exec"))) (Some cmd_);
  Ok (spec <| sp_gpus := gpus_ |>
           <| sp_min_vram_mib := if gpus_ =? 0 then None else spec.(sp_min_vram_mib) |>
           <| sp_max_vram_mib := if gpus_ =? 0 then None else spec.(sp_max_vram_mib) |>
           <| sp_env_mode := "reuse" |> <| sp_env_hash_override := entry.(env_hash) |>
           <| sp_env_source_job := Some entry.(job_id) |> <| sp_request_id := request_id_ |>).

Definition inherited_cache_fork_spec_from_entry (entry cache_source : JobEntry) (name_ : option string)
    (cmd_ : option (list string)) (artifact_manifest_ : option string) : result RunSpec :=
  raise_if (negb (bool_decide (entry.(cache_source_job) = Some cache_source.(job_id))))
    (ConfigError "recorded cache source does not match the resolved source job") ;;
  raise_if (negb (truthy entry.(cache_source_path)) || negb (truthy entry.(cache_env)))
    (ConfigError "source job has incomplete cache provenance") ;;
  raise_if (negb (bool_decide (entry.(cache_source_job_dir) = Some cache_source.(job_dir))))
    (ConfigError "recorded cache source directory does not match source job") ;;
  raise_if (negb (bool_decide (entry.(cache_source_env_hash) = cache_source.(env_hash))))
    (ConfigError "recorded cache source environment does not match source job") ;;
  raise_if (negb (truthy entry.(snapshot_sha256))
            || negb (bool_decide (entry.(snapshot_sha256) = cache_source.(snapshot_sha256))))
    (ConfigError "cache source snapshot does not match the requested fork") ;;
  raise_if (negb (truthy entry.(env_hash)) || negb (bool_decide (entry.(env_hash) = cache_source.(env_hash))))
    (ConfigError "cache source environment does not match the requested fork") ;;
  raise_if (bool_decide (entry.(node) = "-") || negb (bool_decide (entry.(node) = cache_source.(node))))
    (ConfigError "cache source node does not match the requested fork") ;;
  raise_if (negb (bool_decide (entry.(project) = cache_source.(project))))
    (ConfigError "cache source project does not match the requested fork") ;;
  spec ← fork_spec_from_entry entry name_ cmd_ None None "DT_REUSED_CACHE_DIR" artifact_manifest_;
  Ok (spec <| sp_node := Some cache_source.(node) |> <| sp_forked_from := Some entry.(job_id) |>
           <| sp_cache_source_job := Some cache_source.(job_id) |>
           <| sp_cache_source_job_dir := Some cache_source.(job_dir) |>
           <| sp_cache_source_path := entry.(cache_source_path) |> <| sp_cache_env := entry.(cache_env) |>
           <| sp_cache_source_env_hash := cache_source.(env_hash) |>
           <| sp_cache_source_snapshot_sha256 := cache_source.(snapshot_sha256) |>
           <| sp_cache_mode := Some (or_str entry.(cache_mode) "shared") |>).

(** ** The row of a submission *)
Definition _rerun_snapshot_changed (spec : RunSpec) (snapshot_sha256_ : option string) : option bool :=
  match spec.(sp_rerun_source_snapshot_sha256), snapshot_sha256_ with
  | Some source, Some snapshot => Some (negb (bool_decide (source = snapshot)))
  | _, _ => None
  end.

(** What the submission observed of the project's checkout. *)
Record Checkout := mkCheckout {
  co_sha : option string;
  co_dirty : bool;
  co_submodules : option (list (string * string));
}.

(** The frozen floor and the safe name, as [_submit_prepared] stores them. *)
Definition prepare_spec (sha256_hexdigest : list Ascii.ascii -> string) (cfg : HeadConfig) (spec : RunSpec)
  : RunSpec :=
  let floor := Z.max cfg.(disk_min_gib) (default 0 spec.(sp_require_disk_gib)) in
  spec <| sp_require_disk_gib := if 0 <? floor then Some floor else None |>
       <| sp_name := sanitize_name sha256_hexdigest spec.(sp_name) |>.

(** [_spec_entry_fields] applied to a new row; a validated time limit is
    finite and validated result states are known. *)
Definition _spec_entry_fields (cfg : HeadConfig) (spec : RunSpec) (co : Checkout) (row : JobEntry) : JobEntry :=
  row <| name := spec.(sp_name) |> <| center := cfg.(c_center) |>
      <| project := or_str spec.(sp_project) "?" |> <| cmd := shlex_join spec.(sp_cmd) |>
      <| gpus_requested := spec.(sp_gpus) |> <| gpu_isolation := spec.(sp_gpu_isolation) |>
      <| require_path := spec.(sp_require_path) |> <| require_disk_gib := spec.(sp_require_disk_gib) |>
      <| pin_node := spec.(sp_node) |>
      <| exclude_nodes := (fun l => sort_strings (remove_dups l)) <$> nonempty spec.(sp_exclude_nodes) |>
      <| max_hours := match spec.(sp_max_hours) with Some (Fin q) => Some q | _ => None end |>
      <| min_vram_mib := spec.(sp_min_vram_mib) |> <| max_vram_mib := spec.(sp_max_vram_mib) |>
      <| max_job_memory_mib := spec.(sp_max_job_memory_mib) |> <| setup := spec.(sp_setup) |>
      <| setup_inputs := spec.(sp_setup_inputs) |> <| extras := default [] spec.(sp_extras) |>
      <| env_mode := Some spec.(sp_env_mode) |> <| env_source_job := spec.(sp_env_source_job) |>
      <| custom_env := spec.(sp_custom_env) |> <| git_sha := co.(co_sha) |> <| git_dirty := co.(co_dirty) |>
      <| submodule_commits := co.(co_submodules) |> <| artifact_manifest := spec.(sp_artifact_manifest) |>
      <| artifact_targets := nonempty spec.(sp_artifact_targets) |> <| forked_from := spec.(sp_forked_from) |>
      <| after_success := spec.(sp_after_success) |> <| after_complete := spec.(sp_after_complete) |>
      <| after_result := spec.(sp_after_result) |>
      <| after_result_states := omap result_of_name spec.(sp_after_result_states) |>
      <| request_id := spec.(sp_request_id) |> <| retry_limit := spec.(sp_retry_limit) |>
      <| retry_on := spec.(sp_retry_on) |> <| retry_count := spec.(sp_retry_count) |>
      <| retry_of := spec.(sp_retry_of) |> <| rerun_of := spec.(sp_rerun_of) |>
      <| rerun_source_snapshot_sha256 := spec.(sp_rerun_source_snapshot_sha256) |>
      <| cache_source_job := spec.(sp_cache_source_job) |>
      <| cache_source_job_dir := spec.(sp_cache_source_job_dir) |>
      <| cache_source_path := spec.(sp_cache_source_path) |> <| cache_env := spec.(sp_cache_env) |>
      <| cache_source_env_hash := spec.(sp_cache_source_env_hash) |>
      <| cache_mode := spec.(sp_cache_mode) |> <| storage_layout := Some cfg.(c_layout) |>.

Definition submit_worker_roots (cfg : HeadConfig) : list (string * string) :=
  fold_left (fun roots n => dict_set n.(n_name) (worker_root_for cfg n) roots) cfg.(c_nodes) [].
Definition submit_worker_root (cfg : HeadConfig) (spec : RunSpec) : string :=
  match spec.(sp_node) with
  | Some (String _ _ as n) => default cfg.(c_worker_root) (assoc n (submit_worker_roots cfg))
  | _ => cfg.(c_worker_root)
  end.
(** [cfg.worker_job_dir(Node(name="-"), job_id)] under the legacy layout. *)
Definition submit_job_dir (cfg : HeadConfig) (spec : RunSpec) (job_id_ : string) : result string :=
  if bool_decide (cfg.(c_layout) = ROLE_LAYOUT)
  then node_path (submit_worker_root cfg spec) ["worker"; "jobs"; job_id_]
  else node_path cfg.(c_worker_root) ["jobs"; job_id_].

(** [unplaced_entry] for a queued row: the staged snapshot and the reason. *)
Definition queued_entry (cfg : HeadConfig) (spec : RunSpec) (co : Checkout) (job_id_ job_dir_ : string)
    (runtime_sha256 staged : string) (submitted_at : Q) (why : option string) : JobEntry :=
  _spec_entry_fields cfg spec co
    (new_entry job_id_ spec.(sp_name) cfg.(c_center) "?" "-" false job_dir_ ("dt_" +:+ job_id_) "" submitted_at)
    <| payload_sha256 := Some runtime_sha256 |> <| env_hash := spec.(sp_env_hash_override) |>
    <| worker_root := Some (submit_worker_root cfg spec) |> <| worker_roots := submit_worker_roots cfg |>
    <| job_relpath := Some ("jobs/" +:+ job_id_) |>
    <| status := Queued |> <| snapshot_sha256 := Some staged |> <| reason := why |>
    <| rerun_snapshot_changed := _rerun_snapshot_changed spec (Some staged) |>.

(** ** The contract a queued row carries *)
Definition _queued_run_spec (entry : JobEntry) : result RunSpec :=
  command ← shlex_split entry.(cmd);
  Ok (derived entry entry.(name) command entry.(pin_node)
        <| sp_env_mode := or_str entry.(env_mode) "sync" |>
        <| sp_env_hash_override := if bool_decide (entry.(env_mode) = Some "reuse") then entry.(env_hash) else None |>
        <| sp_env_source_job := entry.(env_source_job) |> <| sp_forked_from := entry.(forked_from) |>
        <| sp_after_success := entry.(after_success) |> <| sp_after_complete := entry.(after_complete) |>
        <| sp_after_result := entry.(after_result) |>
        <| sp_after_result_states := result_name <$> entry.(after_result_states) |>
        <| sp_request_id := entry.(request_id) |> <| sp_retry_limit := entry.(retry_limit) |>
        <| sp_retry_on := entry.(retry_on) |> <| sp_retry_count := entry.(retry_count) |>
        <| sp_retry_of := entry.(retry_of) |> <| sp_rerun_of := entry.(rerun_of) |>
        <| sp_rerun_source_snapshot_sha256 := entry.(rerun_source_snapshot_sha256) |>
        <| sp_artifact_manifest := entry.(artifact_manifest) |>
        <| sp_cache_source_job := entry.(cache_source_job) |>
        <| sp_cache_source_job_dir := entry.(cache_source_job_dir) |>
        <| sp_cache_source_path := entry.(cache_source_path) |> <| sp_cache_env := entry.(cache_env) |>
        <| sp_cache_source_env_hash := entry.(cache_source_env_hash) |>
        <| sp_cache_source_snapshot_sha256 :=
             if truthy entry.(cache_source_job) then entry.(snapshot_sha256) else None |>
        <| sp_cache_mode := entry.(cache_mode) |> <| sp_payload_sha256 := entry.(payload_sha256) |>).

(** ** The source of a fork *)
Definition _fork_source_identity (entry : JobEntry) :=
  (entry.(project), entry.(snapshot_sha256), entry.(payload_sha256), entry.(env_hash), entry.(job_dir),
   or_str entry.(storage_layout) LEGACY_LAYOUT).

(** The guards and the rewritten spec of [_submit_fork_locked]. *)
Definition fork_locked_spec (source : JobEntry) (spec : RunSpec) : result RunSpec :=
  (if bool_decide (spec.(sp_env_mode) = "reuse") then
     raise_if (bool_decide (source.(node) = "-") || bool_decide (source.(status) = Queued))
       (ConfigError "environment source job has not started on a node") ;;
     raise_if (negb (bool_decide (spec.(sp_node) = Some source.(node))))
       (ConfigError "environment reuse must stay on the source job's node") ;;
     raise_if (negb (bool_decide (spec.(sp_env_source_job) = Some source.(job_id))))
       (ConfigError "environment reuse source does not match fork source") ;;
     raise_if (negb (bool_decide (spec.(sp_env_hash_override) = source.(env_hash))))
       (ConfigError "recorded environment identity changed on source job")
   else Ok tt) ;;
  spec ← match spec.(sp_cache_source_job) with
         | None => Ok spec
         | Some cache_job =>
             raise_if (negb (bool_decide (cache_job = source.(job_id))))
               (ConfigError "cache source must be the exact fork source job") ;;
             raise_if (negb (bool_decide (source.(status) = Finished)) || negb (bool_decide (source.(exit_code) = Some 0)))
               (ConfigError "cache source job must be finished successfully") ;;
             raise_if (bool_decide (source.(node) = "-")) (ConfigError "cache source job has no compute node") ;;
             raise_if (negb (bool_decide (spec.(sp_node) = Some source.(node))))
               (ConfigError "cache reuse must stay on the source job's node") ;;
             raise_if (negb (truthy source.(env_hash)))
               (ConfigError "cache source job has no reproducible environment") ;;
             raise_if (negb (truthy source.(snapshot_sha256)))
               (ConfigError "cache source job has no exact snapshot identity") ;;
             Ok (spec <| sp_cache_source_job_dir := Some source.(job_dir) |>
                      <| sp_cache_source_env_hash := source.(env_hash) |>
                      <| sp_cache_source_snapshot_sha256 := source.(snapshot_sha256) |>)
         end;
  let spec := spec <| sp_project := Some source.(project) |> in
  let spec := spec <| sp_setup := match spec.(sp_setup) with None => source.(setup) | s => s end |> in
  let spec := spec <| sp_setup_inputs := match spec.(sp_setup_inputs) with None => source.(setup_inputs) | s => s end |> in
  Ok (spec <| sp_extras := match spec.(sp_extras) with None => Some source.(extras) | s => s end |>).

(** The guards and the validated spec of [submit_fork], with the locked
    source row it re-reads. *)
Definition submit_fork_spec (source : JobEntry) (current : option JobEntry) (spec : RunSpec) : result RunSpec :=
  spec ← _validate_run_spec spec;
  let spec := spec <| sp_forked_from := or_text spec.(sp_forked_from) (Some source.(job_id)) |> in
  match current with
  | None => Err (ConfigError "fork source job disappeared; resolve it and retry")
  | Some current =>
      raise_if (negb (bool_decide (_fork_source_identity current = _fork_source_identity source)))
        (ConfigError "fork source identity changed; resolve it and retry") ;;
      fork_locked_spec current spec
  end.

(** [_reference_job_ids]. *)
Definition _reference_job_ids (spec : RunSpec) (extra : list string) : list string :=
  sort_strings (remove_dups (extra ++ omap id
    [spec.(sp_forked_from); spec.(sp_cache_source_job); spec.(sp_env_source_job);
     spec.(sp_after_success); spec.(sp_after_complete); spec.(sp_after_result)])).
