(* ===== verification/DeriveSpec.v ===== *)
(** * Submissions and the rows that carry them

    An accepted submission becomes a row the registry can store; the
    dispatcher rebuilds from that row exactly the submission it carries; and
    automatic retries of a job come to an end. *)

From S2P Require Import Prelude Text PyValue Diagnostics Layout Shlex CustomEnv JobEntry RegistryCodec CodecFacts CodecSound RunSpec Lifecycle Registry RegistryOps RegistrySpec Config Intent IntentSpec Contract ContractSpec Derive.

(** ** What validation establishes *)
Record accepted (s : RunSpec) : Prop := {
  ac_env : env_ok s.(sp_custom_env);
  ac_gpus : 0 <= s.(sp_gpus);
  ac_exclude : opt_b (forallb (fullmatch _CONFIG_ID_RE)) s.(sp_exclude_nodes) = true;
  ac_isolation : s.(sp_gpu_isolation) = "advisory";
  ac_disk : opt_b (Z.ltb 0) s.(sp_require_disk_gib) = true;
  ac_hours : match s.(sp_max_hours) with Some h => exists q, h = Fin q /\ (0 < q)%Q | None => True end;
  ac_limits : forallb (opt_b (Z.ltb 0)) [s.(sp_min_vram_mib); s.(sp_max_vram_mib); s.(sp_max_job_memory_mib)] = true;
  ac_cards : is_Some s.(sp_min_vram_mib) -> s.(sp_gpus) <> 0;
  ac_manifest : opt_b (fullmatch SHA256_RE) s.(sp_artifact_manifest) = true;
  ac_retry_limit : 0 <= s.(sp_retry_limit) <= MAX_RETRY_LIMIT;
  ac_retry_count : 0 <= s.(sp_retry_count) <= MAX_RETRY_LIMIT;
  ac_retry_on : opt_b (in_set RETRY_ON_MODES) s.(sp_retry_on) = true;
  ac_states : NoDup s.(sp_after_result_states) /\
    Forall (fun r => r ∈ result_name <$> RESULT_STATES) s.(sp_after_result_states);
  ac_mode : s.(sp_env_mode) ∈ ["sync"; "reuse"];
  ac_env_hash : opt_b (fullmatch ENV_HASH_RE) s.(sp_env_hash_override) = true;
  ac_no_override : s.(sp_env_mode) <> "reuse" -> s.(sp_env_hash_override) = None;
  ac_rerun : opt_b (fullmatch SHA256_RE) s.(sp_rerun_source_snapshot_sha256) = true;
  ac_cache_hash : opt_b (fullmatch ENV_HASH_RE) s.(sp_cache_source_env_hash) = true;
  ac_cache_mode : opt_b (in_set ["shared"; "clone"]) s.(sp_cache_mode) = true;
  ac_cache_job : s.(sp_cache_source_job) <> Some "";
  ac_cache_snapshot : s.(sp_cache_source_job) = None -> s.(sp_cache_source_snapshot_sha256) = None;
}.

Lemma unless_opt_b {A} (ok : A -> bool) v : unless ok v = false -> opt_b ok v = true.
Proof. destruct v; cbn; [apply negb_false_iff|done]. Qed.

Lemma result_states_length : length RESULT_STATES = 7%nat.
Proof. done. Qed.

(** The parts of the gate change these fields only. *)
Lemma check_command_inv s s' :
  NoDup s.(sp_custom_env).*1 -> check_command s = Ok s' ->
  exists env, s' = s <| sp_custom_env := env |> /\ env_ok env /\ 0 <= s.(sp_gpus) /\
    opt_b (forallb (fullmatch _CONFIG_ID_RE)) s.(sp_exclude_nodes) = true /\ s.(sp_gpu_isolation) = "advisory".
Proof.
  intros Hnd H. unfold check_command in H. apply bind_raise_ok in H as [_ H].
  apply bind_ok in H as (env & He & H).
  assert (validate (as_json s.(sp_custom_env)) = Ok env) as Hv by (by destruct (validate _) as [?|[]]).
  ok_steps H. injection H as <-. exists env. split; [done|]. unfold as_json in Hv. apply validate_ok in Hv as [Hok _].
  - apply unless_opt_b in G0. apply Z.ltb_ge in G. apply negb_false_iff, bool_decide_eq_true in G3. done.
  - by rewrite as_json_strict_keys.
Qed.

Lemma check_limits_inv s :
  check_limits s = Ok tt ->
  opt_b (Z.ltb 0) s.(sp_require_disk_gib) = true /\
  match s.(sp_max_hours) with Some h => exists q, h = Fin q /\ (0 < q)%Q | None => True end /\
  forallb (opt_b (Z.ltb 0)) [s.(sp_min_vram_mib); s.(sp_max_vram_mib); s.(sp_max_job_memory_mib)] = true /\
  (is_Some s.(sp_min_vram_mib) -> s.(sp_gpus) <> 0).
Proof.
  unfold check_limits. cbv zeta. intros H.
  assert (forall v label, (raise_if (unless (Z.ltb 0) v) (ConfigError (label +:+ " must be a positive integer")) ;;
    raise_if (bool_decide (is_Some v) && (s.(sp_gpus) =? 0)) (ConfigError (label +:+ " requires at least one GPU")))
    = Ok tt -> opt_b (Z.ltb 0) v = true /\ (is_Some v -> s.(sp_gpus) <> 0)) as Hcard.
  { intros v label Hv. apply bind_raise_ok in Hv as [Hv Hc]. apply raise_if_ok in Hc.
    split; [by apply unless_opt_b|]. intros Hs. apply andb_false_iff in Hc as [Hc|Hc].
    - by apply bool_decide_eq_false in Hc.
    - by apply Z.eqb_neq in Hc. }
  apply bind_raise_ok in H as [Hd H]. apply bind_raise_ok in H as [Hh H].
  apply bind_ok in H as ([] & Hmin & H). apply bind_ok in H as ([] & Hmax & H). apply raise_if_ok in H.
  apply Hcard in Hmin as [Hmin Hg]. apply Hcard in Hmax as [Hmax _].
  apply unless_opt_b in Hd, H. split; [done|]. split.
  - destruct s.(sp_max_hours) as [[q| |]|]; [|done..]. exists q. split; [done|]. apply unless_opt_b in Hh.
    cbn in Hh. by apply q_ltb_lt in Hh.
  - split; [|done]. cbn. by rewrite Hmin, Hmax, H.
Qed.

Lemma check_artifacts_inv s s' :
  check_artifacts s = Ok s' ->
  opt_b (fullmatch SHA256_RE) s.(sp_artifact_manifest) = true /\
  (s' = s \/ exists v, s' = s <| sp_artifact_targets := Some v |>).
Proof.
  unfold check_artifacts. intros H. apply bind_raise_ok in H as [_ H]. apply bind_raise_ok in H as [Hm H].
  split; [by apply unless_opt_b|]. destruct s.(sp_artifact_targets) as [[|t l]|]; [by left; injection H| |by left; injection H].
  apply bind_raise_ok in H as [_ H]. apply bind_ok in H as (v & _ & H). injection H as <-. right. by exists v.
Qed.

Lemma check_lineage_inv s :
  check_lineage s = Ok tt ->
  0 <= s.(sp_retry_limit) <= MAX_RETRY_LIMIT /\ 0 <= s.(sp_retry_count) <= MAX_RETRY_LIMIT /\
  opt_b (in_set RETRY_ON_MODES) s.(sp_retry_on) = true.
Proof.
  unfold check_lineage. cbv zeta. intros H. ok_steps H. apply unless_opt_b in G2.
  apply negb_false_iff, andb_true_iff in G0 as [?%Z.leb_le ?%Z.leb_le].
  apply negb_false_iff, andb_true_iff in G1 as [?%Z.leb_le ?%Z.leb_le]. done.
Qed.

Lemma sort_dedup_spec l :
  NoDup (sort_strings (remove_dups l)) /\ forall x, x ∈ sort_strings (remove_dups l) <-> x ∈ l.
Proof.
  assert (sort_strings (remove_dups l) ≡ₚ remove_dups l) as Hp by apply sort_by_perm.
  split; [rewrite Hp; apply NoDup_remove_dups|]. intros x. by rewrite Hp, elem_of_remove_dups.
Qed.

Lemma check_dependencies_inv s s' :
  check_dependencies s = Ok s' ->
  (s' = s \/ exists l, s' = s <| sp_after_result_states := l |>) /\
  NoDup s'.(sp_after_result_states) /\
  Forall (fun r => r ∈ result_name <$> RESULT_STATES) s'.(sp_after_result_states).
Proof.
  unfold check_dependencies. intros H. ok_steps H. destruct s.(sp_after_result).
  - ok_steps H. injection H as <-. split; [right; by eexists|]. cbn.
    destruct (sort_dedup_spec s.(sp_after_result_states)) as [Hnd Hin]. split; [done|].
    apply negb_false_iff, forallb_True_spec in G4. rewrite Forall_forall in G4 |- *.
    intros x Hx. specialize (G4 x (proj1 (Hin x) Hx)). by apply bool_decide_eq_true in G4.
  - ok_steps H. injection H as <-. split; [by left|].
    apply negb_false_iff, bool_decide_eq_true in G3. rewrite G3. split; constructor.
Qed.

Lemma check_environment_inv s :
  check_environment s = Ok tt ->
  s.(sp_env_mode) ∈ ["sync"; "reuse"] /\ opt_b (fullmatch ENV_HASH_RE) s.(sp_env_hash_override) = true /\
  (s.(sp_env_mode) <> "reuse" -> s.(sp_env_hash_override) = None) /\
  opt_b (fullmatch SHA256_RE) s.(sp_rerun_source_snapshot_sha256) = true.
Proof.
  unfold check_environment. intros H. apply bind_raise_ok in H as [_ H]. apply bind_raise_ok in H as [Hm H].
  apply negb_false_iff, bool_decide_eq_true in Hm. split; [done|].
  apply bind_ok in H as ([] & He & H). split; [|split].
  - destruct (bool_decide (s.(sp_env_mode) = "reuse")); [|apply raise_if_ok, orb_false_iff in He as [He _]; apply bool_decide_eq_false in He;
      by apply eq_None_not_Some in He as ->].
    apply bind_raise_ok in He as [He _]. apply negb_false_iff in He. by destruct s.(sp_env_hash_override).
  - intros Hn. rewrite bool_decide_false in He by done. apply raise_if_ok, orb_false_iff in He as [He _].
    apply bool_decide_eq_false in He. by apply eq_None_not_Some.
  - destruct s.(sp_rerun_source_snapshot_sha256) as [sha|]; [|done].
    apply bind_raise_ok in H as [_ H]. apply raise_if_ok in H. cbn. by apply negb_false_iff in H.
Qed.

(** The cache contract, complete or absent. *)
Lemma check_cache_inv s s' :
  check_cache s = Ok s' ->
  exists mode dir path, s' = s <| sp_cache_mode := mode |> <| sp_cache_source_job_dir := dir |>
                               <| sp_cache_source_path := path |> /\
    opt_b (in_set ["shared"; "clone"]) mode = true /\
    opt_b (fullmatch ENV_HASH_RE) s.(sp_cache_source_env_hash) = true /\
    s.(sp_cache_source_job) <> Some "" /\
    (s.(sp_cache_source_job) = None -> s.(sp_cache_source_snapshot_sha256) = None).
Proof.
  unfold check_cache. destruct (existsb _ _) eqn:Hany; intros H.
  - unfold _validate_cache_reuse_contract in H. apply bind_raise_ok in H as [Ht H].
    apply negb_false_iff in Ht. unfold cache_values in Ht. cbn in Ht. rewrite !andb_true_iff in Ht.
    destruct Ht as (Hjob & _ & _ & _ & _ & _ & _).
    ok_steps H. injection H as <-. do 3 eexists. split; [reflexivity|]. split_and!.
    + cbn. apply bool_decide_eq_true. destruct s.(sp_cache_mode); [|injection E0 as <-; set_solver].
      apply bind_raise_ok in E0 as [E0 [= <-]]. by apply negb_false_iff, bool_decide_eq_true in E0.
    + by destruct s.(sp_cache_source_env_hash); [apply negb_false_iff in G4|].
    + by intros Hs; rewrite Hs in Hjob.
    + by intros Hs; rewrite Hs in Hjob.
  - apply bind_raise_ok in H as [Hm [= <-]]. apply bool_decide_eq_false, eq_None_not_Some in Hm.
    assert (forall v, v ∈ cache_values s -> v = None) as Hnone.
    { intros v Hv. destruct v; [|done]. apply not_true_iff_false in Hany. destruct Hany.
      apply existsb_exists. exists (Some s0). split; [by apply list_elem_of_In|by apply bool_decide_eq_true]. }
    exists s.(sp_cache_mode), s.(sp_cache_source_job_dir), s.(sp_cache_source_path). split; [by destruct s|].
    rewrite (Hnone s.(sp_cache_source_env_hash)), (Hnone s.(sp_cache_source_job)), Hm by (unfold cache_values; set_solver).
    split_and!; [done..|]. intros _. apply Hnone. unfold cache_values. set_solver.
Qed.

(** Whatever [_validate_run_spec] accepts has these properties. *)
Lemma validate_accepted s s' :
  _validate_run_spec s = Ok s' -> NoDup s.(sp_custom_env).*1 -> accepted s'.
Proof.
  intros H Hnd. unfold _validate_run_spec in H.
  apply bind_ok in H as (s1 & H1 & H). apply check_command_inv in H1 as (env & -> & A1 & A2 & A3 & A4); [|done].
  apply bind_ok in H as ([] & H2 & H). apply check_limits_inv in H2 as (B1 & B2 & B3 & B4).
  apply bind_ok in H as (s2 & H3 & H). apply check_artifacts_inv in H3 as (C1 & C2).
  apply bind_ok in H as ([] & H4 & H). apply check_lineage_inv in H4 as (D1 & D2 & D3).
  apply bind_ok in H as (s3 & H5 & H). apply check_dependencies_inv in H5 as (E1 & E2 & E3).
  apply bind_ok in H as ([] & H6 & H). apply check_environment_inv in H6 as (F1 & F2 & F3 & F4).
  apply check_cache_inv in H as (mode & dir & path & -> & G1 & G2 & G3 & G4).
  assert (forall {T} (f : RunSpec -> T), (forall x l, f (x <| sp_after_result_states := l |>) = f x) ->
    (forall x v, f (x <| sp_artifact_targets := v |>) = f x) -> f s3 = f (s <| sp_custom_env := env |>)) as Hf.
  { intros T f Hl Hv. destruct E1 as [-> | [l ->]], C2 as [-> | [v ->]]; by rewrite ?Hl, ?Hv. }
  assert (forall {T} (f : RunSpec -> T), (forall x v, f (x <| sp_artifact_targets := v |>) = f x) ->
    f s2 = f (s <| sp_custom_env := env |>)) as Hg.
  { intros T f Hv. destruct C2 as [-> | [v ->]]; by rewrite ?Hv. }
  rewrite (Hg _ sp_retry_limit), (Hg _ sp_retry_count), (Hg _ sp_retry_on) in * by done.
  split; cbn -[fullmatch in_set validate MAX_RETRY_LIMIT Z.ltb]; try done.
  all: try (rewrite (Hf _ sp_custom_env) by done; done).
  all: rewrite ?(Hf _ sp_gpus), ?(Hf _ sp_exclude_nodes), ?(Hf _ sp_gpu_isolation), ?(Hf _ sp_require_disk_gib),
    ?(Hf _ sp_max_hours), ?(Hf _ sp_min_vram_mib), ?(Hf _ sp_max_vram_mib), ?(Hf _ sp_max_job_memory_mib),
    ?(Hf _ sp_artifact_manifest), ?(Hf _ sp_retry_limit), ?(Hf _ sp_retry_count), ?(Hf _ sp_retry_on) by done; done.
Qed.

(** ** The row of an accepted submission *)

(** A configuration the loader accepts. *)
Record site_ok (cfg : HeadConfig) : Prop := {
  so_layout : cfg.(c_layout) ∈ [LEGACY_LAYOUT; ROLE_LAYOUT];
  so_root : root_valid cfg.(c_worker_root) = true;
  so_nodes : Forall (fun n => root_valid (worker_root_for cfg n) = true) cfg.(c_nodes);
  so_count : (length cfg.(c_nodes) <= MAX_JOB_COLLECTION_ITEMS)%nat;
}.

(** What the validation leaves to the caller: the sizes of the collections,
    the project's extras and setup inputs, and the identities it computed. *)
Record prepared (spec : RunSpec) (co : Checkout) (job_id_ runtime_sha256 staged : string)
    (submitted_at : Q) (why : option string) : Prop := {
  pr_id : valid_job_id job_id_ = true;
  pr_runtime : fullmatch SHA256_RE runtime_sha256 = true;
  pr_staged : fullmatch SHA256_RE staged = true;
  pr_time : (0 <= submitted_at)%Q;
  pr_why : opt_b bounded_text why = true;
  pr_submodules : opt_b (fun l => (length l <=? MAX_JOB_COLLECTION_ITEMS)%nat) co.(co_submodules) = true;
  pr_targets : opt_b (fun l => (length l <=? MAX_JOB_COLLECTION_ITEMS)%nat) spec.(sp_artifact_targets) = true;
  pr_exclude : opt_b (fun l => (length l <=? MAX_JOB_COLLECTION_ITEMS)%nat) spec.(sp_exclude_nodes) = true;
  pr_extras : opt_b (fun l => (length l <=? MAX_PROJECT_EXTRAS)%nat && forallb (fullmatch _CONFIG_ID_RE) l)
    spec.(sp_extras) = true;
  pr_inputs : opt_b (fun l => (length l <=? MAX_SETUP_INPUTS)%nat
                && forallb (fun p => is_ok (setup_input_ok (JStr p))) l) spec.(sp_setup_inputs) = true;
}.

Lemma dict_set_facts {A} (P : A -> Prop) k v kv :
  P v -> Forall (fun p => P p.2) kv ->
  Forall (fun p => P p.2) (dict_set k v kv) /\ (length (dict_set k v kv) <= S (length kv))%nat.
Proof.
  intros Hv. induction 1 as [|[k' v'] kv Hp Hkv [IH1 IH2]]; cbn; [split; [by repeat constructor|lia]|].
  case_bool_decide; cbn; (split; [by constructor|lia]).
Qed.

Lemma worker_roots_ok cfg : site_ok cfg ->
  Forall (fun p => root_valid p.2 = true) (submit_worker_roots cfg) /\
  (length (submit_worker_roots cfg) <= length cfg.(c_nodes))%nat.
Proof.
  intros [_ _ Hn _]. unfold submit_worker_roots.
  assert (forall acc, Forall (fun p => root_valid p.2 = true) acc ->
    Forall (fun p => root_valid p.2 = true)
      (fold_left (fun roots n => dict_set n.(n_name) (worker_root_for cfg n) roots) cfg.(c_nodes) acc) /\
    (length (fold_left (fun roots n => dict_set n.(n_name) (worker_root_for cfg n) roots) cfg.(c_nodes) acc)
       <= length cfg.(c_nodes) + length acc)%nat) as H.
  { induction Hn as [|n nodes Hn Hns IH]; intros acc Hacc; cbn; [split; [done|lia]|].
    destruct (dict_set_facts (fun r => root_valid r = true) n.(n_name) _ _ Hn Hacc) as [H1 H2].
    destruct (IH _ H1) as [H3 H4]. split; [done|lia]. }
  destruct (H [] (Forall_nil_2 _)) as [H1 H2]. cbn [length] in H2. split; [done|lia].
Qed.

Lemma worker_root_ok' cfg spec : site_ok cfg -> root_valid (submit_worker_root cfg spec) = true.
Proof.
  intros Hs. destruct (worker_roots_ok cfg Hs) as [Hr _]. unfold submit_worker_root.
  destruct spec.(sp_node) as [[|c n]|]; [apply Hs| |apply Hs].
  destruct (assoc _ _) as [r|] eqn:E; [|apply Hs]. apply assoc_Some_elem in E.
  rewrite Forall_forall in Hr. exact (Hr _ E).
Qed.

(** [jobs/JOB_ID] stays below the worker root. *)
Lemma job_relpath_ok id : valid_job_id id = true ->
  negb (pure_is_absolute ("jobs/" +:+ id) || bool_decide (pure_parts ("jobs/" +:+ id) = [])
        || bool_decide (".." ∈ pure_parts ("jobs/" +:+ id))) = true.
Proof.
  intros Hid. unfold valid_job_id in Hid. apply fullmatch_single in Hid as [Hlen Hall].
  assert ((SLASH ∉ chars id) /\ id <> ".." /\ id <> "." /\ id <> "") as (Hs & Hd & Hd' & Hne).
  { rewrite Forall_forall in Hall. split_and!.
    - intros Hin. apply Hall in Hin. by vm_compute in Hin.
    - intros ->. specialize (Hall (Ascii.ascii_of_N 46) ltac:(left)). by vm_compute in Hall.
    - intros ->. specialize (Hall (Ascii.ascii_of_N 46) ltac:(left)). by vm_compute in Hall.
    - intros ->. cbn in Hlen. lia. }
  assert (pure_parts ("jobs/" +:+ id) = ["jobs"; id]) as Hp.
  { unfold pure_parts, pure_root, pure_components.
    change ("jobs/" +:+ id) with ("jobs" +:+ String SLASH id). rewrite split_on_prefix by (by apply (bool_decide_unpack _)).
    change (starts_with "//" ("jobs" +:+ String SLASH id)) with false.
    change (starts_with "/" ("jobs" +:+ String SLASH id)) with false. cbn [andb].
    rewrite bool_decide_true by done. unfold split_on. rewrite split_on_go_none by done.
    cbn [fmap list_fmap]. rewrite unchars_chars. cbn [List.filter app].
    by rewrite !(bool_decide_false (id = _)) by done. }
  rewrite Hp. change (pure_is_absolute ("jobs/" +:+ id)) with false.
  rewrite (bool_decide_false (["jobs"; id] = [])) by done.
  rewrite (bool_decide_false (".." ∈ _)); [done|]. set_solver.
Qed.

Lemma implb_l b c : (b = true -> c = true) -> implb b c = true.
Proof. destruct b, c; naive_solver. Qed.
Lemma opt_b_impl {A} (p q : A -> bool) o :
  (forall a, p a = true -> q a = true) -> opt_b p o = true -> opt_b q o = true.
Proof. destruct o; cbn; auto. Qed.
Lemma q_nonneg_le q : (0 <= q)%Q -> q_nonneg q = true.
Proof. intros H. unfold q_nonneg. apply negb_true_iff. by apply q_ltb_ge. Qed.

Lemma sorted_set_facts l :
  (length (sort_strings (remove_dups l)) <= length l)%nat /\
  (forall p : string -> bool, forallb p l = true -> forallb p (sort_strings (remove_dups l)) = true).
Proof.
  assert (sort_strings (remove_dups l) ≡ₚ remove_dups l) as Hp by apply sort_by_perm. split.
  - rewrite Hp. clear. induction l as [|x l IH]; [done|]. cbn. destruct (decide_rel _ _ _); cbn; lia.
  - intros p Hall. apply forallb_True_spec. rewrite Hp. apply forallb_True_spec in Hall.
    rewrite Forall_forall in Hall |- *. intros x. rewrite elem_of_remove_dups. apply Hall.
Qed.

Lemma result_names_omap l :
  NoDup l -> Forall (fun r => r ∈ result_name <$> RESULT_STATES) l ->
  result_name <$> omap result_of_name l = l /\ NoDup (omap result_of_name l).
Proof.
  intros Hnd Hall. assert (result_name <$> omap result_of_name l = l) as E.
  { clear Hnd. induction Hall as [|x l Hx Hl IH]; [done|].
    apply list_elem_of_fmap in Hx as (r & -> & _). destruct r; (etrans; [|exact (f_equal (cons _) IH)]); reflexivity. }
  split; [done|]. apply (NoDup_fmap_1 result_name). by rewrite E.
Qed.

Lemma NoDup_states (l : list result_state_t) : NoDup l -> (length l <=? length RESULT_STATES)%nat = true.
Proof.
  intros H. apply Nat.leb_le. apply submseteq_length, NoDup_submseteq; [done|].
  intros x _. destruct x; unfold RESULT_STATES; set_solver.
Qed.

(** An accepted submission becomes a row the registry can store: as [save] completes it, the
    queued row satisfies every validator of the codec. *)
Section row.
Context (cfg : HeadConfig) (spec : RunSpec) (co : Checkout) (job_id_ job_dir_ runtime staged : string)
  (submitted_at now : Q) (why : option string).
Context (Hok : accepted spec) (Hsite : site_ok cfg)
  (Hprep : prepared spec co job_id_ runtime staged submitted_at why) (Hnow : (0 <= now)%Q).
Let e := stamp now (queued_entry cfg spec co job_id_ job_dir_ runtime staged submitted_at why).

Lemma row_lifecycle : valid_lifecycle e = true.
Proof using Hok Hprep Hnow.
  unfold valid_lifecycle, e. cbn -[Z.leb q_nonneg valid_job_id].
  rewrite (pr_id _ _ _ _ _ _ _ Hprep), (q_nonneg_le submitted_at), (q_nonneg_le now)
    by (done || apply Hprep). rewrite (proj2 (Z.leb_le _ _) (ac_gpus _ Hok)). done.
Qed.

Lemma row_collections : valid_collections e = true.
Proof using Hok Hprep Hsite.
  unfold valid_collections, e. cbn -[Nat.leb fullmatch _CONFIG_ID_RE submit_worker_roots MAX_JOB_COLLECTION_ITEMS MAX_PROJECT_EXTRAS].
  destruct (worker_roots_ok cfg Hsite) as [_ Hlen]. pose proof (so_count _ Hsite).
  rewrite (proj2 (Nat.leb_le (length (submit_worker_roots cfg)) _)) by lia.
  rewrite (pr_submodules _ _ _ _ _ _ _ Hprep).
  assert (opt_b (fun l => (length l <=? MAX_JOB_COLLECTION_ITEMS)%nat) (nonempty spec.(sp_artifact_targets)) = true) as ->.
  { pose proof (pr_targets _ _ _ _ _ _ _ Hprep). by destruct spec.(sp_artifact_targets) as [[|]|]. }
  pose proof (pr_extras _ _ _ _ _ _ _ Hprep) as Hx. destruct spec.(sp_extras); [|done].
  cbn [opt_b] in Hx. apply andb_true_iff in Hx as [H1 H2]. cbn [default]. unfold default. cbn. by rewrite H1, H2.
Qed.

Lemma row_provenance : valid_provenance e = true.
Proof using Hok.
  unfold valid_provenance, e. cbn -[Z.leb in_set MAX_RETRY_LIMIT RETRY_ON_MODES].
  destruct (ac_retry_limit _ Hok) as [H1 H2], (ac_retry_count _ Hok) as [H3 H4].
  rewrite (proj2 (Z.leb_le _ _) H1), (proj2 (Z.leb_le _ _) H2), (proj2 (Z.leb_le _ _) H3), (proj2 (Z.leb_le _ _) H4).
  by rewrite (ac_retry_on _ Hok).
Qed.

Lemma row_limits : valid_limits e = true.
Proof using Hok Hprep.
  unfold valid_limits, e. cbn -[Z.leb Z.ltb Z.eqb fullmatch SHA256_RE ENV_HASH_RE q_nonneg q_ltb forallb].
  pose proof (ac_limits _ Hok) as Hl. pose proof (ac_hours _ Hok) as Hh.
  assert (forallb (opt_b (fullmatch SHA256_RE)) [Some staged; Some runtime; spec.(sp_artifact_manifest);
    spec.(sp_rerun_source_snapshot_sha256)] = true) as ->.
  { cbn [forallb opt_b]. by rewrite (pr_staged _ _ _ _ _ _ _ Hprep), (pr_runtime _ _ _ _ _ _ _ Hprep),
      (ac_manifest _ Hok), (ac_rerun _ Hok). }
  assert (forallb (opt_b (fullmatch ENV_HASH_RE)) [spec.(sp_env_hash_override); spec.(sp_cache_source_env_hash)] = true) as ->.
  { cbn [forallb]. by rewrite (ac_env_hash _ Hok), (ac_cache_hash _ Hok). }
  rewrite Hl. cbn [andb forallb opt_b].
  assert (opt_b (fun q => q_ltb 0 q) (match spec.(sp_max_hours) with Some (Fin q) => Some q | _ => None end) = true) as ->.
  { destruct spec.(sp_max_hours) as [h|]; [|done]. destruct Hh as (q & -> & Hq). cbn. by apply q_ltb_lt. }
  rewrite implb_l; [|intros Hs%bool_decide_eq_true%(ac_cards _ Hok); apply negb_true_iff, Z.eqb_neq; congruence].
  rewrite (opt_b_impl (Z.ltb 0) (Z.leb 0) _ ltac:(intros a; rewrite Z.ltb_lt, Z.leb_le; lia) (ac_disk _ Hok)). done.
Qed.

Lemma row_contracts : valid_contracts e = true.
Proof using Hok Hprep Hsite.
  unfold valid_contracts, e.
  cbn -[Nat.leb Z.leb in_set fullmatch _CONFIG_ID_RE submit_worker_roots submit_worker_root root_valid RESULT_STATES
    MAX_JOB_COLLECTION_ITEMS MAX_SETUP_INPUTS setup_input_ok pure_is_absolute pure_parts].
  destruct (ac_states _ Hok) as [Hnd Hall]. destruct (result_names_omap _ Hnd Hall) as [_ Hnd'].
  rewrite (NoDup_states _ Hnd'), (bool_decide_true (NoDup _)), (ac_isolation _ Hok) by done.
  rewrite (ac_cache_mode _ Hok), (pr_inputs _ _ _ _ _ _ _ Hprep), (worker_root_ok' cfg spec Hsite).
  rewrite (job_relpath_ok job_id_) by apply Hprep.
  assert (in_set ["sync"; "reuse"] spec.(sp_env_mode) = true) as -> by (apply bool_decide_eq_true, Hok).
  assert (in_set [LEGACY_LAYOUT; ROLE_LAYOUT] cfg.(c_layout) = true) as -> by (apply bool_decide_eq_true, Hsite).
  assert (forallb (fun p => root_valid p.2) (submit_worker_roots cfg) = true) as ->
    by (apply forallb_True_spec, worker_roots_ok, Hsite).
  assert (opt_b (fun l => (length l <=? MAX_JOB_COLLECTION_ITEMS)%nat && forallb (fullmatch _CONFIG_ID_RE) l)
    ((fun l => sort_strings (remove_dups l)) <$> nonempty spec.(sp_exclude_nodes)) = true) as ->.
  { pose proof (ac_exclude _ Hok) as H1. pose proof (pr_exclude _ _ _ _ _ _ _ Hprep) as H2.
    destruct spec.(sp_exclude_nodes) as [[|x l]|]; [done| |done]. cbn [opt_b] in H1, H2.
    destruct (sorted_set_facts (x :: l)) as [H3 H4]. cbn [nonempty fmap option_fmap option_map opt_b].
    apply andb_true_iff. split; [|by apply H4]. apply Nat.leb_le in H2. apply Nat.leb_le. lia. }
  done.
Qed.

Lemma accepted_row_wf : wf_entry e.
Proof using Hok Hprep Hsite Hnow.
  split.
  - apply row_lifecycle.
  - apply row_collections.
  - apply row_provenance.
  - apply row_limits.
  - apply row_contracts.
  - unfold valid_diagnostics, e. cbn -[bounded_text]. by rewrite (pr_why _ _ _ _ _ _ _ Hprep).
  - apply Hok.
  - intros _. unfold e. cbn -[sort_strings]. apply env_keys_sorted, Hok.
Qed.
End row.

Lemma floor_ok cfg spec : opt_b (Z.ltb 0)
  (let floor := Z.max cfg.(disk_min_gib) (default 0 spec.(sp_require_disk_gib)) in
   if 0 <? floor then Some floor else None) = true.
Proof. cbv zeta. by destruct (0 <? _) eqn:E. Qed.

Lemma prepare_accepted sha256_hexdigest cfg spec :
  accepted spec -> accepted (prepare_spec sha256_hexdigest cfg spec).
Proof. intros []. split; try done. apply floor_ok. Qed.


(** ** The dispatcher rebuilds the submission *)

(** The submission a queued row carries: absent and empty collections are the same, the excluded
    nodes are a sorted set, the project is the one displayed, and what staging froze replaces
    what the caller asked for. *)
Definition carried (spec : RunSpec) (runtime_sha256 staged : string) : RunSpec :=
  spec <| sp_project := Some (or_str spec.(sp_project) "?") |>
       <| sp_exclude_nodes := (fun l => sort_strings (remove_dups l)) <$> nonempty spec.(sp_exclude_nodes) |>
       <| sp_extras := nonempty spec.(sp_extras) |>
       <| sp_artifact_targets := nonempty spec.(sp_artifact_targets) |>
       <| sp_dispatch_token := None |>
       <| sp_cache_source_snapshot_sha256 := if truthy spec.(sp_cache_source_job) then Some staged else None |>
       <| sp_payload_sha256 := Some runtime_sha256 |>.

Lemma nonzero_positive v : opt_b (Z.ltb 0) v = true -> nonzero v = v.
Proof. by destruct v as [[]|]. Qed.

Lemma spec_ext (a b : RunSpec) : eta_RunSpec a = eta_RunSpec b -> a = b.
Proof. by destruct a, b. Qed.

Lemma accepted_carried cfg spec co job_id_ job_dir_ runtime staged submitted_at now why :
  accepted spec ->
  _queued_run_spec (stamp now (queued_entry cfg spec co job_id_ job_dir_ runtime staged submitted_at why))
    = Ok (carried spec runtime staged).
Proof.
  intros Hok. destruct (ac_states _ Hok) as [Hnd Hall]. destruct (result_names_omap _ Hnd Hall) as [Hst _].
  pose proof (ac_isolation _ Hok) as Hi. pose proof (ac_hours _ Hok) as Hh.
  pose proof (ac_mode _ Hok) as Hm. pose proof (ac_no_override _ Hok) as Ho.
  set (e := stamp now _). assert (e.(cmd) = shlex_join spec.(sp_cmd)) as Hc by reflexivity.
  unfold _queued_run_spec. rewrite Hc, shlex_roundtrip. cbn [mbind result_bind].
  f_equal. apply spec_ext. unfold eta_RunSpec. f_equal; cbn -[sort_strings]; rewrite ?Hst; try done.
  - by apply nonzero_positive, Hok.
  - destruct spec.(sp_max_hours); [|done]. by destruct Hh as (q & -> & _).
  - by destruct spec.(sp_extras) as [[]|].
  - assert (forall m, m ∈ ["sync"; "reuse"] -> or_str (Some m) "sync" = m) as E; [|by apply E].
    intros m [-> | ->%list_elem_of_singleton]%elem_of_cons; done.
  - case_bool_decide as E; [done|]. symmetry. apply Ho. congruence.
  - by destruct spec.(sp_artifact_targets) as [[]|].
Qed.

(** C18. The dispatcher rebuilds from the stored queued row exactly the submission that was accepted,
    as staging froze it: the command is quoted and split back word for word, and every
    requirement, dependency, retry and cache field survives. *)
Lemma queue_keeps_contract sha256_hexdigest cfg s spec co job_id_ job_dir_ runtime staged submitted_at now why :
  let submitted := prepare_spec sha256_hexdigest cfg spec in
  _validate_run_spec s = Ok spec -> NoDup s.(sp_custom_env).*1 ->
  _queued_run_spec (stamp now (queued_entry cfg submitted co job_id_ job_dir_ runtime staged submitted_at why))
    = Ok (carried submitted runtime staged).
Proof.
  intros submitted Hv Hnd. apply accepted_carried. by apply prepare_accepted, (validate_accepted s).
Qed.

(** ** Automatic retries end *)

(** [child] is the row of an automatic retry of [parent]: the loop of [_submit_retries] found the
    parent retryable, [submit_fork] accepted the derived spec against the stored row [current],
    and the child's row still carries the retry lineage it was submitted with. *)
Definition retried (parent child : JobEntry) : Prop :=
  retry_blocked_reason parent = None /\
  exists sha256_hexdigest cfg current co row derived_spec spec,
    retry_spec_from_entry parent = Ok derived_spec /\
    submit_fork_spec parent current derived_spec = Ok spec /\
    let submitted := _spec_entry_fields cfg (prepare_spec sha256_hexdigest cfg spec) co row in
    child.(retry_limit) = submitted.(retry_limit) /\ child.(retry_count) = submitted.(retry_count) /\
    child.(retry_on) = submitted.(retry_on) /\ child.(retry_of) = submitted.(retry_of).

Lemma fork_locked_lineage source spec spec' :
  fork_locked_spec source spec = Ok spec' ->
  spec'.(sp_retry_limit) = spec.(sp_retry_limit) /\ spec'.(sp_retry_count) = spec.(sp_retry_count).
Proof.
  unfold fork_locked_spec. intros H. apply bind_ok in H as ([] & _ & H).
  apply bind_ok in H as (mid & Hm & H). injection H as <-. cbn.
  destruct spec.(sp_cache_source_job); [ok_steps Hm|]; by injection Hm as <-.
Qed.

Lemma validate_lineage s s' :
  _validate_run_spec s = Ok s' ->
  s'.(sp_retry_limit) = s.(sp_retry_limit) /\ s'.(sp_retry_count) = s.(sp_retry_count) /\
  s.(sp_retry_limit) <= MAX_RETRY_LIMIT.
Proof.
  intros H. unfold _validate_run_spec in H. apply bind_ok in H as (s1 & H1 & H).
  assert (exists env, s1 = s <| sp_custom_env := env |>) as [env ->].
  { unfold check_command in H1. ok_steps H1. injection H1 as <-. by eexists. }
  apply bind_ok in H as ([] & _ & H). apply bind_ok in H as (s2 & H3 & H). apply check_artifacts_inv in H3 as (_ & C).
  apply bind_ok in H as ([] & H4 & H). apply check_lineage_inv in H4 as (D & _ & _).
  apply bind_ok in H as (s3 & H5 & H). apply check_dependencies_inv in H5 as (E & _ & _).
  apply bind_ok in H as ([] & _ & H). apply check_cache_inv in H as (mode & dir & path & -> & _).
  destruct E as [-> | [l ->]], C as [-> | [v ->]]; cbn in *; split_and!; try done; lia.
Qed.

Lemma retry_spec_lineage parent spec :
  retry_spec_from_entry parent = Ok spec ->
  spec.(sp_retry_limit) = parent.(retry_limit) /\ spec.(sp_retry_count) = parent.(retry_count) + 1.
Proof.
  unfold retry_spec_from_entry. cbv zeta. intros H. apply bind_ok in H as (fork & _ & H). by injection H as <-.
Qed.

Lemma retried_step parent child :
  retried parent child ->
  child.(retry_limit) = parent.(retry_limit) /\ child.(retry_count) = parent.(retry_count) + 1 /\
  parent.(retry_count) < parent.(retry_limit) <= MAX_RETRY_LIMIT.
Proof.
  intros (Hb & sha & cfg & current & co & row & derived_spec & spec & Hd & Hs & Hl & Hc & _ & _).
  apply retry_spec_lineage in Hd as [Hd1 Hd2]. unfold submit_fork_spec in Hs.
  apply bind_ok in Hs as (v & Hv & Hs). apply validate_lineage in Hv as (Hv1 & Hv2 & Hv3).
  destruct current as [source|]; [|done]. apply bind_raise_ok in Hs as [_ Hs].
  apply fork_locked_lineage in Hs as [Hs1 Hs2]. apply retry_allowed_iff in Hb as [Hb _].
  cbn in Hl, Hc, Hs1, Hs2. lia.
Qed.

(** C33. Automatic retries end: every attempt of a chain keeps the budget and raises the count by one,
    so a chain is never longer than the budget its first job has left, nor than ten attempts,
    and no infinite chain exists. *)
Lemma retry_chain_ends :
  (forall n first last, nsteps retried n first last ->
     last.(retry_limit) = first.(retry_limit) /\ last.(retry_count) = first.(retry_count) + Z.of_nat n /\
     (n = 0%nat \/ last.(retry_count) <= first.(retry_limit) <= MAX_RETRY_LIMIT)) /\
  well_founded (flip retried).
Proof.
  split.
  - induction 1 as [e | n first next last Hstep Hrest (IH1 & IH2 & IH3)]; [split_and!; [done|lia|by left]|].
    apply retried_step in Hstep as (H1 & H2 & H3). split_and!; [congruence|lia|right].
    destruct IH3 as [-> | IH3]; lia.
  - apply (well_founded_lt_compat _ (fun e => Z.to_nat (e.(retry_limit) - e.(retry_count)))).
    intros child parent H. apply retried_step in H as (H1 & H2 & H3). lia.
Qed.

(** ** Concrete instances *)
Definition sample_site : HeadConfig :=
  {| c_center := "hub"; c_nodes := [mkNode "gpu-a" false false 1 (Some "/data/dt"); mkNode "gpu-b" true false 0 None];
     disk_min_gib := 5; queue := {| max_my_jobs := None; reserve_free_per_node := 0 |};
     c_worker_root := "/home/u/dt"; c_layout := ROLE_LAYOUT |}.
Lemma sample_site_ok : site_ok sample_site.
Proof. split; [set_solver|vm_compute; reflexivity|repeat constructor|vm_compute; lia]. Qed.

Definition sample_request : RunSpec :=
  new_spec "my run!" 1 ["python"; "train.py"; "--note"; "it's 'fine'"; ""]
    <| sp_exclude_nodes := Some ["gpu-z"; "gpu-b"; "gpu-z"] |> <| sp_max_hours := Some (Fin (3 # 2)) |>
    <| sp_custom_env := [("SEED", "7"); ("LR", "0.1")] |> <| sp_retry_limit := 2 |>
    <| sp_retry_on := Some "always" |> <| sp_extras := Some [] |>
    <| sp_artifact_manifest := Some (zero_sha []) |>
    <| sp_artifact_targets := Some [("data/b", "shared/b"); ("data/a", "shared/a")] |>.
Definition sample_accepted : RunSpec :=
  match _validate_run_spec sample_request with Ok spec => spec | Err _ => sample_request end.
Definition sample_checkout : Checkout := mkCheckout (Some "0123abc") true None.
Definition sample_id : string := "20260101-0000_my-run_0123456789abcdef".
Definition sample_submitted : RunSpec := prepare_spec zero_sha sample_site sample_accepted.

Lemma sample_validated : _validate_run_spec sample_request = Ok sample_accepted.
Proof. vm_compute. reflexivity. Qed.
Lemma sample_keys : NoDup sample_request.(sp_custom_env).*1.
Proof. by apply (bool_decide_unpack _). Qed.
Lemma sample_prepared :
  prepared sample_submitted sample_checkout sample_id (zero_sha []) (zero_sha []) 100 (Some "queued").
Proof. split; try (vm_compute; reflexivity). by apply Qle_bool_iff. Qed.


Definition sample_row : JobEntry :=
  stamp 200 (queued_entry sample_site sample_submitted sample_checkout sample_id "/data/dt/x"
    (zero_sha []) (zero_sha []) 100 (Some "queued")).
Lemma queue_keeps_contract_witness :
  _queued_run_spec sample_row = Ok (carried sample_submitted (zero_sha []) (zero_sha [])) /\
  (carried sample_submitted (zero_sha []) (zero_sha [])).(sp_cmd) = sample_request.(sp_cmd).
Proof.
  split; [|vm_compute; reflexivity].
  apply (queue_keeps_contract zero_sha sample_site sample_request sample_accepted);
    [exact sample_validated | exact sample_keys].
Defined.

(** A failed first attempt and the row of its retry. *)
Definition failed_attempt : JobEntry :=
  sample_row <| status := Failed |> <| result_state := Some InfraFailure |> <| node := "gpu-a" |>
    <| finished_at := Some 300%Q |>.
Definition retry_request : RunSpec :=
  match (spec ← retry_spec_from_entry failed_attempt; submit_fork_spec failed_attempt (Some failed_attempt) spec) with
  | Ok spec => spec
  | Err _ => sample_request
  end.
Definition second_attempt : JobEntry :=
  _spec_entry_fields sample_site (prepare_spec zero_sha sample_site retry_request) sample_checkout sample_row.
Lemma first_retry : retried failed_attempt second_attempt.
Proof.
  split; [vm_compute; reflexivity|].
  destruct (retry_spec_from_entry failed_attempt) as [d|] eqn:Hd; [|by vm_compute in Hd].
  exists zero_sha, sample_site, (Some failed_attempt), sample_checkout, sample_row, d, retry_request.
  split; [done|]. split; [|cbv zeta; split_and!; vm_compute; reflexivity].
  vm_compute in Hd. injection Hd as <-. vm_compute. reflexivity.
Qed.

Lemma retry_chain_ends_witness :
  nsteps retried 1 failed_attempt second_attempt /\ second_attempt.(retry_count) = 1 /\
  (forall third, ~ nsteps retried 3 failed_attempt third).
Proof.
  destruct retry_chain_ends as [H _].
  assert (nsteps retried 1 failed_attempt second_attempt) as Hone by (apply nsteps_once, first_retry).
  destruct (H _ _ _ Hone) as (_ & Hc & _). split; [exact Hone|]. split; [exact Hc|].
  intros third Hn. destruct (H _ _ _ Hn) as (_ & Hc3 & [[=] | [Hle _]]).
  assert (failed_attempt.(retry_count) = 0 /\ failed_attempt.(retry_limit) = 2) as [E1 E2] by (split; reflexivity).
  rewrite E1 in Hc3. rewrite E2 in Hle. lia.
Defined.

(** ** The retry of a rebuilt index *)
Definition failed_store : registry := (save sample_size true 400 true failed_attempt sample_registry).2.
(** The environment of the retry derived from a row, and of the retry's accepted submission. *)
Definition retry_environment (row : JobEntry) (current : option JobEntry) : result environment :=
  spec ← retry_spec_from_entry row;
  spec ← submit_fork_spec row current spec;
  Ok spec.(sp_custom_env).
Definition loaded (r : registry) (id : string) : option JobEntry :=
  match (load 400 id r).1 with Ok found => found | Err _ => None end.
Definition scanned (r : registry) : list JobEntry :=
  match (active_entries sample_size true 400 true r).1 with Ok (rows, _) => rows | Err _ => [] end.

(** The stored failed attempt carries its environment, and a retry derived from that row keeps
    it.  When the active index is rebuilt the tick gets the row of a scan, which drops private
    values: the retry is accepted and runs without the environment. *)
Lemma retry_after_rebuild_loses_environment :
  let stored := loaded failed_store sample_id in
  (row ← stored; Some row.(custom_env)) = Some [("LR", "0.1"); ("SEED", "7")] /\
  (row ← stored; Some (retry_environment row stored)) = Some (Ok [("LR", "0.1"); ("SEED", "7")]) /\
  (fun row => retry_environment row stored) <$> scanned failed_store = [Ok []].
Proof. vm_compute. split_and!; reflexivity. Qed.
