(* ===== verification/Recovery.v ===== *)
(** * Recovery and cancellation of a launch ([dispatch/launch.py], [dispatch/queued.py])

    When a dispatcher dies, or the connection drops, a launch may or may not
    have happened on its node.  Two read-only probes and one cancelling probe
    decide: the request proof compares the launch marker with the bound token,
    the recovery census says what runs in the job's capsule, and the
    termination probe plants the cancellation sentinel and signals survivors.

    The node is a state machine [W]; [run_on] sends it one of four commands.
    Python builds each command's text; what a node does with it is outside the
    model, the guards that refuse to build it are not. *)

From S2P Require Import Prelude Text PyValue Numerals Diagnostics Layout JobEntry RegistryCodec CodecCanonical Lifecycle Registry Config StatusProbe Probe RunSpec Placement Termination Claim Intent.

Definition REQUEST_REMOTE_PROOF_MARK : string := "@@DT_REQUEST_REMOTE_PROOF_V1@@".
Definition LAUNCH_RECOVERY_MARK : string := "@@DT_LAUNCH_RECOVERY_V1@@".
Definition STALE_LAUNCH_IDENTITY_S : Z := 21600.
Definition UNKNOWN : string := "UNKNOWN".

(** ** The recovery protocol *)
Record _RecoveredLaunch := mkRecovered {
  rl_state : string;
  rl_boot_id : option string;
  rl_pgid : option Z;
  rl_gpus : list Z;
  rl_started_at : option Q;
  rl_finished_at : option Q;
  rl_exit_code : option Z;
  rl_result_state : option result_state_t;
  rl_env_hash : option string;
}.

Definition recovery_error (label : string) : exn :=
  DispatchError ("queued launch recovery returned " +:+ label).
(** [re.fullmatch(r"[0-9]+", s)]. *)
Definition digits_text (s : string) : bool := negb (bool_decide (s = "")) && forallb is_digit (chars s).

Definition recovery_integer (value : string) (required : bool) (label : string) : result (option Z) :=
  if bool_decide (value = UNKNOWN) && negb required then Ok None
  else
    raise_if (negb (digits_text value)) (recovery_error ("an invalid " +:+ label)) ;;
    parsed ← py_int value;
    raise_if (parsed <=? 0) (recovery_error ("an invalid " +:+ label)) ;;
    Ok (Some parsed).

Definition recovery_timestamp (value label : string) : result (option Q) :=
  match py_float_text value with
  | Ok (Fin parsed) =>
      raise_if (negb (q_ltb 0 parsed)) (recovery_error ("an invalid " +:+ label)) ;; Ok (Some parsed)
  | Ok _ => Err (recovery_error ("an invalid " +:+ label))
  | Err e => Err (if is_value_error e then recovery_error ("an invalid " +:+ label) else e)
  end.

Definition gpu_list (value : string) : result (list Z) :=
  if bool_decide (value ∈ [""; UNKNOWN]) then Ok []
  else
    raise_if (negb (forallb digits_text (split_on COMMA value))) (recovery_error "invalid GPUs") ;;
    values ← mapM py_int (split_on COMMA value);
    raise_if ((1024 <? Z.of_nat (length values)) || negb (bool_decide (NoDup values)))
      (recovery_error "invalid GPUs") ;;
    Ok values.

Definition recovery_environment (value : string) : result (option string) :=
  if bool_decide (value ∈ [""; UNKNOWN]) then Ok None
  else
    raise_if (negb (fullmatch ENV_HASH_RE value)) (recovery_error "an invalid environment identity") ;;
    Ok (Some value).

Definition recovery_field (fields : list string) (index : nat) : string := default UNKNOWN (fields !! index).

Definition parse_running (boot : option string) (fields : list string) : result _RecoveredLaunch :=
  let field := recovery_field fields in
  pgid_ ← recovery_integer (field 0%nat) true "process group";
  gpus_ ← gpu_list (field 1%nat);
  started ← recovery_timestamp (field 2%nat) "start time";
  env ← recovery_environment (field 3%nat);
  Ok (mkRecovered "RUNNING" boot pgid_ gpus_ started None None None env).

Definition parse_finished (boot : option string) (fields : list string) : result _RecoveredLaunch :=
  let field := recovery_field fields in
  raise_if (negb (fullmatch [Rep is_digit 1 3] (field 0%nat))) (recovery_error "an invalid exit code") ;;
  code_ ← py_int (field 0%nat);
  raise_if (255 <? code_) (recovery_error "an invalid exit code") ;;
  let result_ := match result_of_name (field 5%nat) with
                 | Some r => r
                 | None => if code_ =? 0 then Success else ExecutionFailure
                 end in
  pgid_ ← recovery_integer (field 1%nat) false "process group";
  gpus_ ← gpu_list (field 2%nat);
  started ← recovery_timestamp (field 3%nat) "start time";
  finished ← recovery_timestamp (field 4%nat) "finish time";
  env ← recovery_environment (field 6%nat);
  Ok (mkRecovered "FINISHED" boot pgid_ gpus_ started finished (Some code_) (Some result_) env).

(** [lines.index(mark)], and the last such index, counted from [i]. *)
Definition first_index (mark : string) (lines : list string) : option nat :=
  fst <$> list_find (fun line => line = mark) lines.
Fixpoint last_index (mark : string) (i : nat) (lines : list string) : option nat :=
  match lines with
  | [] => None
  | line :: rest => match last_index mark (S i) rest with
                    | Some j => Some j
                    | None => if bool_decide (line = mark) then Some i else None
                    end
  end.

Definition _parse_launch_recovery (py_repr : string -> string) (stdout : string) : result _RecoveredLaunch :=
  let lines := splitlines stdout in
  match first_index LAUNCH_RECOVERY_MARK lines with
  | None => Err (recovery_error "no protocol marker")
  | Some marker =>
      let boot_id_ := match marker with O => UNKNOWN | S before => default UNKNOWN (lines !! before) end in
      let state := default "" (lines !! S marker) in
      let fields := drop (S (S marker)) lines in
      boot ← if bool_decide (boot_id_ = UNKNOWN) then Ok None
             else if fullmatch _BOOT_ID_RE boot_id_ then Ok (Some boot_id_)
             else Err (recovery_error "an invalid boot identity");
      if bool_decide (state ∈ ["NONE"; "UNPROVEN"])
      then Ok (mkRecovered state boot None [] None None None None None)
      else if bool_decide (state = "RUNNING") then parse_running boot fields
      else if bool_decide (state = "FINISHED") then parse_finished boot fields
      else Err (recovery_error ("unknown state " +:+ py_repr state))
  end.

Definition _parse_request_remote_proof (py_repr : string -> string) (stdout : string) : result (string * _RecoveredLaunch) :=
  let lines := splitlines stdout in
  let missing := Err (DispatchError "remote launch proof returned no protocol marker") in
  match last_index REQUEST_REMOTE_PROOF_MARK 0 lines with
  | None => missing
  | Some proof_index =>
  match lines !! S proof_index with
  | None => missing
  | Some marker_state =>
  match last_index LAUNCH_RECOVERY_MARK (S proof_index) (drop (S proof_index) lines) with
  | None => missing
  | Some recovery_index =>
      raise_if (negb (bool_decide (marker_state ∈ ["ABSENT"; "MATCH"; "INVALID"])) || (recovery_index =? 0)%nat)
        (DispatchError "remote launch proof returned an invalid marker state") ;;
      recovered ← _parse_launch_recovery py_repr (join (String LF "") (drop (recovery_index - 1) lines));
      Ok (marker_state, recovered)
  end end end.

(** ** Commands and replies *)
Inductive remote_command :=
  | RequestProof (job_dir session : string) (layout : option string) (expected_identity : string)
  | RecoveryCensus (job_dir session : string) (layout : option string)
  | Terminate (job_dir : string) (pgid : option Z) (boot_id session cancel_token layout : option string)
  | RetireMarker (job_dir : string) (layout : option string) (min_age : Z).

(** The command raised [RemoteError], [TimeoutExpired] or [OSError] of the
    given type name, or completed. *)
Inductive remote_reply :=
  | Unreached (type_name message : string)
  | Replied (returncode : Z) (stdout stderr : string).
(** [" ".join(str(exc).split()) or type(exc).__name__]. *)
Definition exc_detail (type_name message : string) : string :=
  let text := normalize_ws message in if bool_decide (text = "") then type_name else text.

Section remote.
Context (sha256_hexdigest : list Ascii.ascii -> string) (py_repr : string -> string).
Context {W : Type} (run_on : string -> bool -> remote_command -> W -> remote_reply * W).

(** What [termination_probe] and [launch_recovery_probe] check before they
    build a command. *)
Definition termination_guard (job_dir_ : string) (job_id_ session_ cancel_token : option string) : result unit :=
  raise_if (match cancel_token with Some t => negb (fullmatch TOKEN_RE t) | None => false end)
    (ValueError "cancel token is unsafe") ;;
  validate_job_capsule job_dir_ job_id_ ;;
  match session_ with
  | Some session => runtime_identity sha256_hexdigest session ;; Ok tt
  | None => Ok tt
  end.
Definition recovery_guard (job_dir_ session_ : string) : result unit :=
  validate_job_capsule job_dir_ None ;; runtime_identity sha256_hexdigest session_ ;; Ok tt.

(** ** Cancelling *)
Definition ORPHAN_COMPLETED : string := "launch already ran to completion on the node".

(** [None] only when the node confirmed that nothing survived. *)
Definition cancel_verdict (completed unproven : string) (v : verdict) : option string :=
  match v with
  | Dead => None
  | Alive => Some "processes survived TERM"
  | Exited _ => Some completed
  | Unverified detail => Some (or_str (Some detail) unproven)
  end.
Definition cancel_with (completed unproven : string) (guard : result unit) (n : string) (local : bool)
    (command : remote_command) (w : W) : option string * W :=
  match guard with
  | Err e => (Some (exn_message e), w)
  | Ok _ =>
      match run_on n local command w with
      | (Unreached type_name message, w) => (Some (exc_detail type_name message), w)
      | (Replied returncode stdout stderr, w) =>
          (cancel_verdict completed unproven
             (termination_verdict py_repr returncode (Some stdout) (Some stderr)), w)
      end
  end.

Definition _cancel_orphan (n : Node) (job_dir_ session_ : string) (layout dispatch_token_ : option string)
  : W -> option string * W :=
  cancel_with ORPHAN_COMPLETED "orphan cancellation could not be verified"
    (termination_guard job_dir_ None (Some session_) dispatch_token_) n.(n_name) n.(n_local)
    (Terminate job_dir_ None None (Some session_) dispatch_token_ layout).

Definition _cancel_placed_launch (entry : JobEntry) : W -> option string * W :=
  cancel_with "job already ran to completion before cancellation" "cancellation could not be verified"
    (termination_guard entry.(job_dir) (Some entry.(job_id)) (Some entry.(session)) None)
    entry.(node) entry.(node_local)
    (Terminate entry.(job_dir) entry.(pgid) entry.(boot_id) (Some entry.(session)) None entry.(storage_layout)).

(** ** Retiring a stale launch identity *)
Definition retirement_verdict (returncode : Z) (stdout : string) : option string :=
  let last_line := default "" (last (splitlines (strip stdout))) in
  if starts_with "RETIRED " last_line then None
  else Some (or_str (Some (strip (removeprefix "KEEP " last_line)))
               ("marker probe exited " +:+ pretty returncode)).

Definition _retire_stale_launch_identity (n : Node) (node_job_dir session_ : string) (layout : option string)
    (w : W) : result (option string) * W :=
  match recovery_guard node_job_dir session_ with
  | Err e => (Err e, w)
  | Ok _ =>
  match run_on n.(n_name) n.(n_local) (RecoveryCensus node_job_dir session_ layout) w with
  | (Unreached _ message, w) =>
      (Ok (Some ("recovery probe failed: " +:+ str_take 200 (normalize_ws message))), w)
  | (Replied returncode stdout _, w) =>
      if negb (returncode =? 0) then (Ok (Some ("recovery probe exited " +:+ pretty returncode)), w)
      else
        match _parse_launch_recovery py_repr stdout with
        | Err (DispatchError message) => (Ok (Some message), w)
        | Err e => (Err e, w)
        | Ok recovered =>
            if negb (bool_decide (recovered.(rl_state) = "NONE"))
            then (Ok (Some ("capsule has runtime state (" +:+ recovered.(rl_state) +:+ ")")), w)
            else
              match run_on n.(n_name) n.(n_local) (RetireMarker node_job_dir layout STALE_LAUNCH_IDENTITY_S) w with
              | (Unreached _ message, w) =>
                  (Ok (Some ("marker probe failed: " +:+ str_take 200 (normalize_ws message))), w)
              | (Replied returncode stdout _, w) => (Ok (retirement_verdict returncode stdout), w)
              end
        end
  end end.

(** ** Probing and adopting an interrupted launch *)
Definition probe_failed (detail : string) : exn := DispatchError ("queued launch recovery probe failed: " +:+ detail).

(** The identity a marker must carry, and the guards of the command. *)
Definition expected_identity (entry : JobEntry) (node_job_dir : string) : result string :=
  match entry.(dispatch_token) with
  | None => Err (DispatchError "queued launch recovery has no bound attempt identity")
  | Some token =>
      raise_if (existsb (fun c => (128 <=? code c)%N) (chars token))
        (probe_failed "'ascii' codec can't encode character") ;;
      let identity := sha256_hexdigest (chars token) in
      raise_if (negb (fullmatch SHA256_RE identity)) (probe_failed "remote launch identity is invalid") ;;
      match recovery_guard node_job_dir entry.(session) with
      | Ok _ => Ok identity
      | Err e => Err (probe_failed (str_take 512 (exc_detail (exn_name e) (exn_message e))))
      end
  end.

(** What the reply to a request proof says about the attempt. *)
Definition judge_proof (stdout : string) : result _RecoveredLaunch :=
  found ← _parse_request_remote_proof py_repr stdout;
  let '(marker_state, recovered) := found in
  if bool_decide (marker_state = "ABSENT") && bool_decide (recovered.(rl_state) = "NONE") then Ok recovered
  else
    raise_if (negb (bool_decide (marker_state = "MATCH")))
      (DispatchError "queued launch recovery marker is missing, unsafe, or mismatched") ;;
    if bool_decide (recovered.(rl_state) = "NONE") then Ok recovered
    else
      raise_if (negb (bool_decide (recovered.(rl_state) ∈ ["RUNNING"; "FINISHED"; "UNPROVEN"])))
        (DispatchError "queued launch crossed the remote boundary but runtime state is unproven") ;;
      Ok recovered.

Definition _probe_interrupted_queued_launch (entry : JobEntry) (n : Node) (node_job_dir : string) (w : W)
  : result _RecoveredLaunch * W :=
  match expected_identity entry node_job_dir with
  | Err e => (Err e, w)
  | Ok identity =>
      match run_on n.(n_name) n.(n_local)
              (RequestProof node_job_dir entry.(session) entry.(storage_layout) identity) w with
      | (Unreached type_name message, w) =>
          (Err (probe_failed (or_str (Some (str_take 512 (normalize_ws message))) type_name)), w)
      | (Replied returncode stdout stderr, w) =>
          if negb (returncode =? 0) then
            (Err (probe_failed (default "" (ok_option (diagnostic_excerpt [Some stderr; Some stdout]
                    ("exit " +:+ pretty returncode) MAX_DIAGNOSTIC_CHARS)))), w)
          else (judge_proof stdout, w)
      end
  end.

(** The row of an adopted launch. *)
Definition adopted_row (cfg : HeadConfig) (entry : JobEntry) (n : Node) (node_job_dir : string) (now : Q)
    (recovered : _RecoveredLaunch) : JobEntry :=
  let finished := bool_decide (recovered.(rl_state) = "FINISHED") in
  entry <| node := n.(n_name) |> <| node_local := n.(n_local) |> <| job_dir := node_job_dir |>
        <| gpus := recovered.(rl_gpus) |> <| pgid := recovered.(rl_pgid) |>
        <| status := if finished then Finished else Running |>
        <| exit_code := if finished then recovered.(rl_exit_code) else None |> <| reason := None |>
        <| dispatch_node := None |> <| dispatch_token := None |> <| dispatch_owner := None |>
        <| dispatch_claimed_at := None |>
        <| env_hash := match recovered.(rl_env_hash) with
                       | Some (String _ _ as h) => Some h
                       | _ => entry.(env_hash)
                       end |>
        <| boot_id := recovered.(rl_boot_id) |> <| started_at := recovered.(rl_started_at) |>
        <| finished_at := if finished then recovered.(rl_finished_at) else None |>
        <| result_state := if finished then recovered.(rl_result_state) else None |>
        <| worker_root := Some (worker_root_for cfg n) |> <| job_relpath := Some ("jobs/" +:+ entry.(job_id)) |>
        <| recovered_at := Some now |>.

(** What a stable recovery becomes: a row, or the reason to leave it alone. *)
Definition adopt (cfg : HeadConfig) (entry : JobEntry) (n : Node) (node_job_dir : string) (now : Q)
    (recovered : _RecoveredLaunch) : option JobEntry * option string :=
  if bool_decide (recovered.(rl_state) = "UNPROVEN")
  then (None, Some "remote launch has state but its ownership is unproven")
  else if negb (bool_decide (recovered.(rl_state) ∈ ["RUNNING"; "FINISHED"]))
  then (None, Some "remote launch recovery did not reach a stable state")
  else if negb (Z.of_nat (length recovered.(rl_gpus)) =? entry.(gpus_requested))
  then (None, Some ("remote launch GPU assignment does not match the queued request: expected "
                    +:+ pretty entry.(gpus_requested) +:+ ", observed "
                    +:+ pretty (Z.of_nat (length recovered.(rl_gpus)))))
  else (Some (adopted_row cfg entry n node_job_dir now recovered), None).

(** [(None, None)] is the only result after which the job may be placed again. *)
Definition _adopt_interrupted_queued_launch (cfg : HeadConfig) (entry : JobEntry) (n : Node)
    (node_job_dir : string) (now : Q) (w : W) : result (option JobEntry * option string) * W :=
  let unproven m := match m with
                    | Err (DispatchError message) => Ok (None, Some message)
                    | Err e => Err e
                    | Ok recovered => Ok (adopt cfg entry n node_job_dir now recovered)
                    end in
  match _probe_interrupted_queued_launch entry n node_job_dir w with
  | (Ok recovered, w) =>
      if bool_decide (recovered.(rl_state) = "NONE") then
        match _cancel_orphan n node_job_dir entry.(session) entry.(storage_layout) entry.(dispatch_token) w with
        | (None, w) => (Ok (None, None), w)
        | (Some cancel_error, w) =>
            if bool_decide (cancel_error = ORPHAN_COMPLETED)
            then let '(again, w) := _probe_interrupted_queued_launch entry n node_job_dir w in (unproven again, w)
            else (Ok (None, Some cancel_error), w)
        end
      else (Ok (adopt cfg entry n node_job_dir now recovered), w)
  | (failed, w) => (unproven failed, w)
  end.

(** ** The proof a submission receipt asks for *)
Definition proof_of_recovery (stdout : string) : result string :=
  match _parse_request_remote_proof py_repr stdout with
  | Err (DispatchError _) => Ok "invalid"
  | Err e => Err e
  | Ok (marker_state, recovered) =>
      Ok (if bool_decide (marker_state = "ABSENT") && bool_decide (recovered.(rl_state) = "NONE") then "absent"
          else if negb (bool_decide (marker_state = "MATCH")) then "invalid"
          else if bool_decide (recovered.(rl_state) = "RUNNING") then "running"
          else if bool_decide (recovered.(rl_state) = "FINISHED") then "finished"
          else "invalid")
  end.

(** The locator of the record must be exactly the capsule this head would use. *)
Definition locator_matches (cfg : HeadConfig) (n : Node) (record : RequestRecord) (job_dir_ : string) : bool :=
  is_ok (validate_job_capsule job_dir_ (Some record.(rq_job_id)))
  && match worker_job_dir cfg n record.(rq_job_id) with
     | Ok expected => bool_decide (job_dir_ = expected)
     | Err _ => false
     end.

Definition inspect_request_remote_proof (cfg : HeadConfig) (record : RequestRecord) (w : W)
  : result RemoteLaunchProof * W :=
  match record.(proof_node), record.(proof_job_dir), record.(launch_identity_sha256) with
  | Some proof_node_, Some job_dir_, Some identity =>
      if negb (bool_decide (record.(proof_requirement) = "remote_launch_marker"))
      then (Err (RequestRecordError "submission request has no exact remote proof locator"), w)
      else
        let proof outcome := mkProof outcome proof_node_ job_dir_ identity in
        match List.find (fun candidate => bool_decide (candidate.(n_name) = proof_node_)) cfg.(c_nodes) with
        | None => (Ok (proof "unavailable"), w)
        | Some n =>
            if negb (locator_matches cfg n record job_dir_) then (Ok (proof "invalid"), w)
            else if negb (fullmatch SHA256_RE identity
                          && is_ok (recovery_guard job_dir_ ("dt_" +:+ record.(rq_job_id))))
            then (Ok (proof "unavailable"), w)
            else
              match run_on n.(n_name) n.(n_local)
                      (RequestProof job_dir_ ("dt_" +:+ record.(rq_job_id)) (Some cfg.(c_layout)) identity) w with
              | (Unreached _ _, w) => (Ok (proof "unavailable"), w)
              | (Replied returncode stdout _, w) =>
                  if negb (returncode =? 0)
                  then (Ok (proof (if returncode =? 255 then "unavailable" else "invalid")), w)
                  else (proof <$> proof_of_recovery stdout, w)
              end
        end
  | _, _, _ => (Err (RequestRecordError "submission request has no exact remote proof locator"), w)
  end.
End remote.
