(* ===== verification/RecoverySpec.v ===== *)
(** * What a recovery proves ([dispatch/launch.py])

    The node is known through an interface, [RemoteContract]: running a command
    never starts the job, and a termination probe that prints its final [DEAD]
    line has left nothing in the capsule it was given.  Against it the
    dispatcher places a claimed job again only after the capsule of the old
    attempt is proven empty, and an adopted row names that capsule. *)

From S2P Require Import Prelude Text PyValue Numerals Diagnostics Layout JobEntry RegistryCodec CodecCanonical Lifecycle Registry Config StatusProbe Probe RunSpec Placement Termination Claim Intent Recovery.

(** A capsule: the node's name and the job's directory there. *)
Definition capsule : Type := string * string.

(** [alive]: the capsules that may run the job; [quiet]: what a step that
    starts nothing may change. *)
Class RemoteContract {W : Type} (alive : W -> gset capsule) (quiet : W -> W -> Prop) (py_repr : string -> string)
    (run_on : string -> bool -> remote_command -> W -> remote_reply * W) : Prop := {
  rm_preorder :: PreOrder quiet;
  rm_alive w w' : quiet w w' -> alive w' ⊆ alive w;
  rm_step n local c w reply w' : run_on n local c w = (reply, w') -> quiet w w';
  rm_dead n local d pg b se tok lay w rc out err w' :
    run_on n local (Terminate d pg b se tok lay) w = (Replied rc out err, w') ->
    termination_verdict py_repr rc (Some out) (Some err) = Dead -> alive w' ⊆ alive w ∖ {[ (n, d) ]};
}.

Lemma cancel_verdict_none completed unproven v : cancel_verdict completed unproven v = None -> v = Dead.
Proof. by destruct v. Qed.

(** What an adopted row says. *)
Record adopted (entry : JobEntry) (n : Node) (d : string) (row : JobEntry) : Prop := {
  ad_id : row.(job_id) = entry.(job_id);
  ad_capsule : (row.(node), row.(job_dir)) = (n.(n_name), d);
  ad_status : row.(status) ∈ [Running; Finished];
  ad_gpus : Z.of_nat (length row.(gpus)) = entry.(gpus_requested);
  ad_claim : attempt_of row = (None, None);
  ad_unique : unique_keys entry -> unique_keys row;
}.
Lemma adopt_row cfg entry n d now recovered row why :
  adopt cfg entry n d now recovered = (Some row, why) -> adopted entry n d row.
Proof.
  unfold adopt. case_bool_decide; [done|]. destruct (negb _); [done|].
  destruct (Z.of_nat (length recovered.(rl_gpus)) =? entry.(gpus_requested)) eqn:E; [|done]. cbn [negb].
  apply Z.eqb_eq in E. intros [= <- <-]. split; try done.
  - cbn. case_bool_decide; set_solver.
  - by intros [].
Qed.
Lemma adopt_not_absent cfg entry n d now recovered : adopt cfg entry n d now recovered <> (None, None).
Proof. unfold adopt. repeat case_match; congruence. Qed.

Section recovery.
Context (sha256_hexdigest : list Ascii.ascii -> string) (py_repr : string -> string).
Context {W : Type} (run_on : string -> bool -> remote_command -> W -> remote_reply * W)
  (alive : W -> gset capsule) (quiet : W -> W -> Prop) `{remote : !RemoteContract alive quiet py_repr run_on}.

Lemma cancel_with_sound completed unproven guard n local d pg b se tok lay w res w' :
  cancel_with py_repr run_on completed unproven guard n local (Terminate d pg b se tok lay) w = (res, w') ->
  quiet w w' /\ (res = None -> alive w' ⊆ alive w ∖ {[ (n, d) ]}).
Proof using remote.
  unfold cancel_with. destruct guard; [|by intros [= <- <-]; split].
  destruct (run_on n local _ w) as [[type_name message|rc out err] w1] eqn:E; intros [= <- <-];
    (split; [by eapply rm_step|]); [done|]. intros H%cancel_verdict_none. by eapply rm_dead.
Qed.

Lemma cancel_orphan_sound n d se lay tok w res w' :
  _cancel_orphan sha256_hexdigest py_repr run_on n d se lay tok w = (res, w') ->
  quiet w w' /\ (res = None -> alive w' ⊆ alive w ∖ {[ (n.(n_name), d) ]}).
Proof using remote. apply cancel_with_sound. Qed.
Lemma cancel_placed_sound placed w res w' :
  _cancel_placed_launch sha256_hexdigest py_repr run_on placed w = (res, w') ->
  quiet w w' /\ (res = None -> alive w' ⊆ alive w ∖ {[ (placed.(node), placed.(job_dir)) ]}).
Proof using remote. apply cancel_with_sound. Qed.

Lemma retire_quiet n d se lay w res w' :
  _retire_stale_launch_identity sha256_hexdigest py_repr run_on n d se lay w = (res, w') -> quiet w w'.
Proof using remote.
  unfold _retire_stale_launch_identity. destruct (recovery_guard _ d se); [|by intros [= <- <-]].
  destruct (run_on _ _ _ w) as [[type_name message|rc out err] w1] eqn:E; pose proof (rm_step _ _ _ _ _ _ E) as H1;
    [by intros [= <- <-]|]. destruct (negb (rc =? 0)); [by intros [= <- <-]|].
  destruct (_parse_launch_recovery py_repr out) as [rl|[]]; [|by intros [= <- <-]..].
  destruct (negb _); [by intros [= <- <-]|].
  destruct (run_on _ _ _ w1) as [[type_name message|rc2 out2 err2] w2] eqn:E2; pose proof (rm_step _ _ _ _ _ _ E2) as H2;
    intros [= <- <-]; by etrans.
Qed.

Lemma probe_quiet entry n d w res w' :
  _probe_interrupted_queued_launch sha256_hexdigest py_repr run_on entry n d w = (res, w') -> quiet w w'.
Proof using remote.
  unfold _probe_interrupted_queued_launch. destruct (expected_identity _ _ _); [|by intros [= <- <-]].
  destruct (run_on _ _ _ w) as [[type_name message|rc out err] w1] eqn:E; pose proof (rm_step _ _ _ _ _ _ E) as H1;
    [by intros [= <- <-]|]. by destruct (negb (rc =? 0)); intros [= <- <-].
Qed.

(** What the recovery of a claim may conclude, and what it has done. *)
Definition recovery_post (cfg : HeadConfig) (entry : JobEntry) (n : Node) (d : string) (w : W)
    (res : result (option JobEntry * option string)) (w' : W) : Prop :=
  quiet w w' /\
  match res with
  | Ok (None, None) => alive w' ⊆ alive w ∖ {[ (n.(n_name), d) ]}
  | Ok (Some row, _) => adopted entry n d row
  | _ => True
  end.

Lemma adopted_post cfg entry n d now recovered w w' :
  quiet w w' -> recovery_post cfg entry n d w (Ok (adopt cfg entry n d now recovered)) w'.
Proof.
  intros Hq. split; [done|]. destruct (adopt _ _ _ _ _ _) as [[row|] why] eqn:E; [by eapply adopt_row|].
  destruct why; [done|]. by apply adopt_not_absent in E.
Qed.

(** C5. A claimed job is placed again only after the capsule of the old attempt
    was proven empty by the node; a row that is adopted names exactly that
    capsule, runs or has finished there with as many cards as the job asked
    for, and carries no claim; nothing is ever started. *)
Lemma recovery_proves_absence cfg entry n d now w res w' :
  _adopt_interrupted_queued_launch sha256_hexdigest py_repr run_on cfg entry n d now w = (res, w') ->
  recovery_post cfg entry n d w res w'.
Proof using remote.
  unfold _adopt_interrupted_queued_launch.
  assert (forall m w', quiet w w' -> recovery_post cfg entry n d w
    (match m with
     | Err (DispatchError message) => Ok (None, Some message)
     | Err e => Err e
     | Ok recovered => Ok (adopt cfg entry n d now recovered)
     end) w') as Hun.
  { intros m w1 Hq. destruct m as [r|[]]; try (by split). by apply adopted_post. }
  destruct (_probe_interrupted_queued_launch _ _ _ entry n d w) as [[r|e] w1] eqn:E; pose proof (probe_quiet _ _ _ _ _ _ E) as Hq;
    [|intros [= <- <-]; exact (Hun (Err e) w1 Hq)].
  case_bool_decide; [|intros [= <- <-]; by apply adopted_post].
  destruct (_cancel_orphan _ _ _ n d _ _ _ w1) as [[error|] w2] eqn:Ec;
    pose proof (cancel_orphan_sound _ _ _ _ _ _ _ _ Ec) as [Hq2 Hdead].
  - assert (quiet w w2) by (by etrans). case_bool_decide; [|intros [= <- <-]; by split].
    destruct (_probe_interrupted_queued_launch _ _ _ entry n d w2) as [again w3] eqn:E3.
    pose proof (probe_quiet _ _ _ _ _ _ E3). intros [= <- <-]. apply Hun. by etrans.
  - intros [= <- <-]. split; [by etrans|]. specialize (Hdead eq_refl). pose proof (rm_alive _ _ Hq). set_solver.
Qed.
End recovery.

(** ** What a job can write into the proof

    The census copies short files the job owns, without their CR and LF; the
    reader cuts lines at every boundary [str.splitlines] knows and believes the
    last markers.  A vertical tab in one such file turns the proof of a job
    that ran into the proof that it never started. *)
Definition census_lines (result_field : string) : list string :=
  [REQUEST_REMOTE_PROOF_MARK; "MATCH"; "boot-1"; LAUNCH_RECOVERY_MARK; "FINISHED"; "0"; "41"; ""; "100"; "200";
   result_field; UNKNOWN].
Definition census (result_field : string) : string :=
  join (String LF "") (census_lines result_field).
Definition VT : string := String (Ascii.ascii_of_N 11) "".
Definition forged_field : string :=
  join VT ["x"; REQUEST_REMOTE_PROOF_MARK; "ABSENT"; "boot-1"; LAUNCH_RECOVERY_MARK; "NONE"].
Lemma forged_field_is_short : (str_len forged_field <= 128)%nat.
Proof. apply Nat.leb_le. vm_compute. reflexivity. Qed.
Lemma job_text_forges_the_launch_proof :
  proof_of_recovery id (census "success") = Ok "finished" /\ proof_of_recovery id (census forged_field) = Ok "absent".
Proof. vm_compute. split; reflexivity. Qed.

(** ** A concrete recovery: the marker is there, nothing runs, the sentinel is planted *)
Definition bench : Type := gset capsule.
Definition bench_run (n : string) (_ : bool) (c : remote_command) (w : bench) : remote_reply * bench :=
  match c with
  | RequestProof _ _ _ _ =>
      (Replied 0 (join (String LF "") [REQUEST_REMOTE_PROOF_MARK; "MATCH"; "boot-1"; LAUNCH_RECOVERY_MARK; "NONE"]) "", w)
  | Terminate d _ _ _ _ _ => (Replied 0 "DEAD" "", w ∖ {[ (n, d) ]})
  | _ => (Unreached "RemoteError" "connection refused", w)
  end.
#[export] Instance bench_remote : RemoteContract (id : bench -> gset capsule) (fun w w' => w' ⊆ w) id bench_run.
Proof.
  split.
  - split; [by intros w|by intros w1 w2 w3 H1 H2; etrans].
  - done.
  - intros n local c w reply w' H. destruct c; cbn in H; injection H as _ <-; [done|done|set_solver|done].
  - intros n local d pg b se tok layout w rc out err w' H _. cbn in H. injection H as _ _ _ <-. done.
Qed.
Definition bench_site : HeadConfig :=
  {| c_center := "hub"; c_nodes := [mkNode "gpu-a" false false 1 None]; disk_min_gib := 5;
     queue := {| max_my_jobs := None; reserve_free_per_node := 0 |}; c_worker_root := "/data/dt"; c_layout := ROLE_LAYOUT |}.
Definition bench_sha (_ : list Ascii.ascii) : string := "0000000000000000000000000000000000000000000000000000000000000000".
Definition bench_row : JobEntry :=
  new_entry "20260101-0000_base_0123456789abcdef" "base" "hub" "?" "-" false "/data/dt/worker/jobs/20260101-0000_base_0123456789abcdef"
    "dt_20260101-0000_base_0123456789abcdef" "true" 100
    <| status := Queued |> <| dispatch_node := Some "gpu-a" |> <| dispatch_token := Some "0123456789abcdef0123456789abcdef" |>.
Definition bench_node : Node := mkNode "gpu-a" false false 1 None.
Definition bench_recovery : result (option JobEntry * option string) * bench :=
  _adopt_interrupted_queued_launch bench_sha id bench_run bench_site bench_row bench_node bench_row.(job_dir) 300
    ({[ ("gpu-a", bench_row.(job_dir)) ]} : bench).

Lemma recovery_proves_absence_witness :
  bench_recovery.1 = Ok (None, None) /\ bench_recovery.2 = ∅.
Proof.
  assert (bench_recovery.1 = Ok (None, None)) as H by (vm_compute; reflexivity). split; [exact H|].
  assert (bench_recovery = (Ok (None, None), bench_recovery.2)) as E by (rewrite <- H; apply surjective_pairing).
  destruct (recovery_proves_absence bench_sha id bench_run id (fun w w' => w' ⊆ w) bench_site bench_row bench_node
    bench_row.(job_dir) 300 _ _ _ E) as [_ Hdead].
  clear E H. unfold id in Hdead. cbn [n_name bench_node] in Hdead. set_solver.
Defined.
