(* ===== verification/Launch.v ===== *)
(** * Launching on the candidates ([dispatch/launch.py])

    [_try_nodes] walks the candidate nodes: it claims the attempt, ships the
    snapshot, starts the launcher and interprets what came back.  Failing over
    to the next node is safe only when nothing of this attempt can still be
    running on the last one.

    The world [W] holds the nodes, the registry and the clocks; shipping,
    materializing a predecessor's outputs, running the launcher, cancelling and
    retiring a stale identity are its steps. *)

From S2P Require Import Prelude Text PyValue Numerals Diagnostics Layout JobEntry RegistryCodec Lifecycle Registry RegistryOps Config Probe RunSpec Placement Contract Derive Recovery.

(** ** The launcher's exit codes *)
Definition RETRYABLE (code : Z) : option string :=
  assoc (pretty code)
    [("10", "busy"); ("11", "path-missing"); ("12", "disk-full"); ("15", "node-unfit");
     ("16", "cache-missing"); ("18", "identity-conflict"); ("19", "artifact-unverified")].
Definition EXIT_IDENTITY_CONFLICT : Z := 18.
Definition PAYLOAD_INTEGRITY_EXIT : Z := 17.
Definition FATAL (code : Z) : option string :=
  assoc (pretty code)
    [("13", "env-fail"); ("14", "internal"); (pretty PAYLOAD_INTEGRITY_EXIT, "payload-integrity")].
Definition LAUNCH_PHASE_KEYS : list string :=
  ["payload_attestation"; "preflight"; "artifact_verification"; "environment"; "launch_lock_wait";
   "gpu_probe"; "session_start"; "remote_total"].

(** ** What the launcher answered *)

(** The JSON object of a successful launch, or a line of text. *)
Definition launch_result : Type := list (string * json) + string.
Inductive launch_reply :=
  | Dropped (message : string)
  | Answered (code : Z) (result_ : launch_result)
  | LaunchEscaped (e : exn).

(** The end of [launch]: [json_loads] is [None] where it raises
    [JSONDecodeError]. *)
Definition parse_launch (json_loads : string -> option json) (py_repr : string -> string)
    (returncode : Z) (stdout stderr : string) : Z * launch_result :=
  if returncode =? 0 then
    let last_line := if bool_decide (strip stdout = "") then "{}"
                     else default "" (last (splitlines (strip stdout))) in
    (0, match json_loads last_line with
        | Some (JDict d) => inl d
        | _ => inr ("unparseable launcher output: " +:+ py_repr last_line)
        end)
  else (returncode, inr (default ("exit " +:+ pretty returncode) (last (splitlines (strip stderr))))).

Definition phase_of (raw : list (string * json)) (key : string) : result (list (string * Q)) :=
  let v := dict_get key raw in
  if is_bool v || negb (is_int v || is_float v) then Ok []
  else f ← py_float v;
       Ok match f with
          | Fin q => if q_ltb q 0 then [] else [(key, (q / 1000)%Q)]
          | _ => []
          end.
Definition _launch_phases_s (d : list (string * json)) : result (list (string * Q)) :=
  match dict_get "launch_phases_ms" d with
  | JDict raw => phases ← mapM (phase_of raw) LAUNCH_PHASE_KEYS; Ok (concat phases)
  | _ => Ok []
  end.

(** [int(v)] of a string or an integer; [bool] is an [int]. *)
Definition launched_int (v : json) : option (result Z) :=
  match v with
  | JStr s => Some (py_int s)
  | JInt z => Some (Ok z)
  | JBool b => Some (Ok (if b then 1 else 0))
  | _ => None
  end.
Definition launched_gpus (v : json) : result (list Z) :=
  match v with JList l => mapM id (omap launched_int l) | _ => Ok [] end.
Definition launched_pgid (v : json) : option (result Z) := if is_bool v then None else launched_int v.
Definition opt_string (v : json) : option string := match v with JStr s => Some s | _ => None end.
Definition opt_bool (v : json) : option bool := match v with JBool b => Some b | _ => None end.

(** What one attempt was about. *)
Record Attempt := mkAttempt {
  at_job_id : string;
  at_session : string;
  at_created : Q;
  at_payload : option string;
  at_checkout : Checkout;
}.

(** The row of a launch that succeeded. *)
Definition launched_row (cfg : HeadConfig) (spec : RunSpec) (a : Attempt) (n : Node) (node_job_dir : string)
    (reasons : list (string * string)) (snapshot : string) (snapshot_s launch_s started : Q)
    (d : list (string * json)) : result JobEntry :=
  gpus_ ← launched_gpus (dict_get "gpus" d);
  pgid_ ← default (Ok 0) (launched_pgid (dict_get "pgid" d));
  phases ← _launch_phases_s d;
  Ok (_spec_entry_fields cfg spec a.(at_checkout)
        (new_entry a.(at_job_id) spec.(sp_name) cfg.(c_center) "?" n.(n_name) n.(n_local) node_job_dir
           a.(at_session) "" a.(at_created))
        <| gpus := gpus_ |> <| pgid := Some pgid_ |> <| env_hash := opt_string (dict_get "env" d) |>
        <| snapshot_duration_s := Some snapshot_s |> <| launch_duration_s := Some launch_s |>
        <| launch_phases_s := phases |> <| env_preexisting := opt_bool (dict_get "env_preexisting" d) |>
        <| setup_ran := opt_bool (dict_get "setup_ran" d) |>
        <| boot_id := opt_string (dict_get "boot_id" d) |> <| snapshot_sha256 := Some snapshot |>
        <| payload_sha256 := a.(at_payload) |> <| started_at := Some started |>
        <| placement_failures := reasons |>
        <| rerun_snapshot_changed := _rerun_snapshot_changed spec (Some snapshot) |>
        <| worker_root := Some (worker_root_for cfg n) |> <| job_relpath := Some ("jobs/" +:+ a.(at_job_id)) |>).

(** ** The candidate loop *)
Inductive shipped :=
  | Shipped (snapshot : string)
  | ShipUnreachable (message : string)
  | ShipRefused (message : string)
  | ShipEscaped (e : exn).

(** What the loop carries: the reason of each refusal, the kinds of failure,
    and the spec with the token of the current attempt. *)
Record Tries := mkTries {
  tr_reasons : list (string * string);
  tr_kinds : gset string;
  tr_spec : RunSpec;
}.
#[export] Instance eta_Tries : Eta Tries := fun t => mkTries t.(tr_reasons) t.(tr_kinds) t.(tr_spec).
Record Placed := mkPlaced { pl_entry : option JobEntry; pl_fatal : bool; pl_tries : Tries }.

Definition note (kind : string) (t : Tries) : Tries := t <| tr_kinds := {[ kind ]} ∪ t.(tr_kinds) |>.
Definition because (n : Node) (why : string) (t : Tries) : Tries :=
  t <| tr_reasons := dict_set n.(n_name) why t.(tr_reasons) |>.

(** The predecessor whose outputs the job needs. *)
Definition handoff_predecessor (spec : RunSpec) (loaded : option JobEntry) : option JobEntry :=
  if truthy spec.(sp_after_success) then
    match loaded with
    | Some p => if bool_decide (p.(status) = Finished) && bool_decide (p.(exit_code) = Some 0) then Some p else None
    | None => None
    end
  else None.

Section try_nodes.
Context {W : Type} (cfg : HeadConfig) (a : Attempt) (handoff : option JobEntry).
Context (perf_counter wall : W -> Q).
Context (job_dir_for : Node -> result string)
  (before_attempt : Node -> string -> RunSpec -> W -> result (bool * RunSpec) * W)
  (sync_to_node : Node -> W -> shipped * W)
  (_materialize_predecessor_outputs : JobEntry -> Node -> string -> W
     -> result (option string * option string) * W)
  (launch : Node -> string -> RunSpec -> Z -> option string -> W -> launch_reply * W)
  (cancel_launch_orphan : Node -> string -> option string -> W -> option string * W)
  (retire_stale_launch_identity : Node -> string -> W -> result (option string) * W).

(** The next candidate, the end of the loop, or an exception that leaves it. *)
Inductive tried := Next (t : Tries) | Done (p : Placed) | Escapes (e : exn).
Definition stop (fatal : bool) (t : Tries) : tried := Done (mkPlaced None fatal t).

(** Cancel, and stop the loop unless nothing survived. *)
Definition cancel_or_stop (n : Node) (node_job_dir : string) 
    (survived : string -> Tries -> tried) (cancelled : Tries -> tried) (t : Tries) (w : W) : tried * W :=
  match cancel_launch_orphan n node_job_dir t.(tr_spec).(sp_dispatch_token) w with
  | (Some error, w) => (survived error (note "cancel-unverified" t), w)
  | (None, w) => (cancelled t, w)
  end.

Definition drop_launch (n : Node) (node_job_dir message : string) (t : Tries) : W -> tried * W :=
  cancel_or_stop n node_job_dir
    (fun error t => stop true (because n ("launch dropped (" +:+ message +:+ "); cancellation unverified: "
                                          +:+ error) t))
    (fun t => Next (because n ("launch dropped (" +:+ message +:+ "); cancelled on node") t))
    (note "unreachable" t).

(** Exit 0 without a usable process group. *)
Definition reject_pgid (n : Node) (node_job_dir : string) (t : Tries) : W -> tried * W :=
  cancel_or_stop n node_job_dir
    (fun error t => stop true (because n ("internal: launcher returned no valid pgid; cancellation unverified: "
                                          +:+ error) t))
    (fun t => stop true (because n "internal: launcher returned no valid pgid; cancelled on node" t))
    (note "fatal" t).

Definition accept_launch (n : Node) (node_job_dir snapshot : string) (snapshot_s launch_s : Q)
    (d : list (string * json)) (t : Tries) (w : W) : tried * W :=
  match launched_pgid (dict_get "pgid" d) with
  | None => reject_pgid n node_job_dir t w
  | Some _ =>
      match launched_row cfg t.(tr_spec) a n node_job_dir t.(tr_reasons) snapshot snapshot_s launch_s (wall w) d with
      | Ok entry => (Done (mkPlaced (Some entry) false t), w)
      | Err e => (Escapes e, w)
      end
  end.

(** A launch that did not start: the exit code decides. *)
Definition refuse_launch (n : Node) (node_job_dir : string) (code : Z) (result_ : launch_result) (t : Tries)
    (w : W) : tried * W :=
  let reason_ := match RETRYABLE code with
                 | Some r => r
                 | None => default ("exit " +:+ pretty code) (FATAL code)
                 end in
  let why := match result_ with inr text => reason_ +:+ ": " +:+ text | inl _ => reason_ end in
  let t := because n why t in
  if code =? EXIT_IDENTITY_CONFLICT then
    match retire_stale_launch_identity n node_job_dir w with
    | (Err e, w) => (Escapes e, w)
    | (Ok None, w) =>
        (Next (note "retryable" (because n (reason_ +:+ ": stale launch identity retired; retrying") t)), w)
    | (Ok (Some _), w) => (stop false (note "identity-conflict" t), w)
    end
  else if bool_decide (is_Some (FATAL code)) then (stop true (note "fatal" t), w)
  else if bool_decide (RETRYABLE code = None) then
    cancel_or_stop n node_job_dir
      (fun error t => stop true (because n (why +:+ "; cancellation unverified: " +:+ error) t))
      (fun t => Next (note "retryable" (because n (why +:+ "; cancelled on node") t))) t w
  else match t.(tr_spec).(sp_dispatch_token) with
       | Some token => let '(_, w) := cancel_launch_orphan n node_job_dir (Some token) w in
                       (Next (note "retryable" t), w)
       | None => (Next (note "retryable" t), w)
       end.

Definition launch_on (n : Node) (node_job_dir snapshot : string) (snapshot_s : Q)
    (predecessor_outputs_dir : option string) (t : Tries) (w : W) : tried * W :=
  let launch_started := perf_counter w in
  match launch n node_job_dir t.(tr_spec) (_reserve_for cfg t.(tr_spec)) predecessor_outputs_dir w with
  | (LaunchEscaped e, w) => (Escapes e, w)
  | (Dropped message, w) => drop_launch n node_job_dir message t w
  | (Answered code result_, w) =>
      match (if code =? 0 then result_ else inr (match result_ with inr s => s | inl _ => "" end)) with
      | inl d => accept_launch n node_job_dir snapshot snapshot_s
                   (q_max 0 (perf_counter w - launch_started)) d t w
      | inr _ => refuse_launch n node_job_dir code result_ t w
      end
  end.

Definition hand_off (n : Node) (node_job_dir snapshot : string) (snapshot_s : Q) (t : Tries) (w : W)
  : tried * W :=
  match handoff with
  | Some p =>
      if bool_decide (p.(node) = n.(n_name)) then launch_on n node_job_dir snapshot snapshot_s None t w
      else
        match _materialize_predecessor_outputs p n node_job_dir w with
        | (Err e, w) => (Escapes e, w)
        | (Ok (_, Some error), w) =>
            (Next (because n ("predecessor outputs unavailable: " +:+ error) (note "retryable" t)), w)
        | (Ok (dir, None), w) => launch_on n node_job_dir snapshot snapshot_s dir t w
        end
  | None => launch_on n node_job_dir snapshot snapshot_s None t w
  end.

Definition ship (n : Node) (node_job_dir : string) (t : Tries) (w : W) : tried * W :=
  let snapshot_started := perf_counter w in
  match sync_to_node n w with
  | (ShipEscaped e, w) => (Escapes e, w)
  | (ShipUnreachable message, w) =>
      (Next (because n ("snapshot failed: " +:+ message) (note "unreachable" t)), w)
  | (ShipRefused message, w) => (Next (because n ("snapshot failed: " +:+ message) (note "dispatch" t)), w)
  | (Shipped snapshot, w) =>
      hand_off n node_job_dir snapshot (q_max 0 (perf_counter w - snapshot_started)) t w
  end.

Definition try_node (n : Node) (t : Tries) (w : W) : tried * W :=
  match job_dir_for n with
  | Err e => (Escapes e, w)
  | Ok node_job_dir =>
      match before_attempt n node_job_dir t.(tr_spec) w with
      | (Err e, w) => (Escapes e, w)
      | (Ok (false, spec), w) => (stop true (note "interrupted" (t <| tr_spec := spec |>)), w)
      | (Ok (true, spec), w) => ship n node_job_dir (t <| tr_spec := spec |>) w
      end
  end.

Fixpoint try_candidates (candidates : list Node) (t : Tries) (w : W) : result Placed * W :=
  match candidates with
  | [] => (Ok (mkPlaced None false t), w)
  | n :: rest =>
      match try_node n t w with
      | (Escapes e, w) => (Err e, w)
      | (Done p, w) => (Ok p, w)
      | (Next t, w) => try_candidates rest t w
      end
  end.

Definition _try_nodes (candidates : list Node) (spec : RunSpec) : W -> result Placed * W :=
  try_candidates candidates (mkTries [] ∅ (spec <| sp_payload_sha256 := a.(at_payload) |>)).
End try_nodes.

(** ** After a launch that raced a dequeue *)
Section raced.
Context (encoded_size : json -> nat) (index_writable : bool) (now : Q) (writable : bool).

(** Save [placed] unless another transition already replaced the killed row. *)
Definition restore (placed : JobEntry) : M JobEntry :=
  current ← load now placed.(job_id);
  match current with
  | Some current =>
      if bool_decide (current.(status) = Killed) then save encoded_size index_writable now writable placed
      else mret current
  | None => save encoded_size index_writable now writable placed
  end.
Definition _restore_running_after_cancel_failure (placed : JobEntry) (detail : string) : M JobEntry :=
  restore (placed <| status := Running |> <| finished_at := None |>
                  <| reason := Some (CANCEL_UNVERIFIED_PREFIX +:+ detail) |>).
Definition _restore_finished_after_raced_dequeue : JobEntry -> M JobEntry := restore.

Definition cancelled_row (current placed : JobEntry) : JobEntry :=
  current <| node := placed.(node) |> <| node_local := placed.(node_local) |> <| gpus := placed.(gpus) |>
          <| pgid := placed.(pgid) |> <| env_hash := placed.(env_hash) |>
          <| snapshot_duration_s := placed.(snapshot_duration_s) |>
          <| launch_duration_s := placed.(launch_duration_s) |> <| launch_phases_s := placed.(launch_phases_s) |>
          <| env_preexisting := placed.(env_preexisting) |> <| setup_ran := placed.(setup_ran) |>
          <| boot_id := placed.(boot_id) |> <| started_at := placed.(started_at) |>
          <| snapshot_sha256 := or_text placed.(snapshot_sha256) current.(snapshot_sha256) |>
          <| payload_sha256 := or_text placed.(payload_sha256) current.(payload_sha256) |>
          <| storage_layout := placed.(storage_layout) |> <| worker_root := placed.(worker_root) |>
          <| job_relpath := placed.(job_relpath) |> <| job_dir := placed.(job_dir) |>
          <| finished_at := Some now |>
          <| reason := Some "dequeued by user; in-flight launch cancelled (TERM)" |>.
Definition _record_cancelled_inflight_launch (killed placed : JobEntry) : M JobEntry :=
  found ← load now placed.(job_id);
  let current := default killed found in
  if negb (bool_decide (current.(status) = Killed)) then mret current
  else save encoded_size index_writable now writable (cancelled_row current placed).
End raced.
