(* ===== verification/LaunchSpec.v ===== *)
(** * Failing over never duplicates a job ([dispatch/launch.py])

    What [_try_nodes] asks of the nodes is an interface, [TryContract]: the
    capsules that may run the job grow only by a launch, a launcher that
    refuses has started nothing, and a confirmed cancellation leaves nothing
    behind.  Against it the candidate loop is shown to start every launch with
    nothing of the job running, and to report truthfully where it may run. *)

From S2P Require Import Prelude Text PyValue Numerals Layout JobEntry RegistryCodec Lifecycle Registry RegistryOps Config Probe RunSpec Placement Contract Derive Recovery RecoverySpec Launch.

(** The launcher exited before it would start a session. *)
Definition refused (code : Z) : bool :=
  bool_decide (is_Some (RETRYABLE code)) || bool_decide (is_Some (FATAL code)).

Class TryContract {W : Type} (running : W -> gset capsule)
    (before_attempt : Node -> string -> RunSpec -> W -> result (bool * RunSpec) * W)
    (sync_to_node : Node -> W -> shipped * W)
    (materialize : JobEntry -> Node -> string -> W -> result (option string * option string) * W)
    (launch : Node -> string -> RunSpec -> Z -> option string -> W -> launch_reply * W)
    (cancel : Node -> string -> option string -> W -> option string * W)
    (retire : Node -> string -> W -> result (option string) * W) : Prop := {
  tc_before n d spec w res w' : before_attempt n d spec w = (res, w') -> running w' ⊆ running w;
  tc_sync n w res w' : sync_to_node n w = (res, w') -> running w' ⊆ running w;
  tc_materialize p n d w res w' : materialize p n d w = (res, w') -> running w' ⊆ running w;
  tc_retire n d w res w' : retire n d w = (res, w') -> running w' ⊆ running w;
  tc_cancel n d t w res w' : cancel n d t w = (res, w') -> running w' ⊆ running w;
  tc_cancelled n d t w w' :
    cancel n d t w = (None, w') -> running w' ⊆ running w ∖ {[ (n.(n_name), d) ]};
  tc_launch n d spec r p w res w' :
    launch n d spec r p w = (res, w') -> running w' ⊆ {[ (n.(n_name), d) ]} ∪ running w;
  tc_refused n d spec r p w code res w' :
    launch n d spec r p w = (Answered code res, w') -> refused code = true -> running w' ⊆ running w;
  tc_raised n d spec r p w message w' :
    launch n d spec r p w = (LaunchEscaped (DispatchError message), w') -> running w' ⊆ running w;
}.

(** ** Reasons, in order *)
Lemma dict_set_new {A} k (v : A) kv : k ∉ kv.*1 -> dict_set k v kv = kv ++ [(k, v)].
Proof.
  induction kv as [|[k' v'] kv IH]; [done|]. cbn. intros H. rewrite bool_decide_false by set_solver.
  rewrite IH by set_solver. done.
Qed.
Lemma dict_set_last {A} k (v v' : A) kv : k ∉ kv.*1 -> dict_set k v (kv ++ [(k, v')]) = kv ++ [(k, v)].
Proof.
  induction kv as [|[k' x] kv IH]; cbn; intros H; [by rewrite bool_decide_true|].
  rewrite bool_decide_false by set_solver. rewrite IH by set_solver. done.
Qed.

Definition keys (t : Tries) : list string := t.(tr_reasons).*1.
(** The last reason is the one of node [n], added by this candidate. *)
Definition last_of (n : Node) (t0 t : Tries) : Prop :=
  exists v, t.(tr_reasons) = t0.(tr_reasons) ++ [(n.(n_name), v)].

Lemma because_last n why t0 t :
  n.(n_name) ∉ keys t0 -> t.(tr_reasons) = t0.(tr_reasons) \/ last_of n t0 t -> last_of n t0 (because n why t).
Proof.
  intros Hn [H | [v H]]; unfold last_of, because; cbn; rewrite H;
    [rewrite dict_set_new by done | rewrite dict_set_last by done]; by eexists.
Qed.

(** ** Errors of a launch that did start are not [DispatchError]s *)
Definition no_dispatch (e : exn) : Prop := forall message, e <> DispatchError message.

Lemma py_int_err s e : py_int s = Err e -> no_dispatch e.
Proof.
  unfold py_int. destruct (read_sign _) as [neg body]. destruct (read_digits body); [|by intros [= <-]].
  destruct (_ <? _)%nat; by intros [= <-].
Qed.
Lemma mapM_err {A B} (f : A -> result B) l e : mapM f l = Err e -> exists x, f x = Err e.
Proof.
  induction l as [|x l IH]; cbn; [done|]. destruct (f x) eqn:E; cbn; [|intros [= ->]; by exists x].
  destruct (mapM f l); [done|]. intros [= ->]. by apply IH.
Qed.
Lemma py_float_err v e : py_float v = Err e -> no_dispatch e.
Proof.
  destruct v; cbn; try (by intros [= <-]). destruct (_ <=? _); by intros [= <-].
Qed.

Lemma launched_int_err v e : launched_int v = Some (Err e) -> no_dispatch e.
Proof. destruct v; try done. cbn. intros [= H]. by eapply py_int_err. Qed.

Lemma launched_gpus_err v e : launched_gpus v = Err e -> no_dispatch e.
Proof.
  destruct v; try done. cbn. induction l as [|v l IH]; [done|]. cbn.
  destruct (launched_int v) as [[z|x]|] eqn:E; cbn; [|intros [= <-]; by eapply launched_int_err|exact IH].
  destruct (mapM id (omap launched_int l)); [done|exact IH].
Qed.

Lemma launch_phases_err d e : _launch_phases_s d = Err e -> no_dispatch e.
Proof.
  unfold _launch_phases_s. destruct (dict_get _ d); try done. intros H.
  destruct (mapM _ _) eqn:E; cbn in H; [done|]. injection H as ->. apply mapM_err in E as (k & E).
  unfold phase_of in E. cbv zeta in E. destruct (is_bool _ || _); [done|].
  destruct (py_float _) eqn:Ef; cbn in E; [done|]. injection E as ->. by eapply py_float_err.
Qed.

Lemma launched_row_err cfg spec a n d reasons sha x y z doc e :
  launched_row cfg spec a n d reasons sha x y z doc = Err e -> no_dispatch e.
Proof.
  unfold launched_row. destruct (launched_gpus _) eqn:Eg; [|intros [= <-]; by eapply launched_gpus_err].
  cbn [mbind result_bind]. destruct (launched_pgid _) as [[pg|e']|] eqn:Ep; cbn [default mbind result_bind].
  1,3: destruct (_launch_phases_s _) eqn:Eh; cbn [mbind result_bind]; [done|intros [= <-]; by eapply launch_phases_err].
  intros [= <-]. unfold launched_pgid in Ep. destruct (is_bool _); [done|]. by eapply launched_int_err.
Qed.

Lemma launched_row_fields cfg spec a n d reasons sha x y z doc row :
  launched_row cfg spec a n d reasons sha x y z doc = Ok row ->
  row.(node) = n.(n_name) /\ row.(job_dir) = d /\ row.(status) = Running.
Proof.
  unfold launched_row. intros H. apply bind_ok in H as (? & _ & H). apply bind_ok in H as (? & _ & H).
  apply bind_ok in H as (? & _ & H). injection H as <-. done.
Qed.

(** ** The loop *)
Section loop.
Context {W : Type} (job_dir_for : Node -> result string)
  (before_attempt : Node -> string -> RunSpec -> W -> result (bool * RunSpec) * W)
  (sync_to_node : Node -> W -> shipped * W)
  (materialize : JobEntry -> Node -> string -> W -> result (option string * option string) * W)
  (launch : Node -> string -> RunSpec -> Z -> option string -> W -> launch_reply * W)
  (cancel : Node -> string -> option string -> W -> option string * W)
  (retire : Node -> string -> W -> result (option string) * W).
Context (running : W -> gset capsule)
  `{contract : !TryContract running before_attempt sync_to_node materialize launch cancel retire}.

(** No failure of this pass is final yet. *)
Definition clean (t : Tries) : Prop :=
  ("interrupted" ∉ t.(tr_kinds)) /\ ("cancel-unverified" ∉ t.(tr_kinds)).

(** Where the job may run when the loop ends. *)
Definition settled (candidates : list Node) (p : Placed) (R : gset capsule) : Prop :=
  match p.(pl_entry) with
  | Some e => e.(status) = Running /\ R ⊆ {[ (e.(node), e.(job_dir)) ]}
  | None =>
      R = ∅ \/
      ("cancel-unverified" ∈ p.(pl_tries).(tr_kinds)) /\ ("interrupted" ∉ p.(pl_tries).(tr_kinds)) /\
      p.(pl_fatal) = true /\
      exists n d why, (n ∈ candidates) /\ job_dir_for n = Ok d /\ last p.(pl_tries).(tr_reasons) = Some (n.(n_name), why) /\
                      R ⊆ {[ (n.(n_name), d) ]}
  end.

(** What one candidate may do to the world, from a state where nothing runs. *)
Definition sound_step (n : Node) (t0 : Tries) (r : tried * W) : Prop :=
  match r with
  | (Next t, w) => running w = ∅ /\ clean t /\ (keys t ⊆ n.(n_name) :: keys t0)
  | (Done p, w) => settled [n] p (running w)
  | (Escapes e, w) => running w = ∅ \/ no_dispatch e
  end.

Lemma empty_below (R R' : gset capsule) : R' ⊆ R -> R = ∅ -> R' = ∅.
Proof. set_solver. Qed.
Lemma clean_note kind t : kind ∉ ["interrupted"; "cancel-unverified"] -> clean t -> clean (note kind t).
Proof. intros H [H1 H2]. unfold clean, note. cbn. set_solver. Qed.
Lemma keys_because n why t : keys (because n why t) ⊆ n.(n_name) :: keys t.
Proof.
  unfold keys, because. cbn. induction (tr_reasons t) as [|[k v] kv IH]; cbn; [done|].
  case_bool_decide; cbn; set_solver.
Qed.

(** Cancelling on the node of a launch that may have started. *)
Lemma cancel_sound n d survived cancelled t0 t w :
  job_dir_for n = Ok d -> n.(n_name) ∉ keys t0 -> running w ⊆ {[ (n.(n_name), d) ]} ->
  (forall error, exists t', survived error (note "cancel-unverified" t) = stop true t' /\
     last_of n t0 t' /\ ("cancel-unverified" ∈ t'.(tr_kinds)) /\ ("interrupted" ∉ t'.(tr_kinds))) ->
  (forall w', running w' = ∅ -> sound_step n t0 (cancelled t, w')) ->
  sound_step n t0 (cancel_or_stop cancel n d survived cancelled t w).
Proof using contract.
  intros Hd Hn HR Hs Hc. unfold cancel_or_stop.
  destruct (cancel n d _ w) as [[error|] w'] eqn:E.
  - pose proof (tc_cancel _ _ _ _ _ _ E) as Hsub. destruct (Hs error) as (t' & -> & [why Hl] & Hk & Hi).
    cbn. right. split_and!; [done..|]. exists n, d, why. split_and!; [set_solver|done| |set_solver].
    by rewrite Hl, last_snoc.
  - apply Hc. pose proof (tc_cancelled _ _ _ _ _ E). set_solver.
Qed.

(** The tries of a candidate whose launch is being interpreted. *)
Definition fresh (n : Node) (t0 t : Tries) : Prop :=
  clean t /\ (t.(tr_reasons) = t0.(tr_reasons) \/ last_of n t0 t).

Lemma fresh_keys n t0 t : fresh n t0 t -> keys t ⊆ n.(n_name) :: keys t0.
Proof.
  intros [_ [H | [v H]]]; unfold keys; rewrite H; [set_solver|]. rewrite fmap_app. cbn. set_solver.
Qed.
Lemma fresh_because n why t0 t : n.(n_name) ∉ keys t0 -> fresh n t0 t -> fresh n t0 (because n why t).
Proof. intros Hn [Hc Hr]. split; [exact Hc|]. right. by apply because_last. Qed.
Lemma fresh_note n kind t0 t :
  kind ∉ ["interrupted"; "cancel-unverified"] -> fresh n t0 t -> fresh n t0 (note kind t).
Proof. intros Hk [Hc Hr]. split; [by apply clean_note|exact Hr]. Qed.

(** Stopping on the node after a failed cancellation. *)
Lemma unverified_stop n why t0 t :
  n.(n_name) ∉ keys t0 -> fresh n t0 t ->
  exists t', stop true (because n why (note "cancel-unverified" t)) = stop true t' /\
    last_of n t0 t' /\ ("cancel-unverified" ∈ t'.(tr_kinds)) /\ ("interrupted" ∉ t'.(tr_kinds)).
Proof.
  intros Hn [[Hc _] Hr]. eexists. split; [reflexivity|]. split; [by apply because_last|].
  unfold because, note. cbn. set_solver.
Qed.
Lemma stop_sound n t0 fatal t w : running w = ∅ -> sound_step n t0 (stop fatal t, w).
Proof. intros H. by left. Qed.
Lemma next_sound n t0 t w : running w = ∅ -> fresh n t0 t -> sound_step n t0 (Next t, w).
Proof. intros H Hf. split_and!; [done|apply Hf|by apply fresh_keys]. Qed.

Lemma drop_sound n d message t0 t w :
  job_dir_for n = Ok d -> n.(n_name) ∉ keys t0 -> fresh n t0 t -> running w ⊆ {[ (n.(n_name), d) ]} ->
  sound_step n t0 (drop_launch cancel n d message t w).
Proof using contract.
  intros Hd Hn Hf HR. assert (fresh n t0 (note "unreachable" t)) as Hf' by (apply fresh_note; [set_solver by done|done]).
  apply cancel_sound; [done..| |].
  - intros error. by apply unverified_stop.
  - intros w' Hw. apply next_sound; [done|]. by apply fresh_because.
Qed.
Lemma reject_sound n d t0 t w :
  job_dir_for n = Ok d -> n.(n_name) ∉ keys t0 -> fresh n t0 t -> running w ⊆ {[ (n.(n_name), d) ]} ->
  sound_step n t0 (reject_pgid cancel n d t w).
Proof using contract.
  intros Hd Hn Hf HR. assert (fresh n t0 (note "fatal" t)) as Hf' by (apply fresh_note; [set_solver by done|done]).
  apply cancel_sound; [done..| |].
  - intros error. by apply unverified_stop.
  - intros w' Hw. by apply stop_sound.
Qed.
(** A launch that did not start, or whose outcome is unknown. *)
Lemma refuse_sound n d code res t0 t w :
  job_dir_for n = Ok d -> n.(n_name) ∉ keys t0 -> fresh n t0 t -> running w ⊆ {[ (n.(n_name), d) ]} ->
  (refused code = true -> running w = ∅) ->
  sound_step n t0 (refuse_launch cancel retire n d code res t w).
Proof using contract.
  intros Hd Hn Hf HR Hr. unfold refuse_launch. cbv zeta.
  set (why := match res with inl _ => _ | inr _ => _ end). clearbody why.
  pose proof (fresh_because n why t0 t Hn Hf) as Hb.
  assert (forall kind, kind ∈ ["retryable"; "identity-conflict"; "fatal"] -> forall t', fresh n t0 t' -> fresh n t0 (note kind t')) as Hnote.
  { intros kind Hk t' Ht'. apply fresh_note; [set_solver|done]. }
  destruct (code =? EXIT_IDENTITY_CONFLICT) eqn:Ec.
  { apply Z.eqb_eq in Ec as ->. assert (running w = ∅) as Hw by (apply Hr; reflexivity).
    destruct (retire n d w) as [[[kept|]|e] w'] eqn:E; pose proof (tc_retire _ _ _ _ _ E) as Hsub;
      assert (running w' = ∅) as Hw' by set_solver.
    - by apply stop_sound.
    - apply next_sound; [done|]. apply Hnote; [set_solver by done|]. by apply fresh_because.
    - by left. }
  destruct (bool_decide (is_Some (FATAL code))) eqn:Ef.
  { apply stop_sound, Hr. unfold refused. by rewrite Ef, orb_true_r. }
  destruct (bool_decide (RETRYABLE code = None)) eqn:Ey.
  { apply cancel_sound; [done..| |].
    - intros error. by apply unverified_stop.
    - intros w' Hw'. apply next_sound; [done|]. apply Hnote; [set_solver by done|]. by apply fresh_because. }
  assert (running w = ∅) as Hw.
  { apply Hr. unfold refused. apply bool_decide_eq_false in Ey. rewrite bool_decide_true; [done|by apply not_eq_None_Some]. }
  destruct (sp_dispatch_token _).
  - destruct (cancel n d _ w) as [o w'] eqn:E. pose proof (tc_cancel _ _ _ _ _ _ E) as Hsub.
    apply next_sound; [set_solver|]. by apply Hnote; [set_solver by done|].
  - apply next_sound; [done|]. by apply Hnote; [set_solver by done|].
Qed.

Context (cfg : HeadConfig) (a : Attempt) (handoff : option JobEntry) (perf_counter wall : W -> Q).

Lemma accept_sound n d sha x y doc t0 t w :
  job_dir_for n = Ok d -> n.(n_name) ∉ keys t0 -> fresh n t0 t -> running w ⊆ {[ (n.(n_name), d) ]} ->
  sound_step n t0 (accept_launch cfg a wall cancel n d sha x y doc t w).
Proof using contract.
  intros Hd Hn Hf HR. unfold accept_launch. destruct (launched_pgid _); [|by apply reject_sound].
  destruct (launched_row _ _ _ _ _ _ _ _ _ _ _) as [row|e] eqn:E; cbn.
  - apply launched_row_fields in E as (-> & -> & ->). done.
  - right. by eapply launched_row_err.
Qed.

Lemma launch_sound n d sha x dir t0 t w :
  job_dir_for n = Ok d -> n.(n_name) ∉ keys t0 -> fresh n t0 t -> running w = ∅ ->
  sound_step n t0 (launch_on cfg a perf_counter wall launch cancel retire n d sha x dir t w).
Proof using contract.
  intros Hd Hn Hf HR. unfold launch_on. cbv zeta. destruct (launch n d _ _ dir w) as [reply w'] eqn:E.
  pose proof (tc_launch _ _ _ _ _ _ _ _ E) as Hl. rewrite HR in Hl.
  assert (running w' ⊆ {[ (n.(n_name), d) ]}) as HR' by set_solver.
  destruct reply as [message|code res|e].
  - by apply drop_sound.
  - assert (refused code = true -> running w' = ∅) as Hr.
    { intros Hc. pose proof (tc_refused _ _ _ _ _ _ _ _ _ E Hc). set_solver. }
    destruct (if code =? 0 then res else _); [by apply accept_sound|by apply refuse_sound].
  - cbn. destruct e; try (by right). left. pose proof (tc_raised _ _ _ _ _ _ _ _ E). set_solver.
Qed.

Lemma hand_off_sound n d sha x t0 t w :
  job_dir_for n = Ok d -> n.(n_name) ∉ keys t0 -> fresh n t0 t -> running w = ∅ ->
  sound_step n t0 (hand_off cfg a handoff perf_counter wall materialize launch cancel retire n d sha x t w).
Proof using contract.
  intros Hd Hn Hf HR. unfold hand_off. destruct handoff as [p|]; [|by apply launch_sound].
  case_bool_decide; [by apply launch_sound|]. destruct (materialize p n d w) as [res w'] eqn:E.
  pose proof (tc_materialize _ _ _ _ _ _ E) as Hsub. assert (running w' = ∅) as Hw by set_solver.
  destruct res as [[dir [error|]]|e]; [|by apply launch_sound|by left].
  apply next_sound; [done|]. apply fresh_because; [done|]. apply fresh_note; [set_solver by done|done].
Qed.

Lemma ship_sound n d t0 t w :
  job_dir_for n = Ok d -> n.(n_name) ∉ keys t0 -> fresh n t0 t -> running w = ∅ ->
  sound_step n t0 (ship cfg a handoff perf_counter wall sync_to_node materialize launch cancel retire n d t w).
Proof using contract.
  intros Hd Hn Hf HR. unfold ship. cbv zeta. destruct (sync_to_node n w) as [res w'] eqn:E.
  pose proof (tc_sync _ _ _ _ E) as Hsub. assert (running w' = ∅) as Hw by set_solver.
  destruct res as [sha|message|message|e]; [by apply hand_off_sound| | |by left].
  all: apply next_sound; [done|]; apply fresh_because; [done|]; apply fresh_note; [set_solver by done|done].
Qed.

Abbreviation step := (try_node cfg a handoff perf_counter wall job_dir_for before_attempt sync_to_node
                        materialize launch cancel retire).
Abbreviation walk_nodes := (try_candidates cfg a handoff perf_counter wall job_dir_for before_attempt sync_to_node
                              materialize launch cancel retire).

Lemma step_sound n t w :
  n.(n_name) ∉ keys t -> clean t -> running w = ∅ -> sound_step n t (step n t w).
Proof using contract.
  intros Hn Hc HR. unfold try_node. destruct (job_dir_for n) as [d|e] eqn:Hd; [|by left].
  destruct (before_attempt n d _ w) as [res w'] eqn:E. pose proof (tc_before _ _ _ _ _ _ E) as Hsub.
  assert (running w' = ∅) as Hw by set_solver. destruct res as [[[] spec]|e]; [|by apply stop_sound|by left].
  apply ship_sound; [done..| |done]. split; [exact Hc|by left].
Qed.

(** The tries and the world in which the candidates after [pre] are tried. *)
Fixpoint reaches (pre : list Node) (t : Tries) (w : W) : option (Tries * W) :=
  match pre with
  | [] => Some (t, w)
  | n :: rest => match step n t w with (Next t, w) => reaches rest t w | _ => None end
  end.

Lemma walk_sound candidates t w :
  NoDup (n_name <$> candidates) -> (forall n, n ∈ candidates -> n.(n_name) ∉ keys t) -> clean t -> running w = ∅ ->
  (forall pre n post t1 w1, candidates = pre ++ n :: post -> reaches pre t w = Some (t1, w1) -> running w1 = ∅) /\
  match walk_nodes candidates t w with
  | (Ok p, w') => settled candidates p (running w')
  | (Err e, w') => running w' = ∅ \/ no_dispatch e
  end.
Proof using contract.
  revert t w. induction candidates as [|n rest IH]; intros t w Hnd Hk Hc HR.
  { split; [by intros []|]. by left. }
  apply NoDup_cons in Hnd as [Hn Hnd].
  pose proof (step_sound n t w (Hk n ltac:(set_solver)) Hc HR) as Hs. cbn [try_candidates].
  destruct (step n t w) as [[t'|p|e] w'] eqn:E; cbn in Hs.
  - destruct Hs as (Hw & Hc' & Hk'). destruct (IH t' w' Hnd) as [H1 H2]; [|done..|].
    { intros m Hm Hin. apply Hk' in Hin. apply elem_of_cons in Hin as [Heq | Hin].
      - apply Hn. apply list_elem_of_fmap. by exists m.
      - revert Hin. apply Hk. set_solver. }
    split.
    + intros [|m pre] x post t1 w1 Heq Hr; cbn in Hr; [by injection Hr as <- <-|].
      injection Heq as <- ->. rewrite E in Hr. by eapply H1.
    + destruct (walk_nodes rest t' w') as [[p|e] w'']; [|done]. unfold settled in *.
      destruct (pl_entry p); [done|]. destruct H2 as [?|(?&?&?&m&d&why&?&?&?&?)]; [by left|right].
      split_and!; [done..|]. exists m, d, why. set_solver.
  - split; [intros [|m pre] x post t1 w1 Heq Hr; cbn in Hr; [by injection Hr as <- <-|]; injection Heq as <- ->; by rewrite E in Hr|].
    unfold settled in *. destruct (pl_entry p); [done|]. destruct Hs as [?|(?&?&?&m&d&why&Hm&?&?&?)]; [by left|right].
    split_and!; [done..|]. exists m, d, why. set_solver.
  - split; [intros [|m pre] x post t1 w1 Heq Hr; cbn in Hr; [by injection Hr as <- <-|]; injection Heq as <- ->; by rewrite E in Hr|].
    done.
Qed.
End loop.

(** ** Who holds the job

    What a claim is worth along the loop: a won claim of the attempt on a node
    is held by every later step of that candidate. *)
Class TryLedger {W : Type} (running : W -> gset capsule) (eligible : Node -> string -> Prop)
    (free : W -> Prop) (held : Node -> string -> W -> Prop) (spec_ok : RunSpec -> Prop)
    (before_attempt : Node -> string -> RunSpec -> W -> result (bool * RunSpec) * W)
    (sync_to_node : Node -> W -> shipped * W)
    (materialize : JobEntry -> Node -> string -> W -> result (option string * option string) * W)
    (launch : Node -> string -> RunSpec -> Z -> option string -> W -> launch_reply * W)
    (cancel : Node -> string -> option string -> W -> option string * W)
    (retire : Node -> string -> W -> result (option string) * W) : Prop := {
  tl_before n d spec w res w' : eligible n d -> free w -> running w = ∅ -> spec_ok spec ->
    before_attempt n d spec w = (res, w') ->
    free w' /\ forall own spec', res = Ok (own, spec') -> spec_ok spec' /\ (own = true -> held n d w');
  tl_sync n d w m res w' : held n d w -> sync_to_node m w = (res, w') -> held n d w';
  tl_materialize n d w p m e res w' : held n d w -> materialize p m e w = (res, w') -> held n d w';
  tl_launch n d w spec r p res w' : held n d w -> launch n d spec r p w = (res, w') -> held n d w';
  tl_cancel n d w m e t res w' : held n d w -> cancel m e t w = (res, w') -> held n d w';
  tl_retire n d w m e res w' : held n d w -> retire m e w = (res, w') -> held n d w';
  tl_free n d w : held n d w -> free w;
}.

Lemma dict_set_keys {A} k (v : A) kv : (dict_set k v kv).*1 ⊆ k :: kv.*1.
Proof. induction kv as [|[k' v'] kv IH]; cbn; [set_solver|]. case_bool_decide; cbn; set_solver. Qed.
Lemma dict_set_NoDup {A} k (v : A) kv : NoDup kv.*1 -> NoDup (dict_set k v kv).*1.
Proof.
  induction kv as [|[k' v'] kv IH]; cbn; [by constructor; [set_solver|]|]. intros [Hn Hkv]%NoDup_cons.
  case_bool_decide as E; cbn; apply NoDup_cons; [by subst|]. split; [|by apply IH].
  intros Hin%dict_set_keys. set_solver.
Qed.

Section ledger.
Context {W : Type} (job_dir_for : Node -> result string)
  (before_attempt : Node -> string -> RunSpec -> W -> result (bool * RunSpec) * W)
  (sync_to_node : Node -> W -> shipped * W)
  (materialize : JobEntry -> Node -> string -> W -> result (option string * option string) * W)
  (launch : Node -> string -> RunSpec -> Z -> option string -> W -> launch_reply * W)
  (cancel : Node -> string -> option string -> W -> option string * W)
  (retire : Node -> string -> W -> result (option string) * W).
Context (running : W -> gset capsule) (eligible : Node -> string -> Prop)
  (free : W -> Prop) (held : Node -> string -> W -> Prop) (spec_ok : RunSpec -> Prop)
  `{contract : !TryContract running before_attempt sync_to_node materialize launch cancel retire}
  `{ledger : !TryLedger running eligible free held spec_ok before_attempt sync_to_node materialize launch cancel retire}.
Context (cfg : HeadConfig) (a : Attempt) (handoff : option JobEntry) (perf_counter wall : W -> Q).

Definition tries_ok (t : Tries) : Prop := spec_ok t.(tr_spec) /\ NoDup (keys t).
(** The accepted row is one this loop built for that candidate. *)
Definition launched_by (n : Node) (d : string) (row : JobEntry) : Prop :=
  exists spec reasons sha x y z doc, spec_ok spec /\ NoDup reasons.*1 /\
    launched_row cfg spec a n d reasons sha x y z doc = Ok row.
Definition held_post (n : Node) (d : string) (r : tried * W) : Prop :=
  held n d r.2 /\
  match r.1 with
  | Next t => tries_ok t
  | Done p => tries_ok p.(pl_tries) /\ forall row, p.(pl_entry) = Some row -> launched_by n d row
  | Escapes _ => True
  end.

Lemma tries_note kind t : tries_ok t -> tries_ok (note kind t).
Proof. done. Qed.
Lemma tries_because n why t : tries_ok t -> tries_ok (because n why t).
Proof. intros [H1 H2]. split; [done|]. by apply dict_set_NoDup. Qed.
#[local] Hint Resolve tries_note tries_because : core.

Lemma held_next n d t w : held n d w -> tries_ok t -> held_post n d (Next t, w).
Proof. done. Qed.
Lemma held_stop n d fatal t w : held n d w -> tries_ok t -> held_post n d (stop fatal t, w).
Proof. intros H Ht. by repeat split; try apply Ht. Qed.
Lemma held_escapes n d e w : held n d w -> held_post n d (Escapes e, w).
Proof. intros H. by split. Qed.
#[local] Hint Resolve held_next held_stop held_escapes : core.

Lemma held_cancel n d survived cancelled t w :
  held n d w -> (forall error w', held n d w' -> held_post n d (survived error (note "cancel-unverified" t), w')) ->
  (forall w', held n d w' -> held_post n d (cancelled t, w')) ->
  held_post n d (cancel_or_stop cancel n d survived cancelled t w).
Proof using ledger.
  intros H H1 H2. unfold cancel_or_stop. destruct (cancel n d _ w) as [res w'] eqn:E.
  pose proof (tl_cancel _ _ _ _ _ _ _ _ H E) as H'. destruct res; auto.
Qed.

Lemma held_accept n d sha x y doc t w :
  held n d w -> tries_ok t -> held_post n d (accept_launch cfg a wall cancel n d sha x y doc t w).
Proof using ledger.
  intros H Ht. pose proof Ht as [Hs Hk]. unfold accept_launch.
  destruct (launched_pgid _); [|unfold reject_pgid; apply held_cancel; auto].
  destruct (launched_row _ _ _ _ _ _ _ _ _ _ _) eqn:E; [|auto]. split; [done|]. split; [done|]. intros row [= <-].
  by repeat eexists.
Qed.
Lemma held_refuse n d code res t w :
  held n d w -> tries_ok t -> held_post n d (refuse_launch cancel retire n d code res t w).
Proof using ledger.
  intros H Ht. unfold refuse_launch. cbv zeta. generalize (match res with inl _ => default ("exit " +:+ pretty code) (FATAL code) | inr s => s end).
  intros _. destruct (code =? EXIT_IDENTITY_CONFLICT).
  { destruct (retire n d w) as [[[kept|]|e] w'] eqn:E; pose proof (tl_retire _ _ _ _ _ _ _ H E); auto. }
  destruct (bool_decide (is_Some (FATAL code))); [auto|].
  destruct (bool_decide (RETRYABLE code = None)); [apply held_cancel; auto|].
  destruct (sp_dispatch_token _); [|auto].
  destruct (cancel n d _ w) as [o w'] eqn:E. pose proof (tl_cancel _ _ _ _ _ _ _ _ H E). auto.
Qed.
Lemma held_launch n d sha x dir t w :
  held n d w -> tries_ok t -> held_post n d (launch_on cfg a perf_counter wall launch cancel retire n d sha x dir t w).
Proof using ledger.
  intros H Ht. unfold launch_on. cbv zeta. destruct (launch n d _ _ dir w) as [reply w'] eqn:E.
  pose proof (tl_launch _ _ _ _ _ _ _ _ H E) as H'. destruct reply as [message|code res|e]; [|case_match|auto].
  - unfold drop_launch. apply held_cancel; auto.
  - by apply held_accept.
  - by apply held_refuse.
Qed.
Lemma held_ship n d t w :
  held n d w -> tries_ok t ->
  held_post n d (ship cfg a handoff perf_counter wall sync_to_node materialize launch cancel retire n d t w).
Proof using ledger.
  intros H Ht. unfold ship. cbv zeta. destruct (sync_to_node n w) as [res w'] eqn:E.
  pose proof (tl_sync _ _ _ _ _ _ H E) as H'. destruct res; [|auto..]. unfold hand_off.
  destruct handoff as [p|]; [case_bool_decide|]; [by apply held_launch| |by apply held_launch].
  destruct (materialize p n d w') as [[[dir [error|]]|e] w''] eqn:Em;
    pose proof (tl_materialize _ _ _ _ _ _ _ _ H' Em) as H''; [auto|by apply held_launch|auto].
Qed.

(** Where the loop leaves the job: free and nowhere running, or held on a candidate. *)
Definition left_at (candidates : list Node) (o : option JobEntry) (w : W) : Prop :=
  (o = None /\ free w /\ running w = ∅) \/
  exists n d, (n ∈ candidates) /\ job_dir_for n = Ok d /\ held n d w /\ forall row, o = Some row -> launched_by n d row.

Abbreviation walk_nodes := (try_candidates cfg a handoff perf_counter wall job_dir_for before_attempt sync_to_node
                              materialize launch cancel retire).

Lemma walk_held candidates t w :
  NoDup (n_name <$> candidates) -> (forall n, n ∈ candidates -> n.(n_name) ∉ keys t) -> clean t -> running w = ∅ ->
  (forall n d, n ∈ candidates -> job_dir_for n = Ok d -> eligible n d) -> free w -> tries_ok t ->
  match walk_nodes candidates t w with
  | (Ok p, w') => left_at candidates p.(pl_entry) w' /\ tries_ok p.(pl_tries)
  | (Err e, w') => left_at candidates None w'
  end.
Proof using contract ledger.
  revert t w. induction candidates as [|n rest IH]; intros t w Hnd Hk Hc HR Hel Hf Ht; [split; [by left|done]|].
  apply NoDup_cons in Hnd as [Hn Hnd].
  pose proof (step_sound job_dir_for before_attempt sync_to_node materialize launch cancel retire running
    cfg a handoff perf_counter wall n t w (Hk n ltac:(set_solver)) Hc HR) as Hs.
  cbn [try_candidates]. unfold try_node in *.
  destruct (job_dir_for n) as [d|e] eqn:Hd; [|by left].
  destruct (before_attempt n d _ w) as [res w'] eqn:E. pose proof (tc_before _ _ _ _ _ _ E) as Hsub.
  assert (running w' = ∅) as Hw by set_solver.
  destruct (tl_before _ _ _ _ _ _ (Hel n d ltac:(set_solver) Hd) Hf HR (proj1 Ht) E) as [Hf' Hown].
  destruct res as [[[] spec]|e]; [|split; [by left|destruct (Hown _ _ eq_refl); split; [done|apply Ht]]|by left].
  destruct (Hown true spec eq_refl) as [Hspec Hheld]. specialize (Hheld eq_refl).
  assert (tries_ok (t <| tr_spec := spec |>)) as Ht'
    by (split; [done|apply Ht]).
  pose proof (held_ship n d _ w' Hheld Ht') as [Hh Hp].
  destruct (ship _ _ _ _ _ _ _ _ _ _ n d _ w') as [[t'|p|e] w'']; cbn in Hs, Hh, Hp.
  - destruct Hs as (Hw' & Hc' & Hk'). specialize (IH t' w'' Hnd).
    assert (match walk_nodes rest t' w'' with
      | (Ok p, w') => left_at rest p.(pl_entry) w' /\ tries_ok p.(pl_tries) | (Err e, w') => left_at rest None w' end) as Hrest.
    { apply IH; [|done..| |by eapply tl_free|done].
      - intros m Hm Hin. apply Hk' in Hin. apply elem_of_cons in Hin as [Heq | Hin].
        + apply Hn. apply list_elem_of_fmap. by exists m.
        + revert Hin. apply Hk. set_solver.
      - intros m e Hm. apply Hel. set_solver. }
    assert (forall o w3, left_at rest o w3 -> left_at (n :: rest) o w3) as Hmore.
    { intros o w3 [?|(m & e' & ? & ?)]; [by left|right]. exists m, e'. split; [set_solver|done]. }
    destruct (walk_nodes rest t' w'') as [[p|e] w3]; [destruct Hrest; split|]; auto.
  - split; [|apply Hp]. right. exists n, d. split; [set_solver|]. split; [done|]. split; [done|apply Hp].
  - right. exists n, d. split; [set_solver|done].
Qed.
End ledger.


(** ** A concrete cluster: the first launch is lost, the second one answers *)
Definition lab : Type := gset capsule * list launch_reply.
Definition lab_starts (reply : launch_reply) : bool :=
  match reply with
  | Answered code _ => negb (refused code)
  | LaunchEscaped (DispatchError _) => false
  | _ => true
  end.
Definition lab_launch (n : Node) (d : string) (_ : RunSpec) (_ : Z) (_ : option string) (w : lab) : launch_reply * lab :=
  let '(R, script) := w in
  let reply := default (Dropped "connection reset") (head script) in
  (reply, ((if lab_starts reply then {[ (n.(n_name), d) ]} ∪ R else R), tail script)).
Definition lab_cancel (n : Node) (d : string) (_ : option string) (w : lab) : option string * lab :=
  (None, (w.1 ∖ {[ (n.(n_name), d) ]}, w.2)).
Definition lab_before (_ : Node) (_ : string) (spec : RunSpec) (w : lab) : result (bool * RunSpec) * lab :=
  (Ok (true, spec), w).
Definition lab_sync (_ : Node) (w : lab) : shipped * lab := (Shipped "0f", w).
Definition lab_materialize (_ : JobEntry) (_ : Node) (_ : string) (w : lab)
  : result (option string * option string) * lab := (Ok (None, None), w).
Definition lab_retire (_ : Node) (_ : string) (w : lab) : result (option string) * lab := (Ok None, w).
Definition lab_dir (_ : Node) : result string := Ok "/data/dt/worker/jobs/j1".

#[export] Instance lab_contract :
  TryContract (fst : lab -> gset capsule) lab_before lab_sync lab_materialize lab_launch lab_cancel lab_retire.
Proof.
  split; unfold lab_before, lab_sync, lab_materialize, lab_retire, lab_cancel, lab_launch.
  - intros n d spec w res w' H. by simplify_eq.
  - intros n w res w' H. by simplify_eq.
  - intros p n d w res w' H. by simplify_eq.
  - intros n d w res w' H. by simplify_eq.
  - intros n d t w res w' H. simplify_eq. cbn. set_solver.
  - intros n d t w w' H. simplify_eq. cbn. set_solver.
  - intros n d spec r p [R script] res w' H. simplify_eq. cbn. destruct (lab_starts _); set_solver.
  - intros n d spec r p [R script] code res w' H Hr. injection H as H <-. cbn. rewrite H. cbn. by rewrite Hr.
  - intros n d spec r p [R script] message w' H. injection H as H <-. cbn. by rewrite H.
Qed.

Definition lab_site : HeadConfig :=
  {| c_center := "hub"; c_nodes := [mkNode "gpu-a" false false 1 None; mkNode "gpu-b" false false 0 None];
     disk_min_gib := 5; queue := {| max_my_jobs := None; reserve_free_per_node := 0 |};
     c_worker_root := "/data/dt"; c_layout := ROLE_LAYOUT |}.
Definition lab_attempt : Attempt := mkAttempt "j1" "dt_j1" 100 None (mkCheckout None false None).
Definition lab_script : list launch_reply := [Dropped "connection reset"; Answered 0 (inl [("pgid", JInt 41)])].

Definition lab_run : result Placed * lab :=
  _try_nodes lab_site lab_attempt None (fun _ => 0%Q) (fun _ => 120%Q) lab_dir lab_before lab_sync lab_materialize
    lab_launch lab_cancel lab_retire lab_site.(c_nodes) (new_spec "train" 1 ["python"; "train.py"])
    ((∅, lab_script) : lab).
Lemma lab_outcome :
  match lab_run with
  | (Ok p, w) => bool_decide ((node <$> p.(pl_entry)) = Some "gpu-b")
                 && bool_decide (w.1 = {[ ("gpu-b", "/data/dt/worker/jobs/j1") ]})
  | _ => false
  end = true.
Proof. vm_compute. reflexivity. Qed.

