(* ===== verification/Dispatch.v ===== *)
(** * Dispatching one queued job ([dispatch/queued.py])

    [_dispatch_queued_active] prepares the staged job, settles a claim left by
    an earlier attempt, probes, places, and writes the outcome back with the
    compare-and-swap of [_commit_queued_transition].

    A [Site] is the registry and the nodes.  The steps that leave the head
    (probing, shipping, launching, running a remote command) may return a site
    whose registry other processes have changed meanwhile.  The caller's row is
    mutated in the source; here each step returns the row it leaves. *)

From S2P Require Import Prelude Text PyValue Numerals Diagnostics Layout JobEntry RegistryCodec Lifecycle Registry ActiveIndex RegistryOps Config Probe RunSpec Placement Claim Contract Derive Recovery Launch.

(** ** Reasons *)
Definition _JOB_SPECIFIC : list string :=
  ["path-missing"; "disk-full"; "node-unfit"; "cache-missing"; "resource-mismatch"; "artifact-unverified"].
Definition blocked_not_busy (tried_reasons : list (string * string)) : bool :=
  negb (bool_decide (tried_reasons = []))
  && forallb (fun r => existsb (fun p => starts_with p r.2) _JOB_SPECIFIC) tried_reasons.
Definition reasons_detail (reasons : list (string * string)) : string :=
  join "; " ((fun r => r.1 +:+ ": " +:+ r.2) <$> reasons).
Definition waiting_unreachable_reason (reasons : list (string * string)) : string :=
  WAITING +:+ join "; " ((fun r => r.1 +:+ " unreachable: " +:+ r.2) <$> reasons).
Definition waiting_capacity_reason (reasons : list (string * string)) : string :=
  let detail := reasons_detail reasons in
  if bool_decide (detail = "") then "waiting: no free capacity"
  else "waiting: no free capacity (" +:+ detail +:+ ")".
Definition waiting_placement_failure_reason (reasons : list (string * string)) : string :=
  let detail := reasons_detail reasons in
  if bool_decide (detail = "") then "waiting: placement attempt failed"
  else "waiting: placement attempt failed (" +:+ detail +:+ ")".

(** [dict] of the probe's answers, one per node. *)
Definition reasons_by_node (fmt1 : Q -> string) (statuses : list NodeStatus) (spec : RunSpec)
  : list (string * string) :=
  fold_left (fun reasons s => dict_set s.(s_node) (probe_rejection_reason fmt1 s spec) reasons) statuses [].

(** ** Rows and nodes *)

(** The fields [_queued_node] passes on; a rebound node is not drained. *)
Definition _queued_node (cfg : HeadConfig) (entry : JobEntry) (n : Node) : Node :=
  if negb (bool_decide (entry.(storage_layout) = Some ROLE_LAYOUT)) then n
  else
    let persisted := or_text (assoc n.(n_name) entry.(worker_roots)) entry.(worker_root) in
    mkNode n.(n_name) n.(n_local) false n.(n_transfer_cost)
      (Some (if truthy persisted then text_or persisted else worker_root_for cfg n)).
Definition job_dir_for_node (cfg : HeadConfig) (entry : JobEntry) (n : Node) : result string :=
  if bool_decide (entry.(storage_layout) = Some ROLE_LAYOUT) then worker_job_dir cfg n entry.(job_id)
  else Ok entry.(job_dir).
Definition configured_node (cfg : HeadConfig) (name : string) : option Node :=
  List.find (fun n => bool_decide (n.(n_name) = name)) cfg.(c_nodes).

Definition unclaimed (entry : JobEntry) : JobEntry :=
  entry <| dispatch_node := None |> <| dispatch_token := None |> <| dispatch_owner := None |>
        <| dispatch_claimed_at := None |>.

(** The keys of a dictionary built from a list: first occurrences, in order. *)
Definition remove_later (names : list string) : list string :=
  fold_left (fun keys n => if bool_decide (n ∈ keys) then keys else keys ++ [n]) names [].

(** ** Sites *)
Record Site (W : Type) := mkSite { st_registry : registry; st_world : W }.
Arguments mkSite {W} _ _.
Arguments st_registry {W} _.
Arguments st_world {W} _.

Definition D (W A : Type) : Type := Site W -> result A * Site W.
#[export] Instance D_ret {W} : MRet (D W) := fun A a s => (Ok a, s).
#[export] Instance D_bind {W} : MBind (D W) := fun A B f m s =>
  match m s with
  | (Ok a, s') => f a s'
  | (Err e, s') => (Err e, s')
  end.
Definition on_registry {W A} (m : M A) : D W A := fun s =>
  let '(res, r) := m s.(st_registry) in (res, mkSite r s.(st_world)).
Definition raising {W A} (x : result A) : D W A := fun s => (x, s).
Definition on_nodes {W A} (f : Site W -> A * Site W) : D W A := fun s => let '(x, s) := f s in (Ok x, s).

(** What the head observes of a staged job. *)
Inductive staged_code := CodeDirectory | CodeSymlink | CodeMissing.
Record StageView := mkStageView {
  sv_code : staged_code;
  sv_repair : option string;
  sv_payload_dir : option string;
  sv_complete : bool;
  sv_payload : string + string;
  sv_runtime : string;
  sv_stored_runtime : option string;
  sv_bundle : option string;
}.
(** The stage to dispatch from, or what ends the dispatch. *)
Inductive prepared_stage :=
  | StageReady (spec : RunSpec)
  | StageUnusable (detail : string)
  | StageInterrupted.

Section dispatch.
Context (encoded_size : json -> nat) (index_writable : bool) (fmt1 : Q -> string).
Context (sha256_hexdigest : list Ascii.ascii -> string) (py_repr : string -> string).
Context {W : Type} (cfg : HeadConfig) (h : HeadView) (now : Q).
(** Whether the disk takes a write, the admission lock, the token of an
    attempt, and the failure, if any, to bind a receipt to it. *)
Context (writable : Site W -> bool) (admission_lock : Site W -> string + bool) (new_token : Site W -> string)
  (proof_error : JobEntry -> Node -> string -> string -> Site W -> option string).
Context (run_on : string -> bool -> remote_command -> Site W -> remote_reply * Site W).
Context (stage_view : JobEntry -> Site W -> StageView * Site W).
Context (_probe_pinned_node : Node -> Site W -> NodeStatus * Site W)
  (probe_center : Site W -> list NodeStatus * Site W).
Context (sync_to_node : JobEntry -> Node -> string -> Site W -> shipped * Site W)
  (materialize : JobEntry -> Node -> string -> Site W -> result (option string * option string) * Site W)
  (launch : JobEntry -> Node -> string -> RunSpec -> Z -> option string -> Site W -> launch_reply * Site W)
  (perf_counter wall : Site W -> Q).

Definition commit (entry : JobEntry) (persist : bool) (expected : option attempt)
  : D W (option JobEntry * JobEntry) := fun s =>
  on_registry (_commit_queued_transition encoded_size index_writable now (writable s) entry persist expected) s.

(** An outcome and the caller's row. *)
Abbreviation dispatched_row := (outcome * JobEntry)%type.
Definition existing (entry : JobEntry) : dispatched_row := (_existing_dispatch_outcome entry, entry).

(** Commit, and report the row that replaced this one, if any. *)
Definition commit_or (entry : JobEntry) (persist : bool) (expected : option attempt) (o : outcome)
  : D W dispatched_row :=
  committed ← commit entry persist expected;
  match committed with
  | (Some current, _) => mret (existing current)
  | (None, entry) => mret (o, entry)
  end.

(** ** Publishing a placed job *)
Definition with_provenance (entry placed : JobEntry) : JobEntry :=
  placed <| git_sha := entry.(git_sha) |> <| git_dirty := entry.(git_dirty) |>
         <| submodule_commits := entry.(submodule_commits) |>.

(** The row of a launch whose job was dequeued meanwhile. *)
Definition settle_raced (current placed : JobEntry) : D W dispatched_row := fun s =>
  if bool_decide (placed.(status) = Finished) then
    (restored ← on_registry (_restore_finished_after_raced_dequeue encoded_size index_writable now (writable s) placed);
     mret (existing restored)) s
  else
    match _cancel_placed_launch sha256_hexdigest py_repr run_on placed s with
    | (Some cancel_error, s) =>
        (restored ← on_registry (_restore_running_after_cancel_failure encoded_size index_writable now (writable s)
                                   placed cancel_error);
         mret (if bool_decide (restored.(status) = Running)
               then (("cancel-failed", Some (placed.(node) +:+ ": " +:+ cancel_error)), restored)
               else existing restored)) s
    | (None, s) =>
        (recorded ← on_registry (_record_cancelled_inflight_launch encoded_size index_writable now (writable s)
                                   current placed);
         mret (if bool_decide (recorded.(status) = Killed) then (("killed", Some placed.(node)), recorded)
               else existing recorded)) s
    end.

Definition _finish_queued_placement (entry placed : JobEntry) : D W dispatched_row :=
  committed ← commit (with_provenance entry placed) true (Some (attempt_of entry));
  match committed with
  | (Some current, placed) =>
      if bool_decide (current.(status) = Killed) then settle_raced current placed else mret (existing current)
  | (None, placed) => mret (existing placed)
  end.

(** ** A claim left by an earlier attempt *)
Definition blocked_recovery (entry : JobEntry) (detail : string) : D W (option outcome * JobEntry) :=
  row ← commit_or (entry <| reason := Some ("blocked: " +:+ detail) |>) true None ("blocked", Some detail);
  mret (Some row.1, row.2).

(** The stale claim is cleared: [None] when placement may proceed. *)
Definition release_claim (entry : JobEntry) : D W (option outcome * JobEntry) :=
  committed ← commit (unclaimed entry <| reason := None |>) true (Some (attempt_of entry));
  match committed with
  | (Some current, _) => mret (Some (_existing_dispatch_outcome current), current)
  | (None, entry) => mret (None, entry)
  end.

Definition recover_on (entry : JobEntry) (configured : Node) : D W (option outcome * JobEntry) :=
  let attempted_node := _queued_node cfg entry configured in
  node_job_dir ← raising (job_dir_for_node cfg entry attempted_node);
  adopted ← _adopt_interrupted_queued_launch sha256_hexdigest py_repr run_on cfg entry attempted_node node_job_dir now;
  match adopted with
  | (Some placed, _) => row ← _finish_queued_placement entry placed; mret (Some row.1, row.2)
  | (None, Some recovery_error) =>
      blocked_recovery entry ("dispatch recovery unverified on " +:+ attempted_node.(n_name) +:+ ": " +:+ recovery_error)
  | (None, None) => release_claim entry
  end.

Definition _recover_claimed_dispatch (entry : JobEntry) : D W (option outcome * JobEntry) :=
  match _dispatch_claim_hold_reason h now entry with
  | Some hold_reason => mret (Some ("waiting", Some hold_reason), entry)
  | None =>
      match configured_node cfg (default "" entry.(dispatch_node)) with
      | None =>
          blocked_recovery entry ("previous dispatch node " +:+ default "None" (py_repr <$> entry.(dispatch_node))
            +:+ " is no longer configured; recovery cannot prove the remote attempt absent")
      | Some configured => recover_on entry configured
      end
  end.

(** [None] once the attempt a queued row still carries is proven cancelled. *)
Definition cancel_queued_attempt (entry : JobEntry) : D W (option string) :=
  match entry.(dispatch_node) with
  | None => mret None
  | Some name =>
      match configured_node cfg name with
      | None => mret (Some ("dispatch node " +:+ py_repr name +:+ " is no longer configured"))
      | Some configured =>
          let n := _queued_node cfg entry configured in
          node_job_dir ← raising (job_dir_for_node cfg entry n);
          on_nodes (_cancel_orphan sha256_hexdigest py_repr run_on n node_job_dir entry.(session)
                      entry.(storage_layout) entry.(dispatch_token))
      end
  end.

(** ** Preparing the staged job *)
Definition is_role_row (entry : JobEntry) : bool := bool_decide (entry.(storage_layout) = Some ROLE_LAYOUT).
Definition stage_problem (entry : JobEntry) (v : StageView) : option string :=
  match v.(sv_code) with
  | CodeSymlink => Some "staging snapshot is an unsafe symlink"
  | CodeMissing => Some (if is_role_row entry then "archived queue snapshot missing" else "staging snapshot missing")
  | CodeDirectory =>
      match v.(sv_repair) with
      | Some detail => Some detail
      | None => if is_role_row entry && truthy entry.(payload_sha256) then v.(sv_payload_dir) else None
      end
  end.

(** [None] when a concurrent transition replaced the row. *)
Definition learn_payload (entry : JobEntry) (payload : string) : D W (bool * JobEntry) :=
  committed ← commit (entry <| payload_sha256 := Some payload |>) true None;
  match committed with
  | (Some current, _) => mret (false, current)
  | (None, entry) => mret (true, entry)
  end.

(** The payload the row records is the staged one: the detail of a mismatch,
    or whether the row still is this dispatcher's. *)
Definition check_payload (entry : JobEntry) (v : StageView) : D W ((string + bool) * JobEntry) :=
  if truthy entry.(payload_sha256) || v.(sv_complete) then
    match v.(sv_payload), entry.(payload_sha256) with
    | inr message, _ => mret (inl ("staged dt payload cannot be read: " +:+ message), entry)
    | inl observed, Some expected =>
        if bool_decide (observed = expected) then mret (inr true, entry)
        else mret (inl ("staged dt payload changed after submission: expected " +:+ expected
                        +:+ ", observed " +:+ observed), entry)
    | inl observed, None => learned ← learn_payload entry observed; mret (inr learned.1, learned.2)
    end
  else mret (inr true, entry).
(** [_refresh_queued_payload]: launch with this head's runtime payload. *)
Definition _refresh_queued_payload (entry : JobEntry) (v : StageView) : D W (bool * JobEntry) :=
  if is_role_row entry && truthy entry.(payload_sha256) && negb (bool_decide (Some v.(sv_runtime) = entry.(payload_sha256)))
  then match v.(sv_stored_runtime) with
       | Some message => raising (Err (DispatchError message))
       | None => learn_payload entry v.(sv_runtime)
       end
  else mret (true, entry).

(** The spec the job is launched with, with the floor of this head. *)
Definition stage_spec (entry : JobEntry) : result (RunSpec + string) :=
  spec ← _queued_run_spec entry;
  let floor := Z.max cfg.(disk_min_gib) (default 0 spec.(sp_require_disk_gib)) in
  match _validate_run_spec (spec <| sp_require_disk_gib := if floor =? 0 then None else Some floor |>) with
  | Ok spec => Ok (inl spec)
  | Err (ConfigError message) => Ok (inr message)
  | Err e => Err e
  end.

Definition _prepare_queued_stage (entry : JobEntry) : D W (prepared_stage * JobEntry) := fun s =>
  let '(v, s) := stage_view entry s in
  match stage_problem entry v with
  | Some detail => (Ok (StageUnusable detail, entry), s)
  | None =>
      (checked ← check_payload entry v;
       match checked with
       | (inl detail, entry) => mret (StageUnusable detail, entry)
       | (inr false, entry) => mret (StageInterrupted, entry)
       | (inr true, entry) =>
           refreshed ← _refresh_queued_payload entry v;
           let '(own, entry) := refreshed in
           if negb own then mret (StageInterrupted, entry)
           else
             spec ← raising (stage_spec entry);
             mret (match spec with
                   | inr detail => StageUnusable detail
                   | inl spec => if is_role_row entry
                                 then match v.(sv_bundle) with Some detail => StageUnusable detail
                                                             | None => StageReady spec end
                                 else StageReady spec
                   end, entry)
       end) s
  end.

(** ** Outcomes of a placement *)
Definition fail (entry : JobEntry) (detail : string) : D W dispatched_row :=
  commit_or (entry <| status := Failed |> <| reason := Some detail |>) true None ("failed", Some detail).

Definition hold (entry : JobEntry) (reason_ : string) (o : outcome) (probe_reasons : option (list (string * string)))
  : D W dispatched_row :=
  let changed := negb (bool_decide (entry.(reason) = Some reason_)) in
  let entry := entry <| reason := Some reason_ |> in
  match probe_reasons with
  | Some reasons =>
      if bool_decide (o.1 ∈ ["blocked"; "unreachable"])
      then commit_or (_note_placement_attempt entry (placement_pattern_of reasons o.1) now) true None o
      else commit_or entry changed None o
  | None => commit_or entry changed None o
  end.

(** The row of a fatal failure on the last node tried. *)
Definition failed_row (entry : JobEntry) (candidates : list Node) (node_name bad : string) (uncertain : bool)
  : result JobEntry :=
  let n := default (mkNode node_name false false 1 None)
             (List.find (fun c => bool_decide (c.(n_name) = node_name)) candidates) in
  let entry := entry <| status := Failed |> <| node := node_name |> <| node_local := n.(n_local) |>
                     <| finished_at := Some now |>
                     <| reason := Some (if uncertain then UNCERTAIN_LAUNCH_PREFIX +:+ bad else bad) |> in
  if is_role_row entry
  then dir ← worker_job_dir cfg n entry.(job_id);
       Ok (entry <| worker_root := Some (worker_root_for cfg n) |> <| job_dir := dir |>)
  else Ok entry.
(** [list(reasons)[-1]] raises [IndexError], a [LookupError], on an empty
    dictionary. *)
Definition _fail_queued_placement (entry : JobEntry) (candidates : list Node) (reasons : list (string * string))
    (uncertain : bool) (owned_attempt : attempt) : D W dispatched_row :=
  node_name ← raising (match last reasons with
                       | Some r => Ok r.1
                       | None => Err (KeyError "list index out of range")
                       end);
  failed ← raising (failed_row entry candidates node_name (reasons_detail reasons) uncertain);
  commit_or failed true (Some owned_attempt) ("failed", failed.(reason)).

Definition settle (entry : JobEntry) (reasons : list (string * string)) (failures_changed : bool)
    (owned_attempt : attempt) (reason_ : string) (o : outcome) : D W dispatched_row :=
  let changed := negb (bool_decide (entry.(reason) = Some reason_)) || failures_changed in
  let entry := if changed then entry <| reason := Some reason_ |> else entry in
  if bool_decide (reasons = []) then commit_or entry changed (Some owned_attempt) o
  else commit_or (_note_placement_attempt entry (placement_pattern_of reasons o.1) now) true (Some owned_attempt) o.

(** ** Claiming and launching *)

(** The row travels with the site through the candidate loop. *)
Definition record_attempt (n : Node) (node_job_dir : string) (spec : RunSpec) (es : JobEntry * Site W)
  : result (bool * RunSpec) * (JobEntry * Site W) :=
  let '(entry, s) := es in
  let token := new_token s in
  let '(res, r) := _claim_queued_dispatch_attempt encoded_size index_writable cfg h now (writable s)
                     (admission_lock s) (proof_error entry n node_job_dir token s) entry
                     spec.(sp_dispatch_token) n.(n_name) token s.(st_registry) in
  let s := mkSite r s.(st_world) in
  match res with
  | Ok claim => (Ok (claim.(won), spec <| sp_dispatch_token := claim.(cl_token) |>), (claim.(cl_entry), s))
  | Err e => (Err e, (entry, s))
  end.

(** A step of the loop that leaves the row alone. *)
Definition aside {A} (f : JobEntry -> Site W -> A * Site W) (es : JobEntry * Site W) : A * (JobEntry * Site W) :=
  let '(x, s) := f es.1 es.2 in (x, (es.1, s)).

Definition orphan_layout : option string :=
  if bool_decide (cfg.(c_layout) = ROLE_LAYOUT) then Some cfg.(c_layout) else None.
Definition attempt_about (entry : JobEntry) : Attempt :=
  mkAttempt entry.(job_id) entry.(session) entry.(created_at) entry.(payload_sha256)
    (mkCheckout entry.(git_sha) entry.(git_dirty) entry.(submodule_commits)).

Definition launch_candidates (entry : JobEntry) (handoff : option JobEntry) (candidates : list Node)
    (spec : RunSpec) (s : Site W) : result Placed * (JobEntry * Site W) :=
  _try_nodes cfg (attempt_about entry) handoff (fun es => perf_counter es.2) (fun es => wall es.2)
    (job_dir_for_node cfg entry) record_attempt
    (fun n => aside (fun e s => match job_dir_for_node cfg entry n with
                                | Ok dir => sync_to_node e n dir s
                                | Err x => (ShipEscaped x, s)
                                end))
    (fun p n dir => aside (fun _ => materialize p n dir))
    (fun n dir spec reserve predecessor_dir => aside (fun e => launch e n dir spec reserve predecessor_dir))
    (fun n dir token => aside (fun _ => _cancel_orphan sha256_hexdigest py_repr run_on n dir entry.(session)
                                          orphan_layout token))
    (fun n dir => aside (fun _ => _retire_stale_launch_identity sha256_hexdigest py_repr run_on n dir entry.(session)
                                    (Some cfg.(c_layout))))
    candidates spec (entry, s).

(** What the placement loop left behind. *)
Definition conclude_placement (entry : JobEntry) (candidates : list Node) (probe_reasons : list (string * string))
    (p : Placed) : D W dispatched_row :=
  let reasons := p.(pl_tries).(tr_reasons) in
  let kinds := p.(pl_tries).(tr_kinds) in
  match p.(pl_entry) with
  | Some placed => _finish_queued_placement entry placed
  | None =>
      if bool_decide ("interrupted" ∈ kinds) then
        mret (if bool_decide (entry.(status) = Queued) then
                match entry.(dispatch_node) with
                | Some n => (("waiting", Some ("dispatch already active on " +:+ n)), entry)
                | None => (("waiting", Some (removeprefix WAITING
                             (or_str entry.(reason) "waiting: scheduler admission deferred"))), entry)
                end
              else existing entry)
      else
        let failures_changed := negb (bool_decide (entry.(placement_failures) = reasons)) in
        let owned_attempt := attempt_of entry in
        let entry := unclaimed (entry <| placement_failures := reasons |>) in
        if p.(pl_fatal)
        then _fail_queued_placement entry candidates reasons (bool_decide ("cancel-unverified" ∈ kinds)) owned_attempt
        else
          let settle := settle entry reasons failures_changed owned_attempt in
          if bool_decide (kinds = {[ "unreachable" ]}) then settle (waiting_unreachable_reason reasons) ("busy", None)
          else if blocked_not_busy reasons
          then settle ("blocked: " +:+ reasons_detail reasons) ("blocked", Some (reasons_detail reasons))
          else settle (if bool_decide (reasons = []) then waiting_capacity_reason probe_reasons
                       else waiting_placement_failure_reason reasons) ("busy", None)
  end.

Definition predecessor_row (spec : RunSpec) : D W (option JobEntry) :=
  if truthy spec.(sp_after_success) then on_registry (load now (text_or spec.(sp_after_success))) else mret None.
Definition launch_and_conclude (entry : JobEntry) (spec : RunSpec) (probe_reasons : list (string * string))
    (candidates : list Node) (loaded : option JobEntry) : D W dispatched_row := fun s =>
  match launch_candidates entry (handoff_predecessor spec loaded) candidates spec s with
  | (Err (DispatchError message), (entry, s)) => fail entry message s
  | (Err e, (_, s)) => (Err e, s)
  | (Ok p, (entry, s)) => conclude_placement entry candidates probe_reasons p s
  end.
Definition place_on (entry : JobEntry) (spec : RunSpec) (probe_reasons : list (string * string))
    (candidates : list Node) : D W dispatched_row :=
  loaded ← predecessor_row spec;
  launch_and_conclude entry spec probe_reasons (_queued_node cfg entry <$> candidates) loaded.

(** ** The whole dispatch *)
Definition gather_statuses (spec : RunSpec) (statuses : option (list NodeStatus))
  : D W (option (list NodeStatus)) := fun s =>
  match pinned spec with
  | Some pin =>
      match by_name cfg.(c_nodes) !! pin with
      | None => (Ok None, s)
      | Some n =>
          match List.filter (fun st => bool_decide (st.(s_node) = pin)) (default [] statuses) with
          | [] => let '(st, s) := _probe_pinned_node n s in (Ok (Some [st]), s)
          | carried => (Ok (Some carried), s)
          end
      end
  | None =>
      match statuses with
      | Some statuses => (Ok (Some statuses), s)
      | None => let '(statuses, s) := probe_center s in (Ok (Some statuses), s)
      end
  end.

Definition place (entry : JobEntry) (spec : RunSpec) (reserved_nodes : gset string) (statuses : list NodeStatus)
  : D W dispatched_row :=
  let probe_reasons := drained_probe_reasons cfg spec (reasons_by_node fmt1 statuses spec) in
  match pick_candidates statuses cfg.(c_nodes) spec (_reserve_for cfg spec) reserved_nodes with
  | Err (ConfigError message) => fail entry message
  | Err e => raising (Err e)
  | Ok candidates =>
      if negb (bool_decide (statuses = [])) && forallb s_unreachable statuses then
        hold entry (waiting_unreachable_reason probe_reasons)
          (match spec.(sp_node) with
           | Some _ => ("unreachable", Some (reasons_detail probe_reasons))
           | None => ("busy", None)
           end) (Some probe_reasons)
      else
        match (if pin_is_busy statuses spec then [] else candidates) with
        | [] =>
            if blocked_not_busy probe_reasons
            then hold entry ("blocked: " +:+ reasons_detail probe_reasons)
                   ("blocked", Some (reasons_detail probe_reasons)) (Some probe_reasons)
            else hold entry (waiting_capacity_reason probe_reasons) ("busy", None) None
        | candidates => place_on entry spec probe_reasons candidates
        end
  end.

Definition dispatch_stage (entry : JobEntry) (spec : RunSpec) (statuses : option (list NodeStatus))
    (reserved_nodes : gset string) : D W dispatched_row :=
  probed ← gather_statuses spec statuses;
  match probed with
  | None => fail entry ("unknown node " +:+ py_repr (text_or spec.(sp_node)) +:+ "; configured: ["
                    +:+ join ", " (py_repr <$> remove_later (n_name <$> cfg.(c_nodes))) +:+ "]")
  | Some probed =>
      statuses ← on_registry (_reserve_inflight_claims encoded_size index_writable h now entry probed);
      place entry spec reserved_nodes statuses
  end.

Definition _dispatch_queued_active (entry : JobEntry) (statuses : option (list NodeStatus))
    (reserved_nodes : gset string) : D W dispatched_row :=
  stage ← _prepare_queued_stage entry;
  match stage with
  | (StageUnusable detail, entry) => fail entry detail
  | (StageInterrupted, entry) => mret (existing entry)
  | (StageReady spec, entry) =>
      match entry.(dispatch_node) with
      | Some _ =>
          recovered ← _recover_claimed_dispatch entry;
          match recovered with
          | (Some o, entry) => mret (o, entry)
          | (None, entry) => dispatch_stage entry spec statuses reserved_nodes
          end
      | None => dispatch_stage entry spec statuses reserved_nodes
      end
  end.
End dispatch.
