(* ===== verification/DispatchFacts.v ===== *)
(** * Rows, claims and capsules during a dispatch

    What a queued transition writes of the fields that say where a job may be
    running, and the invariant a dispatch keeps: while a capsule of the job may
    be running on a node, the stored row is queued under this dispatcher's
    attempt on that node. *)

From S2P Require Import Prelude Text PyValue Diagnostics Layout JobEntry RegistryCodec CodecFacts CodecSound CodecSpec CodecCanonical Lifecycle Registry ActiveIndex RegistryOps RegistryFacts RegistrySpec Config Probe RunSpec Placement Scheduler Claim ClaimSpec GateSpec Contract Derive Recovery Launch LaunchSpec Dispatch.

(** ** Where a row says its job is *)
Record same_place (a b : JobEntry) : Prop := {
  sp_id : b.(job_id) = a.(job_id);
  sp_status : b.(status) = a.(status);
  sp_attempt : attempt_of b = attempt_of a;
  sp_node_name : b.(node) = a.(node);
  sp_dir : b.(job_dir) = a.(job_dir);
  sp_roots : b.(worker_root) = a.(worker_root) /\ b.(worker_roots) = a.(worker_roots);
}.
Lemma same_place_trans a b c : same_place a b -> same_place b c -> same_place a c.
Proof. intros [? ? ? ? ? [? ?]] [? ? ? ? ? [? ?]]. split; [congruence..|split; congruence]. Qed.
Lemma canonical_same_place e : same_place e (canonical e) /\ (canonical e).(storage_layout) = e.(storage_layout).
Proof. rewrite canonical_flat. by repeat split. Qed.
Lemma complete_same_place t e :
  same_place e (complete t e) /\ (is_Some e.(storage_layout) -> (complete t e).(storage_layout) = e.(storage_layout)).
Proof. rewrite complete_eq. repeat split; try done. by intros [l E]; cbn; rewrite E. Qed.

(** The fields that decide the directory of a queued job on a node. *)
Definition layout_of (e : JobEntry) := (e.(storage_layout), e.(job_dir), e.(worker_root), e.(worker_roots)).

Lemma place_layout a b :
  same_place a b -> b.(storage_layout) = a.(storage_layout) -> layout_of b = layout_of a.
Proof. intros [? ? ? ? ? [? ?]] ?. unfold layout_of. congruence. Qed.

(** What survives of a row that replaces a stored one. *)
Definition kept (current cand e : JobEntry) : Prop :=
  same_place cand e /\ (current.(storage_layout) = cand.(storage_layout) -> e.(storage_layout) = cand.(storage_layout)).

(** Only a queued row carries a claim. *)
Definition claim_queued (e : JobEntry) : Prop := is_Some e.(dispatch_node) -> e.(status) = Queued.
Lemma wf_claim_queued e : wf_entry e -> claim_queued e.
Proof.
  intros Hwf Hs. pose proof (wf_provenance _ Hwf) as Hp. unfold valid_provenance in Hp.
  rewrite !andb_true_iff in Hp. destruct Hp as [[[_ Hq] _] _]. rewrite bool_decide_true in Hq by exact Hs.
  by apply bool_decide_eq_true in Hq.
Qed.

Lemma transition_same_place entry st rs reason_ fin now settled :
  transition_terminal entry st rs reason_ fin now = Ok settled -> status_of_name st = Some entry.(status) ->
  same_place entry settled /\ settled.(storage_layout) = entry.(storage_layout) /\ settled.(reason) = reason_.
Proof.
  intros H Hst. unfold transition_terminal in H. rewrite Hst in H.
  apply bind_raise_ok in H as [_ H]. destruct (result_of_name rs); [|done]. injection H as <-. by repeat split.
Qed.
Lemma settle_same_place now cand settled :
  settle_candidate now cand = Ok settled ->
  same_place cand settled /\ settled.(storage_layout) = cand.(storage_layout) /\ settled.(reason) = cand.(reason).
Proof.
  unfold settle_candidate. cbv zeta. intros H.
  destruct (bool_decide (cand.(status) = Failed) && _) eqn:H1.
  { apply andb_true_iff in H1 as [H1%bool_decide_eq_true _]. eapply transition_same_place; [exact H|by rewrite H1]. }
  destruct (bool_decide (cand.(status) = Skipped) && _) eqn:H2.
  { apply andb_true_iff in H2 as [H2%bool_decide_eq_true _]. eapply transition_same_place; [exact H|by rewrite H2]. }
  injection H as <-. by repeat split.
Qed.

Section rows.
Context (size : json -> nat) (ok : bool) (now : Q) (writable : bool).

(** The row the save replaces is the one a reader finds. *)
Lemma saved_existing entry r out r' existing row s cur :
  saved size now entry r out r' existing row s ->
  load now entry.(job_id) r = (Ok (Some cur), r) -> existing = Some cur.
Proof.
  intros [Hid Hex _ _ _ _ _]. rewrite load_eq, Hid. destruct existing as [e|].
  - destruct Hex as [-> He]. rewrite He. by intros [= ->].
  - destruct Hex as [-> _]. done.
Qed.

Lemma load_layout jid r e r' : load now jid r = (Ok (Some e), r') -> is_Some e.(storage_layout).
Proof using Type.
  rewrite load_eq. destruct (valid_job_id jid); [|done]. destruct (authority r jid) as [[s|]|]; [|done..].
  destruct (_read_entry_path now s jid true r) as [e'|] eqn:E; [|done]. intros [= <- _].
  by apply read_entry_wf in E as (_ & _ & _ & ? & _).
Qed.

Lemma save_place cand r cur out r' :
  unique_keys cand -> load now cand.(job_id) r = (Ok (Some cur), r) -> save size ok now writable cand r = (Ok out, r') ->
  kept cur cand out /\ unique_keys out /\
  row_sat r' cand.(job_id) (fun e => kept cur cand e /\ claim_queued e /\ e.(reason) = excerpt MAX_JOB_DIAGNOSTIC_CHARS <$> cand.(reason)).
Proof.
  intros Hu Hl H. apply save_inv in H as (existing & row & s & S).
  pose proof (saved_existing _ _ _ _ _ _ _ _ S Hl) as ->.
  destruct (saved_row_fields _ _ _ _ _ _ _ _ _ S) as [Hrow _].
  destruct (saved_out size now cand r out r' _ row s S Hu) as (_ & _ & Huo).
  assert (same_place cand row) as Hp by (rewrite Hrow; by repeat split).
  assert (row.(reason) = excerpt MAX_JOB_DIAGNOSTIC_CHARS <$> cand.(reason)) as Hr by (rewrite Hrow; reflexivity).
  destruct (sv_row _ _ _ _ _ _ _ _ _ S) as (filled & persisted & -> & Hper & Hbound & Hout & _).
  set (filled := fill_layout r.(head_role) (Some cur) cand) in *.
  assert (same_place cand filled /\ (cur.(storage_layout) = cand.(storage_layout) ->
    filled.(storage_layout) = cand.(storage_layout))) as [Hf Hfl].
  { unfold filled, fill_layout. destruct (cand.(storage_layout)) eqn:E; cbn; [by repeat split|].
    by repeat split. }
  assert (row.(storage_layout) = filled.(storage_layout)) as Hsl.
  { rewrite Hbound. destruct (filled.(custom_env_loaded)); cbn.
    - unfold stamp. cbn. by destruct (filled.(custom_env_loaded)).
    - unfold persisted_row in Hper. destruct (filled.(custom_env_loaded)); [by injection Hper as <-|].
      apply bind_raise_ok in Hper as [_ [= <-]]. done. }
  split; [|split; [exact Huo|]].
  - rewrite Hout. destruct (filled.(custom_env_loaded)) eqn:E; [split; [done|by rewrite Hsl]|].
    assert (stamp now filled = filled <| updated_at := Some now |>) as -> by (unfold stamp; cbn; by rewrite E).
    split; [eapply same_place_trans; [exact Hf|by repeat split]|exact Hfl].
  - intros now'. exists (complete (Some now) (canonical row)).
    destruct (saved_load _ _ _ _ _ _ _ _ _ now' Hu S) as [Hload Hwf]. split; [exact Hload|].
    destruct (canonical_same_place row) as [C1 C2], (complete_same_place (Some now) (canonical row)) as [D1 D2].
    split; [split|split].
    + eapply same_place_trans; [exact Hp|]. by eapply same_place_trans.
    + intros E. rewrite D2; rewrite C2, Hsl, (Hfl E); [done|]. rewrite <- E. exact (load_layout _ _ _ _ Hl).
    + intros Hs. rewrite (sp_status _ _ D1). apply wf_claim_queued; [exact Hwf|].
      pose proof (sp_attempt _ _ D1) as Ha. unfold attempt_of in Ha. by injection Ha as <- _.
    + rewrite complete_eq, canonical_flat. exact Hr.
Qed.

Lemma settle_unique cand settled : settle_candidate now cand = Ok settled -> unique_keys cand -> unique_keys settled.
Proof using Type. intros H. by apply settle_fields in H as (_ & _ & _ & ?). Qed.

(** A commit writes nothing and loses, changes nothing because nothing was to
    be written, or replaces the queued row of the expected attempt. *)
Lemma commit_cases cand persist expected r res r' :
  unique_keys cand -> _commit_queued_transition size ok now writable cand persist expected r = (res, r') ->
  (same_rows r r' /\ forall x, res <> Ok (None, x)) \/
  (r' = r /\ persist = false /\ exists x, res = Ok (None, x) /\ same_place cand x /\ x.(storage_layout) = cand.(storage_layout) /\ unique_keys x) \/
  (exists cur saved, load now cand.(job_id) r = (Ok (Some cur), r) /\ cur.(status) = Queued /\
     attempt_of cur = default (attempt_of cand) expected /\ res = Ok (None, saved) /\
     kept cur cand saved /\ unique_keys saved /\
     row_sat r' cand.(job_id) (fun e => kept cur cand e /\ claim_queued e /\
                                        e.(reason) = excerpt MAX_JOB_DIAGNOSTIC_CHARS <$> cand.(reason))).
Proof using Type.
  intros Hu. unfold _commit_queued_transition, mbind, M_bind, lift.
  destruct (settle_candidate now cand) as [settled|x] eqn:Hs;
    [|intros [= <- <-]; left; by split; [apply same_rows_refl|]].
  pose proof (settle_unique _ _ Hs Hu) as Hus. destruct (settle_same_place _ _ _ Hs) as (Hp & Hsl & Hr).
  pose proof (sp_id _ _ Hp) as Hid. rewrite Hid.
  destruct (load now cand.(job_id) r) as [[[cur|]|x] r1] eqn:Hl; pose proof (load_ok _ _ _ _ _ Hl) as ->;
    [|intros [= <- <-]; left; by split; [apply same_rows_refl|]..].
  destruct (bool_decide (cur.(status) = Queued)) eqn:Hq; cbn [negb];
    [|intros [= <- <-]; left; by split; [apply same_rows_refl|]].
  apply bool_decide_eq_true in Hq. rewrite (sp_attempt _ _ Hp).
  case_bool_decide as Ha; cbn [negb]; [|intros [= <- <-]; left; by split; [apply same_rows_refl|]].
  destruct persist; [|intros [= <- <-]; right; left; split; [done|]; split; [done|by exists settled]].
  destruct (save size ok now writable settled r) as [[saved|x] r2] eqn:Hsave; intros [= <- <-].
  - right. right. exists cur, saved. rewrite <- Hid in Hl.
    destruct (save_place _ _ _ _ _ Hus Hl Hsave) as ([Hk1 Hk2] & Hu' & Hrow). rewrite Hid in Hl, Hrow.
    split_and!; [done..| |done|].
    + split; [by eapply same_place_trans|]. by rewrite <- Hsl.
    + intros now'. destruct (Hrow now') as (e & He & [He1 He2] & Hcq & Her). exists e. split; [done|].
      split; [split; [by eapply same_place_trans|by rewrite <- Hsl]|]. split; [done|by rewrite <- Hr].
  - left. split; [|done]. by eapply save_err.
Qed.

(** A commit of the attempt the stored row carries is not refused. *)
Lemma commit_not_refused cand persist expected r cur x r' (P : JobEntry -> Prop) :
  row_sat r cand.(job_id) P ->
  (forall e, P e -> e.(status) = Queued /\ attempt_of e = default (attempt_of cand) expected) ->
  _commit_queued_transition size ok now writable cand persist expected r <> (Ok (Some cur, x), r').
Proof using Type.
  intros F HP. unfold _commit_queued_transition, mbind, M_bind, lift.
  destruct (settle_candidate now cand) as [settled|] eqn:Hs; [|done].
  destruct (settle_same_place _ _ _ Hs) as (Hp & _). rewrite (sp_id _ _ Hp), (sp_attempt _ _ Hp).
  destruct (F now) as (e & -> & He). destruct (HP e He) as [Hq Ha].
  rewrite !bool_decide_true by done. cbn [negb]. destruct persist; [|done].
  by destruct (save size ok now writable settled r) as [[]].
Qed.
End rows.

(** ** The directory of a queued job does not move *)
Section layout.
Context (size : json -> nat) (ok : bool) (jid : string).
Abbreviation layout := (option string * string * option string * list (string * string))%type.
Context (l : layout).

Definition layout_fixed (r : registry) : Prop :=
  forall now e r', load now jid r = (Ok (Some e), r') -> e.(status) = Queued -> layout_of e = l.
(** The stored row is queued under attempt [a]. *)
Definition queued_as (a : attempt) (e : JobEntry) : Prop :=
  e.(status) = Queued /\ attempt_of e = a /\ layout_of e = l.

Lemma fixed_same r r' : same_rows r r' -> layout_fixed r -> layout_fixed r'.
Proof.
  intros Hs H now e r1 Hl. pose proof (same_rows_load now r r' jid Hs) as Heq. rewrite Hl in Heq.
  apply (H now e (load now jid r).2). destruct (load now jid r). cbn in *. by subst.
Qed.
Lemma fixed_row r : row_sat r jid (fun e => e.(status) = Queued -> layout_of e = l) -> layout_fixed r.
Proof. intros H now e r' Hl. destruct (H now) as (e' & Hl' & He). rewrite Hl in Hl'. by injection Hl' as <- _. Qed.

Lemma row_sat_impl r (P Q : JobEntry -> Prop) : (forall e, P e -> Q e) -> row_sat r jid P -> row_sat r jid Q.
Proof. intros HPQ H now. destruct (H now) as (e & Hl & He). exists e. auto. Qed.

(** What other processes may do to the registry while this dispatch waits on
    the nodes: they keep a claimed row, and a queued job's directory. *)
Record keeps (r r' : registry) : Prop := {
  kp_claim : forall n t, row_sat r jid (queued_as (Some n, Some t)) -> row_sat r' jid (queued_as (Some n, Some t));
  kp_layout : layout_fixed r -> layout_fixed r';
}.
Lemma keeps_refl r : keeps r r.
Proof. by split. Qed.
Lemma keeps_trans r1 r2 r3 : keeps r1 r2 -> keeps r2 r3 -> keeps r1 r3.
Proof. intros [] []. split; auto. Qed.

(** Dispatchers, fences, probes and queries that follow the protocol do. *)
Lemma rivals_keep r r' :
  (forall n t, row_sat r jid (queued_as (Some n, Some t)) -> rtc (rival_step size ok jid n t) r r') ->
  (layout_fixed r -> layout_fixed r') -> keeps r r'.
Proof.
  intros H Hl. split; [|exact Hl]. intros n t F. specialize (H n t F). clear Hl.
  induction H as [|x y z Hxy _ IH]; [done|]. apply IH. eapply rival_keeps; [|exact Hxy|exact F].
  by intros e (? & ? & _).
Qed.

(** A row this dispatch holds in memory while the job is queued. *)
Record own_row (e : JobEntry) : Prop := {
  ow_id : e.(job_id) = jid;
  ow_status : e.(status) = Queued;
  ow_layout : layout_of e = l;
  ow_unique : unique_keys e;
}.
Lemma own_place e e' :
  own_row e -> same_place e e' -> e'.(storage_layout) = e.(storage_layout) -> unique_keys e' -> own_row e'.
Proof.
  intros [Hid Hs Hl _] Hp Hsl Hu. split; [|..|done].
  - by rewrite (sp_id _ _ Hp).
  - by rewrite (sp_status _ _ Hp).
  - by rewrite (place_layout _ _ Hp Hsl).
Qed.
Lemma own_kept e cur e' :
  own_row e -> layout_of cur = l -> kept cur e e' -> same_place e e' /\ e'.(storage_layout) = e.(storage_layout).
Proof.
  intros [_ _ Hl _] Hc [Hp Hsl]. split; [done|]. apply Hsl.
  unfold layout_of in *. congruence.
Qed.

(** A commit of a row this dispatch holds. *)
Lemma commit_own now writable cand persist expected r res r' :
  layout_fixed r -> own_row cand ->
  _commit_queued_transition size ok now writable cand persist expected r = (res, r') ->
  layout_fixed r' /\
  match res with
  | Ok (None, x) => own_row x /\ attempt_of x = attempt_of cand /\
      ((r' = r) \/ row_sat r' jid (queued_as (attempt_of cand)))
  | _ => same_rows r r'
  end.
Proof.
  intros Hfix Hc H. apply commit_cases in H; [|apply Hc]. rewrite (ow_id _ Hc) in H.
  destruct H as [[Hs Hno]|[(-> & _ & x & -> & Hp & Hsl & Hu)|
    (cur & saved & Hl & Hq & _ & -> & Hk & Hu & Hrow)]].
  - split; [by eapply fixed_same|]. destruct res as [[[?|] x]|?]; [done| |done]. by destruct (Hno x).
  - split; [done|]. split; [by apply (own_place cand)|]. split; [apply Hp|by left].
  - pose proof (Hfix _ _ _ Hl Hq) as Hcur.
    destruct (own_kept cand cur saved Hc Hcur Hk) as [Hp Hsl].
    assert (row_sat r' jid (queued_as (attempt_of cand))) as Hsat.
    { eapply row_sat_impl; [|exact Hrow]. intros x [Hkx _]. destruct (own_kept cand cur x Hc Hcur Hkx) as [Hpx Hslx].
      split; [rewrite (sp_status _ _ Hpx); apply Hc|]. split; [apply Hpx|].
      rewrite (place_layout _ _ Hpx Hslx). apply Hc. }
    split; [apply fixed_row; eapply row_sat_impl; [|exact Hsat]; by intros x (_ & _ & ?)|].
    split; [by apply (own_place cand)|]. split; [apply Hp|by right].
Qed.

Lemma queued_as_own now r e r' : layout_fixed r -> load now jid r = (Ok (Some e), r') -> e.(status) = Queued -> own_row e.
Proof.
  intros Hf Hl Hq. split; [by eapply load_id|done|by eapply Hf|by eapply load_unique].
Qed.

(** A save of a row this dispatch holds. *)
Lemma save_own now writable cand r cur res r' :
  layout_fixed r -> own_row cand -> load now jid r = (Ok (Some cur), r) -> cur.(status) = Queued ->
  save size ok now writable cand r = (res, r') ->
  layout_fixed r' /\
  match res with
  | Ok x => own_row x /\ attempt_of x = attempt_of cand /\ row_sat r' jid (queued_as (attempt_of cand))
  | Err _ => True
  end.
Proof.
  intros Hfix Hc Hl Hq H. pose proof (Hfix _ _ _ Hl Hq) as Hcur. destruct res as [x|err].
  - rewrite <- (ow_id _ Hc) in Hl. destruct (save_place _ _ _ _ _ _ _ _ _ (ow_unique _ Hc) Hl H) as (Hk & Hu & Hrow).
    rewrite (ow_id _ Hc) in Hrow. destruct (own_kept cand cur x Hc Hcur Hk) as [Hp Hsl].
    assert (row_sat r' jid (queued_as (attempt_of cand))) as Hsat.
    { eapply row_sat_impl; [|exact Hrow]. intros y [Hky _]. destruct (own_kept cand cur y Hc Hcur Hky) as [Hpy Hsly].
      split; [rewrite (sp_status _ _ Hpy); apply Hc|]. split; [apply Hpy|].
      rewrite (place_layout _ _ Hpy Hsly). apply Hc. }
    split; [apply fixed_row; eapply row_sat_impl; [|exact Hsat]; by intros y (_ & _ & ?)|].
    split; [by apply (own_place cand)|]. split; [apply Hp|done].
  - split; [|done]. eapply fixed_same; [|exact Hfix]. eapply save_err; [|exact H]. apply Hc.
Qed.

(** What a won claim puts into the store and into the caller's row. *)
Definition claimed_own (n t : string) (r : registry) (e : JobEntry) : Prop :=
  own_row e /\ attempt_of e = (Some n, Some t) /\ row_sat r jid (queued_as (Some n, Some t)).

Lemma claim_locked_own cfg h now writable entry expected n t r res r' :
  layout_fixed r -> entry.(job_id) = jid ->
  claim_locked size ok cfg h now writable entry expected n t r = (res, r') ->
  layout_fixed r' /\ forall b e, res = Ok (b, e) -> e.(job_id) = jid /\ (b = true -> claimed_own n t r' e).
Proof.
  intros Hfix Hid. unfold claim_locked, mbind, M_bind, get. rewrite Hid.
  destruct (load now jid r) as [[[cur|]|x] r0] eqn:Hl; pose proof (load_ok _ _ _ _ _ Hl) as ->;
    [|intros [= <- <-]; split; [done|by intros b e [= <- <-]]|by intros [= <- <-]].
  destruct (bool_decide (cur.(status) = Queued)) eqn:Hq; cbn [negb orb];
    [|intros [= <- <-]; split; [done|]; intros b e [= <- <-]; split; [by eapply load_id|done]].
  apply bool_decide_eq_true in Hq. pose proof (queued_as_own _ _ _ _ Hfix Hl Hq) as Hown.
  destruct (bool_decide (attempt_of cur = expected)); cbn [negb];
    [|intros [= <- <-]; split; [done|]; intros b e [= <- <-]; split; [apply Hown|done]].
  destruct (active_entries size ok now true r) as [[[entries damage]|x] r1] eqn:Hact;
    destruct (query_inv _ _ _ _ _ _ _ Hact) as [ix ->];
    [|intros [= <- <-]; split; [eapply fixed_same; [apply same_rows_index|done]|done]].
  assert (layout_fixed (r <| index_file := ix |>)) as Hfix' by (eapply fixed_same; [apply same_rows_index|done]).
  assert (load now jid (r <| index_file := ix |>) = (Ok (Some cur), r <| index_file := ix |>)) as Hl'.
  { pose proof (same_rows_load now r _ jid (same_rows_index r ix)) as Heq. rewrite Hl in Heq.
    pose proof (load_state now jid (r <| index_file := ix |>)) as Hst.
    destruct (load now jid (r <| index_file := ix |>)) as [x y]. cbn in Heq, Hst. by subst x y. }
  match goal with |- context [decide_claim _ _ _ _ _ _ _ _ ?d] => generalize d end. intros d.
  unfold decide_claim, mbind, M_bind.
  assert (own_row (claim_row h now n t cur)) as Hown1 by (split; [apply Hown..|by destruct Hown as [_ _ _ []]]).
  assert (own_row (cur <| reason := Some (WAITING +:+ d.(ad_reason)) |>)) as Hown2
    by (split; [apply Hown..|by destruct Hown as [_ _ _ []]]).
  destruct (d.(allowed)); cbn [negb];
    match goal with |- context [save size ok now writable ?e ?r1] =>
      destruct (save size ok now writable e r1) as [[saved|x] r2] eqn:Hs end;
    (eapply save_own in Hs as [H1 H2]; [|exact Hfix'|done|exact Hl'|exact Hq]); intros [= <- <-]; (split; [done|]);
    try done; intros b e [= <- <-]; destruct H2 as (Ho & Ha & Hsat); (split; [apply Ho|]); intros Hw; try done.
Qed.

Lemma claim_own cfg h now writable lock proof entry expected n t r res r' :
  layout_fixed r -> entry.(job_id) = jid ->
  _claim_queued_dispatch_attempt size ok cfg h now writable lock proof entry expected n t r = (res, r') ->
  layout_fixed r' /\
  forall c, res = Ok c -> c.(cl_entry).(job_id) = jid /\ (c.(won) = true -> claimed_own n t r' c.(cl_entry)).
Proof.
  intros Hfix Hid. unfold _claim_queued_dispatch_attempt. cbv zeta.
  destruct lock as [message|[]];
    [intros [= <- <-]; split; [done|by intros c [= <-]]| |intros [= <- <-]; split; [done|by intros c [= <-]]].
  destruct (claim_locked _ _ _ _ _ _ _ _ _ _ r) as [res1 r1] eqn:Hl.
  apply claim_locked_own in Hl as [Hf Hr]; [|done..]. destruct res1 as [[[] e]|x].
  - destruct (Hr true e eq_refl) as [He Hw]. specialize (Hw eq_refl).
    destruct (e.(request_id)); [destruct proof|]; intros [= <- <-]; (split; [done|]); intros c [= <-]; by split.
  - destruct (Hr false e eq_refl) as [He _]. intros [= <- <-]. split; [done|]. by intros c [= <-].
  - destruct x; intros [= <- <-]; (split; [done|]); try done; by intros c [= <-].
Qed.
End layout.

(** ** An uncertain launch stays recognizable once its reason is bounded *)
Lemma split_ws_go_nonempty cur l :
  (exists c, c ∈ l /\ is_space c = false) \/ cur <> [] -> split_ws_go cur l <> [].
Proof.
  revert cur. induction l as [|c l IH]; intros cur H; cbn.
  - destruct cur; [|done]. destruct H as [(c & Hc & _)|?]; [set_solver|done].
  - destruct (is_space c) eqn:E.
    + destruct cur; [|done]. apply IH. left. destruct H as [(x & Hx & Hs)|?]; [|done].
      exists x. split; [|done]. apply elem_of_cons in Hx as [-> | Hx]; [congruence|done].
    + apply IH. right. by destruct cur.
Qed.
Lemma uncertain_words rest :
  (exists c, c ∈ rest /\ is_space c = false) ->
  exists tail, join " " (split_ws (UNCERTAIN_LAUNCH_PREFIX +:+ unchars rest)) = UNCERTAIN_LAUNCH_PREFIX +:+ tail.
Proof.
  intros H. unfold split_ws. rewrite chars_app, chars_unchars.
  change (split_ws_go [] (chars UNCERTAIN_LAUNCH_PREFIX ++ rest))
    with (chars "launch" :: chars "outcome" :: chars "uncertain:" :: split_ws_go [] rest).
  pose proof (split_ws_go_nonempty [] rest (or_introl H)) as Hne.
  destruct (split_ws_go [] rest) as [|w ws]; [done|]. exists (join " " (unchars <$> w :: ws)). reflexivity.
Qed.
Lemma str_take_prefix (p x : string) n : (str_len p <= n)%nat -> str_take n (p +:+ x) = p +:+ str_take (n - str_len p) x.
Proof.
  intros H. unfold str_take. rewrite chars_app, <- chars_length in *. rewrite take_app_ge by lia.
  apply chars_inj. by rewrite chars_unchars, chars_app, chars_unchars.
Qed.
Lemma uncertain_excerpt bad :
  (exists c, c ∈ chars bad /\ is_space c = false) ->
  starts_with UNCERTAIN_LAUNCH_PREFIX (excerpt MAX_JOB_DIAGNOSTIC_CHARS (UNCERTAIN_LAUNCH_PREFIX +:+ bad)) = true.
Proof.
  intros Hb. unfold excerpt, diagnostic_excerpt, raise_if.
  change (MAX_JOB_DIAGNOSTIC_CHARS <? 32)%nat with false. cbn [mbind result_bind first_truthy ok_option].
  rewrite bool_decide_false by done. cbv zeta.
  assert (exists rest, (exists c, c ∈ rest /\ is_space c = false) /\
    (if (MAX_JOB_DIAGNOSTIC_CHARS <? str_len (UNCERTAIN_LAUNCH_PREFIX +:+ bad))%nat
     then str_take ((MAX_JOB_DIAGNOSTIC_CHARS - str_len omitted_marker) / 2) (UNCERTAIN_LAUNCH_PREFIX +:+ bad)
       +:+ omitted_marker
       +:+ str_drop (str_len (UNCERTAIN_LAUNCH_PREFIX +:+ bad)
             - (MAX_JOB_DIAGNOSTIC_CHARS - str_len omitted_marker
                - (MAX_JOB_DIAGNOSTIC_CHARS - str_len omitted_marker) / 2)) (UNCERTAIN_LAUNCH_PREFIX +:+ bad)
     else UNCERTAIN_LAUNCH_PREFIX +:+ bad) = UNCERTAIN_LAUNCH_PREFIX +:+ unchars rest) as (rest & Hrest & ->).
  { destruct (_ <? _)%nat.
    - rewrite str_take_prefix by (apply Nat.leb_le; vm_compute; reflexivity).
      match goal with |- context [omitted_marker +:+ ?t] => generalize t end. intros tail.
      match goal with |- context [str_take ?k bad] => generalize (str_take k bad) end. intros head.
      exists (chars head ++ chars omitted_marker ++ chars tail). split.
      + exists (Ascii.ascii_of_N 91). split; [|reflexivity]. apply elem_of_app. right. apply elem_of_app. left.
        by apply (bool_decide_unpack _).
      + rewrite <- !chars_app, unchars_chars. apply chars_inj. by rewrite !chars_app, <- !app_assoc.
    - exists (chars bad). by rewrite unchars_chars. }
  destruct (uncertain_words rest Hrest) as [tail ->]. cbn [default ok_option].
  change (default "" (Some ?x)) with x.
  rewrite str_take_prefix by (apply Nat.leb_le; vm_compute; reflexivity). apply starts_with_spec. by eexists.
Qed.

(** A reason dictionary that is not empty has something to show. *)
Lemma reasons_visible reasons r :
  last reasons = Some r -> exists c, c ∈ chars (reasons_detail reasons) /\ is_space c = false.
Proof.
  intros H. exists COLON. split; [|reflexivity]. unfold reasons_detail.
  destruct reasons as [|r0 rest]; [done|]. cbn [fmap list_fmap]. clear H.
  assert (forall ws, exists tail, join "; " ((r0.1 +:+ ": " +:+ r0.2) :: ws) = r0.1 +:+ ": " +:+ tail) as Hj.
  { intros [|w ws]; [by exists r0.2|]. exists (r0.2 +:+ "; " +:+ join "; " (w :: ws)).
    change (join "; " ((r0.1 +:+ ": " +:+ r0.2) :: w :: ws)) with ((r0.1 +:+ ": " +:+ r0.2) +:+ "; " +:+ join "; " (w :: ws)).
    apply chars_inj. by rewrite !chars_app, <- !app_assoc. }
  destruct (Hj ((fun r => r.1 +:+ ": " +:+ r.2) <$> rest)) as [tail ->].
  rewrite !chars_app. apply elem_of_app. right. apply elem_of_app. left. by apply (bool_decide_unpack _).
Qed.
