(* ===== verification/DispatchSpec.v ===== *)
(** * A dispatch never loses track of its job ([dispatch/queued.py])

    The nodes and the staging are known through an interface, [NodeContract]:
    the capsules that may run the job grow only by a launch, and while the
    dispatcher waits on a node other processes keep a claimed row and the
    directory of a queued job.  Against it, whatever a dispatch of the job
    does and however it ends, the stored row names every capsule that may run
    the job. *)

From S2P Require Import Prelude Text PyValue Numerals Diagnostics Layout JobEntry RegistryCodec CodecFacts CodecSound CodecSpec CodecCanonical Lifecycle Registry ActiveIndex RegistryOps RegistryFacts RegistrySpec Config StatusProbe Probe RunSpec Placement Termination Scheduler SchedulerSpec Claim ClaimSpec ClaimOwner PlacementSpec GateSpec Intent IntentSpec Contract ContractSpec Derive DeriveSpec Recovery RecoverySpec Launch LaunchSpec Dispatch DispatchFacts.

(** ** Reasoning about a dispatch step by step *)
Section wp.
Context {W : Type}.
Definition wp {A} (m : D W A) (Q : result A -> Site W -> Prop) (s : Site W) : Prop :=
  let '(res, s') := m s in Q res s'.

Lemma wp_bind {A B} (m : D W A) (f : A -> D W B) Q s :
  wp m (fun res s' => match res with Ok a => wp (f a) Q s' | Err e => Q (Err e) s' end) s -> wp (m ≫= f) Q s.
Proof. unfold wp, mbind, D_bind. by destruct (m s) as [[a|e] s']. Qed.
Lemma wp_mono {A} (m : D W A) (Q Q' : result A -> Site W -> Prop) s :
  wp m Q s -> (forall res s', Q res s' -> Q' res s') -> wp m Q' s.
Proof. unfold wp. destruct (m s). auto. Qed.
Lemma wp_ret {A} (a : A) (Q : result A -> Site W -> Prop) s : Q (Ok a) s -> wp (mret a) Q s.
Proof. done. Qed.
Lemma wp_raising {A} (x : result A) (Q : result A -> Site W -> Prop) s : Q x s -> wp (raising x) Q s.
Proof. done. Qed.
Lemma wp_registry {A} (m : M A) (Q : result A -> Site W -> Prop) s :
  (forall res r, m s.(st_registry) = (res, r) -> Q res (mkSite r s.(st_world))) -> wp (on_registry m) Q s.
Proof. unfold wp, on_registry. destruct (m _) as [res r]. auto. Qed.
Lemma wp_fun {A} (m : D W A) Q s : (forall res s', m s = (res, s') -> Q res s') -> wp m Q s.
Proof. unfold wp. destruct (m s). auto. Qed.
End wp.

(** ** The candidates of one placement are distinct nodes *)
Lemma nodes_of_distinct nodes l :
  NoDup (s_node <$> l) -> NoDup (n_name <$> nodes_of (by_name nodes) l).
Proof.
  induction l as [|s l IH]; [constructor|]. rewrite fmap_cons. intros [Hs Hl]%NoDup_cons. unfold nodes_of.
  cbn [omap list_omap]. destruct (by_name nodes !! s_node s) as [n|] eqn:E; [|by apply IH].
  rewrite fmap_cons. apply NoDup_cons. split; [|by apply IH]. apply by_name_spec in E as [_ Hname].
  intros Hin. apply list_elem_of_fmap in Hin as (m & Hm & Hin). apply nodes_of_elem in Hin as (s' & Hs' & Hm').
  apply by_name_spec in Hm' as [_ Hm']. apply Hs, list_elem_of_fmap. exists s'. split; [congruence|done].
Qed.
Lemma NoDup_fmap_filterb {A B} (f : A -> B) (p : A -> bool) l : NoDup (f <$> l) -> NoDup (f <$> List.filter p l).
Proof.
  induction l as [|x l IH]; [done|]. rewrite fmap_cons. intros [Hx Hl]%NoDup_cons. cbn.
  destruct (p x); [|by apply IH]. rewrite fmap_cons. apply NoDup_cons. split; [|by apply IH].
  intros Hin. apply Hx. apply list_elem_of_fmap in Hin as (y & -> & Hy). apply elem_of_filterb in Hy as [? _].
  apply list_elem_of_fmap. by exists y.
Qed.
Lemma candidates_distinct statuses nodes spec reserve reserved candidates :
  NoDup (s_node <$> statuses) -> pick_candidates statuses nodes spec reserve reserved = Ok candidates ->
  NoDup (n_name <$> candidates) /\ forall n, n ∈ candidates -> n ∈ nodes.
Proof.
  intros Hnd H. split; [|intros n Hn; by eapply pick_candidates_safe].
  unfold pick_candidates in H. cbv zeta in H. destruct (pinned spec) as [pin|].
  - destruct (by_name nodes !! pin) as [m|]; [|done].
    assert (candidates = [] \/ candidates = [m]) as [-> | ->]; [|constructor|apply NoDup_singleton].
    repeat case_match; simplify_eq; auto.
  - destruct (sp_gpus spec =? 0); injection H as <-; apply nodes_of_distinct.
    + unfold cpu_rank. rewrite sort_by_perm. by apply NoDup_fmap_filterb.
    + apply NoDup_fmap_filterb. rewrite sort_by_perm. by apply NoDup_fmap_filterb.
Qed.

(** A node found by its name. *)
Lemma configured_unique cfg n :
  NoDup (n_name <$> cfg.(c_nodes)) -> n ∈ cfg.(c_nodes) -> configured_node cfg n.(n_name) = Some n.
Proof.
  unfold configured_node. induction (c_nodes cfg) as [|m l IH]; [set_solver|]. rewrite fmap_cons.
  intros [Hm Hl]%NoDup_cons Hin. cbn. case_bool_decide as E.
  - apply elem_of_cons in Hin as [-> | Hin]; [done|]. destruct Hm. apply list_elem_of_fmap. by exists n.
  - apply IH; [done|]. apply elem_of_cons in Hin as [-> | Hin]; done.
Qed.
Lemma queued_node_name cfg e n : (_queued_node cfg e n).(n_name) = n.(n_name).
Proof. unfold _queued_node. by destruct (negb _). Qed.

(** ** The interface *)
Section interface.
Context {W : Type} (capsules : W -> gset capsule) (jid : string).
Context (l : option string * string * option string * list (string * string)).

Definition alive (s : Site W) : gset capsule := capsules s.(st_world).
(** A step that starts nothing: it may see capsules end, and it may find the
    registry changed by others. *)
Definition quiet (s s' : Site W) : Prop :=
  alive s' ⊆ alive s /\ keeps jid l s.(st_registry) s'.(st_registry).

Class NodeContract (py_repr : string -> string)
    (run_on : string -> bool -> remote_command -> Site W -> remote_reply * Site W)
    (stage_view : JobEntry -> Site W -> StageView * Site W)
    (_probe_pinned_node : Node -> Site W -> NodeStatus * Site W)
    (probe_center : Site W -> list NodeStatus * Site W)
    (sync_to_node : JobEntry -> Node -> string -> Site W -> shipped * Site W)
    (materialize : JobEntry -> Node -> string -> Site W -> result (option string * option string) * Site W)
    (launch : JobEntry -> Node -> string -> RunSpec -> Z -> option string -> Site W -> launch_reply * Site W) : Prop := {
  nc_run n local c s reply s' : run_on n local c s = (reply, s') -> quiet s s';
  nc_dead n local d pg b se tok lay s rc out err s' :
    run_on n local (Terminate d pg b se tok lay) s = (Replied rc out err, s') ->
    termination_verdict py_repr rc (Some out) (Some err) = Dead -> alive s' ⊆ alive s ∖ {[ (n, d) ]};
  nc_view e s v s' : stage_view e s = (v, s') -> quiet s s';
  nc_pinned n s st s' : _probe_pinned_node n s = (st, s') -> quiet s s';
  nc_center s sts s' : probe_center s = (sts, s') -> quiet s s' /\ NoDup (s_node <$> sts);
  nc_sync e n d s res s' : sync_to_node e n d s = (res, s') -> quiet s s';
  nc_materialize p n d s res s' : materialize p n d s = (res, s') -> quiet s s';
  nc_launch e n d spec r p s res s' : launch e n d spec r p s = (res, s') ->
    alive s' ⊆ {[ (n.(n_name), d) ]} ∪ alive s /\ keeps jid l s.(st_registry) s'.(st_registry);
  nc_refused e n d spec r p s code res s' :
    launch e n d spec r p s = (Answered code res, s') -> refused code = true -> alive s' ⊆ alive s;
  nc_raised e n d spec r p s message s' :
    launch e n d spec r p s = (LaunchEscaped (DispatchError message), s') -> alive s' ⊆ alive s;
}.

#[export] Instance quiet_preorder : PreOrder quiet.
Proof.
  split.
  - intros s. split; [done|apply keeps_refl].
  - intros s1 s2 s3 [A1 K1] [A2 K2]. split; [by etrans|by eapply keeps_trans].
Qed.
#[export] Instance node_remote py_repr run_on stage_view pinned center sync mat launch
    (nc : NodeContract py_repr run_on stage_view pinned center sync mat launch) :
  RemoteContract alive quiet py_repr run_on.
Proof.
  split; [apply _|by intros s s' []|by apply nc|by apply nc].
Qed.
End interface.

(** ** The invariant *)
Section dispatch.
Context (size : json -> nat) (index_ok : bool)
  (sha256_hexdigest : list Ascii.ascii -> string) (py_repr : string -> string).
Context {W : Type} (cfg : HeadConfig) (now : Q) (writable : Site W -> bool)
  (run_on : string -> bool -> remote_command -> Site W -> remote_reply * Site W)
  (stage_view : JobEntry -> Site W -> StageView * Site W)
  (_probe_pinned_node : Node -> Site W -> NodeStatus * Site W)
  (probe_center : Site W -> list NodeStatus * Site W)
  (sync_to_node : JobEntry -> Node -> string -> Site W -> shipped * Site W)
  (materialize : JobEntry -> Node -> string -> Site W -> result (option string * option string) * Site W)
  (launch : JobEntry -> Node -> string -> RunSpec -> Z -> option string -> Site W -> launch_reply * Site W).
Context (capsules : W -> gset capsule) (e0 : JobEntry).
Abbreviation jid := (e0.(job_id)).
Abbreviation lay := (layout_of e0).
Context `{nodes : !NodeContract capsules jid lay py_repr run_on stage_view _probe_pinned_node probe_center
  sync_to_node materialize launch}.
Abbreviation alive := (alive capsules).
Abbreviation quiet := (quiet capsules jid lay).

(** The directory a queued row means on a node. *)
Definition node_dir (e : JobEntry) (name : string) : option string :=
  match configured_node cfg name with
  | Some n => ok_option (job_dir_for_node cfg e (_queued_node cfg e n))
  | None => None
  end.
Lemma queued_node_layout e e' n : layout_of e = layout_of e' -> _queued_node cfg e n = _queued_node cfg e' n.
Proof. unfold layout_of, _queued_node. by intros [= -> _ -> ->]. Qed.
Lemma job_dir_layout e e' n :
  e.(job_id) = e'.(job_id) -> layout_of e = layout_of e' -> job_dir_for_node cfg e n = job_dir_for_node cfg e' n.
Proof. unfold layout_of, job_dir_for_node. by intros -> [= -> -> _ _]. Qed.
Lemma node_dir_layout e e' name :
  e.(job_id) = e'.(job_id) -> layout_of e = layout_of e' -> node_dir e name = node_dir e' name.
Proof.
  intros Hid Hl. unfold node_dir. destruct (configured_node cfg name); [|done].
  by rewrite (queued_node_layout e e' _ Hl), (job_dir_layout e e' _ Hid Hl).
Qed.

(** The row names every capsule of [R]: by its claim, or as the place where
    the job runs, has run, or may have been left running. *)
Definition names_capsules (R : gset capsule) (e : JobEntry) : Prop :=
  (e.(status) = Queued /\ exists name d, e.(dispatch_node) = Some name /\ node_dir e name = Some d /\ R ⊆ {[ (name, d) ]}) \/
  ((e.(status) ∈ [Running; Finished] \/ is_uncertain_launch e = true) /\ R ⊆ {[ (e.(node), e.(job_dir)) ]}).
Definition accounted (s : Site W) : Prop :=
  alive s = ∅ \/ row_sat s.(st_registry) jid (names_capsules (alive s)).

Abbreviation own_row := (own_row jid lay).
Abbreviation fixed s := (layout_fixed jid lay s.(st_registry)).
(** The attempt on node [name], as the row in memory and the stored row have it. *)
Definition holds (name d : string) (e : JobEntry) (s : Site W) : Prop :=
  own_row e /\ fixed s /\ node_dir e0 name = Some d /\ alive s ⊆ {[ (name, d) ]} /\
  exists t, attempt_of e = (Some name, Some t) /\ row_sat s.(st_registry) jid (queued_as lay (Some name, Some t)).
Definition owned (e : JobEntry) (s : Site W) : Prop :=
  own_row e /\ fixed s /\ (alive s = ∅ \/ exists name d, holds name d e s).

Lemma row_sat_id r P : row_sat r jid P -> row_sat r jid (fun e => P e /\ e.(job_id) = jid).
Proof. intros H t. destruct (H t) as (e & Hl & He). exists e. split; [done|]. split; [done|]. by eapply load_id. Qed.

Lemma holds_accounted name d e s : holds name d e s -> accounted s.
Proof.
  intros (_ & _ & Hd & HR & t & _ & Hsat). right. eapply row_sat_impl; [|by apply row_sat_id].
  intros x [(Hq & Ha & Hl) Hid]. left. split; [done|]. exists name, d. split; [by injection Ha|]. split; [|done].
  by rewrite (node_dir_layout x e0).
Qed.
Lemma owned_accounted e s : owned e s -> accounted s.
Proof. intros (_ & _ & [H|(n & d & H)]); [by left|by eapply holds_accounted]. Qed.

Lemma empty_quiet s s' : quiet s s' -> alive s = ∅ -> alive s' = ∅.
Proof. intros [H _]. set_solver. Qed.
Lemma holds_quiet name d e s s' : quiet s s' -> holds name d e s -> holds name d e s'.
Proof.
  intros [HR [Hc Hl]] (Ho & Hf & Hd & Ha & t & Ht & Hs). split; [done|]. split; [by apply Hl|]. split; [done|].
  split; [set_solver|]. exists t. split; [done|by apply Hc].
Qed.
Lemma owned_quiet e s s' : quiet s s' -> owned e s -> owned e s'.
Proof.
  intros Hq (Ho & Hf & H). split; [done|]. split; [by apply Hq|].
  destruct H as [H|(n & d & H)]; [left; by eapply empty_quiet|right; exists n, d; by eapply holds_quiet].
Qed.
(** ** Commits *)
Abbreviation commit := (commit size index_ok now writable).
Abbreviation commit_or := (commit_or size index_ok now writable).
Abbreviation ends := (fun _ => accounted).

Lemma wp_commit cand persist expected Q s :
  (forall res r, _commit_queued_transition size index_ok now (writable s) cand persist expected s.(st_registry) = (res, r) ->
     Q res (mkSite r s.(st_world))) ->
  wp (commit cand persist expected) Q s.
Proof.
  intros H. unfold wp, Dispatch.commit, on_registry.
  destruct (_commit_queued_transition _ _ _ _ _ _ _ _) as [res r] eqn:E. by apply H.
Qed.

(** A commit that keeps the attempt keeps the invariant. *)
Lemma wp_commit_owned e cand persist expected s :
  owned e s -> own_row cand -> attempt_of cand = attempt_of e ->
  wp (commit cand persist expected)
    (fun res s' => match res with Ok (None, x) => owned x s' /\ attempt_of x = attempt_of e | _ => owned e s' end) s.
Proof.
  intros (Ho & Hf & H) Hc Ha. apply wp_commit. intros res r E.
  destruct (commit_own _ _ _ _ _ _ _ _ _ _ _ _ Hf Hc E) as [Hf' Hres].
  assert (same_rows s.(st_registry) r -> owned e (mkSite r s.(st_world))) as Hsame.
  { intros Hs. split; [done|]. split; [done|]. destruct H as [H|(n & d & H1 & H2 & H3 & H4 & t & Ht & Hsat)]; [by left|right].
    exists n, d. do 4 (split; [done|]). exists t. split; [done|]. by eapply row_sat_same. }
  destruct res as [[[cur|] x]|err]; [by apply Hsame| |by apply Hsame].
  destruct Hres as (Hx & Hax & Hsat). split; [|congruence]. split; [done|]. split; [done|].
  destruct H as [H|(n & d & H1 & H2 & H3 & H4 & t & Ht & Hs)]; [by left|right].
  exists n, d. do 4 (split; [done|]). exists t. split; [congruence|].
  destruct Hsat as [-> | Hsat]; [done|]. by rewrite Ha, Ht in Hsat.
Qed.

(** With nothing running, any commit will do. *)
Lemma wp_commit_empty cand persist expected s :
  alive s = ∅ -> wp (commit cand persist expected) (fun _ s' => alive s' = ∅) s.
Proof. intros H. apply wp_commit. by intros res r _. Qed.
Lemma wp_commit_free cand persist expected s :
  alive s = ∅ -> fixed s -> own_row cand ->
  wp (commit cand persist expected)
    (fun res s' => alive s' = ∅ /\ match res with Ok (None, x) => owned x s' | _ => True end) s.
Proof.
  intros H Hf Hc. apply wp_commit. intros res r E. split; [done|].
  destruct (commit_own _ _ _ _ _ _ _ _ _ _ _ _ Hf Hc E) as [Hf' Hres].
  destruct res as [[[cur|] x]|err]; try done. split; [apply Hres|]. split; [done|by left].
Qed.

Lemma commit_or_owned e cand persist expected o s :
  owned e s -> own_row cand -> attempt_of cand = attempt_of e -> wp (commit_or cand persist expected o) ends s.
Proof.
  intros H Hc Ha. apply wp_bind. eapply wp_mono; [by apply (wp_commit_owned e)|].
  intros [[[cur|] x]|err] s' Hs; cbn.
  - by apply (owned_accounted e).
  - destruct Hs as [Hs _]. by apply (owned_accounted x).
  - by apply (owned_accounted e).
Qed.
Lemma commit_or_empty cand persist expected o s :
  alive s = ∅ -> wp (commit_or cand persist expected o) ends s.
Proof.
  intros H. apply wp_bind. eapply wp_mono; [by apply wp_commit_empty|].
  intros [[[cur|] x]|err] s' Hs; by left.
Qed.

(** A claimed row cannot be failed: only queued rows carry a claim. *)
Lemma fail_owned e detail s : owned e s -> wp (fail size index_ok now writable e detail) ends s.
Proof.
  intros Ho. destruct (Ho) as (He & Hf & [H|(n & d & Hh)]); [by apply commit_or_empty|].
  apply wp_bind, wp_commit. intros res r E.
  assert (same_rows s.(st_registry) r -> accounted (mkSite r s.(st_world))) as Hsame.
  { intros Hs. apply (holds_accounted n d e). destruct Hh as (? & ? & ? & ? & t & ? & ?).
    split; [done|]. split; [by eapply fixed_same|]. do 2 (split; [done|]). exists t. split; [done|]. by eapply row_sat_same. }
  apply commit_cases in E; [|by destruct He as [_ _ _ []]].
  destruct E as [[Hs _]|[(-> & _ & x & -> & _)|(cur & saved & _ & _ & _ & _ & _ & _ & Hrow)]].
  - specialize (Hsame Hs). by destruct res as [[[?|] x]|].
  - apply Hsame, same_rows_refl.
  - exfalso. destruct (Hrow now) as (x & _ & [Hp _] & Hcq & _). destruct Hh as (_ & _ & _ & _ & t & Ha & _).
    pose proof (sp_attempt _ _ Hp) as Hx. pose proof (sp_status _ _ Hp) as Hst. cbn in Hst.
    change (attempt_of (e <| status := Failed |> <| reason := Some detail |>)) with (attempt_of e) in Hx.
    rewrite Ha in Hx. injection Hx as Hn _. unfold claim_queued in Hcq. rewrite Hn, Hst in Hcq. by discriminate Hcq.
Qed.

Lemma note_attempt_own e pattern moment :
  own_row e -> own_row (_note_placement_attempt e pattern moment) /\
  attempt_of (_note_placement_attempt e pattern moment) = attempt_of e.
Proof.
  intros [H1 H2 H3 []]. unfold _note_placement_attempt. cbv zeta. by destruct (_ && _); split.
Qed.
Lemma hold_owned e why o probe s : owned e s -> wp (hold size index_ok now writable e why o probe) ends s.
Proof.
  intros Ho. pose proof Ho as ([H1 H2 H3 []] & _). unfold hold. cbv zeta.
  assert (own_row (e <| reason := Some why |>)) as He by (by split).
  destruct probe as [reasons|]; [|by apply (commit_or_owned e)].
  destruct (bool_decide _); [|by apply (commit_or_owned e)].
  destruct (note_attempt_own _ (placement_pattern_of reasons o.1) now He) as [He' Ha].
  apply (commit_or_owned e); [done..|]. by rewrite Ha.
Qed.
Lemma settle_empty e reasons changed a why o s :
  alive s = ∅ -> wp (settle size index_ok now writable e reasons changed a why o) ends s.
Proof. intros H. unfold settle. cbv zeta. case_bool_decide; by apply commit_or_empty. Qed.
(** ** Publishing a launch *)
Abbreviation _finish_queued_placement :=
  (_finish_queued_placement size index_ok sha256_hexdigest py_repr now writable run_on).
Abbreviation settle_raced := (settle_raced size index_ok sha256_hexdigest py_repr now writable run_on).

(** Registry work moves no capsule. *)
Lemma wp_registry_alive {A} (m : M A) (R : gset capsule) (Q : result A -> Site W -> Prop) s :
  alive s = R -> (forall res s', alive s' = R -> Q res s') -> wp (on_registry m) Q s.
Proof. intros H HQ. apply wp_registry. intros res r _. by apply HQ. Qed.

(** What the settlement of a raced dequeue reports. *)
Definition raced_post (placed : JobEntry) (res : result (outcome * JobEntry)) (s' : Site W) : Prop :=
  alive s' ⊆ {[ (placed.(node), placed.(job_dir)) ]} /\
  forall o row, res = Ok (o, row) ->
    (o.1 = "killed" -> alive s' = ∅) /\ (o.1 = "cancel-failed" -> row.(status) = Running).

Lemma existing_not row word : word ∈ ["killed"; "cancel-failed"] ->
  (_existing_dispatch_outcome row).1 = word -> row.(status) = Killed /\ word = "killed".
Proof. unfold _existing_dispatch_outcome. destruct row.(status); cbn; set_solver. Qed.

Lemma restore_not_killed placed r row r' w :
  placed.(status) <> Killed -> unique_keys placed ->
  restore size index_ok now w placed r = (Ok row, r') -> row.(status) <> Killed.
Proof.
  intros Hs Hu. unfold restore, mbind, M_bind.
  destruct (load now placed.(job_id) r) as [[[cur|]|x] r1] eqn:Hl; [| |done].
  - case_bool_decide; [|by intros [= <- _]]. intros Hx%save_gate; [|done]. destruct Hx as ([_ -> _ _ _ _ _ _ _] & _). done.
  - intros Hx%save_gate; [|done]. destruct Hx as ([_ -> _ _ _ _ _ _ _] & _). done.
Qed.


Lemma raced_empty current placed s : alive s = ∅ -> wp (settle_raced current placed) ends s.
Proof using nodes.
  intros H0. unfold settle_raced, Dispatch.settle_raced.
  case_bool_decide; [apply wp_bind; eapply wp_registry_alive; [exact H0|]; intros [|] s' H'; by left|].
  destruct (_cancel_placed_launch sha256_hexdigest py_repr run_on placed s) as [res s'] eqn:E. unfold wp. rewrite E.
  destruct (cancel_placed_sound sha256_hexdigest py_repr run_on alive quiet placed s res s' E) as [Hq _].
  pose proof (empty_quiet _ _ Hq H0) as H1.
  destruct res; (apply wp_bind; eapply wp_registry_alive; [exact H1|]; intros [|] s2 H2; [apply wp_ret|]; by left).
Qed.

Lemma finish_owned e placed s :
  owned e s -> placed.(job_id) = jid -> unique_keys placed -> placed.(status) ∈ [Running; Finished] ->
  alive s ⊆ {[ (placed.(node), placed.(job_dir)) ]} -> wp (_finish_queued_placement e placed) ends s.
Proof using nodes.
  intros Ho Hid Hu Hst HR. unfold _finish_queued_placement, Dispatch._finish_queued_placement. apply wp_bind.
  destruct (Ho) as (He & Hf & [H0|(n & d & Hh)]).
  { eapply wp_mono; [by apply wp_commit_empty|]. intros [[[cur|] x]|err] s' Hs; [|by left..].
    case_bool_decide; [by apply raced_empty|by left]. }
  apply wp_commit. intros res r E. destruct Hh as (_ & _ & Hd & HRd & t & Ha & Hsat).
  assert (unique_keys (with_provenance e placed)) as Hu' by (destruct He as [_ _ _ []]; by destruct Hu).
  destruct (commit_cases _ _ _ _ _ _ _ _ _ _ Hu' E) as [[Hs Hno]|[(_ & ? & _)|(cur & saved & _ & _ & _ & -> & _ & _ & Hrow)]];
    [|done|].
  - destruct res as [[[cur|] x]|err].
    + exfalso. revert E. apply (commit_not_refused _ _ _ _ _ _ _ _ _ _ _ (queued_as lay (Some n, Some t))).
      * change (row_sat s.(st_registry) placed.(job_id) (queued_as lay (Some n, Some t))). by rewrite Hid.
      * intros y (Hy1 & Hy2 & _). cbn [default]. by rewrite Ha.
    + by destruct (Hno x).
    + apply (holds_accounted n d e). split; [done|]. split; [by eapply fixed_same|]. split; [done|].
      split; [exact HRd|]. exists t. split; [done|by eapply row_sat_same].
  - right. change (job_id (with_provenance e placed)) with (placed.(job_id)) in Hrow. rewrite Hid in Hrow.
    eapply row_sat_impl; [|exact Hrow]. intros y [[Hp _] _]. right.
    rewrite (sp_status _ _ Hp), (sp_node_name _ _ Hp), (sp_dir _ _ Hp). split; [by left|exact HR].
Qed.
(** ** Recovering the claim of an earlier dispatcher *)
Context (h : HeadView).
Abbreviation _recover_claimed_dispatch :=
  (_recover_claimed_dispatch size index_ok sha256_hexdigest py_repr cfg h now writable run_on).

Lemma configured_name name n : configured_node cfg name = Some n -> n.(n_name) = name.
Proof.
  unfold configured_node. intros H%List.find_some. destruct H as [_ H]. by apply bool_decide_eq_true in H.
Qed.

(** The site of an owned row below one capsule. *)
Lemma owned_below e name n d s :
  owned e s -> e.(dispatch_node) = Some name -> configured_node cfg name = Some n ->
  job_dir_for_node cfg e (_queued_node cfg e n) = Ok d -> alive s ⊆ {[ (name, d) ]}.
Proof.
  intros ([Hid _ Hl _] & _ & [H|(m & d' & _ & _ & Hd & HR & t & Ha & _)]) Hn Hc Hj; [set_solver|].
  unfold attempt_of in Ha. rewrite Hn in Ha. injection Ha as <- _.
  rewrite <- (node_dir_layout e e0 name Hid Hl) in Hd. unfold node_dir in Hd. rewrite Hc, Hj in Hd. by injection Hd as <-.
Qed.

Definition recovered_post (res : result (option outcome * JobEntry)) (s' : Site W) : Prop :=
  match res with
  | Ok (None, e') => owned e' s' /\ alive s' = ∅
  | _ => accounted s'
  end.

Lemma blocked_owned e detail s :
  owned e s -> wp (blocked_recovery size index_ok now writable e detail) recovered_post s.
Proof.
  intros Ho. pose proof Ho as ([H1 H2 H3 []] & _). apply wp_bind. eapply wp_mono.
  - apply (commit_or_owned e (e <| reason := Some ("blocked: " +:+ detail) |>)); [done|by split|done].
  - by intros [row|x] s' Hs.
Qed.
Lemma release_owned e s : owned e s -> alive s = ∅ -> wp (release_claim size index_ok now writable e) recovered_post s.
Proof.
  intros Ho H0. pose proof Ho as ([H1 H2 H3 []] & Hf & _). unfold release_claim. apply wp_bind. eapply wp_mono.
  - apply wp_commit_free; [done|done|by split].
  - intros [[[cur|] x]|err] s' [H0' Hs]; [by left|by split|by left].
Qed.

Lemma recover_on_owned e name n s :
  owned e s -> e.(dispatch_node) = Some name -> configured_node cfg name = Some n ->
  wp (recover_on size index_ok sha256_hexdigest py_repr cfg now writable run_on e n) recovered_post s.
Proof using nodes.
  intros Ho Hn Hc. unfold recover_on. cbv zeta. apply wp_bind, wp_raising.
  destruct (job_dir_for_node cfg e (_queued_node cfg e n)) as [d|x] eqn:Hd; [|by apply (owned_accounted e)].
  pose proof (owned_below e name n d s Ho Hn Hc Hd) as HR.
  apply wp_bind, wp_fun. intros res s' E.
  pose proof (recovery_proves_absence sha256_hexdigest py_repr run_on alive quiet cfg e _ d now s res s' E) as [Hq Hres].
  pose proof (owned_quiet e s s' Hq Ho) as Ho'. assert (alive s' ⊆ {[ (name, d) ]}) as HR' by (destruct Hq; set_solver).
  rewrite queued_node_name, (configured_name _ _ Hc) in Hres.
  destruct res as [[[placed|] [why|]]|x]; [| |by apply blocked_owned| |by apply (owned_accounted e)].
  3: apply release_owned; [done|set_solver].
  all: destruct Hres as [A1 A2 A3 _ _ A6]; rewrite queued_node_name, (configured_name _ _ Hc) in A2; injection A2 as A2 A2';
    destruct (Ho') as ([B1 _ _ B4] & _); apply wp_bind; eapply wp_mono;
    [apply (finish_owned e placed s'); [done|congruence|auto|done|by rewrite A2, A2']|by intros [row|x] s2 Hs].
Qed.

Lemma recover_owned e name s :
  owned e s -> e.(dispatch_node) = Some name -> wp (_recover_claimed_dispatch e) recovered_post s.
Proof using nodes.
  intros Ho Hn. unfold _recover_claimed_dispatch, Dispatch._recover_claimed_dispatch.
  destruct (_dispatch_claim_hold_reason h now e); [by apply (owned_accounted e)|].
  rewrite Hn. change (default "" (Some name)) with name. destruct (configured_node cfg name) as [n|] eqn:Hc; [|by apply blocked_owned].
  by eapply recover_on_owned.
Qed.

(** ** The staged job *)
Abbreviation _prepare_queued_stage := (_prepare_queued_stage size index_ok cfg now writable stage_view).

(** The row a preparation step leaves is still this dispatch's. *)
Definition still_owned {A} (lost : A -> bool) (res : result (A * JobEntry)) (s' : Site W) : Prop :=
  match res with
  | Ok (a, e') => if lost a then accounted s' else owned e' s'
  | Err _ => accounted s'
  end.

Lemma learn_owned e payload s :
  owned e s -> wp (learn_payload size index_ok now writable e payload) (still_owned negb) s.
Proof.
  intros Ho. pose proof Ho as ([H1 H2 H3 []] & _). unfold learn_payload. apply wp_bind. eapply wp_mono.
  - apply (wp_commit_owned e (e <| payload_sha256 := Some payload |>)); [done|by split|done].
  - intros [[[cur|] x]|err] s' Hs; [by apply (owned_accounted e)|by destruct Hs|by apply (owned_accounted e)].
Qed.
Lemma check_owned e v s :
  owned e s -> wp (check_payload size index_ok now writable e v)
                 (still_owned (fun c => match c with inr false => true | _ => false end)) s.
Proof.
  intros Ho. unfold check_payload. destruct (_ || _); [|done].
  destruct (sv_payload v) as [observed|message], (payload_sha256 e) as [expected|]; try done.
  - by case_bool_decide.
  - apply wp_bind. eapply wp_mono; [by apply learn_owned|]. by intros [[[] x]|err] s' Hs.
Qed.
Lemma refresh_owned e v s :
  owned e s -> wp (_refresh_queued_payload size index_ok now writable e v) (still_owned negb) s.
Proof.
  intros Ho. unfold _refresh_queued_payload. destruct (_ && _); [|done].
  destruct (sv_stored_runtime v); [by apply (owned_accounted e)|by apply learn_owned].
Qed.
Lemma prepare_owned e s :
  owned e s -> wp (_prepare_queued_stage e)
    (fun res s' => still_owned (fun st => match st with StageInterrupted => true | _ => false end) res s' /\
       forall spec e', res = Ok (StageReady spec, e') -> exists e'', owned e'' s' /\ stage_spec cfg e'' = Ok (inl spec)) s.
Proof using nodes.
  intros Ho. unfold _prepare_queued_stage, Dispatch._prepare_queued_stage, wp.
  destruct (stage_view e s) as [v s1] eqn:E. pose proof (owned_quiet e s s1 (nc_view _ _ _ _ _ _ _ E) Ho) as Ho1.
  destruct (stage_problem e v); [split; [done|by intros ??[= ]]|].
  match goal with |- context [?m s1] => change (wp m (fun res s' => still_owned (fun st => match st with StageInterrupted => true | _ => false end) res s' /\
       forall spec e', res = Ok (StageReady spec, e') -> exists e'', owned e'' s' /\ stage_spec cfg e'' = Ok (inl spec)) s1) end.
  apply wp_bind. eapply wp_mono; [by apply check_owned|]. intros [[[detail|[]] e1]|x] s2 H2;
    [by split| |by split|by split]. cbn in H2. apply wp_bind. eapply wp_mono; [by apply refresh_owned|].
  intros [[[] e2]|x] s3 H3; [|by split|by split]. cbn in H3. cbn [negb]. apply wp_bind, wp_raising.
  destruct (stage_spec cfg e2) as [[spec|detail]|x] eqn:Es; [|by split|split; [by apply (owned_accounted e2)|done]].
  apply wp_ret. destruct (is_role_row e2); [destruct (sv_bundle v)|]; (split; [done|]); intros spec' e' [= <- <-] || done;
    by exists e2.
Qed.
(** ** The launch loop of a claimed job *)
Context (admission_lock : Site W -> string + bool) (new_token : Site W -> string)
  (proof_error : JobEntry -> Node -> string -> string -> Site W -> option string).

Section candidates.
Context (entry : JobEntry).
Abbreviation record := (record_attempt size index_ok cfg h now writable admission_lock new_token proof_error).
Abbreviation sync_step := (fun n => aside (fun e s => match job_dir_for_node cfg entry n with
                                                      | Ok dir => sync_to_node e n dir s
                                                      | Err x => (ShipEscaped x, s)
                                                      end)).
Abbreviation mat_step := (fun p n dir => aside (fun _ => materialize p n dir)).
Abbreviation launch_step := (fun n dir spec reserve pd => aside (fun e => launch e n dir spec reserve pd)).
Abbreviation cancel_step := (fun n dir token => aside (fun _ =>
  _cancel_orphan sha256_hexdigest py_repr run_on n dir entry.(session) (orphan_layout cfg) token)).
Abbreviation retire_step := (fun n dir => aside (fun _ =>
  _retire_stale_launch_identity sha256_hexdigest py_repr run_on n dir entry.(session) (Some cfg.(c_layout)))).

Lemma aside_inv {A} (f : JobEntry -> Site W -> A * Site W) es x es' :
  aside f es = (x, es') -> es'.1 = es.1 /\ f es.1 es.2 = (x, es'.2).
Proof. unfold aside. destruct (f es.1 es.2) as [y s]. by intros [= -> <-]. Qed.

Lemma sync_quiet n es x es' : sync_step n es = (x, es') -> es'.1 = es.1 /\ quiet es.2 es'.2.
Proof using nodes.
  intros [H1 H2]%aside_inv. split; [done|]. destruct (job_dir_for_node cfg entry n); [by eapply nc_sync|].
  by injection H2 as _ <-.
Qed.
Lemma record_world n d spec es x es' : record n d spec es = (x, es') -> es'.2.(st_world) = es.2.(st_world).
Proof.
  destruct es as [e s]. unfold record_attempt. cbv zeta.
  destruct (_claim_queued_dispatch_attempt _ _ _ _ _ _ _ _ _ _ _ _ _) as [[c|x'] r]; by intros [= _ <-].
Qed.

#[local] Instance loop_contract :
  TryContract (fun es : JobEntry * Site W => alive es.2) record sync_step mat_step launch_step cancel_step retire_step.
Proof using nodes.
  split.
  - intros n d spec es res es' H. unfold DispatchSpec.alive. by rewrite (record_world _ _ _ _ _ _ H).
  - intros n es res es' H. by apply sync_quiet in H as [_ []].
  - intros p n d es res es' [_ H]%aside_inv. by eapply nc_materialize in H as [].
  - intros n d es res es' [_ H]%aside_inv. by apply (retire_quiet _ _ _ alive quiet) in H as [].
  - intros n d t es res es' [_ H]%aside_inv. by apply (cancel_orphan_sound _ _ _ alive quiet) in H as [[] _].
  - intros n d t es es' [_ H]%aside_inv. apply (cancel_orphan_sound _ _ _ alive quiet) in H as [_ H]. by apply H.
  - intros n d spec r p es res es' [_ H]%aside_inv. by eapply nc_launch in H as [].
  - intros n d spec r p es code res es' [_ H]%aside_inv Hc. by eapply nc_refused in H.
  - intros n d spec r p es message es' [_ H]%aside_inv. by eapply nc_raised in H.
Qed.

Definition eligible (n : Node) (d : string) : Prop := node_dir e0 n.(n_name) = Some d.
Definition free (es : JobEntry * Site W) : Prop := es.1.(job_id) = jid /\ fixed es.2.
Definition held (n : Node) (d : string) (es : JobEntry * Site W) : Prop := holds n.(n_name) d es.1 es.2.
Definition spec_ok (spec : RunSpec) : Prop :=
  NoDup spec.(sp_custom_env).*1 /\ forall kv, nonempty spec.(sp_artifact_targets) = Some kv -> NoDup kv.*1.

Lemma aside_held {A} (f : JobEntry -> Site W -> A * Site W) n d es x es' :
  held n d es -> aside f es = (x, es') -> quiet es.2 es'.2 -> held n d es'.
Proof. intros H [H1 _]%aside_inv Hq. unfold held. rewrite H1. by eapply holds_quiet. Qed.

#[local] Instance loop_ledger :
  TryLedger (fun es : JobEntry * Site W => alive es.2) eligible free held spec_ok
    record sync_step mat_step launch_step cancel_step retire_step.
Proof using nodes.
  split.
  - intros n d spec [e s] res es' Hel [Hid Hf] H0 Hs. cbn in Hid, Hf, H0. unfold record_attempt. cbv zeta.
    destruct (_claim_queued_dispatch_attempt _ _ _ _ _ _ _ _ _ _ _ _ _) as [res1 r] eqn:E.
    destruct (claim_own _ _ _ _ _ _ _ _ _ _ _ _ _ _ _ _ _ Hf Hid E) as [Hf' Hc].
    destruct res1 as [c|x]; intros [= <- <-]; [|split; [by split|done]].
    destruct (Hc c eq_refl) as [Hcid Hw]. split; [by split|]. intros own spec' [= <- <-]. split; [done|].
    intros Hwon. destruct (Hw Hwon) as (Ho & Ha & Hsat). split; [done|]. split; [done|]. split; [done|].
    split; [unfold DispatchSpec.alive in *; cbn in *; set_solver|]. by eexists.
  - intros n d es m res es' H E. eapply aside_held; [exact H|exact E|by apply sync_quiet in E as []].
  - intros n d es p m e res es' H E. eapply aside_held; [exact H|exact E|]. apply aside_inv in E as [_ E].
    by eapply nc_materialize in E.
  - intros n d es spec r p res es' H [H1 E]%aside_inv. unfold held in *. rewrite H1.
    destruct (nc_launch _ _ _ _ _ _ _ _ _ _ _ _ E) as [HR [Kc Kl]]. destruct H as (Ho & Hf & Hd & Ha & t & Ht & Hs).
    split; [done|]. split; [by apply Kl|]. split; [done|]. split; [set_solver|]. exists t. split; [done|by apply Kc].
  - intros n d es m e t res es' H E. eapply aside_held; [exact H|exact E|]. apply aside_inv in E as [_ E].
    by apply (cancel_orphan_sound _ _ _ alive quiet) in E as [].
  - intros n d es m e res es' H E. eapply aside_held; [exact H|exact E|]. apply aside_inv in E as [_ E].
    by apply (retire_quiet _ _ _ alive quiet) in E.
  - intros n d es ([Hid _ _ _] & Hf & _). by split.
Qed.
End candidates.
(** *** The row of an accepted launch *)
Lemma launch_phases_keys d phases : _launch_phases_s d = Ok phases -> NoDup phases.*1.
Proof.
  unfold _launch_phases_s. destruct (dict_get _ d) as [| | | | | |raw]; try (intros [= <-]; constructor).
  intros H. destruct (mapM (phase_of raw) LAUNCH_PHASE_KEYS) as [ls|] eqn:E; [|done]. injection H as <-.
  assert (forall keys ls, mapM (phase_of raw) keys = Ok ls -> (concat ls).*1 `sublist_of` keys) as Hsub.
  { clear. induction keys as [|k keys IH]; intros ls H; [by injection H as <-|]. cbn in H.
    destruct (phase_of raw k) as [p|] eqn:Ep; [|done]. destruct (mapM _ keys) as [ps|] eqn:Em; [|done].
    injection H as <-. specialize (IH ps eq_refl). cbn [concat]. rewrite fmap_app.
    assert (p.*1 `sublist_of` [k]) as Hp; [|exact (sublist_app _ _ _ _ Hp IH)].
    unfold phase_of in Ep. cbv zeta in Ep. destruct (is_bool _ || _); [injection Ep as <-; apply sublist_nil_l|].
    destruct (py_float _) as [f|]; [|done]. cbn in Ep. injection Ep as <-.
    destruct f; [destruct (q_ltb q 0)|..]; try apply sublist_nil_l. done. }
  eapply sublist_NoDup; [|by apply Hsub]. by apply (bool_decide_unpack _).
Qed.

Lemma launched_by_row entry n d row :
  unique_keys entry -> launched_by spec_ok cfg (attempt_about entry) n d row ->
  row.(job_id) = entry.(job_id) /\ (row.(node), row.(job_dir)) = (n.(n_name), d) /\ row.(status) = Running /\ unique_keys row.
Proof.
  intros Hu (spec & reasons & sha & x & y & z & doc & [Henv Htg] & Hreasons & H).
  pose proof (launched_row_fields _ _ _ _ _ _ _ _ _ _ _ _ H) as (Hn & Hd & Hs). unfold launched_row in H.
  apply bind_ok in H as (gpus_ & _ & H). apply bind_ok in H as (pgid_ & _ & H). apply bind_ok in H as (phases & Hp & H).
  apply launch_phases_keys in Hp. injection H as <-. split; [done|]. split; [done|]. split; [done|].
  destruct Hu as [U1 _ _ _ _ _]. by split; try constructor.
Qed.

(** *** What is launched was accepted *)
Lemma validate_targets_keys targets v :
  validate_artifact_targets targets = Ok v -> NoDup targets.*1 -> NoDup v.*1.
Proof.
  intros H Hnd. apply validate_targets_inv in H as (-> & _). cbn [app].
  rewrite <- list_fmap_compose, (list_fmap_ext _ id), list_fmap_id by done.
  unfold sort_strings. by rewrite sort_by_perm.
Qed.
Lemma validated_spec_ok s s' :
  _validate_run_spec s = Ok s' -> spec_ok s -> spec_ok s'.
Proof.
  intros H [Henv Htg]. pose proof (validate_accepted s s' H Henv) as Hacc. split; [apply Hacc|].
  unfold _validate_run_spec in H.
  apply bind_ok in H as (s1 & H1 & H). apply check_command_inv in H1 as (env & -> & _); [|done].
  apply bind_ok in H as ([] & _ & H). apply bind_ok in H as (s2 & H3 & H).
  apply bind_ok in H as ([] & _ & H). apply bind_ok in H as (s3 & H5 & H). apply check_dependencies_inv in H5 as (E1 & _).
  apply bind_ok in H as ([] & _ & H). apply check_cache_inv in H as (mode & dir & path & -> & _).
  cbn. assert (s3.(sp_artifact_targets) = s2.(sp_artifact_targets)) as -> by (destruct E1 as [-> | [l ->]]; done).
  unfold check_artifacts in H3. apply bind_raise_ok in H3 as [_ H3]. apply bind_raise_ok in H3 as [_ H3]. cbn in H3.
  destruct s.(sp_artifact_targets) as [[|t l]|] eqn:Et; [injection H3 as <-; cbn; by rewrite Et| |injection H3 as <-; cbn; by rewrite Et].
  apply bind_raise_ok in H3 as [_ H3]. apply bind_ok in H3 as (v & Hv & H3). injection H3 as <-.
  apply validate_targets_keys in Hv; [|by apply Htg]. cbn. intros kv Hkv. by destruct v; [|injection Hkv as <-].
Qed.
Lemma stage_spec_ok e spec : unique_keys e -> stage_spec cfg e = Ok (inl spec) -> spec_ok spec.
Proof.
  intros Hu H. unfold stage_spec in H. apply bind_ok in H as (s0 & H0 & H). cbv zeta in H.
  destruct (_validate_run_spec _) as [s1|[]] eqn:E; try done. injection H as <-.
  eapply validated_spec_ok; [exact E|]. unfold _queued_run_spec in H0. apply bind_ok in H0 as (command & _ & H0).
  injection H0 as <-. destruct Hu as [_ U2 _ _ U5 _]. split; [exact U5|]. cbn. intros kv Hkv. apply U2.
  unfold nonempty in Hkv. by destruct (artifact_targets e) as [[]|].
Qed.
(** ** What the loop left behind *)
Context (perf_counter wall : Site W -> Q).
Abbreviation launch_candidates :=
  (launch_candidates size index_ok sha256_hexdigest py_repr cfg h now writable admission_lock new_token proof_error
     run_on sync_to_node materialize launch perf_counter wall).
Abbreviation conclude_placement :=
  (conclude_placement size index_ok sha256_hexdigest py_repr cfg now writable run_on).
Abbreviation left_at entry candidates :=
  (left_at (job_dir_for_node cfg entry) (fun es : JobEntry * Site W => alive es.2) free held spec_ok cfg
     (attempt_about entry) candidates).

(** Nodes a placement of [entry] may use. *)
Record usable_candidates (entry : JobEntry) (candidates : list Node) : Prop := {
  uc_distinct : NoDup (n_name <$> candidates);
  uc_eligible : forall n d, n ∈ candidates -> job_dir_for_node cfg entry n = Ok d -> node_dir e0 n.(n_name) = Some d;
}.

Lemma candidates_usable entry candidates :
  own_row entry -> NoDup (n_name <$> cfg.(c_nodes)) -> NoDup (n_name <$> candidates) ->
  (forall n, n ∈ candidates -> n ∈ cfg.(c_nodes)) -> usable_candidates entry (_queued_node cfg entry <$> candidates).
Proof.
  intros [Hid _ Hl _] Hcfg Hnd Hin. split.
  - rewrite <- list_fmap_compose. by rewrite (list_fmap_ext _ n_name) by (intros; apply queued_node_name).
  - intros n d Hn Hd. apply list_elem_of_fmap in Hn as (m & -> & Hm). rewrite queued_node_name.
    rewrite <- (node_dir_layout entry e0) by done. unfold node_dir.
    by rewrite (configured_unique cfg m Hcfg (Hin m Hm)), Hd.
Qed.

(** The failed row of an uncertain launch names the node of the last reason. *)
Lemma failed_uncertain entry candidates n d bad row :
  NoDup (n_name <$> candidates) -> n ∈ candidates -> job_dir_for_node cfg entry n = Ok d ->
  failed_row cfg now entry candidates n.(n_name) bad true = Ok row ->
  row.(job_id) = entry.(job_id) /\ (row.(node), row.(job_dir)) = (n.(n_name), d) /\ row.(status) = Failed /\
  row.(reason) = Some (UNCERTAIN_LAUNCH_PREFIX +:+ bad) /\ (unique_keys entry -> unique_keys row).
Proof.
  intros Hnd Hin Hd. unfold failed_row. cbv zeta.
  assert (List.find (fun c => bool_decide (c.(n_name) = n.(n_name))) candidates = Some n) as ->.
  { clear -Hnd Hin. induction candidates as [|m l IH]; [set_solver|]. rewrite fmap_cons in Hnd.
    apply NoDup_cons in Hnd as [Hm Hl]. cbn. case_bool_decide as E.
    - apply elem_of_cons in Hin as [-> | Hin]; [done|]. destruct Hm. apply list_elem_of_fmap. by exists n.
    - apply IH; [done|]. apply elem_of_cons in Hin as [-> | Hin]; done. }
  unfold job_dir_for_node in Hd. change (default _ (Some n)) with n.
  match goal with |- context [is_role_row ?e] => change (is_role_row e) with (is_role_row entry) end.
  unfold is_role_row in *. destruct (bool_decide (entry.(storage_layout) = Some ROLE_LAYOUT)).
  - cbn [job_id]. match goal with |- context [worker_job_dir cfg n ?j] => change j with (entry.(job_id)) end.
    rewrite Hd. intros [= <-]. split_and!; try done. by intros [].
  - injection Hd as <-. intros [= <-]. split_and!; try done. by intros [].
Qed.

Lemma uncertain_fail_accounted entry owner candidates n d m d' reasons why s :
  usable_candidates owner candidates -> (forall n, job_dir_for_node cfg entry n = job_dir_for_node cfg owner n) ->
  own_row entry -> n ∈ candidates -> job_dir_for_node cfg owner n = Ok d -> last reasons = Some (n.(n_name), why) ->
  alive s ⊆ {[ (n.(n_name), d) ]} -> holds m d' owner s ->
  wp (_fail_queued_placement size index_ok cfg now writable entry candidates reasons true (attempt_of owner)) ends s.
Proof.
  intros [Hnd _] Hdir He Hn Hd Hlast HR Hh. unfold _fail_queued_placement. rewrite Hlast.
  apply wp_bind, wp_raising. apply wp_bind, wp_raising. cbn [fst].
  destruct (failed_row cfg now entry candidates n.(n_name) (reasons_detail reasons) true) as [row|x] eqn:E;
    [|by eapply holds_accounted].
  rewrite <- Hdir in Hd. apply (failed_uncertain _ _ _ d) in E as (Hid & [= Hnn Hdd] & Hst & Hre & Hu); [|done..].
  specialize (Hu (ow_unique _ _ _ He)). rewrite (ow_id _ _ _ He) in Hid.
  apply wp_bind, wp_commit. intros res r Hcommit.
  assert (same_rows s.(st_registry) r -> accounted (mkSite r s.(st_world))) as Hsame.
  { intros Hs. apply (holds_accounted m d' owner). destruct Hh as (? & ? & ? & ? & t & ? & ?).
    split; [done|]. split; [by eapply fixed_same|]. do 2 (split; [done|]). exists t. split; [done|by eapply row_sat_same]. }
  destruct (commit_cases _ _ _ _ _ _ _ _ _ _ Hu Hcommit) as [[Hs _]|[(_ & ? & _)|(cur & saved & _ & _ & _ & -> & _ & _ & Hrow)]];
    [|done|].
  - specialize (Hsame Hs). by destruct res as [[[?|] x]|].
  - right. rewrite Hid in Hrow. cbn [st_registry]. eapply row_sat_impl; [|exact Hrow]. intros y ([Hp _] & _ & Hry). right.
    rewrite (sp_node_name _ _ Hp), (sp_dir _ _ Hp), Hnn, Hdd. split; [|exact HR]. right. unfold is_uncertain_launch.
    rewrite (sp_status _ _ Hp), Hst, Hry, Hre, bool_decide_true by done. cbn [andb fmap option_fmap option_map].
    apply uncertain_excerpt. by eapply reasons_visible.
Qed.

Lemma fail_placement_empty entry candidates reasons uncertain a s :
  alive s = ∅ -> wp (_fail_queued_placement size index_ok cfg now writable entry candidates reasons uncertain a) ends s.
Proof.
  intros H0. apply wp_bind, wp_raising. destruct (last reasons); [|by left].
  apply wp_bind, wp_raising. destruct (failed_row _ _ _ _ _ _ _); [|by left]. by apply commit_or_empty.
Qed.

Lemma conclude_accounted entry0 entry candidates probe_reasons p s :
  unique_keys entry0 -> usable_candidates entry0 candidates ->
  (own_row entry -> forall n, job_dir_for_node cfg entry0 n = job_dir_for_node cfg entry n) -> entry0.(job_id) = jid ->
  settled (job_dir_for_node cfg entry0) candidates p (alive s) -> left_at entry0 candidates p.(pl_entry) (entry, s) ->
  NoDup (keys p.(pl_tries)) ->
  wp (conclude_placement entry candidates probe_reasons p) ends s.
Proof using nodes.
  intros Hu Huc Hdir Hid Hset Hleft Hkeys. unfold conclude_placement, Dispatch.conclude_placement. cbv zeta.
  destruct p.(pl_entry) as [placed|] eqn:Ep.
  - destruct Hleft as [[? _]|(n & d & Hn & Hd & Hh & Hrow)]; [done|].
    destruct (launched_by_row entry0 n d placed Hu (Hrow placed eq_refl)) as (H1 & [= H2 H3] & H4 & H5).
    destruct Hh as (Ho & Hf & Hh). apply finish_owned; [|congruence|done|by rewrite H4; left|].
    + split; [done|]. split; [done|]. right. exists n.(n_name), d. by split.
    + rewrite H2, H3. apply Hh.
  - unfold settled in Hset. rewrite Ep in Hset.
    case_bool_decide as Hint; [destruct Hset as [H0|(_ & Hi & _)]; [by left|done]|].
    destruct Hset as [H0|(Hc & _ & Hfatal & n & d & why & Hn & Hd & Hlast & HR)].
    { destruct p.(pl_fatal); [by apply fail_placement_empty|]. repeat case_match; by apply settle_empty. }
    rewrite Hfatal, bool_decide_true by done.
    destruct Hleft as [(_ & _ & H0)|(m & d' & _ & _ & Hh & _)]; [by apply fail_placement_empty|].
    pose proof Hh as ([O1 O2 O3 []] & _).
    assert (own_row (unclaimed (entry <| placement_failures := tr_reasons (pl_tries p) |>))) as Hown by (by split).
    apply (uncertain_fail_accounted _ entry candidates n d m.(n_name) d' _ why); try done.
    + split; [apply Huc|]. intros n' d'' Hn' Hd''. apply Huc; [done|]. by rewrite Hdir by (by split).
    + by rewrite <- Hdir by (by split).
Qed.

Lemma launch_accounted entry spec probe_reasons candidates loaded s :
  own_row entry -> fixed s -> alive s = ∅ -> spec_ok spec -> usable_candidates entry candidates ->
  wp (launch_and_conclude size index_ok sha256_hexdigest py_repr cfg h now writable admission_lock new_token proof_error
        run_on sync_to_node materialize launch perf_counter wall entry spec probe_reasons candidates loaded) ends s.
Proof using nodes.
  intros Ho Hf H0 Hs Huc. unfold launch_and_conclude, Dispatch.launch_candidates, _try_nodes, wp.
  pose proof (loop_contract entry) as Hcontract. pose proof (loop_ledger entry) as Hledger.
  set (t0 := mkTries [] ∅ _).
  assert (clean t0) as Hclean by (split; cbn; set_solver).
  assert (forall n : Node, n ∈ candidates -> n.(n_name) ∉ keys t0) as Hk by (intros n _; apply not_elem_of_nil).
  assert (tries_ok spec_ok t0) as Ht by (split; [exact Hs|constructor]).
  epose proof (walk_sound (job_dir_for_node cfg entry) _ _ _ _ _ _ _ (contract := Hcontract) cfg (attempt_about entry)
    (handoff_predecessor spec loaded) (fun es => perf_counter es.2) (fun es => wall es.2) candidates t0 (entry, s)
    (uc_distinct _ _ Huc) Hk Hclean H0) as [_ Hsound].
  epose proof (walk_held (job_dir_for_node cfg entry) _ _ _ _ _ _ _ _ _ _ _ (contract := Hcontract) (ledger := Hledger) cfg (attempt_about entry)
    (handoff_predecessor spec loaded) (fun es => perf_counter es.2) (fun es => wall es.2) candidates t0 (entry, s)
    (uc_distinct _ _ Huc) Hk Hclean H0 (uc_eligible _ _ Huc) (conj (ow_id _ _ _ Ho) Hf) Ht) as Hheld.
  destruct (try_candidates _ _ _ _ _ _ _ _ _ _ _ _ candidates t0 (entry, s)) as [[p|e] [entry' s']].
  - destruct Hheld as [Hleft [_ Hnd]].
    match goal with |- context [?m s'] => change (wp m ends s') end.
    apply (conclude_accounted entry); try done; [apply Ho| |apply Ho].
    intros Ho' n. destruct Ho as [I1 _ I3 _], Ho' as [J1 _ J3 _]. apply job_dir_layout; congruence.
  - assert (accounted s') as Hacc.
    { destruct Hheld as [(_ & _ & H)|(n & d & _ & _ & Hh & _)]; [by left|by eapply holds_accounted]. }
    destruct e; try exact Hacc. destruct Hsound as [H|H]; [|by destruct (H _ eq_refl)].
    match goal with |- context [fail ?a ?b ?c ?d ?e ?f] => change (wp (fail a b c d e f) ends s') end.
    by apply commit_or_empty.
Qed.
(** ** Placement and the whole dispatch *)
Context (fmt1 : Q -> string).
Context (Hcfg : NoDup (n_name <$> cfg.(c_nodes))).

Lemma place_accounted entry spec reserved statuses s :
  own_row entry -> fixed s -> alive s = ∅ -> spec_ok spec -> NoDup (s_node <$> statuses) ->
  wp (place size index_ok fmt1 sha256_hexdigest py_repr cfg h now writable admission_lock new_token proof_error
        run_on sync_to_node materialize launch perf_counter wall entry spec reserved statuses) ends s.
Proof using nodes Hcfg.
  intros Ho Hf H0 Hs Hst. assert (owned entry s) as Hown by (split; [done|]; split; [done|by left]).
  unfold place. cbv zeta.
  destruct (pick_candidates _ _ _ _ _) as [candidates|x] eqn:Ep;
    [|destruct x; first [by apply fail_owned | by apply (owned_accounted entry)]].
  destruct (candidates_distinct _ _ _ _ _ _ Hst Ep) as [Hnd Hin].
  destruct (_ && _); [by apply hold_owned|].
  set (chosen := if pin_is_busy statuses spec then [] else candidates).
  assert (NoDup (n_name <$> chosen) /\ forall n, n ∈ chosen -> n ∈ cfg.(c_nodes)) as [Hnd' Hin'].
  { unfold chosen. destruct (pin_is_busy _ _); [|done]. split; [constructor|]. by intros n ?%not_elem_of_nil. }
  clearbody chosen. destruct chosen as [|c rest]; [destruct (blocked_not_busy _); by apply hold_owned|].
  apply wp_bind. eapply wp_mono with (Q := fun _ s' => s' = s).
  { unfold predecessor_row. destruct (truthy _); [|done]. apply wp_registry. intros res r E.
    apply load_ok in E as ->. by destruct s. }
  intros [loaded|x] s' ->; [|by left]. apply launch_accounted; try done. by apply candidates_usable.
Qed.

Lemma gather_statuses_post entry spec statuses s :
  owned entry s -> alive s = ∅ -> (forall l, statuses = Some l -> NoDup (s_node <$> l)) ->
  wp (gather_statuses cfg _probe_pinned_node probe_center spec statuses)
    (fun res s' => owned entry s' /\ alive s' = ∅ /\ forall l, res = Ok (Some l) -> NoDup (s_node <$> l)) s.
Proof using nodes writable.
  intros Ho H0 Hst. unfold gather_statuses, wp. destruct (pinned spec) as [pin|].
  - destruct (by_name cfg.(c_nodes) !! pin) as [n|]; [|done].
    destruct (List.filter _ _) as [|st l] eqn:E.
    + destruct (_probe_pinned_node n s) as [st s'] eqn:Ep. pose proof (nc_pinned _ _ _ _ _ _ _ Ep) as Hq.
      split; [by eapply owned_quiet|]. split; [by eapply empty_quiet|]. intros l [= <-]. apply NoDup_singleton.
    + split; [done|]. split; [done|]. intros l' [= <-]. rewrite <- E. apply NoDup_fmap_filterb.
      destruct statuses; [by apply Hst|constructor].
  - destruct statuses as [l|]; [split; [done|]; split; [done|]; intros l' [= <-]; by apply Hst|].
    destruct (probe_center s) as [l s'] eqn:Ep. destruct (nc_center _ _ _ _ _ _ Ep) as [Hq Hl].
    split; [by eapply owned_quiet|]. split; [by eapply empty_quiet|]. by intros l' [= <-].
Qed.

Lemma stage_accounted entry spec statuses reserved s :
  owned entry s -> alive s = ∅ -> spec_ok spec -> (forall l, statuses = Some l -> NoDup (s_node <$> l)) ->
  wp (dispatch_stage size index_ok fmt1 sha256_hexdigest py_repr cfg h now writable admission_lock new_token proof_error
        run_on _probe_pinned_node probe_center sync_to_node materialize launch perf_counter wall
        entry spec statuses reserved) ends s.
Proof using nodes Hcfg.
  intros Ho H0 Hs Hst. apply wp_bind. eapply wp_mono; [by apply (gather_statuses_post entry)|].
  intros [[probed|]|x] s1 (Ho1 & H1 & Hl); [| |by left]; [|by apply fail_owned].
  apply wp_bind, wp_registry. intros res r E. specialize (Hl probed eq_refl).
  unfold _reserve_inflight_claims in E.
  destruct (active_entries size index_ok now true s1.(st_registry)) as [act r1] eqn:Ea.
  apply query_inv in Ea as [ix ->]. pose proof Ho1 as (Hrow & Hf & _).
  assert (layout_fixed jid lay (s1.(st_registry) <| index_file := ix |>)) as Hf' by (eapply fixed_same; [apply same_rows_index|done]).
  assert (forall reserved, s_node <$> (hide_status reserved <$> probed) = s_node <$> probed) as Hhide.
  { intros reserved'. rewrite <- list_fmap_compose. apply list_fmap_ext. intros _ st _. cbn. unfold hide_status.
    by repeat case_match. }
  destruct act as [[rows damage]|[]]; cbv zeta in E; injection E as <- <-; try by left.
  - apply place_accounted; try done. by rewrite Hhide.
  - by apply place_accounted.
Qed.

End dispatch.

(** ** A concrete center: one queued job, two nodes that answer *)
Definition floor : Type := Site (gset capsule).
Definition floor_run (n : string) (_ : bool) (c : remote_command) (s : floor) : remote_reply * floor :=
  match c with
  | Terminate d _ _ _ _ _ => (Replied 0 "DEAD" "", mkSite s.(st_registry) (s.(st_world) ∖ {[ (n, d) ]}))
  | _ => (Unreached "RemoteError" "connection refused", s)
  end.
Definition floor_view (_ : JobEntry) (s : floor) : StageView * floor :=
  (mkStageView CodeDirectory None None false (inl "") "" None None, s).
Definition floor_probe (n : Node) (s : floor) : NodeStatus * floor :=
  (mkStatus n.(n_name) [] None None None false false, s).
Definition floor_center (s : floor) : list NodeStatus * floor := ([], s).
Definition floor_sync (_ : JobEntry) (_ : Node) (_ : string) (s : floor) : shipped * floor := (Shipped (zero_sha []), s).
Definition floor_materialize (_ : JobEntry) (_ : Node) (_ : string) (s : floor)
  : result (option string * option string) * floor := (Ok (None, None), s).
Definition floor_launch (_ : JobEntry) (n : Node) (d : string) (_ : RunSpec) (_ : Z) (_ : option string) (s : floor)
  : launch_reply * floor :=
  (Answered 0 (inl [("pgid", JInt 41)]), mkSite s.(st_registry) ({[ (n.(n_name), d) ]} ∪ s.(st_world))).

#[export] Instance floor_nodes jid l :
  NodeContract id jid l id floor_run floor_view floor_probe floor_center floor_sync floor_materialize floor_launch.
Proof.
  assert (forall s s' : floor, s'.(st_registry) = s.(st_registry) -> s'.(st_world) ⊆ s.(st_world) -> quiet id jid l s s') as Hq.
  { intros s s' Hr Hw. split; [exact Hw|]. rewrite Hr. apply keeps_refl. }
  split; unfold floor_view, floor_probe, floor_center, floor_sync, floor_materialize, floor_launch.
  - intros n local c s reply s' H. unfold floor_run in H. destruct c; injection H as _ <-; apply Hq; cbn; set_solver.
  - intros n local d pg b se tok lay s rc out err s' H _. unfold floor_run in H. injection H as _ _ _ <-. done.
  - intros e s v s' H. injection H as _ <-. by apply Hq.
  - intros n s st s' H. injection H as _ <-. by apply Hq.
  - intros s sts s' H. injection H as <- <-. split; [by apply Hq|constructor].
  - intros e n d s res s' H. injection H as _ <-. by apply Hq.
  - intros p n d s res s' H. injection H as _ <-. by apply Hq.
  - intros e n d spec r p s res s' H. injection H as _ <-. split; [done|apply keeps_refl].
  - intros e n d spec r p s code res s' H. injection H as <- _ _. done.
  - intros e n d spec r p s message s' H. discriminate H.
Qed.

Definition floor_row : JobEntry :=
  match load 200%Q waiting_row.(job_id) stored_waiting with (Ok (Some e), _) => e | _ => waiting_row end.
Lemma floor_row_load now :
  load now waiting_row.(job_id) stored_waiting = (Ok (Some floor_row), stored_waiting).
Proof.
  assert (match (save sample_size true 200%Q true waiting_row sample_registry).1 with Ok _ => true | Err _ => false end = true) as H
    by (vm_compute; reflexivity).
  unfold floor_row, stored_waiting in *.
  destruct (save sample_size true 200%Q true waiting_row sample_registry) as [[out|x] r] eqn:E; [|discriminate H]. cbn [snd].
  apply save_inv in E as (existing & row & s & S).
  assert (unique_keys waiting_row) as Hu by (split; vm_compute; try discriminate; constructor).
  destruct (saved_load _ _ _ _ _ _ _ _ _ now Hu S) as [-> _].
  by destruct (saved_load _ _ _ _ _ _ _ _ _ 200%Q Hu S) as [-> _].
Qed.
(** A row as it is stored, of a job that runs nowhere. *)
Lemma owned_stored {W} (cfg : HeadConfig) (capsules : W -> gset capsule) (row : JobEntry) jid r w :
  (forall now, load now jid r = (Ok (Some row), r)) -> row.(status) = Queued -> capsules w = ∅ ->
  owned cfg capsules row row (mkSite r w).
Proof.
  intros Hload Hq Hw. pose proof (load_id _ _ _ _ _ (Hload 0%Q)) as Hid. split.
  - split; [done|done|done|]. by eapply load_unique, (Hload 0%Q).
  - split; [|by left]. intros now e r' Hl _. cbn [st_registry] in Hl. rewrite Hid, Hload in Hl. by injection Hl as <- _.
Qed.
Lemma floor_queued : floor_row.(status) = Queued.
Proof. vm_compute. reflexivity. Qed.
Lemma floor_owned : owned small_center id floor_row floor_row (mkSite stored_waiting ∅).
Proof. exact (owned_stored small_center id floor_row _ _ _ floor_row_load floor_queued eq_refl). Qed.

Definition floor_dispatch : result (outcome * JobEntry) * floor :=
  _dispatch_queued_active sample_size true (fun _ => "") zero_sha id small_center claim_head 300%Q (fun _ => true)
    (fun _ => inr true) (fun _ => fresh_attempt) (fun _ _ _ _ _ => None) floor_run floor_view floor_probe floor_center
    floor_sync floor_materialize floor_launch (fun _ => 0%Q) (fun _ => 310%Q) floor_row
    (Some [mkStatus "n2" [] None None None false false]) ∅ (mkSite stored_waiting ∅).
Lemma floor_started :
  match floor_dispatch with
  | (Ok (o, e), s) => bool_decide (o = ("started", Some "n2")) && bool_decide (elements s.(st_world) = [("n2", e.(job_dir))])
  | _ => false
  end = true.
Proof. vm_compute. reflexivity. Qed.


(** A dequeue raced the launch of a job the node then cancels. *)
Definition raced_row : JobEntry := waiting_row <| status := Running |> <| node := "n2" |> <| job_dir := "~/dt/worker/jobs/j" |>.

(** ** A claimed job whose stage is gone

    [fail] keeps the claim on the row it marks failed, and the registry refuses
    a claim on a row that is not queued.  The stage is checked before the claim
    is recovered, so every dispatch of such a job raises, and the launch its
    dead dispatcher may have started is never looked at. *)
Definition rebooted_head : HeadView := mkHeadView 77 (Some "boot-2") claim_head.(stat_text) [].
Definition claimed_row : JobEntry :=
  match load 400%Q waiting_row.(job_id) first_claim.2 with (Ok (Some e), _) => e | _ => waiting_row end.
Definition lost_view (_ : JobEntry) (s : floor) : StageView * floor :=
  (mkStageView CodeMissing None None false (inl "") "" None None, s).
Definition stuck_dispatch : result (outcome * JobEntry) * floor :=
  _dispatch_queued_active sample_size true (fun _ => "") zero_sha id small_center rebooted_head 400%Q (fun _ => true)
    (fun _ => inr true) (fun _ => other_attempt) (fun _ _ _ _ _ => None) floor_run lost_view floor_probe floor_center
    floor_sync floor_materialize floor_launch (fun _ => 0%Q) (fun _ => 410%Q) claimed_row
    (Some [mkStatus "n2" [] None None None false false]) ∅ (mkSite first_claim.2 {[ ("n2", claimed_row.(job_dir)) ]}).
Lemma claimed_job_without_stage_is_stuck :
  match stuck_dispatch.1 with Err (RegistryError _) => true | _ => false end = true /\
  match (load 500%Q waiting_row.(job_id) stuck_dispatch.2.(st_registry)).1 with
  | Ok (Some e) => bool_decide (e.(status) = Queued) && bool_decide (attempt_of e = (Some "n2", Some fresh_attempt))
  | _ => false
  end = true /\
  elements stuck_dispatch.2.(st_world) = [("n2", claimed_row.(job_dir))].
Proof. split_and!; vm_compute; reflexivity. Qed.
