(* ===== verification/CleanPlan.v ===== *)
(** * Durable cleanup authorizations ([maintenance.py])

    A preview of [dt clean] is persisted as a plan: the exact job identities
    and managed results it may delete, for one center and one day.  The plan
    store maps plan identities to files; [compact_size] is the UTF-8 size of a
    document dumped with compact separators.  A document is its value with the
    keys of every object sorted, as [sort_keys] dumps it. *)

From S2P Require Import Prelude Text PyValue Layout JobEntry RegistryCodec CodecSound CodecCanonical Registry.

Definition CLEAN_PLAN_SCHEMA_VERSION : string := "dt_clean_plan_v1".
Definition CLEAN_PLAN_TTL_S : Q := 86400.
Definition MAX_CLEAN_PLAN_BYTES : Z := 67108864.
Definition MAX_CLEAN_PLAN_ITEMS : Z := 200000.
Definition MAX_CLEAN_PLAN_PAGE_ITEMS : Z := 1000.
Definition _CLEAN_PLAN_PAGE_ITEMS_BUDGET : Z := 786432.
Definition _MAX_CLEAN_PLAN_IDENTITY_BYTES : Z := 65536.
Definition CLEAN_PLAN_ID_RE : list re_item := [Rep is_hex 32 32].

(** ** Authorizations *)

(** The dataclass as a caller may build it: the fields are unchecked. *)
Record RawAuthorization := mkRaw {
  ra_job_id : json;
  ra_node : json;
  ra_node_local : json;
  ra_job_dir : json;
  ra_storage_layout : json;
  ra_updated_at : json;
}.
Record CleanAuthorization := mkAuthorization {
  ca_job_id : string;
  ca_node : string;
  ca_node_local : bool;
  ca_job_dir : string;
  ca_storage_layout : option string;
  ca_updated_at : option Q;
}.
Record CleanManagedResultAuthorization := mkManaged {
  mr_job_id : string;
  mr_path : string;
  mr_device : Z;
  mr_inode : Z;
}.
#[export] Instance managed_eq_dec : EqDecision CleanManagedResultAuthorization.
Proof. solve_decision. Defined.

Record CleanPlan := mkPlan {
  plan_id : string;
  pl_center : string;
  pl_created_at : Q;
  pl_expires_at : Q;
  pl_jobs : list CleanAuthorization;
  pl_managed_results : list CleanManagedResultAuthorization;
  pl_managed_identity : list (string * json);
}.

Definition raw_of (a : CleanAuthorization) : RawAuthorization :=
  mkRaw (JStr a.(ca_job_id)) (JStr a.(ca_node)) (JBool a.(ca_node_local)) (JStr a.(ca_job_dir))
    (of_opt JStr a.(ca_storage_layout)) (of_opt of_num a.(ca_updated_at)).
Definition authorization_of (entry : JobEntry) : CleanAuthorization :=
  mkAuthorization entry.(job_id) entry.(node) entry.(node_local) entry.(job_dir) entry.(storage_layout)
    entry.(updated_at).
Definition from_entry (entry : JobEntry) : RawAuthorization := raw_of (authorization_of entry).

Definition invalid_identity : exn := CleanPlanError "cleanup authorization has an invalid job identity".
(** [re.fullmatch] raises on anything but a string. *)
Definition text_matches (re : list re_item) (v : json) : result bool :=
  match v with
  | JStr s => Ok (fullmatch re s)
  | _ => Err (TypeError "expected string or bytes-like object")
  end.
Definition empty_text (v : json) : bool := match v with JStr s => bool_decide (s = "") | _ => true end.
(** Membership in a set hashes the value first. *)
Definition layout_unknown (v : json) : result bool :=
  match v with
  | JList _ | JDict _ => Err (TypeError "unhashable type")
  | JNull => Ok false
  | JStr s => Ok (negb (bool_decide (s ∈ [LEGACY_LAYOUT; ROLE_LAYOUT])))
  | _ => Ok true
  end.
Definition bad_time (v : json) : result bool :=
  if is_bool v || negb (is_int v || is_float v) then Ok true
  else f ← py_float v; Ok (negb (isfinite f) || negative v).
Definition bad_optional_time (v : json) : result bool := if is_null v then Ok false else bad_time v.
Definition plan_text (v : json) : string := match v with JStr s => s | _ => "" end.

Definition _clean_authorization (selected : RawAuthorization) : result CleanAuthorization :=
  safe ← text_matches JOB_ID_RE selected.(ra_job_id);
  raise_if (negb safe) invalid_identity ;;
  raise_if (empty_text selected.(ra_node) || negb (is_bool selected.(ra_node_local))
            || empty_text selected.(ra_job_dir)) invalid_identity ;;
  unknown ← layout_unknown selected.(ra_storage_layout);
  raise_if unknown invalid_identity ;;
  bad ← bad_optional_time selected.(ra_updated_at);
  raise_if bad invalid_identity ;;
  Ok (mkAuthorization (plan_text selected.(ra_job_id)) (plan_text selected.(ra_node))
        (match selected.(ra_node_local) with JBool b => b | _ => false end) (plan_text selected.(ra_job_dir))
        (match selected.(ra_storage_layout) with JStr s => Some s | _ => None end)
        (if is_null selected.(ra_updated_at) then None else as_number selected.(ra_updated_at))).

(** ** The managed identity *)
Definition key_ltb (a b : string * json) : bool := str_ltb a.1 b.1.
Fixpoint sort_keys (v : json) : json :=
  match v with
  | JList l => JList (List.map sort_keys l)
  | JDict kv => JDict (sort_by key_ltb (List.map (fun p => (p.1, sort_keys p.2)) kv))
  | _ => v
  end.
(** [json.dumps(allow_nan=False, sort_keys=True)] and [json.loads] back. *)
Definition _canonical_managed_identity (value : json) : result (list (string * json)) :=
  raise_if (negb (is_dict value)) (CleanPlanError "cleanup managed identity must be a JSON object") ;;
  match decode_strict value with
  | Err _ => Err (CleanPlanError "cleanup managed identity is not valid JSON")
  | Ok encoded =>
      match sort_keys encoded with
      | JDict decoded => Ok decoded
      | _ => Err (CleanPlanError "cleanup managed identity is not lossless JSON")
      end
  end.

Definition managed_fields : list string := ["job_id"; "path"; "device"; "inode"].
Definition managed_invalid : exn := CleanPlanError "cleanup plan managed result identity is invalid".
Definition managed_result_of (raw : json) : result CleanManagedResultAuthorization :=
  match raw with
  | JDict kv =>
      raise_if (negb (same_keys kv managed_fields)) managed_invalid ;;
      match dict_get "job_id" kv, dict_get "path" kv, dict_get "device" kv, dict_get "inode" kv with
      | JStr job_id_, JStr path, JInt device_, JInt inode_ =>
          raise_if (negb (valid_job_id job_id_) || bool_decide (path = "") || (device_ <? 0) || (inode_ <=? 0))
            managed_invalid ;;
          Ok (mkManaged job_id_ path device_ inode_)
      | _, _, _, _ => Err managed_invalid
      end
  | _ => Err managed_invalid
  end.
Fixpoint managed_results_from (seen : list CleanManagedResultAuthorization) (raws : list json)
  : result (list CleanManagedResultAuthorization) :=
  match raws with
  | [] => Ok seen
  | raw :: rest =>
      found ← managed_result_of raw;
      raise_if (bool_decide (found ∈ seen)) (CleanPlanError "cleanup plan contains duplicate managed results") ;;
      managed_results_from (seen ++ [found]) rest
  end.
Definition too_many : exn := CleanPlanError "cleanup plan exceeds its item limit".
Definition _managed_result_identities (managed_identity : list (string * json))
  : result (list CleanManagedResultAuthorization) :=
  match default (JList []) (assoc "managed_results" managed_identity) with
  | JList raws =>
      raise_if (MAX_CLEAN_PLAN_ITEMS <? Z.of_nat (length raws)) too_many ;;
      managed_results_from [] raws
  | _ => Err (CleanPlanError "cleanup plan managed results are invalid")
  end.

(** ** Pages *)
Record CleanPlanPageItem := mkItem {
  it_index : nat;
  it_kind : string;
  it_identity : list (string * json);
}.
Record CleanPlanPage := mkPage {
  pg_offset : Z;
  pg_limit : Z;
  pg_total : Z;
  pg_items : list CleanPlanPageItem;
  pg_next_offset : option Z;
}.
(** [asdict] of the two identities. *)
Definition authorization_fields (a : CleanAuthorization) : list (string * json) :=
  [("job_id", JStr a.(ca_job_id)); ("node", JStr a.(ca_node)); ("node_local", JBool a.(ca_node_local));
   ("job_dir", JStr a.(ca_job_dir)); ("storage_layout", of_opt JStr a.(ca_storage_layout));
   ("updated_at", of_opt of_num a.(ca_updated_at))].
Definition result_fields (m : CleanManagedResultAuthorization) : list (string * json) :=
  [("job_id", JStr m.(mr_job_id)); ("path", JStr m.(mr_path)); ("device", JInt m.(mr_device));
   ("inode", JInt m.(mr_inode))].

Section plans.
Context (compact_size : json -> nat).

Definition _page_item_size (item : CleanPlanPageItem) : Z :=
  Z.of_nat (compact_size (sort_keys (JDict (("index", JInt (Z.of_nat item.(it_index)))
                                            :: ("kind", JStr item.(it_kind)) :: item.(it_identity))))).
Definition _require_pageable_identity (item : CleanPlanPageItem) : result unit :=
  raise_if (_MAX_CLEAN_PLAN_IDENTITY_BYTES <? _page_item_size item)
    (CleanPlanError "cleanup plan identity exceeds its size limit").
Definition job_item (index : nat) (a : CleanAuthorization) : CleanPlanPageItem :=
  mkItem index "job" (authorization_fields a).
Definition result_item (index : nat) (m : CleanManagedResultAuthorization) : CleanPlanPageItem :=
  mkItem index "managed_result" (result_fields m).
Definition _require_pageable_plan_identities (jobs : list CleanAuthorization)
    (results : list CleanManagedResultAuthorization) : result unit :=
  for_each _require_pageable_identity (imap job_item jobs) ;;
  for_each _require_pageable_identity (imap (fun i => result_item (length jobs + i)) results).

Definition item_at (plan : CleanPlan) (index : nat) : option CleanPlanPageItem :=
  if (index <? length plan.(pl_jobs))%nat then job_item index <$> plan.(pl_jobs) !! index
  else result_item index <$> plan.(pl_managed_results) !! (index - length plan.(pl_jobs))%nat.
(** The loop of a page: a full page, or the byte budget, ends it. *)
Fixpoint page_loop (plan : CleanPlan) (indexes : list nat) (items : list CleanPlanPageItem) (encoded_bytes : Z)
  : result (list CleanPlanPageItem) :=
  match indexes with
  | [] => Ok items
  | index :: rest =>
      match item_at plan index with
      | None => Err (KeyError "tuple index out of range")
      | Some item =>
          let item_bytes := _page_item_size item + (if bool_decide (length items = 0%nat) then 0 else 1) in
          if _CLEAN_PLAN_PAGE_ITEMS_BUDGET <? encoded_bytes + item_bytes then
            raise_if (bool_decide (length items = 0%nat))
              (CleanPlanError "cleanup plan identity exceeds page size limit") ;;
            Ok items
          else page_loop plan rest (items ++ [item]) (encoded_bytes + item_bytes)
      end
  end.
Definition plan_total (plan : CleanPlan) : Z :=
  Z.of_nat (length plan.(pl_jobs) + length plan.(pl_managed_results)).
Definition clean_plan_page (plan : CleanPlan) (offset limit : Z) : result CleanPlanPage :=
  raise_if (offset <? 0) (CleanPlanError "cleanup plan page offset is invalid") ;;
  raise_if ((limit <? 1) || (MAX_CLEAN_PLAN_PAGE_ITEMS <? limit))
    (CleanPlanError "cleanup plan page limit must be between 1 and 1000") ;;
  let total := plan_total plan in
  raise_if (total <? offset) (CleanPlanError "cleanup plan page offset exceeds its item count") ;;
  let stop := Z.min total (offset + limit) in
  items ← page_loop plan (List.seq (Z.to_nat offset) (Z.to_nat (stop - offset))) [] 2;
  let consumed := offset + Z.of_nat (length items) in
  Ok (mkPage offset limit total items (if consumed <? total then Some consumed else None)).

(** ** Creating and loading a plan *)
Definition _clean_plan_path (id : string) : result string :=
  raise_if (negb (fullmatch CLEAN_PLAN_ID_RE id)) (CleanPlanError "cleanup plan identity is invalid") ;;
  Ok id.
Definition plan_document (plan : CleanPlan) : json :=
  sort_keys (JDict
    [("schema_version", JStr CLEAN_PLAN_SCHEMA_VERSION); ("plan_id", JStr plan.(plan_id));
     ("center", JStr plan.(pl_center)); ("created_at", JFloat (Fin plan.(pl_created_at)));
     ("expires_at", JFloat (Fin plan.(pl_expires_at)));
     ("jobs", JList ((fun a => JDict (authorization_fields a)) <$> plan.(pl_jobs)));
     ("managed_identity", JDict plan.(pl_managed_identity))]).

Definition distinct_jobs (authorizations : list CleanAuthorization) : result unit :=
  raise_if (negb (bool_decide (NoDup (ca_job_id <$> authorizations))))
    (CleanPlanError "cleanup plan contains duplicate jobs").

(** [token] is [secrets.token_hex(16)]; the store is the [clean-plans] directory. *)
Definition create_clean_plan (center_ token : string) (created_at : Q) (writable : bool)
    (jobs : list RawAuthorization) (managed_identity : json) (store : gmap string file)
  : result CleanPlan * gmap string file :=
  match
    (raise_if (q_ltb created_at 0) (CleanPlanError "cleanup plan timestamp is invalid") ;;
     raise_if (MAX_CLEAN_PLAN_ITEMS <? Z.of_nat (length jobs)) too_many ;;
     authorizations ← mapM _clean_authorization jobs;
     distinct_jobs authorizations ;;
     managed ← _canonical_managed_identity managed_identity;
     results ← _managed_result_identities managed;
     raise_if (MAX_CLEAN_PLAN_ITEMS <? Z.of_nat (length authorizations + length results)) too_many ;;
     _require_pageable_plan_identities authorizations results ;;
     let plan := mkPlan token center_ created_at (created_at + CLEAN_PLAN_TTL_S)%Q authorizations results managed in
     raise_if (MAX_CLEAN_PLAN_BYTES <? Z.of_nat (compact_size (plan_document plan)) + 1)
       (CleanPlanError "cleanup plan exceeds its size limit") ;;
     path ← _clean_plan_path token;
     raise_if (negb writable) (CleanPlanError "cleanup plan cannot be persisted durably") ;;
     Ok (path, plan))
  with
  | Ok (path, plan) => (Ok plan, <[path := StoredFile (Some (plan_document plan)) created_at]> store)
  | Err e => (Err e, store)
  end.

Definition plan_fields : list string :=
  ["schema_version"; "plan_id"; "center"; "created_at"; "expires_at"; "jobs"; "managed_identity"].
Definition authorization_keys : list string :=
  ["job_id"; "node"; "node_local"; "job_dir"; "storage_layout"; "updated_at"].
Definition raw_authorization (item : json) : result RawAuthorization :=
  match item with
  | JDict kv =>
      raise_if (negb (same_keys kv authorization_keys)) (CleanPlanError "cleanup plan job authorization is invalid") ;;
      Ok (mkRaw (dict_get "job_id" kv) (dict_get "node" kv) (dict_get "node_local" kv) (dict_get "job_dir" kv)
            (dict_get "storage_layout" kv) (dict_get "updated_at" kv))
  | _ => Err (CleanPlanError "cleanup plan job authorization is invalid")
  end.
Definition load_authorization (item : json) : result CleanAuthorization :=
  raw ← raw_authorization item; _clean_authorization raw.

(** The loader after the document is decoded. *)
Definition decode_plan (center_ id : string) (now : Q) (raw : json) : result CleanPlan :=
  match raw with
  | JDict kv =>
      raise_if (negb (same_keys kv plan_fields)) (CleanPlanError "cleanup plan envelope is invalid") ;;
      raise_if (negb (str_in [CLEAN_PLAN_SCHEMA_VERSION] (dict_get "schema_version" kv)))
        (CleanPlanError "cleanup plan schema is unsupported") ;;
      raise_if (negb (str_in [id] (dict_get "plan_id" kv)) || negb (str_in [center_] (dict_get "center" kv)))
        (CleanPlanError "cleanup plan authority does not match this center") ;;
      bad ← any_raising bad_time [dict_get "created_at" kv; dict_get "expires_at" kv];
      raise_if bad (CleanPlanError "cleanup plan timestamps are invalid") ;;
      let created_at := default 0%Q (as_number (dict_get "created_at" kv)) in
      let expires_at := default 0%Q (as_number (dict_get "expires_at" kv)) in
      raise_if (negb (q_ltb created_at expires_at && Qle_bool expires_at (created_at + CLEAN_PLAN_TTL_S)))
        (CleanPlanError "cleanup plan lifetime is invalid") ;;
      raise_if (q_ltb now 0) (CleanPlanError "cleanup plan validation time is invalid") ;;
      raise_if (q_ltb now created_at) (CleanPlanError "cleanup plan validation time precedes its creation") ;;
      raise_if (Qle_bool expires_at now) (CleanPlanError "cleanup plan has expired") ;;
      match dict_get "jobs" kv with
      | JList raw_jobs =>
          raise_if (MAX_CLEAN_PLAN_ITEMS <? Z.of_nat (length raw_jobs)) too_many ;;
          authorizations ← mapM load_authorization raw_jobs;
          distinct_jobs authorizations ;;
          managed ← _canonical_managed_identity (dict_get "managed_identity" kv);
          results ← _managed_result_identities managed;
          raise_if (MAX_CLEAN_PLAN_ITEMS <? Z.of_nat (length authorizations + length results)) too_many ;;
          _require_pageable_plan_identities authorizations results ;;
          Ok (mkPlan id center_ created_at expires_at authorizations results managed)
      | _ => Err (CleanPlanError "cleanup plan job authorizations are invalid")
      end
  | _ => Err (CleanPlanError "cleanup plan envelope is invalid")
  end.
Definition load_clean_plan (center_ id : string) (now : Q) (store : gmap string file) : result CleanPlan :=
  path ← _clean_plan_path id;
  match store !! path with
  | None => Err (CleanPlanError "cleanup plan does not exist")
  | Some (StoredFile text _) =>
      match (match text with Some lexed => decode_strict lexed | None => Err (ValueError "malformed") end) with
      | Err _ => Err (CleanPlanError "cleanup plan is malformed")
      | Ok raw => decode_plan center_ id now raw
      end
  | Some _ => Err (CleanPlanError "cleanup plan cannot be read safely")
  end.
End plans.

(** ** Pages enumerate the plan *)
Section pages.
Context (compact_size : json -> nat).
Abbreviation page := (clean_plan_page compact_size).

(** The immutable sequence: every job, then every managed result. *)
Definition plan_items (plan : CleanPlan) : list CleanPlanPageItem :=
  imap job_item plan.(pl_jobs) ++ imap (fun i => result_item (length plan.(pl_jobs) + i)) plan.(pl_managed_results).
Definition pageable (plan : CleanPlan) : Prop :=
  _require_pageable_plan_identities compact_size plan.(pl_jobs) plan.(pl_managed_results) = Ok tt.

Lemma item_at_spec plan i : item_at plan i = plan_items plan !! i.
Proof.
  unfold item_at, plan_items. destruct (i <? length (pl_jobs plan))%nat eqn:E.
  - apply Nat.ltb_lt in E. rewrite lookup_app_l by (by rewrite length_imap). by rewrite list_lookup_imap.
  - apply Nat.ltb_ge in E. rewrite lookup_app_r by (by rewrite length_imap). rewrite length_imap, list_lookup_imap.
    destruct (pl_managed_results plan !! _); cbn; [|done]. by rewrite Nat.add_comm, Nat.sub_add.
Qed.
Lemma plan_items_length plan : Z.of_nat (length (plan_items plan)) = plan_total plan.
Proof. unfold plan_items, plan_total. by rewrite length_app, !length_imap. Qed.
Lemma pageable_size plan item : pageable plan -> item ∈ plan_items plan -> _page_item_size compact_size item <= _MAX_CLEAN_PLAN_IDENTITY_BYTES.
Proof.
  unfold pageable, _require_pageable_plan_identities. intros H. apply bind_ok in H as ([] & H1 & H2).
  rewrite for_each_ok in H1, H2. unfold plan_items. rewrite elem_of_app. rewrite Forall_forall in H1, H2.
  intros Hi. assert (_require_pageable_identity compact_size item = Ok tt) as H by (destruct Hi; auto).
  apply raise_if_ok, Z.ltb_ge in H. done.
Qed.

Lemma page_loop_ok plan n o items bytes :
  pageable plan -> (o + n <= length (plan_items plan))%nat -> (items = [] -> bytes = 2) ->
  exists k, page_loop compact_size plan (List.seq o n) items bytes = Ok (items ++ take k (drop o (plan_items plan))) /\
    (k <= n)%nat /\ (items = [] -> (0 < n)%nat -> (0 < k)%nat).
Proof.
  intros Hp. revert o items bytes. induction n as [|n IH]; intros o items bytes Hn Hb.
  { exists 0%nat. cbn. rewrite app_nil_r. repeat split; lia. }
  cbn [List.seq page_loop]. rewrite item_at_spec.
  destruct (plan_items plan !! o) as [item|] eqn:Hi; [|apply lookup_ge_None in Hi; lia].
  pose proof (pageable_size plan item Hp (list_elem_of_lookup_2 _ _ _ Hi)) as Hsize. cbv zeta.
  destruct (_ <? _) eqn:E.
  - apply Z.ltb_lt in E. destruct items as [|x items].
    + rewrite (Hb eq_refl), bool_decide_true in E by done. unfold _CLEAN_PLAN_PAGE_ITEMS_BUDGET, _MAX_CLEAN_PLAN_IDENTITY_BYTES in *. lia.
    + exists 0%nat. cbn. rewrite app_nil_r. repeat split; [lia|done].
  - match goal with |- context [page_loop _ _ _ _ ?b] =>
      destruct (IH (S o) (items ++ [item]) b ltac:(lia) ltac:(by destruct items)) as (k & -> & Hk & _) end.
    exists (S k). rewrite (drop_S _ _ _ Hi). cbn. rewrite <- app_assoc. cbn. repeat split; lia.
Qed.

(** A page is the next slice of the sequence, and never empty before its end. *)
Lemma page_spec plan offset limit :
  pageable plan -> 0 <= offset <= plan_total plan -> 1 <= limit <= MAX_CLEAN_PLAN_PAGE_ITEMS ->
  exists k, page plan offset limit =
    Ok (mkPage offset limit (plan_total plan) (take k (drop (Z.to_nat offset) (plan_items plan)))
          (if offset + Z.of_nat k <? plan_total plan then Some (offset + Z.of_nat k) else None)) /\
    offset + Z.of_nat k <= plan_total plan /\ Z.of_nat k <= limit /\ (offset < plan_total plan -> (0 < k)%nat).
Proof.
  intros Hp Ho Hl. pose proof (plan_items_length plan) as Hlen. unfold clean_plan_page.
  rewrite (proj2 (Z.ltb_ge offset 0)), (proj2 (Z.ltb_ge limit 1)), (proj2 (Z.ltb_ge _ limit)) by lia.
  cbn [raise_if orb mbind result_bind]. cbv zeta. rewrite (proj2 (Z.ltb_ge _ offset)) by lia. cbn [raise_if mbind result_bind].
  destruct (page_loop_ok plan (Z.to_nat (Z.min (plan_total plan) (offset + limit) - offset)) (Z.to_nat offset) [] 2
    Hp ltac:(lia) ltac:(done)) as (k & -> & Hk & Hpos). cbn [app mbind result_bind]. cbv zeta.
  assert (length (take k (drop (Z.to_nat offset) (plan_items plan))) = k) as Hlk by (rewrite length_take, length_drop; lia).
  exists k. rewrite Hlk. split; [done|]. split; [lia|]. split; [lia|]. intros ?. apply Hpos; [done|lia].
Qed.

(** A consumer that follows [next_offset]. *)
Fixpoint read_pages (plan : CleanPlan) (limit : Z) (fuel : nat) (offset : Z) : result (list CleanPlanPageItem) :=
  match fuel with
  | O => Err (ValueError "out of fuel")
  | S fuel =>
      p ← page plan offset limit;
      match p.(pg_next_offset) with
      | None => Ok p.(pg_items)
      | Some next => rest ← read_pages plan limit fuel next; Ok (p.(pg_items) ++ rest)
      end
  end.

Lemma read_pages_from plan limit fuel offset :
  pageable plan -> 1 <= limit <= MAX_CLEAN_PLAN_PAGE_ITEMS -> 0 <= offset <= plan_total plan ->
  plan_total plan - offset < Z.of_nat fuel ->
  read_pages plan limit fuel offset = Ok (drop (Z.to_nat offset) (plan_items plan)).
Proof.
  intros Hp Hl. revert offset. induction fuel as [|fuel IH]; intros offset Ho Hf; [lia|]. cbn [read_pages].
  pose proof (plan_items_length plan) as Hlen.
  destruct (page_spec plan offset limit Hp Ho Hl) as (k & -> & Hk & _ & Hpos). cbn [mbind result_bind pg_next_offset pg_items].
  destruct (Z.ltb_spec (offset + Z.of_nat k) (plan_total plan)) as [Hlt|Hge].
  - rewrite IH by lia. cbn. replace (Z.to_nat (offset + Z.of_nat k)) with (Z.to_nat offset + k)%nat by lia.
    by rewrite <- drop_drop, take_drop.
  - by rewrite take_ge by (rewrite length_drop; lia).
Qed.

(** Following [next_offset] from the start enumerates an accepted plan
    exactly: every page succeeds, none is empty, nothing is repeated or
    omitted, whatever page size is asked for. *)
Lemma pages_enumerate_plan plan limit :
  _require_pageable_plan_identities compact_size plan.(pl_jobs) plan.(pl_managed_results) = Ok tt ->
  1 <= limit <= MAX_CLEAN_PLAN_PAGE_ITEMS ->
  read_pages plan limit (S (length (plan_items plan))) 0 = Ok (plan_items plan).
Proof.
  intros Hp Hl. pose proof (plan_items_length plan). by rewrite read_pages_from by (done || lia).
Qed.
End pages.

(** ** A plan reads back as it was written *)
Lemma sort_keys_dict kv : sort_keys (JDict kv) = JDict (sort_by key_ltb (List.map (fun p => (p.1, sort_keys p.2)) kv)).
Proof. done. Qed.
Lemma key_sorted l : StronglySorted (fun a b => key_ltb b a = false) (sort_by key_ltb l).
Proof. apply sort_by_sorted; [intros ???; apply str_ltb_false_trans|intros ??; apply str_ltb_asym]. Qed.

Lemma sort_keys_idem v : sort_keys (sort_keys v) = sort_keys v.
Proof.
  apply (json_rect (fun v => sort_keys (sort_keys v) = sort_keys v)
    (fun l => Forall (fun v => sort_keys (sort_keys v) = sort_keys v) l)
    (fun kv => Forall (fun p => sort_keys (sort_keys p.2) = sort_keys p.2) kv)); try done; try by constructor.
  - intros l IH. cbn. f_equal. rewrite map_map. by apply map_ext_Forall.
  - intros kv IH. rewrite sort_keys_dict. set (kv' := sort_by _ _).
    assert (Forall (fun p => sort_keys p.2 = p.2) kv') as Hid.
    { unfold kv'. rewrite sort_by_perm. apply List.Forall_map. eapply Forall_impl; [exact IH|]. done. }
    cbn. f_equal. rewrite (map_ext_Forall _ id), List.map_id.
    + apply sort_by_id. apply key_sorted.
    + eapply Forall_impl; [exact Hid|]. intros [k x] E. cbn in *. by rewrite E.
Qed.

Lemma map_keys (f : string * json -> json) kv : (List.map (fun p => (p.1, f p)) kv).*1 = kv.*1.
Proof. induction kv as [|p kv IH]; cbn; [done|]. by f_equal. Qed.
Lemma strict_sort_keys v : strict v -> strict (sort_keys v).
Proof.
  apply (json_rect (fun v => strict v -> strict (sort_keys v)) (fun l => Forall (fun v => strict v -> strict (sort_keys v)) l)
    (fun kv => Forall (fun p => strict p.2 -> strict (sort_keys p.2)) kv)); try done; try by constructor.
  - intros l IH Hl. apply strict_list in Hl. cbn [sort_keys]. apply strict_list, List.Forall_map.
    rewrite Forall_forall in IH, Hl |- *. auto.
  - intros kv IH [Hnd Hall]%strict_dict. rewrite sort_keys_dict. apply strict_dict.
    unfold strict_all in *. split.
    + by rewrite sort_by_perm, (map_keys (fun p => sort_keys p.2)).
    + rewrite sort_by_perm. apply List.Forall_map. rewrite Forall_forall in IH, Hall |- *. cbn. auto.
Qed.
Lemma canonical_identity value kv :
  _canonical_managed_identity value = Ok kv -> strict (JDict kv) /\ _canonical_managed_identity (JDict kv) = Ok kv.
Proof.
  unfold _canonical_managed_identity. intros H. apply bind_raise_ok in H as [_ H].
  destruct (decode_strict value) as [enc|] eqn:E; [|done]. apply decode_strict_spec in E as [-> Hs].
  destruct (sort_keys value) as [| | | | | |d] eqn:Ek; try done. injection H as ->.
  assert (strict (JDict kv)) as Hkv by (rewrite <- Ek; by apply strict_sort_keys). split; [done|].
  cbn [is_dict negb raise_if mbind result_bind].
  rewrite (proj2 (decode_strict_spec (JDict kv) (JDict kv)) (conj eq_refl Hkv)).
  by rewrite <- Ek, sort_keys_idem, Ek.
Qed.

(** What the checks accepted is accepted again, from the value and from JSON. *)
Lemma authorization_valid raw a : _clean_authorization raw = Ok a -> _clean_authorization (raw_of a) = Ok a.
Proof.
  unfold _clean_authorization. intros H. destruct raw as [i n lo d la u]. cbn [ra_job_id ra_node ra_node_local ra_job_dir ra_storage_layout ra_updated_at] in H.
  destruct i as [| | | |i| |]; try done. cbn [text_matches mbind result_bind] in H.
  apply bind_raise_ok in H as [Hi H]. apply bind_raise_ok in H as [Hn H].
  apply bind_ok in H as (unknown & Hla & H). apply bind_raise_ok in H as [-> H].
  apply bind_ok in H as (bad & Hu & H). apply bind_raise_ok in H as [-> [= <-]].
  destruct n as [| | | |n| |]; try done. destruct lo as [|lo| | | | |]; try (by rewrite orb_true_r in Hn).
  destruct d as [| | | |d| |]; try (by rewrite orb_true_r in Hn).
  cbn [raw_of ra_job_id ra_node ra_node_local ra_job_dir ra_storage_layout ra_updated_at ca_job_id ca_node ca_node_local ca_job_dir ca_storage_layout ca_updated_at plan_text text_matches mbind result_bind].
  rewrite Hi. cbn [raise_if]. cbn in Hn |- *. rewrite Hn. cbn [raise_if mbind result_bind].
  assert (forall o : option string, layout_unknown (of_opt JStr o) = Ok false ->
    match of_opt JStr o with JStr s => Some s | _ => None end = o) as Ho by (by intros []).
  set (o := match la with JStr s => Some s | _ => None end).
  assert (layout_unknown (of_opt JStr o) = Ok false) as Hlo by (destruct la; try done; by injection Hla as <-).
  rewrite Hlo. cbn [raise_if]. rewrite (Ho o Hlo).
  unfold bad_optional_time in *. destruct (is_null u) eqn:Enu; [done|].
  unfold bad_time, as_number in *. destruct (is_bool u || negb (is_int u || is_float u)) eqn:Et; [done|].
  destruct (py_float u) as [[q| |]|] eqn:Ef; try done. cbn in Hu |- *. injection Hu as Hneg.
  assert (q_ltb q 0 = false) as ->; [|done].
  destruct u; try done; cbn in Ef, Hneg.
  - destruct (_ <=? _); [done|]. injection Ef as <-. apply Z.ltb_ge in Hneg. apply q_ltb_ge. unfold Qle. cbn. lia.
  - injection Ef as ->. done.
Qed.
Lemma load_authorization_fields a :
  load_authorization (sort_keys (JDict (authorization_fields a))) = _clean_authorization (raw_of a).
Proof.
  destruct a as [i n lo d la u]. unfold load_authorization.
  assert (raw_authorization (sort_keys (JDict (authorization_fields (mkAuthorization i n lo d la u)))) = Ok (raw_of (mkAuthorization i n lo d la u))) as ->; [|done].
  destruct la, u; reflexivity.
Qed.
Lemma plan_document_eq plan :
  plan_document plan = JDict
    [("center", JStr plan.(pl_center)); ("created_at", JFloat (Fin plan.(pl_created_at)));
     ("expires_at", JFloat (Fin plan.(pl_expires_at)));
     ("jobs", JList (List.map sort_keys ((fun a => JDict (authorization_fields a)) <$> plan.(pl_jobs))));
     ("managed_identity", sort_keys (JDict plan.(pl_managed_identity)));
     ("plan_id", JStr plan.(plan_id)); ("schema_version", JStr CLEAN_PLAN_SCHEMA_VERSION)].
Proof. reflexivity. Qed.

Lemma mapM_ok {A B} (f : A -> result B) l ys : mapM f l = Ok ys -> Forall2 (fun x y => f x = Ok y) l ys.
Proof.
  revert ys. induction l as [|x l IH]; intros ys; cbn; [intros [= <-]; constructor|].
  intros H. apply bind_ok in H as (y & Hy & H). apply bind_ok in H as (r & Hr & [= <-]). by constructor; auto.
Qed.
Lemma mapM_again {A B} (f : A -> result B) (g : B -> A) ys : Forall (fun y => f (g y) = Ok y) ys -> mapM f (g <$> ys) = Ok ys.
Proof. induction 1 as [|y ys Hy _ IH]; cbn; [done|]. by rewrite Hy, IH. Qed.

Section store.
Context (compact_size : json -> nat).

(** What creation publishes has passed every check of the loader. *)
Record created (center_ token : string) (created_at : Q) (managed_identity : json) (plan : CleanPlan) : Prop := {
  cr_token : fullmatch CLEAN_PLAN_ID_RE token = true;
  cr_eq : plan = mkPlan token center_ created_at (created_at + CLEAN_PLAN_TTL_S)%Q plan.(pl_jobs)
            plan.(pl_managed_results) plan.(pl_managed_identity);
  cr_time : (0 <= created_at)%Q;
  cr_jobs : Forall (fun a => _clean_authorization (raw_of a) = Ok a) plan.(pl_jobs);
  cr_many : (MAX_CLEAN_PLAN_ITEMS <? Z.of_nat (length plan.(pl_jobs))) = false;
  cr_distinct : distinct_jobs plan.(pl_jobs) = Ok tt;
  cr_identity : _canonical_managed_identity managed_identity = Ok plan.(pl_managed_identity);
  cr_results : _managed_result_identities plan.(pl_managed_identity) = Ok plan.(pl_managed_results);
  cr_total : (MAX_CLEAN_PLAN_ITEMS <? Z.of_nat (length plan.(pl_jobs) + length plan.(pl_managed_results))) = false;
  cr_pages : _require_pageable_plan_identities compact_size plan.(pl_jobs) plan.(pl_managed_results) = Ok tt;
}.
Lemma create_inv center_ token created_at writable jobs managed_identity store plan store' :
  create_clean_plan compact_size center_ token created_at writable jobs managed_identity store = (Ok plan, store') ->
  created center_ token created_at managed_identity plan /\
  store' = <[token := StoredFile (Some (plan_document plan)) created_at]> store.
Proof.
  unfold create_clean_plan. destruct (_ ;; _) as [[path p]|] eqn:H; [|done]. intros [= <- <-].
  apply bind_raise_ok in H as [Ht H]. apply bind_raise_ok in H as [Hm H].
  apply bind_ok in H as (auths & Ha & H). apply bind_ok in H as ([] & Hd & H).
  apply bind_ok in H as (managed & Hi & H). apply bind_ok in H as (results & Hr & H).
  apply bind_raise_ok in H as [Hn H]. apply bind_ok in H as ([] & Hp & H). cbv zeta in H.
  apply bind_raise_ok in H as [_ H]. apply bind_ok in H as (x & Hx & H). apply bind_raise_ok in H as [_ [= <- <-]].
  unfold _clean_plan_path in Hx. apply bind_raise_ok in Hx as [Hx [= <-]]. apply negb_false_iff in Hx.
  apply mapM_ok in Ha. split; [split; cbn; try done|done].
  - by apply q_ltb_ge.
  - clear - Ha. induction Ha as [|raw a l k Hx _ IH]; constructor; [by eapply authorization_valid|done].
  - by rewrite <- (Forall2_length _ _ _ Ha).
Qed.

Lemma document_strict center_ token created_at managed_identity plan :
  created center_ token created_at managed_identity plan -> strict (plan_document plan).
Proof.
  intros []. destruct (canonical_identity _ _ cr_identity0) as [Hs _]. rewrite plan_document_eq. apply strict_dict. split.
  - apply (bool_decide_unpack _). reflexivity.
  - unfold strict_all. rewrite !Forall_cons. cbn [snd]. split_and!; try done; [|by apply strict_sort_keys].
    apply strict_list, List.Forall_map, Forall_fmap, Forall_forall. intros a _. unfold compose. apply strict_sort_keys, strict_dict.
    split; [apply (bool_decide_unpack _); reflexivity|]. unfold strict_all, authorization_fields. rewrite !Forall_cons. cbn [snd].
    destruct a as [? ? ? ? [] []]; cbn; by split_and!.
Qed.

(** The loader on the document of a created plan. *)
Lemma decode_created center_ token created_at managed_identity plan now :
  created center_ token created_at managed_identity plan ->
  decode_plan compact_size center_ token now (plan_document plan) = Ok plan <->
  (created_at <= now < created_at + CLEAN_PLAN_TTL_S)%Q.
Proof.
  intros Hc. rewrite plan_document_eq.
  destruct Hc as [_ Heq Ht Hj Hm Hd Hi Hr Hn Hp]. destruct (canonical_identity _ _ Hi) as [_ Hi'].
  set (managed := pl_managed_identity plan) in *. set (auths := pl_jobs plan) in *. set (results := pl_managed_results plan) in *.
  rewrite Heq. cbn [pl_center pl_created_at pl_expires_at plan_id]. unfold decode_plan. cbv beta iota.
  assert (sort_keys (JDict managed) = JDict managed) as ->.
  { unfold _canonical_managed_identity in Hi. apply bind_raise_ok in Hi as [_ Hi].
    destruct (decode_strict managed_identity) as [v|]; [|done]. destruct (sort_keys v) eqn:E; try done.
    injection Hi as ->. by rewrite <- E, sort_keys_idem. }
  match goal with |- context [same_keys ?d plan_fields] => set (kv := d) end.
  change (same_keys kv plan_fields) with true. change (dict_get "schema_version" kv) with (JStr CLEAN_PLAN_SCHEMA_VERSION).
  change (dict_get "plan_id" kv) with (JStr token). change (dict_get "center" kv) with (JStr center_).
  change (dict_get "created_at" kv) with (JFloat (Fin created_at)).
  change (dict_get "expires_at" kv) with (JFloat (Fin (created_at + CLEAN_PLAN_TTL_S)%Q)).
  change (dict_get "managed_identity" kv) with (JDict managed).
  change (dict_get "jobs" kv) with (JList (List.map sort_keys ((fun a => JDict (authorization_fields a)) <$> auths))).
  clear kv. cbn [str_in negb]. rewrite !bool_decide_true by set_solver. cbn [orb negb raise_if mbind result_bind].
  assert (forall q, (0 <= q)%Q -> bad_time (JFloat (Fin q)) = Ok false) as Hb.
  { intros q Hq. unfold bad_time. cbn. by rewrite (proj2 (q_ltb_ge q 0) Hq). }
  assert (0 < CLEAN_PLAN_TTL_S)%Q as Httl by (vm_compute; reflexivity).
  cbn [any_raising]. rewrite !Hb by lra. cbn [mbind result_bind as_number is_bool is_int is_float orb negb py_float default raise_if]. unfold id.
  split.
  - intros H. apply bind_raise_ok in H as [_ H]. apply bind_raise_ok in H as [_ H].
    apply bind_raise_ok in H as [Hlo%q_ltb_ge H]. by apply bind_raise_ok in H as [Hhi%q_leb_gt _].
  - intros [Hlo Hhi]. rewrite (proj2 (q_ltb_lt created_at (created_at + CLEAN_PLAN_TTL_S))), (proj2 (q_leb_le (created_at + CLEAN_PLAN_TTL_S) (created_at + CLEAN_PLAN_TTL_S))) by lra.
    rewrite (proj2 (q_ltb_ge now 0)), (proj2 (q_ltb_ge now created_at)), (proj2 (q_leb_gt (created_at + CLEAN_PLAN_TTL_S) now)) by lra.
    cbn [andb negb raise_if mbind result_bind]. rewrite length_map, length_fmap, Hm. cbn [raise_if mbind result_bind].
    assert (mapM load_authorization (List.map sort_keys ((fun a => JDict (authorization_fields a)) <$> auths)) = Ok auths) as ->.
    { rewrite <- (mapM_again load_authorization (fun a => sort_keys (JDict (authorization_fields a))) auths).
      - f_equal. clear. induction auths as [|a l IH]; cbn [fmap list_fmap List.map]; [done|]. by f_equal.
      - eapply Forall_impl; [exact Hj|]. intros a Ha. by rewrite load_authorization_fields. }
    cbn [mbind result_bind]. rewrite Hd. cbn [mbind result_bind]. rewrite Hi'. cbn [mbind result_bind].
    rewrite Hr. cbn [mbind result_bind]. rewrite Hn. cbn [raise_if mbind result_bind]. by rewrite Hp.
Qed.
End store.

(** ** Concrete plans *)
Definition flat_size (v : json) : nat := match v with JDict kv => length kv | _ => 1 end.
Definition plan_token : string := "0123456789abcdef0123456789abcdef".
Definition old_row (id_ : string) : JobEntry :=
  test_entry <| job_id := id_ |> <| node := "n1" |> <| job_dir := "~/dt/worker/jobs/" +:+ id_ |> <| status := Finished |>
             <| finished_at := Some 10%Q |>.
Definition sample_managed : json :=
  JDict [("scope", JStr "all");
         ("managed_results", JList [JDict [("path", JStr "/r/a"); ("job_id", JStr "a"); ("inode", JInt 7); ("device", JInt 1)]])].
Abbreviation created_sample :=
  (create_clean_plan flat_size "hub" plan_token 100 true [from_entry (old_row "a"); from_entry (old_row "b")] sample_managed ∅).
Definition sample_plan : CleanPlan :=
  match created_sample.1 with Ok p => p | Err _ => mkPlan "" "" 0 0 [] [] [] end.


Lemma pages_enumerate_plan_witness :
  length (plan_items sample_plan) = 3%nat /\
  read_pages flat_size sample_plan 2 4 0 = Ok (plan_items sample_plan).
Proof.
  split; [vm_compute; reflexivity|]. apply (pages_enumerate_plan flat_size sample_plan 2).
  - vm_compute. reflexivity.
  - unfold MAX_CLEAN_PLAN_PAGE_ITEMS. lia.
Defined.

(** The loader means to raise [CleanPlanError] for whatever it finds, which
    is all its callers catch; an identity that is not a string, a layout that
    cannot be hashed and a time beyond the range of a float escape it. *)
Lemma plan_reader_escapes :
  let item i l t := JDict [("job_id", i); ("node", JStr "n1"); ("node_local", JBool false); ("job_dir", JStr "d");
                           ("storage_layout", l); ("updated_at", t)] in
  load_authorization (item (JInt 5) JNull JNull) = Err (TypeError "expected string or bytes-like object") /\
  load_authorization (item (JStr "a") (JList []) JNull) = Err (TypeError "unhashable type") /\
  load_authorization (item (JStr "a") JNull (JInt (2 ^ 1100))) = Err (OverflowError "int too large to convert to float").
Proof. cbv zeta. split_and!; vm_compute; reflexivity. Qed.
