(* ===== verification/Maintenance.v ===== *)
(** * Retention ([maintenance.py])

    What [dt clean] and the daily cleanup of the agent may delete: the rows and
    capsules of ended jobs, the environments no live job needs, the deployments
    and the snapshots no row refers to.  A node receives one of three commands;
    their shell text is not modelled, what they are told is.  The other
    processes of the head do not run between the steps of a cleaning, except
    that a cleaning starts from any store, however the plan it applies was made. *)

From Stdlib Require Import Qround.
From S2P Require Import Prelude Text PyValue Diagnostics Layout JobEntry RegistryCodec Lifecycle Registry ActiveIndex RegistryOps Config StatusProbe CleanPlan Recovery Dispatch.

(** [needle in text]. *)
Definition contains (needle text : string) : bool :=
  existsb (fun i => starts_with needle (str_drop i text)) (List.seq 0 (S (str_len text))).

Record CleanFailure := mkFailure {
  cf_job_id : string;
  cf_node : string;
  cf_kind : string;
  cf_message : string;
}.
(** The removed rows are those [clean_jobs] counts. *)
Record CleanReport := mkReport {
  cr_eligible : nat;
  cr_removed : list JobEntry;
  cr_failures : list CleanFailure;
  cr_removed_envs : nat;
}.
Record SweepReport := mkSweep { sw_removed : nat; sw_failures : list CleanFailure }.

(** ** What is cleanable *)
Definition references (entry : JobEntry) : list string :=
  List.filter (fun s => negb (bool_decide (s = "")))
    (omap id [entry.(cache_source_job); entry.(after_success); entry.(after_complete); entry.(after_result)]).
Definition is_live (entry : JobEntry) : bool := bool_decide (entry.(status) ∈ [Queued; Running]).
Definition active_references (entries : list JobEntry) : list string :=
  flat_map references (List.filter is_live entries).
(** The tests both the preview and the revalidation make of a row. *)
Definition retention_ended (entry : JobEntry) (cutoff_ts : Q) (projects : option (list string)) : bool :=
  bool_decide (entry.(status) ∈ [Finished; Killed; Lost; Failed; Skipped])
  && negb (is_uncertain_launch entry)
  && match entry.(finished_at) with Some t => q_ltb t cutoff_ts | None => false end
  && match projects with Some names => bool_decide (entry.(project) ∈ names) | None => true end.

Definition clean_job_victims (now : Q) (r : registry) (cutoff_ts : Q) (projects : option (list string))
  : list JobEntry :=
  let entries := (list_all now r).1 in
  List.filter (fun e => retention_ended e cutoff_ts projects
                        && negb (bool_decide (e.(job_id) ∈ active_references entries))) entries.
Definition _still_cleanable (now : Q) (r : registry) (entry : JobEntry) (cutoff_ts : Q)
    (projects : option (list string)) : bool :=
  retention_ended entry cutoff_ts projects
  && negb (bool_decide (entry.(job_id) ∈ active_references (list_all now r).1)).

(** Exactly this job's slot, or [None]. *)
Definition _managed_job_dir (cfg : HeadConfig) (entry : JobEntry) : option string :=
  let expected :=
    if bool_decide (entry.(storage_layout) = Some ROLE_LAYOUT) then
      if negb (bool_decide (is_Some (configured_node cfg entry.(node)))) && negb (bool_decide (entry.(node) = "-"))
      then None
      else match entry.(worker_root) with
           | None => None
           | Some root => ok_option (persisted_root ← normalize_node_root root;
                                     node_path persisted_root ["worker"; "jobs"; entry.(job_id)])
           end
    else if bool_decide (entry.(storage_layout) ∈ [None; Some LEGACY_LAYOUT])
    then Some ("dt/jobs/" +:+ entry.(job_id)) else None in
  match expected with
  | Some path => if bool_decide (entry.(job_dir) = path) then Some entry.(job_dir) else None
  | None => None
  end.

(** ** Commands *)
Inductive clean_command :=
  | DeleteCapsule (dir identity_file : string) (pgid : Z) (boot_id : string)
  | SweepEnvironments (envs_dir : string) (cutoff : Z) (keep : list string)
  | SweepDeployments (cutoff : Z).

Definition identity_matches (a : CleanAuthorization) (entry : JobEntry) : bool :=
  bool_decide (a.(ca_job_id) = entry.(job_id)) && bool_decide (a.(ca_node) = entry.(node))
  && bool_decide (a.(ca_node_local) = entry.(node_local)) && bool_decide (a.(ca_job_dir) = entry.(job_dir))
  && bool_decide (a.(ca_storage_layout) = entry.(storage_layout))
  && time_eqb a.(ca_updated_at) entry.(updated_at).

(** [str(bool)]. *)
Definition py_bool (b : bool) : string := if b then "True" else "False".
Definition stderr_or_stdout (stderr stdout : string) : string :=
  default "" (ok_option (diagnostic_excerpt [Some stderr; Some stdout] "" MAX_DIAGNOSTIC_CHARS)).

Section cleaning.
Context (encoded_size : json -> nat) (index_writable : bool) (py_repr : string -> string).
Context {W : Type} (cfg : HeadConfig) (now : Q).
(** Whether a record can be removed durably; one command on a node; the hook
    of the caller; the removal of the staged job. *)
Context (removable : Site W -> bool) (runner : string -> bool -> clean_command -> W -> remote_reply * W)
  (before_registry_remove : JobEntry -> W -> result unit * W) (drop_staging : string -> W -> W).

Definition run_clean (n : string) (local : bool) (c : clean_command) (s : Site W) : remote_reply * Site W :=
  let '(reply, w) := runner n local c s.(st_world) in (reply, mkSite s.(st_registry) w).

(** The verdict on a deletion that was answered. *)
Definition delete_verdict (entry : JobEntry) (returncode : Z) (stdout stderr : string)
  : option (string * string) :=
  if returncode =? 0 then None
  else
    let detail := stderr_or_stdout stderr stdout in
    if (returncode =? 75) && contains "DT_CLEAN_LIVE" detail then
      if contains "UNPROVEN" detail
      then Some ("liveness_unproven", "job liveness could not be proven; cleanup refused")
      else Some ("state_changed", "job processes are still running; cleanup refused")
    else
      let message := "remote delete on " +:+ entry.(node) +:+ " exited " +:+ pretty returncode in
      Some ("remote_delete_failed",
            if bool_decide (detail = "") then message else message +:+ ": " +:+ detail).
Definition _delete_remote_job_dir (entry : JobEntry) (managed_dir : string) : D W (option CleanFailure) :=
  let refuse kind message := Some (mkFailure entry.(job_id) entry.(node) kind message) in
  match configured_node cfg entry.(node) with
  | None => mret (refuse "node_not_configured"
                    ("node " +:+ py_repr entry.(node) +:+ " is not in the configuration"))
  | Some n =>
      if negb (bool_decide (n.(n_local) = entry.(node_local))) then
        mret (refuse "node_identity_mismatch"
          ("registry row says node_local=" +:+ py_bool entry.(node_local) +:+ " but the configured node is "
           +:+ (if n.(n_local) then "local" else "remote")))
      else
        let identity_file := job_state_dir managed_dir entry.(storage_layout) +:+ "/process_start_ticks" in
        _ ← raising (node_path_expression identity_file);
        _ ← raising (node_path_expression managed_dir);
        let pgid_ := match entry.(pgid) with Some z => if 0 <? z then z else 0 | None => 0 end in
        reply ← on_nodes (run_clean entry.(node) entry.(node_local)
                            (DeleteCapsule managed_dir identity_file pgid_ (default "" entry.(boot_id))));
        match reply with
        | Unreached _ message =>
            mret (refuse "remote_delete_failed" ("remote delete on " +:+ entry.(node) +:+ " failed: " +:+ message))
        | Replied returncode stdout stderr =>
            mret (match delete_verdict entry returncode stdout stderr with
                  | None => None
                  | Some (kind, message) => refuse kind message
                  end)
        end
  end.

(** [try: m except Exception]. *)
Definition attempt_to {A} (m : D W A) : D W (result A) := fun s => let '(res, s') := m s in (Ok res, s').

Definition drop_row (job_id_ : string) : D W unit := fun s =>
  on_registry (remove_record encoded_size index_writable now (removable s) job_id_) s.
Definition site : D W (Site W) := fun s => (Ok s, s).
Definition remove_locally (entry : JobEntry) : D W unit :=
  hook ← on_nodes (fun s => let '(res, w) := before_registry_remove entry s.(st_world) in (res, mkSite s.(st_registry) w));
  raising hook ;;
  on_nodes (fun s => (tt, mkSite s.(st_registry) (drop_staging entry.(job_id) s.(st_world)))) ;;
  drop_row entry.(job_id).

(** Exactly one of the two components is [Some]. *)
Definition _clean_one_job (a : CleanAuthorization) (cutoff_ts : Q) (projects : option (list string))
  : D W (option JobEntry * option CleanFailure) :=
  found ← attempt_to (on_registry (load now a.(ca_job_id)));
  match found with
  | Err e => mret (None, Some (mkFailure a.(ca_job_id) a.(ca_node) "registry_row_unreadable"
                                ("registry row became unreadable: " +:+ exn_message e)))
  | Ok found =>
      s ← site;
      match found with
      | Some entry =>
          if identity_matches a entry && _still_cleanable now s.(st_registry) entry cutoff_ts projects then
            match _managed_job_dir cfg entry with
            | None => mret (None, Some (mkFailure entry.(job_id) entry.(node) "unsafe_job_dir"
                                          ("refusing unmanaged job_dir " +:+ py_repr entry.(job_dir))))
            | Some managed_dir =>
                failure ← (if bool_decide (entry.(node) = "-") then mret None
                           else _delete_remote_job_dir entry managed_dir);
                match failure with
                | Some f => mret (None, Some f)
                | None =>
                    removed ← attempt_to (remove_locally entry);
                    mret (match removed with
                          | Ok _ => (Some entry, None)
                          | Err e => (None, Some (mkFailure entry.(job_id) entry.(node) "local_cleanup_failed"
                                                    ("local cleanup failed: " +:+ exn_message e)))
                          end)
                end
            end
          else mret (None, Some (mkFailure a.(ca_job_id) a.(ca_node) "state_changed"
                                   "job state or active references changed after cleanup plan"))
      | None => mret (None, Some (mkFailure a.(ca_job_id) a.(ca_node) "state_changed"
                                    "job state or active references changed after cleanup plan"))
      end
  end.

Fixpoint clean_each (victims : list RawAuthorization) (cutoff_ts : Q) (projects : option (list string))
    (removed : list JobEntry) (failures : list CleanFailure) : D W (list JobEntry * list CleanFailure) :=
  match victims with
  | [] => mret (removed, failures)
  | selected :: rest =>
      a ← raising (_clean_authorization selected);
      one ← _clean_one_job a cutoff_ts projects;
      clean_each rest cutoff_ts projects (removed ++ option_list one.1) (failures ++ option_list one.2)
  end.

(** ** Environments and deployments *)

(** [cfg.envs_for(node)]: [explicit] is the configured directory, if any. *)
Definition envs_for (explicit : option string) (n : Node) : result string :=
  match explicit with Some envs => Ok envs | None => worker_path cfg n ["envs"] end.
Definition protect (placed identity : option string) (used : gmap string (gset string)) : gmap string (gset string) :=
  match identity with
  | None | Some "" => used
  | Some identity =>
      let names := match placed with
                   | None | Some "" | Some "-" => n_name <$> cfg.(c_nodes)
                   | Some name => [name]
                   end in
      fold_left (fun used name => <[name := {[identity]} ∪ default ∅ (used !! name)]> used) names used
  end.
Definition placed_on (entry : JobEntry) : option string :=
  if bool_decide (entry.(node) = "-") then entry.(pin_node) else Some entry.(node).
Definition envs_in_use (entries : list JobEntry) : gmap string (gset string) :=
  fold_left (fun used entry =>
      if is_live entry
      then protect (placed_on entry) entry.(cache_source_env_hash) (protect (placed_on entry) entry.(env_hash) used)
      else used) entries ∅.

Definition ENV_RE : list re_item := [Rep is_hex 12 12].
Definition clean_envs_command (envs_dir : string) (cutoff_ts : Q) (keep : gset string) : result clean_command :=
  raise_if (negb (forallb (fullmatch ENV_RE) (elements keep)))
    (ValueError "invalid environment identity; cleanup refused") ;;
  _ ← node_path_expression envs_dir;
  Ok (SweepEnvironments envs_dir (Qfloor cutoff_ts) (sort_strings (elements keep))).

(** What one node's sweep adds to the report; [what] names the sweep. *)
Definition sweep_reply (what : string) (n : Node) (reply : remote_reply) : SweepReport :=
  let failed kind message := mkFailure "-" n.(n_name) (what +:+ "_clean_" +:+ kind) message in
  match reply with
  | Unreached _ message => mkSweep 0 [failed "failed" (what +:+ " clean skipped (" +:+ message +:+ ")")]
  | Replied returncode stdout stderr =>
      if negb (returncode =? 0) then
        let detail := stderr_or_stdout stderr stdout in
        mkSweep 0 [failed "failed" (what +:+ " clean skipped (remote command exited " +:+ pretty returncode
                                    +:+ (if bool_decide (detail = "") then "" else ": " +:+ detail) +:+ ")")]
      else
        let incomplete := normalize_ws stderr in
        mkSweep (length (List.filter (fun line => negb (bool_decide (strip line = ""))) (splitlines stdout)))
          (if bool_decide (incomplete = "") then [] else [failed "incomplete" incomplete])
  end.
Definition add_sweep (a b : SweepReport) : SweepReport :=
  mkSweep (a.(sw_removed) + b.(sw_removed)) (a.(sw_failures) ++ b.(sw_failures)).
Fixpoint sweep_nodes (what : string) (command : Node -> result clean_command) (nodes : list Node)
    (report : SweepReport) (w : W) : SweepReport * W :=
  match nodes with
  | [] => (report, w)
  | n :: rest =>
      let '(reply, w) := match command n with
                         | Err e => (Unreached (exn_name e) (exn_message e), w)
                         | Ok c => runner n.(n_name) n.(n_local) c w
                         end in
      sweep_nodes what command rest (add_sweep report (sweep_reply what n reply)) w
  end.
Definition clean_envs (explicit : option string) (r : registry) (cutoff_ts : Q) : W -> SweepReport * W :=
  let used := envs_in_use (list_all now r).1 in
  sweep_nodes "env" (fun n => envs_dir ← envs_for explicit n;
                              clean_envs_command envs_dir cutoff_ts (default ∅ (used !! n.(n_name))))
    cfg.(c_nodes) (mkSweep 0 []).
Definition clean_deployments (cutoff_ts : Q) : W -> SweepReport * W :=
  sweep_nodes "deployment" (fun _ => Ok (SweepDeployments (Qfloor cutoff_ts))) cfg.(c_nodes) (mkSweep 0 []).
End cleaning.

(** ** Snapshots *)

(** A name below a snapshot root; [stat] and [is_dir] follow a link. *)
Record tree := mkTree { tr_dir : bool; tr_symlink : bool; tr_mtime : Q }.
(** The trees by root and digest, and the baseline of each project. *)
Record SnapshotStore := mkStore {
  ss_trees : gmap (string * string) tree;
  ss_state : list (string * string);
}.
#[export] Instance eta_SnapshotStore : Eta SnapshotStore := fun s => mkStore s.(ss_trees) s.(ss_state).

Definition snapshot_digests (entries : list JobEntry) : list string :=
  remove_dups (List.filter (fullmatch SHA256_RE) (omap snapshot_sha256 entries)).

Section snapshots.
(** Failures of [stat] and of the quarantine rename, and of the state file. *)
Context (stat_fails rename_fails : string -> string -> bool) (state_writable : bool).

Definition remove_tree (cutoff_ts : Q) (digest : string) (acc : bool * SnapshotStore) (root : string)
  : bool * SnapshotStore :=
  let '(removed_any, store) := acc in
  match store.(ss_trees) !! (root, digest) with
  | None => acc
  | Some t =>
      if stat_fails root digest then acc
      else if t.(tr_dir) && negb t.(tr_symlink) && q_ltb t.(tr_mtime) cutoff_ts then
        if rename_fails root digest then acc
        else (true, store <| ss_trees := delete (root, digest) store.(ss_trees) |>)
      else acc
  end.
Definition remove_digest (roots : list string) (cutoff_ts : Q) (acc : list string * SnapshotStore) (digest : string)
  : list string * SnapshotStore :=
  let '(removed_digests, store) := acc in
  let '(removed_any, store) := fold_left (remove_tree cutoff_ts digest) roots (false, store) in
  (if removed_any : bool then removed_digests ++ [digest] else removed_digests, store).

Definition _remove_unreferenced_snapshots (now : Q) (r : registry) (roots : list string)
    (removed_entries : list JobEntry) (cutoff_ts : Q) (store : SnapshotStore) : SnapshotStore :=
  let victims := snapshot_digests removed_entries in
  if bool_decide (victims = []) then store
  else
    let '(live_entries, damage) := list_all now r in
    if negb (bool_decide (length damage = 0%nat)) then store
    else
      let referenced := snapshot_digests live_entries in
      let '(removed_digests, store) :=
        fold_left (remove_digest roots cutoff_ts)
          (List.filter (fun d => negb (bool_decide (d ∈ referenced))) victims) ([], store) in
      if state_writable
      then store <| ss_state := List.filter (fun p => negb (bool_decide (p.2 ∈ removed_digests))) store.(ss_state) |>
      else store.
End snapshots.

(** ** The whole cleaning *)
Section clean_jobs.
Context (encoded_size : json -> nat) (index_writable : bool) (py_repr : string -> string).
Context {W : Type} (cfg : HeadConfig) (now : Q).
Context (removable : Site W -> bool) (runner : string -> bool -> clean_command -> W -> remote_reply * W)
  (before_registry_remove : JobEntry -> W -> result unit * W) (drop_staging : string -> W -> W).
Context (stat_fails rename_fails : string -> string -> bool) (state_writable : bool) (roots : list string)
  (explicit_envs : option string).

Definition clean_jobs (cutoff_ts : Q) (envs : bool) (projects : option (list string))
    (authorized : option (list RawAuthorization)) (s : Site W) (store : SnapshotStore)
  : result CleanReport * Site W * SnapshotStore :=
  let victims := match authorized with
                 | Some l => l
                 | None => from_entry <$> clean_job_victims now s.(st_registry) cutoff_ts projects
                 end in
  match clean_each encoded_size index_writable py_repr cfg now removable runner before_registry_remove drop_staging
          victims cutoff_ts projects [] [] s with
  | (Err e, s) => (Err e, s, store)
  | (Ok (removed, failures), s) =>
      let store := _remove_unreferenced_snapshots stat_fails rename_fails state_writable now s.(st_registry) roots
                     removed cutoff_ts store in
      if envs then
        let '(report, w) := clean_envs cfg now runner explicit_envs s.(st_registry) cutoff_ts s.(st_world) in
        (Ok (mkReport (length victims) removed (failures ++ report.(sw_failures)) report.(sw_removed)),
         mkSite s.(st_registry) w, store)
      else (Ok (mkReport (length victims) removed failures 0), s, store)
  end.
End clean_jobs.
