(* ===== verification/MaintenanceSpec.v ===== *)
(** * Cleaning never loses a job ([maintenance.py])

    The nodes are known through an interface, [CleanContract]: no command of a
    cleaning starts anything, only a deletion removes the directory of a
    capsule, and it does so only after its census found the capsule dead.
    Against it a cleaning refines a retention policy on the registry and the
    capsules, so the rows that say where a job may be running survive it. *)

From Stdlib Require Import Qround.
From S2P Require Import Prelude Text PyValue Layout JobEntry RegistryCodec CodecCanonical Lifecycle Registry ActiveIndex RegistryOps RegistryFacts RegistrySpec Config StatusProbe Scheduler SchedulerSpec ClaimSpec CleanPlan Recovery RecoverySpec Dispatch DispatchFacts DispatchSpec Maintenance.

(** [capsules]: those that may run the job; [data]: those whose directory exists. *)
Class CleanContract {W : Type} (capsules data : W -> gset capsule)
    (runner : string -> bool -> clean_command -> W -> remote_reply * W)
    (before_registry_remove : JobEntry -> W -> result unit * W) (drop_staging : string -> W -> W) : Prop := {
  cc_run n local c w reply w' : runner n local c w = (reply, w') ->
    capsules w' ⊆ capsules w /\
    forall x, x ∈ data w -> (x ∉ data w') -> (x ∉ capsules w) /\ exists f p b, c = DeleteCapsule x.2 f p b /\ n = x.1;
  cc_deleted n local d f p b w out err w' :
    runner n local (DeleteCapsule d f p b) w = (Replied 0 out err, w') -> (n, d) ∉ capsules w';
  cc_hook e w res w' : before_registry_remove e w = (res, w') -> capsules w' ⊆ capsules w /\ data w ⊆ data w';
  cc_staging id w : capsules (drop_staging id w) ⊆ capsules w /\ data w ⊆ data (drop_staging id w);
}.

(** ** The policy *)
Section policy.
Context {W : Type} (capsules data : W -> gset capsule) (cfg : HeadConfig) (now cutoff_ts : Q)
  (projects : option (list string)) (auths : list RawAuthorization).

Record may_remove (r : registry) (e : JobEntry) : Prop := {
  mv_authorized : exists raw a, raw ∈ auths /\ _clean_authorization raw = Ok a /\ identity_matches a e = true;
  mv_stored : load now e.(job_id) r = (Ok (Some e), r);
  mv_ended : is_terminal e.(status) = true /\ is_uncertain_launch e = false;
  mv_old : exists t, e.(finished_at) = Some t /\ (t < cutoff_ts)%Q;
  mv_project names : projects = Some names -> e.(project) ∈ names;
  mv_unreferenced q : q ∈ (list_all now r).1 -> q.(status) ∈ [Queued; Running] -> e.(job_id) ∉ references q;
  mv_managed : _managed_job_dir cfg e = Some e.(job_dir);
}.
Definition same_loads (r r' : registry) : Prop := forall now' jid, (load now' jid r').1 = (load now' jid r).1.
(** Nothing was ever placed, or the node found the capsule dead. *)
Definition at_rest (e : JobEntry) (s : Site W) : Prop :=
  e.(node) = "-" \/ (e.(node), e.(job_dir)) ∉ capsules s.(st_world).

Record clean_step (s s' : Site W) : Prop := {
  cs_alive : capsules s'.(st_world) ⊆ capsules s.(st_world);
  cs_row : same_loads s.(st_registry) s'.(st_registry) \/
    exists e, may_remove s.(st_registry) e /\ at_rest e s' /\
      (forall now', load now' e.(job_id) s'.(st_registry) = (Ok None, s'.(st_registry))) /\
      (forall now' other, other <> e.(job_id) -> (load now' other s'.(st_registry)).1 = (load now' other s.(st_registry)).1);
  cs_data x : x ∈ data s.(st_world) -> (x ∉ data s'.(st_world)) ->
    (x ∉ capsules s.(st_world)) /\ exists e, may_remove s.(st_registry) e /\ x = (e.(node), e.(job_dir));
}.
Lemma clean_step_refl s : clean_step s s.
Proof. split; [done|by left|done]. Qed.

(** What a step leaves as it was: every row the policy protects. *)
Lemma step_keeps_row s s' jid P :
  clean_step s s' -> row_sat s.(st_registry) jid P ->
  (forall e, P e -> e.(job_id) = jid -> ~ (may_remove s.(st_registry) e /\ at_rest e s')) ->
  row_sat s'.(st_registry) jid P.
Proof.
  intros [_ Hrow _] Hsat Hno.
  assert (forall now', (load now' jid s'.(st_registry)).1 = (load now' jid s.(st_registry)).1) as Hsame.
  { intros now'. destruct Hrow as [H|(e & Hm & Hr & _ & Ho)]; [apply H|]. apply Ho. intros ->.
    destruct (Hsat now) as (e' & Hl & HP). pose proof (mv_stored _ _ Hm) as Hl'. rewrite Hl in Hl'. injection Hl' as ->.
    by destruct (Hno e HP eq_refl). }
  intros now'. destruct (Hsat now') as (e & Hl & HP). exists e. split; [|done]. specialize (Hsame now'). rewrite Hl in Hsame.
  pose proof (load_state now' jid s'.(st_registry)) as Hst. destruct (load now' jid s'.(st_registry)). cbn in *. by subst.
Qed.

(** The accounting of a job's capsules survives a step. *)
Lemma step_keeps_accounted e0 s s' :
  clean_step s s' -> (forall d, ("-", d) ∉ capsules s.(st_world)) ->
  accounted cfg capsules e0 s -> accounted cfg capsules e0 s'.
Proof.
  intros Hs Hdash [H|Hsat]; pose proof (cs_alive _ _ Hs) as Hal; unfold accounted, alive in *; [left; set_solver|].
  destruct (decide (capsules s'.(st_world) = ∅)) as [|Hne]; [by left|right].
  eapply row_sat_impl; [|eapply (step_keeps_row s s'); [done|exact Hsat|]].
  - intros e [(Hq & n & d & Hn & Hd & HR)|[Hst HR]]; [left|right].
    + split; [done|]. exists n, d. split_and!; [done..|set_solver].
    + split; [done|set_solver].
  - intros e Hnames _ [[_ _ [Hterm Hunc] _ _ _ _] Hrest]. destruct Hnames as [(Hq & _)|[Hst HR]]; [by rewrite Hq in Hterm|].
    apply Hne. destruct Hrest as [Hd|Hd]; [rewrite Hd in HR; specialize (Hdash e.(job_dir))|]; set_solver.
Qed.
End policy.

(** ** A cleaning refines the policy *)
Section cleaning.
Context (size : json -> nat) (ok : bool) (py_repr : string -> string).
Context {W : Type} (cfg : HeadConfig) (now : Q) (removable : Site W -> bool)
  (runner : string -> bool -> clean_command -> W -> remote_reply * W)
  (before_registry_remove : JobEntry -> W -> result unit * W) (drop_staging : string -> W -> W).
Context (capsules data : W -> gset capsule)
  `{nodes : !CleanContract capsules data runner before_registry_remove drop_staging}.
Context (cutoff_ts : Q) (projects : option (list string)) (auths : list RawAuthorization).
Abbreviation clean_step := (clean_step capsules data cfg now cutoff_ts projects auths).
Abbreviation may_remove := (may_remove cfg now cutoff_ts projects auths).

Lemma delete_verdict_none e rc out err : delete_verdict e rc out err = None -> rc = 0.
Proof.
  unfold delete_verdict. destruct (rc =? 0) eqn:E; [by apply Z.eqb_eq in E|]. cbv zeta.
  by destruct (_ && _); [destruct (contains _ _)|].
Qed.

(** What a deletion may have done, and what its success proves. *)
Definition deletion_post (e : JobEntry) (dir : string) (s : Site W) (res : result (option CleanFailure)) (s' : Site W) : Prop :=
  s'.(st_registry) = s.(st_registry) /\ capsules s'.(st_world) ⊆ capsules s.(st_world) /\
  (forall x, x ∈ data s.(st_world) -> (x ∉ data s'.(st_world)) -> (x ∉ capsules s.(st_world)) /\ x = (e.(node), dir)) /\
  (res = Ok None -> (e.(node), dir) ∉ capsules s'.(st_world)).
Lemma delete_sound e dir s : wp (_delete_remote_job_dir py_repr cfg runner e dir) (deletion_post e dir s) s.
Proof using nodes.
  assert (forall res, res <> Ok None -> deletion_post e dir s res s) as Hsame by (by intros res Hres; repeat split).
  unfold _delete_remote_job_dir. cbv zeta. destruct (configured_node cfg e.(node)) as [n|]; [|by apply Hsame].
  destruct (negb _); [by apply Hsame|]. apply wp_bind, wp_raising.
  destruct (node_path_expression _); [|by apply Hsame]. apply wp_bind, wp_raising.
  destruct (node_path_expression dir); [|by apply Hsame]. apply wp_bind, wp_fun. unfold on_nodes, run_clean.
  intros res s'. destruct (runner _ _ _ _) as [reply w] eqn:E. intros [= <- <-].
  destruct (cc_run _ _ _ _ _ _ E) as [Ha Hd].
  assert (forall res, (res = Ok None -> exists out err, reply = Replied 0 out err) ->
    deletion_post e dir s res (mkSite s.(st_registry) w)) as Hpost.
  { intros res Hres. split; [done|]. split; [done|]. split.
    - intros [n' d'] Hx Hx'. destruct (Hd _ Hx Hx') as (Hna & f & p & b & Heq & Hn). split; [done|]. cbn in *. congruence.
    - intros H. destruct (Hres H) as (out & err & ->). by eapply cc_deleted. }
  destruct reply as [ty message|rc out err]; apply wp_ret, Hpost; [done|].
  destruct (delete_verdict e rc out err) as [[]|] eqn:Ev; [done|]. apply delete_verdict_none in Ev as ->. eauto.
Qed.

(** Removing the row of a job whose capsule is at rest. *)
Lemma remove_locally_sound e s :
  wp (attempt_to (remove_locally size ok now removable before_registry_remove drop_staging e))
    (fun res s' => exists out, res = Ok out /\ capsules s'.(st_world) ⊆ capsules s.(st_world) /\
       data s.(st_world) ⊆ data s'.(st_world) /\
       match out with
       | Ok _ => (forall now', load now' e.(job_id) s'.(st_registry) = (Ok None, s'.(st_registry))) /\
           (forall now' other, other <> e.(job_id) -> (load now' other s'.(st_registry)).1 = (load now' other s.(st_registry)).1)
       | Err _ => s'.(st_registry) = s.(st_registry)
       end) s.
Proof using nodes.
  unfold wp, attempt_to, remove_locally, mbind, D_bind, on_nodes, raising, drop_row, on_registry.
  destruct (before_registry_remove e s.(st_world)) as [[[]|x] w] eqn:Eh; destruct (cc_hook _ _ _ _ Eh) as [Ha Hd].
  - cbn [st_registry st_world]. destruct (cc_staging e.(job_id) w) as [Ha2 Hd2].
    destruct (remove_record _ _ _ _ _ _) as [out r] eqn:Er. destruct (remove_isolated _ _ _ _ _ _ _ _ Er) as [Ho Hres].
    exists out. cbn [st_registry st_world]. split; [done|]. split; [set_solver|]. split; [set_solver|].
    destruct out; [by split|done].
  - exists (Err x). cbn [st_registry st_world]. by split_and!.
Qed.

Lemma still_cleanable_spec r e :
  _still_cleanable now r e cutoff_ts projects = true ->
  (is_terminal e.(status) = true /\ is_uncertain_launch e = false) /\
  (exists t, e.(finished_at) = Some t /\ (t < cutoff_ts)%Q) /\
  (forall names, projects = Some names -> e.(project) ∈ names) /\
  (forall q, q ∈ (list_all now r).1 -> q.(status) ∈ [Queued; Running] -> e.(job_id) ∉ references q).
Proof.
  unfold _still_cleanable, retention_ended. rewrite !andb_true_iff, !negb_true_iff, !bool_decide_eq_true, bool_decide_eq_false.
  intros [[[[Hst Hu] Ht] Hp] Href]. split_and!; [|done|..].
  - destruct e.(status); try done; set_solver.
  - destruct e.(finished_at) as [t|]; [|done]. apply q_ltb_lt in Ht. eauto.
  - intros names ->. by apply bool_decide_eq_true in Hp.
  - intros q Hq Hl Hin. apply Href. unfold active_references. apply list_elem_of_In, in_flat_map.
    exists q. rewrite <- !list_elem_of_In, elem_of_filterb. split; [split; [done|]|done]. by apply bool_decide_eq_true.
Qed.
Lemma managed_dir_eq e d : _managed_job_dir cfg e = Some d -> d = e.(job_dir) /\ _managed_job_dir cfg e = Some e.(job_dir).
Proof.
  intros H. rewrite H. unfold _managed_job_dir in H. cbv zeta in H. destruct (if bool_decide _ then _ else _); [|done].
  destruct (bool_decide (e.(job_dir) = s)); [|done]. by injection H as <-.
Qed.

(** A step that changes nothing but, at most, ends capsules. *)
Lemma idle_step s s' :
  s'.(st_registry) = s.(st_registry) -> capsules s'.(st_world) ⊆ capsules s.(st_world) ->
  data s.(st_world) ⊆ data s'.(st_world) -> clean_step s s'.
Proof. intros Hr Ha Hd. split; [done|left; by rewrite Hr|set_solver]. Qed.

Lemma one_job_sound raw a s :
  raw ∈ auths -> _clean_authorization raw = Ok a ->
  wp (_clean_one_job size ok py_repr cfg now removable runner before_registry_remove drop_staging a cutoff_ts projects)
    (fun _ s' => clean_step s s') s.
Proof using nodes.
  intros Hraw Ha. unfold _clean_one_job. apply wp_bind. unfold wp at 1, attempt_to, on_registry.
  destruct (load now a.(ca_job_id) s.(st_registry)) as [found r] eqn:Hl. pose proof (load_ok _ _ _ _ _ Hl) as ->.
  replace (mkSite s.(st_registry) s.(st_world)) with s by (by destruct s).
  destruct found as [found|x]; [|apply wp_ret, clean_step_refl].
  apply wp_bind. unfold wp at 1, site. destruct found as [e|]; [|apply wp_ret, clean_step_refl].
  destruct (identity_matches a e && _) eqn:Hok; [|apply wp_ret, clean_step_refl].
  apply andb_true_iff in Hok as [Hid Hclean].
  destruct (_managed_job_dir cfg e) as [dir|] eqn:Hman; [|apply wp_ret, clean_step_refl].
  apply managed_dir_eq in Hman as [-> Hman].
  assert (may_remove s.(st_registry) e) as Hmay.
  { apply still_cleanable_spec in Hclean as (? & ? & ? & ?).
    assert (e.(job_id) = a.(ca_job_id)) as Hj by (by eapply load_id). split; try done; [by exists raw, a|by rewrite Hj]. }
  apply wp_bind. eapply wp_mono with (Q := fun res s1 => deletion_post e e.(job_dir) s res s1 \/ (s1 = s /\ e.(node) = "-")).
  { case_bool_decide as Hd; [by apply wp_ret; right|]. eapply wp_mono; [apply delete_sound|]. auto. }
  intros res s1 Hpost.
  assert (clean_step s s1 /\ (res = Ok None -> at_rest capsules e s1) /\ s1.(st_registry) = s.(st_registry)) as (Hstep & Hrest & Hreg).
  { destruct Hpost as [(Hr & Hal & Hd & Hn)|[-> Hn]]; [|split; [apply clean_step_refl|split; [by left|done]]].
    split; [|split; [by intros H; right; apply Hn|done]]. split; [done|left; by rewrite Hr|].
    intros x Hx Hx'. destruct (Hd x Hx Hx') as [? ->]. split; [done|]. by exists e. }
  destruct res as [[f|]|x]; [by apply wp_ret| |done]. specialize (Hrest eq_refl).
  apply wp_bind. eapply wp_mono; [apply remove_locally_sound|]. intros res s2 (out & -> & Hal & Hd & Hout). cbn.
  destruct Hstep as [Hal1 _ Hd1]. split; [set_solver| |].
  - destruct out as [u|x]; [|left; by rewrite Hout, Hreg]. right. rewrite Hreg in Hout. exists e.
    split; [done|]. split; [|done]. destruct Hrest as [?|?]; [by left|right; set_solver].
  - intros x Hx Hx'. apply Hd1; [done|]. set_solver.
Qed.

Lemma clean_each_sound victims removed failures s :
  (forall raw, raw ∈ victims -> raw ∈ auths) ->
  wp (clean_each size ok py_repr cfg now removable runner before_registry_remove drop_staging victims cutoff_ts projects
        removed failures) (fun _ s' => rtc clean_step s s') s.
Proof using nodes.
  revert removed failures s. induction victims as [|raw victims IH]; intros removed failures s Hin; [by apply wp_ret|].
  cbn [clean_each]. apply wp_bind, wp_raising. destruct (_clean_authorization raw) as [a|x] eqn:Ha; [|done].
  apply wp_bind. eapply wp_mono; [by apply (one_job_sound raw); [set_solver|]|]. cbn. intros [one|x] s1 Hstep; [|by apply rtc_once].
  eapply wp_mono; [by apply IH; set_solver|]. cbn. intros _ s2 Hrest. by eapply rtc_l.
Qed.

Lemma sweep_sound what command nodes_ report w report' w' :
  (forall n c, command n = Ok c -> forall d f p b, c <> DeleteCapsule d f p b) ->
  sweep_nodes runner what command nodes_ report w = (report', w') -> capsules w' ⊆ capsules w /\ data w ⊆ data w'.
Proof using nodes.
  intros Hc. revert report w. induction nodes_ as [|n l IH]; intros report w; [by intros [= <- <-]|].
  cbn. destruct (match command n with Err _ => _ | Ok _ => _ end) as [reply w1] eqn:E. intros H.
  apply IH in H as [Ha' Hd']. enough (capsules w1 ⊆ capsules w /\ data w ⊆ data w1) as [Ha Hd] by (split; by etrans).
  destruct (command n) as [c|] eqn:Ec; [|by injection E as _ <-]. destruct (cc_run _ _ _ _ _ _ E) as [Ha Hd].
  split; [done|]. intros x Hx. destruct (decide (x ∈ data w1)) as [|Hn]; [done|].
  destruct (Hd x Hx Hn) as (_ & f & p & b & Heq & _). by destruct (Hc n c Ec _ _ _ _ Heq).
Qed.
Lemma clean_envs_sound explicit r w report w' :
  clean_envs cfg now runner explicit r cutoff_ts w = (report, w') -> capsules w' ⊆ capsules w /\ data w ⊆ data w'.
Proof using nodes.
  apply sweep_sound. intros n c H d f p b ->. apply bind_ok in H as (envs & _ & H). unfold clean_envs_command in H.
  apply bind_raise_ok in H as [_ H]. by apply bind_ok in H as (? & _ & [=]).
Qed.

(** The removal loop, the snapshots and the environments. *)
Lemma clean_jobs_sound stat_fails rename_fails state_writable roots explicit envs authorized s store res s' store' :
  default (from_entry <$> clean_job_victims now s.(st_registry) cutoff_ts projects) authorized = auths ->
  clean_jobs size ok py_repr cfg now removable runner before_registry_remove drop_staging stat_fails rename_fails
    state_writable roots explicit cutoff_ts envs projects authorized s store = (res, s', store') ->
  rtc clean_step s s'.
Proof using nodes.
  intros Hauths. unfold clean_jobs.
  replace (match authorized with Some l => l | None => _ end) with auths by (by destruct authorized).
  pose proof (clean_each_sound auths [] [] s (fun raw H => H)) as H. unfold wp in H.
  destruct (clean_each _ _ _ _ _ _ _ _ _ _ _ _ _ _ s) as [[[removed failures]|x] s1]; [|by intros [= <- <- <-]].
  cbv zeta. destruct envs; [|by intros [= <- <- <-]].
  destruct (clean_envs _ _ _ _ _ _ _) as [report w] eqn:E. intros [= <- <- <-].
  eapply rtc_r; [exact H|]. apply clean_envs_sound in E as [Ha Hd]. by apply idle_step.
Qed.
End cleaning.

(** ** The theorems *)
Section theorems.
Context (size : json -> nat) (ok : bool) (py_repr : string -> string).
Context {W : Type} (cfg : HeadConfig) (now : Q) (removable : Site W -> bool)
  (runner : string -> bool -> clean_command -> W -> remote_reply * W)
  (before_registry_remove : JobEntry -> W -> result unit * W) (drop_staging : string -> W -> W).
Context (capsules data : W -> gset capsule)
  `{nodes : !CleanContract capsules data runner before_registry_remove drop_staging}.
Context (stat_fails rename_fails : string -> string -> bool) (state_writable : bool) (roots : list string)
  (explicit : option string).
Abbreviation clean_jobs := (clean_jobs size ok py_repr cfg now removable runner before_registry_remove drop_staging
  stat_fails rename_fails state_writable roots explicit).


(** C7. Whatever a cleaning deletes, and whether the set was authorized or chosen
    now, the stored row still names every capsule that may be running the job. *)
Lemma cleaning_keeps_accounting e0 cutoff_ts envs projects authorized s store res s' store' :
  clean_jobs cutoff_ts envs projects authorized s store = (res, s', store') ->
  (forall d, ("-", d) ∉ capsules s.(st_world)) ->
  accounted cfg capsules e0 s -> accounted cfg capsules e0 s'.
Proof using nodes.
  intros H%(clean_jobs_sound _ _ _ _ _ _ _ _ _ capsules data _ _ _ _ _ _ _ _ _ _ _ _ _ _ _ eq_refl).
  induction H as [|s1 s2 s3 Hs _ IH]; [done|]. intros Hd Ha. apply IH.
  - intros d Hin. apply (Hd d). by apply (cs_alive _ _ _ _ _ _ _ _ _ Hs).
  - by eapply step_keeps_accounted.
Qed.
End theorems.

(** ** Snapshots *)
Section snapshots.
Context (stat_fails rename_fails : string -> string -> bool) (state_writable : bool) (cutoff_ts : Q).

(** Only old directories of the listed roots and digests disappear. *)
Definition pruned (roots digests : list string) (store store' : SnapshotStore) : Prop := forall root d,
  store'.(ss_trees) !! (root, d) = store.(ss_trees) !! (root, d) \/
  (store'.(ss_trees) !! (root, d) = None /\ root ∈ roots /\ d ∈ digests /\
   exists t, store.(ss_trees) !! (root, d) = Some t /\ t.(tr_dir) = true /\ t.(tr_symlink) = false /\ (t.(tr_mtime) < cutoff_ts)%Q).
Lemma pruned_refl roots digests store : pruned roots digests store store.
Proof. intros root d. by left. Qed.
Lemma pruned_trans roots digests s1 s2 s3 : pruned roots digests s1 s2 -> pruned roots digests s2 s3 -> pruned roots digests s1 s3.
Proof.
  intros H1 H2 root d. destruct (H2 root d) as [-> | (Hn & Hr & Hd & t & Ht & Hp)]; [apply H1|].
  destruct (H1 root d) as [E | (E & _)]; [|congruence]. right. split_and!; [done..|]. exists t. by rewrite <- E.
Qed.

Lemma remove_tree_pruned roots digest acc root :
  root ∈ roots -> pruned roots [digest] acc.2 (remove_tree stat_fails rename_fails cutoff_ts digest acc root).2.
Proof.
  intros Hr. destruct acc as [any store]. unfold remove_tree.
  destruct (store.(ss_trees) !! (root, digest)) as [t|] eqn:Ht; [|apply pruned_refl].
  destruct (stat_fails _ _); [apply pruned_refl|]. destruct (_ && q_ltb _ _) eqn:Hp; [|apply pruned_refl].
  destruct (rename_fails _ _); [apply pruned_refl|]. rewrite !andb_true_iff, negb_true_iff, q_ltb_lt in Hp.
  intros root' d'. cbn. destruct (decide ((root, digest) = (root', d'))) as [[= <- <-]|Hne].
  - right. rewrite lookup_delete_eq. split_and!; [done..|set_solver|]. exists t. naive_solver.
  - left. by rewrite lookup_delete_ne.
Qed.
Lemma pruned_more roots digests digests' s s' : digests ⊆ digests' -> pruned roots digests s s' -> pruned roots digests' s s'.
Proof. intros Hs H root d. destruct (H root d) as [|(? & ? & Hd & ?)]; [by left|right]. split_and!; [done..|by apply Hs|done]. Qed.
Lemma fold_pruned {A B} (store_of : B -> SnapshotStore) (f : B -> A -> B) roots digests l acc :
  (forall b x, x ∈ l -> pruned roots digests (store_of b) (store_of (f b x))) ->
  pruned roots digests (store_of acc) (store_of (fold_left f l acc)).
Proof.
  revert acc. induction l as [|x l IH]; intros acc H; [apply pruned_refl|]. cbn [fold_left].
  eapply pruned_trans; [apply H, list_elem_of_here|]. apply IH. intros b y Hy. by apply H, list_elem_of_further.
Qed.
Lemma remove_digest_pruned roots acc digest :
  pruned roots [digest] acc.2 (remove_digest stat_fails rename_fails roots cutoff_ts acc digest).2.
Proof.
  destruct acc as [gone store]. unfold remove_digest.
  pose proof (fold_pruned snd (remove_tree stat_fails rename_fails cutoff_ts digest) roots [digest] roots (false, store)
    (fun b x Hx => remove_tree_pruned roots digest b x Hx)) as H.
  by destruct (fold_left _ roots (false, store)) as [any store'].
Qed.

Lemma snapshot_digests_spec entries d :
  d ∈ snapshot_digests entries <-> fullmatch SHA256_RE d = true /\ exists e, e ∈ entries /\ e.(snapshot_sha256) = Some d.
Proof.
  unfold snapshot_digests. rewrite elem_of_remove_dups, elem_of_filterb, list_elem_of_omap. naive_solver.
Qed.

(** C37. A snapshot disappears only when the whole registry could be read, no row
    left in it refers to the snapshot, a removed job did, and its directory is
    older than the cutoff; nothing else in the store moves. *)
Lemma referenced_snapshots_kept now r roots removed store root d :
  let store' := _remove_unreferenced_snapshots stat_fails rename_fails state_writable now r roots removed cutoff_ts store in
  store'.(ss_trees) !! (root, d) <> store.(ss_trees) !! (root, d) ->
  store'.(ss_trees) !! (root, d) = None /\ (list_all now r).2 = [] /\
  (forall e, e ∈ (list_all now r).1 -> e.(snapshot_sha256) <> Some d) /\
  (exists e, e ∈ removed /\ e.(snapshot_sha256) = Some d) /\
  exists t, store.(ss_trees) !! (root, d) = Some t /\ t.(tr_dir) = true /\ t.(tr_symlink) = false /\ (t.(tr_mtime) < cutoff_ts)%Q.
Proof.
  cbv zeta. unfold _remove_unreferenced_snapshots. case_bool_decide; [done|].
  destruct (list_all now r) as [live damage]. case_bool_decide as Hdam; [|done]. cbn [negb].
  apply nil_length_inv in Hdam. set (victims := List.filter _ _).
  pose proof (fold_pruned snd (remove_digest stat_fails rename_fails roots cutoff_ts) roots victims victims ([], store)
    (fun b x Hx => pruned_more roots [x] victims _ _ ltac:(set_solver) (remove_digest_pruned roots b x))) as Hp.
  destruct (fold_left _ victims ([], store)) as [gone store'] eqn:E. cbn [snd] in Hp.
  intros Hne. assert (store'.(ss_trees) !! (root, d) <> store.(ss_trees) !! (root, d)) as Hne' by (by destruct state_writable).
  destruct (Hp root d) as [|(Hn & _ & Hd & Ht)]; [done|]. unfold victims in Hd.
  apply elem_of_filterb in Hd as [Hv Hr]. apply negb_true_iff, bool_decide_eq_false in Hr.
  apply snapshot_digests_spec in Hv as [Hsha Hv]. split_and!; [by destruct state_writable|done| |done|done].
  intros e He Hed. apply Hr. apply snapshot_digests_spec. eauto.
Qed.
End snapshots.

(** ** Environments *)
Section environments.
Context (cfg : HeadConfig).
Definition kept_on (name identity : string) (used : gmap string (gset string)) : Prop :=
  identity ∈ default ∅ (used !! name).

Lemma protect_grows placed identity used name h :
  kept_on name h used -> kept_on name h (protect cfg placed identity used).
Proof.
  unfold protect. destruct identity as [[|c t]|]; [done| |done]. generalize (String c t). intros i.
  generalize (match placed with Some "" | Some "-" | None => n_name <$> c_nodes cfg | Some n => [n] end). intros names.
  revert used. induction names as [|n names IH]; intros used H; [done|]. cbn [fold_left]. apply IH. unfold kept_on.
  destruct (decide (n = name)) as [->|Hne]; [rewrite lookup_insert_eq; cbn; set_solver|by rewrite lookup_insert_ne].
Qed.
(** Where a job that is not placed yet may still go. *)
Definition may_run_on (e : JobEntry) (name : string) : Prop :=
  match placed_on e with
  | None | Some "" | Some "-" => name ∈ n_name <$> cfg.(c_nodes)
  | Some n => name = n
  end.
Lemma protect_covers e identity used name :
  identity <> "" -> may_run_on e name -> kept_on name identity (protect cfg (placed_on e) (Some identity) used).
Proof.
  intros Hi Hrun. unfold protect. destruct identity as [|c t]; [done|]. clear Hi. set (i := String c t) in *.
  assert (forall names used, name ∈ names ->
    kept_on name i (fold_left (fun used n => <[n := {[i]} ∪ default ∅ (used !! n)]> used) names used)) as Hfold.
  { clear. induction names as [|n names IH] using rev_ind; intros used H; [set_solver|]. rewrite fold_left_app. cbn. unfold kept_on.
    destruct (decide (n = name)) as [->|Hne]; [rewrite lookup_insert_eq; cbn; set_solver|].
    rewrite lookup_insert_ne by done. apply IH. set_solver. }
  apply Hfold. unfold may_run_on in Hrun. repeat case_match; set_solver.
Qed.
Lemma envs_in_use_covers entries e identity name :
  e ∈ entries -> e.(status) ∈ [Queued; Running] -> identity <> "" ->
  (e.(env_hash) = Some identity \/ e.(cache_source_env_hash) = Some identity) -> may_run_on e name ->
  kept_on name identity (envs_in_use cfg entries).
Proof.
  intros He Hl Hi Hid Hrun. unfold envs_in_use. generalize (∅ : gmap string (gset string)).
  induction entries as [|x l IH] using rev_ind; intros used; [set_solver|]. rewrite fold_left_app. cbn [fold_left].
  apply elem_of_app in He as [He|He].
  - destruct (is_live x); [do 2 apply protect_grows|]; by apply IH.
  - apply list_elem_of_singleton in He as ->. unfold is_live. rewrite bool_decide_true by done.
    destruct Hid as [-> | ->]; [apply protect_grows|]; by apply protect_covers.
Qed.

(** The command a node receives spares every environment that a live job the
    registry can read may still need there: the environment it runs in and
    the one it will be forked from, on its node, its pin, or every node while
    it is not placed; and it only ever names directories of twelve hex digits. *)
Lemma needed_environments_kept now r cutoff_ts envs_dir n c e identity :
  e ∈ (list_all now r).1 -> e.(status) ∈ [Queued; Running] -> identity <> "" ->
  (e.(env_hash) = Some identity \/ e.(cache_source_env_hash) = Some identity) -> may_run_on e n.(n_name) ->
  clean_envs_command envs_dir cutoff_ts (default ∅ (envs_in_use cfg (list_all now r).1 !! n.(n_name))) = Ok c ->
  exists keep, c = SweepEnvironments envs_dir (Qfloor cutoff_ts) keep /\ identity ∈ keep /\
    Forall (fun i => fullmatch ENV_RE i = true) keep.
Proof.
  intros He Hl Hi Hid Hrun H. pose proof (envs_in_use_covers _ e identity n.(n_name) He Hl Hi Hid Hrun) as Hk.
  unfold clean_envs_command in H. apply bind_raise_ok in H as [Hre H]. apply bind_ok in H as (w & _ & [= <-]).
  apply negb_false_iff, forallb_True_spec in Hre. eexists. split; [done|]. split.
  - rewrite sort_strings_perm. by apply elem_of_elements.
  - by rewrite sort_strings_perm.
Qed.
End environments.

(** ** A concrete center: one ended job to clean, one running job to keep *)
Definition yard : Type := gset capsule * gset capsule.
Definition yard_run (n : string) (_ : bool) (c : clean_command) (w : yard) : remote_reply * yard :=
  match c with
  | DeleteCapsule d _ _ _ =>
      if bool_decide ((n, d) ∈ w.1) then (Replied 75 "" "DT_CLEAN_LIVE LIVE", w)
      else (Replied 0 "" "", (w.1, w.2 ∖ {[ (n, d) ]}))
  | _ => (Replied 0 "" "", w)
  end.
Definition yard_hook (_ : JobEntry) (w : yard) : result unit * yard := (Ok tt, w).
Definition yard_staging (_ : string) (w : yard) : yard := w.
#[export] Instance yard_contract : CleanContract fst snd yard_run yard_hook yard_staging.
Proof.
  split.
  - intros n local c w reply w' H. unfold yard_run in H. destruct c as [d f p b| |]; [|by injection H as _ <-..].
    case_bool_decide as Hin; injection H as _ <-; cbn; [done|]. split; [done|]. intros [n' d'] Hx Hx'.
    destruct (decide ((n', d') = (n, d))) as [[= -> ->]|Hne]; [split; [done|]; by exists f, p, b|].
    destruct Hx'. by apply elem_of_difference; split; [|intros ?%elem_of_singleton].
  - intros n local d f p b w out err w' H. unfold yard_run in H. case_bool_decide as Hin; [done|]. by injection H as _ _ <-.
  - intros e w res w' H. by injection H as _ <-.
  - done.
Qed.

Definition ended_row : JobEntry := 
  test_entry <| status := Finished |> <| exit_code := Some 0 |> <| finished_at := Some 150%Q |>
             <| result_state := Some Success |> <| node := "n1" |> <| worker_root := Some "~/dt" |>.
Definition busy_row : JobEntry :=
  test_entry <| job_id := "20260101-0001_next_0123456789abcdef" |> <| node := "n2" |> <| worker_root := Some "~/dt" |>
             <| job_dir := "~/dt/worker/jobs/20260101-0001_next_0123456789abcdef" |>.
Definition yard_registry : registry :=
  (save sample_size true 210%Q true busy_row (save sample_size true 200%Q true ended_row sample_registry).2).2.
Definition yard_site : Site yard :=
  mkSite yard_registry ({[ ("n2", busy_row.(job_dir)) ]}, {[ ("n1", ended_row.(job_dir)); ("n2", busy_row.(job_dir)) ]}).
Definition previewed : list RawAuthorization := from_entry <$> clean_job_victims 400 yard_registry 300 None.
Definition yard_clean : result CleanReport * Site yard * SnapshotStore :=
  clean_jobs sample_size true id small_center 400 (fun _ => true) yard_run yard_hook yard_staging
    (fun _ _ => false) (fun _ _ => false) true ["/snapshots"] None 300 true None (Some previewed) yard_site
    (mkStore ∅ []).

Lemma busy_row_unique : unique_keys busy_row.
Proof. split; vm_compute; try discriminate; constructor. Qed.
Lemma busy_row_stored now : exists e, load now busy_row.(job_id) yard_registry = (Ok (Some e), yard_registry) /\
  e.(status) = Running /\ (e.(node), e.(job_dir)) = (busy_row.(node), busy_row.(job_dir)).
Proof.
  assert (match (save sample_size true 210%Q true busy_row (save sample_size true 200%Q true ended_row sample_registry).2).1
          with Ok _ => true | Err _ => false end = true) as H by (vm_compute; reflexivity).
  unfold yard_registry. destruct (save _ _ 210%Q _ _ _) as [[out|x] r] eqn:E; [|discriminate H]. cbn [snd].
  pose proof busy_row_unique as Hu.
  apply save_inv in E as (existing & row & s & S). exists (complete (Some 210%Q) (canonical row)).
  destruct (saved_load _ _ _ _ _ _ _ _ _ now Hu S) as [-> _]. split; [done|].
  destruct (saved_verdict _ _ _ _ _ _ _ _ _ S) as [-> _]. split; [done|].
  destruct (canonical_same_place row) as [C _], (complete_same_place (Some 210%Q) (canonical row)) as [D _].
  destruct (saved_row_fields _ _ _ _ _ _ _ _ _ S) as [Hrow _].
  rewrite (sp_node_name _ _ D), (sp_node_name _ _ C), (sp_dir _ _ D), (sp_dir _ _ C), Hrow. done.
Qed.
Lemma cleaning_keeps_accounting_witness : exists s',
  yard_clean.1.2 = s' /\ fst s'.(st_world) <> ∅ /\ accounted small_center fst busy_row s'.
Proof.
  exists yard_clean.1.2. split; [reflexivity|].
  assert (bool_decide (fst (st_world yard_clean.1.2) = ∅) = false) as H by (vm_compute; reflexivity).
  split; [exact (bool_decide_eq_false_1 _ H)|]. clear H.
  destruct yard_clean as [[res s'] store'] eqn:E. unfold yard_clean in E.
  refine (cleaning_keeps_accounting sample_size true id small_center 400 (fun _ => true) yard_run yard_hook yard_staging fst snd
    (fun _ _ => false) (fun _ _ => false) true ["/snapshots"] None busy_row 300 true None (Some previewed) yard_site _ _ _ _ E _ _).
  - intros d Hd. cbn in Hd. apply elem_of_singleton in Hd. discriminate Hd.
  - right. intros now. destruct (busy_row_stored now) as (e & Hl & Hs & Hn). exists e. split; [exact Hl|]. right.
    split; [left; rewrite Hs; by left|]. rewrite Hn. done.
Defined.

Definition sample_snapshot : string := "0123456789abcdef0123456789abcdef0123456789abcdef0123456789abcdef".
Lemma referenced_snapshots_kept_witness :
  (_remove_unreferenced_snapshots (fun _ _ => false) (fun _ _ => false) true 400 yard_registry ["/snapshots"]
     [ended_row <| snapshot_sha256 := Some sample_snapshot |>] 300
     (mkStore {[ ("/snapshots", sample_snapshot) := mkTree true false 100 ]} [])).(ss_trees) !! ("/snapshots", sample_snapshot) = None.
Proof.
  apply (referenced_snapshots_kept (fun _ _ => false) (fun _ _ => false) true 300 400 yard_registry ["/snapshots"]
    [ended_row <| snapshot_sha256 := Some sample_snapshot |>]
    (mkStore {[ ("/snapshots", sample_snapshot) := mkTree true false 100 ]} []) "/snapshots" sample_snapshot).
  vm_compute. discriminate.
Defined.

Definition env_registry : registry :=
  (save sample_size true 210%Q true (busy_row <| env_hash := Some "0123456789ab" |>) sample_registry).2.
Lemma needed_environments_kept_witness : exists keep,
  clean_envs_command "~/dt/worker/envs" 300 (default ∅ (envs_in_use small_center (list_all 400 env_registry).1 !! "n2"))
  = Ok (SweepEnvironments "~/dt/worker/envs" 300 keep) /\ "0123456789ab" ∈ keep.
Proof.
  destruct (list_all 400 env_registry).1 as [|e [|x l]] eqn:E; try (vm_compute in E; discriminate E).
  assert (match (list_all 400 env_registry).1 with
          | [e] => bool_decide (e.(env_hash) = Some "0123456789ab") && bool_decide (e.(node) = "n2") && bool_decide (e.(status) = Running)
          | _ => false end = true) as H by (vm_compute; reflexivity).
  assert (clean_envs_command "~/dt/worker/envs" 300 (default ∅ (envs_in_use small_center (list_all 400 env_registry).1 !! "n2"))
    = Ok (SweepEnvironments "~/dt/worker/envs" 300 ["0123456789ab"])) as Hc by (vm_compute; reflexivity).
  rewrite E in H. rewrite !andb_true_iff, !bool_decide_eq_true in H. destruct H as [[He Hn] Hs].
  destruct (needed_environments_kept small_center 400 env_registry 300 "~/dt/worker/envs" (mkNode "n2" false false 1 None)
    (SweepEnvironments "~/dt/worker/envs" 300 ["0123456789ab"]) e "0123456789ab") as (keep & Hk & Hin & _); [..|exact Hc|].
  - rewrite E. by left.
  - rewrite Hs. by right; left.
  - done.
  - by left.
  - unfold may_run_on, placed_on. rewrite bool_decide_false by (by rewrite Hn). by rewrite Hn.
  - rewrite E in Hc. exists ["0123456789ab"]. split; [exact Hc|]. injection Hk as <-. exact Hin.
Defined.

(** An unreadable row protects nothing: the references of a queued dependent
    keep its predecessor while the registry can read it, and stop keeping it
    when its document is damaged, although the cleanup of snapshots refuses to
    act on such a registry. *)
Definition dependent_row : JobEntry := busy_row <| status := Queued |> <| node := "-" |> <| after_success := Some ended_row.(job_id) |>.
Definition dependent_registry : registry :=
  (save sample_size true 210%Q true dependent_row (save sample_size true 200%Q true ended_row sample_registry).2).2.
Definition damaged_registry : registry :=
  set_dir RoleSlot (dependent_registry.(role_dir) <| files := <[dependent_row.(job_id) := UnreadableFile]> dependent_registry.(role_dir).(files) |>)
    dependent_registry.
Lemma unreadable_dependent_protects_nothing :
  clean_job_victims 400 dependent_registry 300 None = [] /\
  job_id <$> clean_job_victims 400 damaged_registry 300 None = [ended_row.(job_id)] /\
  length (list_all 400 damaged_registry).2 = 1%nat.
Proof. split_and!; vm_compute; reflexivity. Qed.
