(* ===== verification/Group.v ===== *)
(** * Receipts of multi-job submissions ([submission_group.py])

    A batch, chain, fork or matrix has one parent record under its request
    identity: the intent it claims, how many of its children are confirmed, and
    whether the preparation it needs (publishing shared inputs) is done.  Each
    child is a submission of its own under a derived identity.

    The calls under one request lock are atomic; the preparation is a step of
    the world [W].  [disk] says what becomes of each write. *)

From S2P Require Import Prelude Text PyValue Numerals Diagnostics JobEntry RegistryCodec Registry Intent.

Definition GROUP_REQUEST_SCHEMA : string := "dt_submission_group_request_v1".
Definition GROUP_REQUEST_STATES : list string := ["preparing"; "prepared"; "confirmed"; "rejected"; "uncertain"].
Definition GROUP_TERMINAL_STATES : list string := ["confirmed"; "rejected"].
Definition GROUP_OPERATIONS : list string := ["batch"; "chain"; "fork_repeat"; "matrix"].
Definition _GROUP_FIELDS : list string :=
  ["schema"; "request_id"; "intent_sha256"; "operation"; "requested"; "submitted"; "state"; "created_at";
   "updated_at"; "exit_code"; "error_kind"; "error_message"].
Definition GROUP_ERROR_KIND_RE : list re_item := [Rep (fun c => is_alnum c || char_in "_.:-" c) 1 64].

Record GroupRequestRecord := mkGroup {
  gr_schema : string;
  gr_id : string;
  gr_intent : string;
  gr_operation : string;
  gr_requested : Z;
  gr_submitted : Z;
  gr_state : string;
  gr_created_at : Q;
  gr_updated_at : Q;
  gr_exit_code : option Z;
  gr_error_kind : option string;
  gr_error_message : option string;
}.
#[export] Instance eta_Group : Eta GroupRequestRecord := fun r =>
  mkGroup r.(gr_schema) r.(gr_id) r.(gr_intent) r.(gr_operation) r.(gr_requested) r.(gr_submitted) r.(gr_state)
    r.(gr_created_at) r.(gr_updated_at) r.(gr_exit_code) r.(gr_error_kind) r.(gr_error_message).

(** ** Decoding *)
Definition group_error (what : string) : exn := GroupRequestError ("submission group " +:+ what).
Definition group_time (v : json) : result Q :=
  let invalid := Err (group_error "timestamps are invalid") in
  if is_bool v || negb (is_int v || is_float v) then invalid
  else f ← py_float v;
       match f with
       | Fin q => if Qle_bool q 0 then invalid else Ok q
       | _ => invalid
       end.
(** [None], or an [int] in [0..255] that is not a bool. *)
Definition exit_code_ok (v : json) : bool :=
  match v with JNull => true | JInt z => (0 <=? z) && (z <=? 255) | _ => false end.

(** The consistency of the fields of one record. *)
Definition check_group (expected_request_id : string) (r : GroupRequestRecord) : result unit :=
  raise_if (negb (bool_decide (r.(gr_schema) = GROUP_REQUEST_SCHEMA)))
    (GroupRequestError "unsupported submission group schema") ;;
  raise_if (negb (bool_decide (r.(gr_id) = expected_request_id))) (group_error "digest does not match its identity") ;;
  raise_if (negb (fullmatch SHA256_RE r.(gr_intent))) (group_error "intent digest is invalid") ;;
  raise_if (negb (bool_decide (r.(gr_operation) ∈ GROUP_OPERATIONS))) (group_error "operation is invalid") ;;
  raise_if ((r.(gr_requested) <? 1) || (10000 <? r.(gr_requested))) (group_error "size is invalid") ;;
  raise_if ((r.(gr_submitted) <? 0) || (r.(gr_requested) <? r.(gr_submitted))) (group_error "progress is invalid") ;;
  raise_if (negb (bool_decide (r.(gr_state) ∈ GROUP_REQUEST_STATES))) (group_error "state is invalid") ;;
  let confirmed := bool_decide (r.(gr_state) = "confirmed") in
  raise_if (confirmed && bool_decide (r.(gr_exit_code) = None))
    (GroupRequestError "confirmed submission group is missing its exit code") ;;
  raise_if (negb confirmed && bool_decide (is_Some r.(gr_exit_code)))
    (GroupRequestError "non-terminal submission group has an exit code") ;;
  raise_if (confirmed && bool_decide (r.(gr_error_kind) = None) && negb (bool_decide (r.(gr_exit_code) = Some 0)))
    (GroupRequestError "successful submission group has a failure exit code") ;;
  raise_if (confirmed && bool_decide (is_Some r.(gr_error_kind)) && bool_decide (r.(gr_exit_code) = Some 0))
    (GroupRequestError "failed submission group has a success exit code") ;;
  raise_if (confirmed && bool_decide (r.(gr_error_kind) = None) && negb (r.(gr_submitted) =? r.(gr_requested)))
    (GroupRequestError "successful submission group is incomplete") ;;
  raise_if (bool_decide (r.(gr_state) = "rejected")
            && (negb (r.(gr_submitted) =? 0) || bool_decide (r.(gr_error_kind) = None)))
    (GroupRequestError "rejected submission group has invalid progress or no failure kind") ;;
  raise_if (bool_decide (r.(gr_state) = "prepared")
            && (bool_decide (is_Some r.(gr_error_kind)) || bool_decide (is_Some r.(gr_error_message))))
    (GroupRequestError "prepared submission group has failure details") ;;
  raise_if (match r.(gr_error_kind) with Some k => negb (fullmatch GROUP_ERROR_KIND_RE k) | None => false end)
    (group_error "error kind is invalid") ;;
  raise_if (match r.(gr_error_message) with Some m => (512 <? str_len m)%nat | None => false end)
    (group_error "error message is too long").

Definition _decode_group (raw : json) (expected_request_id : string) : result GroupRequestRecord :=
  match raw with
  | JDict kv =>
      let field name := dict_get name kv in
      raise_if (negb (same_keys kv _GROUP_FIELDS)) (group_error "record has an invalid schema") ;;
      raise_if (negb (forallb (fun name => is_str (field name)) ["schema"; "request_id"; "intent_sha256"; "operation"; "state"]))
        (group_error "record has invalid fields") ;;
      raise_if (negb (forallb (fun name => bool_decide (is_Some (as_int (field name)))) ["requested"; "submitted"]))
        (group_error "progress is invalid") ;;
      created ← group_time (field "created_at");
      updated ← group_time (field "updated_at");
      raise_if (negb (exit_code_ok (field "exit_code"))) (group_error "exit code is invalid") ;;
      raise_if (negb (opt_text (fun _ => true) (field "error_kind"))) (group_error "error kind is invalid") ;;
      raise_if (negb (opt_text (fun _ => true) (field "error_message"))) (group_error "error message is invalid") ;;
      let record := mkGroup (text_of (field "schema")) (text_of (field "request_id")) (text_of (field "intent_sha256"))
        (text_of (field "operation")) (default 0 (as_int (field "requested"))) (default 0 (as_int (field "submitted")))
        (text_of (field "state")) created updated (as_int (field "exit_code")) (opt_text_of (field "error_kind"))
        (opt_text_of (field "error_message")) in
      check_group expected_request_id record ;;
      Ok record
  | _ => Err (group_error "record has an invalid schema")
  end.

Definition group_asdict (r : GroupRequestRecord) : list (string * json) :=
  [("schema", JStr r.(gr_schema)); ("request_id", JStr r.(gr_id)); ("intent_sha256", JStr r.(gr_intent));
   ("operation", JStr r.(gr_operation)); ("requested", JInt r.(gr_requested)); ("submitted", JInt r.(gr_submitted));
   ("state", JStr r.(gr_state)); ("created_at", JFloat (Fin r.(gr_created_at)));
   ("updated_at", JFloat (Fin r.(gr_updated_at))); ("exit_code", of_opt JInt r.(gr_exit_code));
   ("error_kind", of_opt JStr r.(gr_error_kind)); ("error_message", of_opt JStr r.(gr_error_message))].

(** [f"{index:06d}"]. *)
Definition pad6 (index : Z) : string :=
  let text := pretty index in join "" (repeat "0" (6 - str_len text)) +:+ text.

(** The parent records, the receipts of single submissions, and the rest. *)
Record GroupSite (W : Type) := mkGroupSite {
  gs_groups : gmap string file;
  gs_requests : request_store;
  gs_world : W;
}.
Arguments mkGroupSite {W} _ _ _.
Arguments gs_groups {W} _.
Arguments gs_requests {W} _.
Arguments gs_world {W} _.

(** How the preparation ended: [retry_safe] is the attribute of its exception. *)
Inductive prepare_outcome :=
  | ActionDone
  | ActionFailed (retry_safe_ : bool) (type_name message : string).
(** What [locked_claim] returns or raises, with the record the exception
    carries; [ActionRaised] is the exception of the preparation itself. *)
Inductive group_outcome :=
  | Claimed (record : GroupRequestRecord)
  | Refused (e : exn) (record : option GroupRequestRecord)
  | ActionRaised (type_name message : string).

Section groups.
Context (sha256_hexdigest : list Ascii.ascii -> string) (py_repr : string -> string).

Definition item_request_id (request_id : string) (index : Z) : result string :=
  request_id ← validate_request_id request_id;
  raise_if (index <? 1) (ValueError "group request item index must be positive") ;;
  Ok ("dtg:" +:+ str_take 40 (sha256_hexdigest (utf8_encode request_id)) +:+ ":" +:+ pad6 index).

(** ** The store *)
Definition load_group (request_id : string) (groups : gmap string file) : result (option GroupRequestRecord) :=
  digest ← request_digest sha256_hexdigest request_id;
  match read_record_document (groups !! digest) with
  | Err _ => Err (GroupRequestError "cannot safely read submission group record")
  | Ok None => Ok None
  | Ok (Some raw) => record ← _decode_group raw request_id; Ok (Some record)
  end.
Definition save_group (d : disk) (record : GroupRequestRecord) (groups : gmap string file)
  : result unit * gmap string file :=
  match validate_request_id record.(gr_id) with
  | Err e => (Err e, groups)
  | Ok request_id =>
      match _decode_group (JDict (group_asdict record)) request_id with
      | Err e => (Err e, groups)
      | Ok _ =>
          let published := <[sha256_hexdigest (utf8_encode request_id) :=
                             StoredFile (Some (JDict (group_asdict record))) 0%Q]> groups in
          match d with
          | WriteFails => (Err (OSError "cannot write submission group record"), groups)
          | Published => (Ok tt, published)
          | PublishedUnsynced =>
              (Err (RequestDurabilityUnknown
                 "submission group record was published but its durability is unknown"), published)
          end
      end
  end.
(** [save] the record and return it. *)
Definition publish (d : disk) (record : GroupRequestRecord) (groups : gmap string file)
  : result GroupRequestRecord * gmap string file :=
  match save_group d record groups with
  | (Ok _, groups) => (Ok record, groups)
  | (Err e, groups) => (Err e, groups)
  end.

(** ** Claims *)
Definition conflict_message (request_id what : string) : exn :=
  GroupRequestConflict ("request " +:+ py_repr request_id +:+ " already belongs to a " +:+ what).
Definition same_claim_as (intent operation : string) (requested : Z) (r : GroupRequestRecord) : bool :=
  bool_decide (r.(gr_intent) = intent) && bool_decide (r.(gr_operation) = operation) && (r.(gr_requested) =? requested).
(** The existing record, or a fresh one; the flag tells which. *)
Definition _claim (d : disk) (requests : request_store) (request_id intent operation : string) (requested : Z) (now : Q)
    (groups : gmap string file) : result (GroupRequestRecord * bool) * gmap string file :=
  match
    (single ← load_record sha256_hexdigest request_id requests;
     raise_if (bool_decide (is_Some single)) (conflict_message request_id "single-job intent") ;;
     existing ← load_group request_id groups;
     match existing with
     | Some r =>
         raise_if (negb (same_claim_as intent operation requested r)) (conflict_message request_id "different intent") ;;
         Ok (r, false)
     | None =>
         raise_if (negb (bool_decide (operation ∈ GROUP_OPERATIONS)))
           (ValueError ("unsupported submission group operation " +:+ py_repr operation)) ;;
         raise_if ((requested <? 1) || (10000 <? requested))
           (ValueError "submission group size must be between 1 and 10000") ;;
         request_id ← validate_request_id request_id;
         Ok (mkGroup GROUP_REQUEST_SCHEMA request_id intent operation requested 0 "preparing" now now None None None, true)
     end)
  with
  | Err e => (Err e, groups)
  | Ok (r, false) => (Ok (r, false), groups)
  | Ok (r, true) =>
      match publish d r groups with
      | (Ok r, groups) => (Ok (r, true), groups)
      | (Err e, groups) => (Err e, groups)
      end
  end.
Definition group_claim (d : disk) (requests : request_store) (request_id intent operation : string) (requested : Z)
    (now : Q) (groups : gmap string file) : result GroupRequestRecord * gmap string file :=
  match _claim d requests request_id intent operation requested now groups with
  | (Ok (r, _), groups) => (Ok r, groups)
  | (Err e, groups) => (Err e, groups)
  end.

(** ** Progress *)
Definition child_confirmed (requests : request_store) (child_id job_id_ : string) : result bool :=
  child ← load_record sha256_hexdigest child_id requests;
  Ok (match child with
      | Some c => bool_decide (c.(rq_state) = "confirmed") && bool_decide (c.(rq_job_id) = job_id_)
      | None => false
      end).
Definition record_job (d : disk) (requests : request_store) (record : GroupRequestRecord) (index : Z) (job_id_ : string)
    (now : Q) (groups : gmap string file) : result GroupRequestRecord * gmap string file :=
  match
    (raise_if (bool_decide (record.(gr_state) ∈ GROUP_TERMINAL_STATES))
       (GroupRequestError "terminal submission group cannot record more jobs") ;;
     raise_if ((index <? 1) || (record.(gr_requested) <? index)) (group_error "child index is out of range") ;;
     raise_if (record.(gr_submitted) + 1 <? index) (group_error "progress is not a strict prefix") ;;
     child_id ← item_request_id record.(gr_id) index;
     confirmed ← child_confirmed requests child_id job_id_;
     raise_if (negb confirmed) (group_error "child is not durably confirmed for this job"))
  with
  | Err e => (Err e, groups)
  | Ok _ =>
      if index <=? record.(gr_submitted) then (Ok record, groups)
      else publish d
             (record <| gr_submitted := index |>
                     <| gr_state := if bool_decide (record.(gr_state) = "prepared") then "prepared" else "preparing" |>
                     <| gr_updated_at := now |> <| gr_exit_code := None |> <| gr_error_kind := None |>
                     <| gr_error_message := None |>) groups
  end.

Definition group_transition (d : disk) (record : GroupRequestRecord) (state : string) (exit_code_ : option Z)
    (kind message : option string) (now : Q) (groups : gmap string file)
  : result GroupRequestRecord * gmap string file :=
  if negb (bool_decide (state ∈ GROUP_REQUEST_STATES)) then
    (Err (ValueError ("invalid submission group state " +:+ py_repr state)), groups)
  else publish d
         (record <| gr_state := state |> <| gr_updated_at := now |>
                 <| gr_exit_code := if bool_decide (state = "confirmed") then exit_code_ else None |>
                 <| gr_error_kind := kind |> <| gr_error_message := bounded_message message |>) groups.

(** ** Under the request lock *)

(** [except (OSError, ValueError, RequestRecordError, GroupRequestError)]. *)
Definition persistence_error (e : exn) : bool :=
  match e with
  | OSError _ | ValueError _ | CustomEnvironmentError _ | InvalidRequestId _ | RequestRecordError _
  | RequestDurabilityUnknown _ | GroupRequestError _ | GroupRequestConflict _ | GroupRequestRejected _
  | GroupRequestOutcomeUnknown _ => true
  | _ => false
  end.
Definition unknown_outcome (request_id what : string) : exn :=
  GroupRequestOutcomeUnknown ("request " +:+ py_repr request_id +:+ " " +:+ what).
Definition inspect_hint (request_id : string) : string :=
  "; inspect `dt request " +:+ request_id +:+ " --json` before retrying".
Definition or_unknown (request_id what : string) (x : result GroupRequestRecord) : group_outcome :=
  match x with
  | Ok r => Claimed r
  | Err e => Refused (if persistence_error e then unknown_outcome request_id what else e) None
  end.
Definition reopenable (r : GroupRequestRecord) : bool :=
  bool_decide (r.(gr_error_kind) = Some "claimed_action_interrupted") && (r.(gr_submitted) =? 0).

Section locked.
Context {W : Type}.

(** The preparation, once its claim is durable. *)
Definition run_action (d : disk) (action : W -> prepare_outcome * W) (request_id : string) (record : GroupRequestRecord)
    (now : Q) (s : GroupSite W) : group_outcome * GroupSite W :=
  let '(o, w) := action s.(gs_world) in
  match o with
  | ActionDone =>
      let '(res, groups) := group_transition d record "prepared" None None None now s.(gs_groups) in
      (or_unknown request_id "preparation completed but its durable receipt could not be written; outcome unknown" res,
       mkGroupSite groups s.(gs_requests) w)
  | ActionFailed retry_safe_ type_name message =>
      let '(res, groups) := group_transition d record "rejected" None
        (Some (if retry_safe_ then "claimed_action_interrupted" else "claimed_action_failed"))
        (Some (if bool_decide (message = "") then type_name else message)) now s.(gs_groups) in
      (match res with
       | Ok _ => ActionRaised type_name message
       | Err e => Refused (if persistence_error e
                           then unknown_outcome request_id
                                  "preparation failed but its durable receipt could not be written; outcome unknown"
                           else e) None
       end, mkGroupSite groups s.(gs_requests) w)
  end.
Definition after_claim (d : disk) (claimed_action : option (W -> prepare_outcome * W)) (request_id : string)
    (record : GroupRequestRecord) (created : bool) (now : Q) (s : GroupSite W) : group_outcome * GroupSite W :=
  match claimed_action with
  | None => (Claimed record, s)
  | Some action =>
      if created then run_action d action request_id record now s
      else if bool_decide (record.(gr_state) ∈ ["prepared"; "confirmed"]) then (Claimed record, s)
      else (Refused (unknown_outcome request_id ("preparation outcome is unknown" +:+ inspect_hint request_id)) (Some record), s)
  end.

(** [d1] is the write of the claim or of its reopening, [d2] of the verdict. *)
Definition locked_claim (d1 d2 : disk) (claimed_action : option (W -> prepare_outcome * W))
    (request_id intent operation : string) (requested : Z) (now : Q) (s : GroupSite W) : group_outcome * GroupSite W :=
  let '(claimed, groups) := _claim d1 s.(gs_requests) request_id intent operation requested now s.(gs_groups) in
  let s1 := mkGroupSite groups s.(gs_requests) s.(gs_world) in
  match claimed with
  | Err (RequestDurabilityUnknown _) =>
      (Refused (unknown_outcome request_id ("claim durability is unknown" +:+ inspect_hint request_id)) None, s1)
  | Err (OSError detail) =>
      let text := str_take 512 (normalize_ws detail) in
      (Refused (GroupRequestRejected ("request " +:+ py_repr request_id
         +:+ " was not prepared because its durable claim could not be persisted: "
         +:+ (if bool_decide (text = "") then "OSError" else text))) None, s1)
  | Err e => (Refused e None, s1)
  | Ok (record, true) => after_claim d2 claimed_action request_id record true now s1
  | Ok (record, false) =>
      if bool_decide (record.(gr_state) = "rejected") then
        if negb (reopenable record) then
          (Refused (GroupRequestRejected ("request " +:+ py_repr request_id +:+ " was already rejected: "
             +:+ or_str record.(gr_error_message) "group preparation failed")) (Some record), s1)
        else
          let '(res, groups) := group_transition d1 record "preparing" None None None now s1.(gs_groups) in
          let s2 := mkGroupSite groups s.(gs_requests) s.(gs_world) in
          match res with
          | Err e => (Refused (if persistence_error e
                               then unknown_outcome request_id ("reopen durability is unknown" +:+ inspect_hint request_id)
                               else e) None, s2)
          | Ok record => after_claim d2 claimed_action request_id record true now s2
          end
      else after_claim d2 claimed_action request_id record false now s1
  end.
End locked.

(** The record a lock holder works on. *)
Definition current_group (request_id intent : string) (groups : gmap string file) : result GroupRequestRecord :=
  found ← load_group request_id groups;
  match found with
  | None => Err (GroupRequestError "submission group claim disappeared")
  | Some record =>
      raise_if (negb (bool_decide (record.(gr_intent) = intent))) (conflict_message request_id "different intent") ;;
      Ok record
  end.
Definition locked_record_job (d : disk) (requests : request_store) (request_id intent : string) (index : Z)
    (job_id_ : string) (now : Q) (groups : gmap string file) : result GroupRequestRecord * gmap string file :=
  match current_group request_id intent groups with
  | Err e => (Err e, groups)
  | Ok record =>
      if bool_decide (record.(gr_state) ∈ GROUP_TERMINAL_STATES) then
        (raise_if (record.(gr_submitted) <? index) (GroupRequestError "terminal submission group progress changed") ;;
         child_id ← item_request_id request_id index;
         confirmed ← child_confirmed requests child_id job_id_;
         raise_if (negb confirmed) (GroupRequestError "terminal submission group child changed") ;;
         Ok record, groups)
      else record_job d requests record index job_id_ now groups
  end.
Definition locked_transition (d : disk) (request_id intent state : string) (exit_code_ : option Z)
    (kind message : option string) (now : Q) (groups : gmap string file) : result GroupRequestRecord * gmap string file :=
  match current_group request_id intent groups with
  | Err e => (Err e, groups)
  | Ok record =>
      if bool_decide (record.(gr_state) ∈ GROUP_TERMINAL_STATES) then (Ok record, groups)
      else group_transition d record state exit_code_ kind message now groups
  end.

(** ** The children of a record *)
Fixpoint load_entries_from (clock : Q) (requests : request_store) (r : registry) (record : GroupRequestRecord)
    (indexes : list nat) (seen : list string) (entries : list JobEntry) : result (list JobEntry) :=
  match indexes with
  | [] => Ok entries
  | i :: rest =>
      let index := Z.of_nat i in
      expected ← item_request_id record.(gr_id) index;
      child ← match load_record sha256_hexdigest expected requests with
              | Ok child => Ok child
              | Err (RequestRecordError _) | Err (RequestDurabilityUnknown _) =>
                  Err (GroupRequestError ("request " +:+ py_repr record.(gr_id) +:+ " child " +:+ pretty index
                         +:+ " has unreadable durable state; refusing to submit more jobs"))
              | Err e => Err e
              end;
      let job_id_ := match child with Some c => c.(rq_job_id) | None => "-" end in
      entry ← match child with
              | Some _ => (load clock job_id_ r).1
              | None => Ok None
              end;
      match entry, child with
      | Some e, Some c =>
          raise_if (negb (bool_decide (e.(request_id) = Some expected)) || negb (bool_decide (c.(rq_state) = "confirmed"))
                    || bool_decide (job_id_ ∈ seen))
            (GroupRequestError ("request " +:+ py_repr record.(gr_id) +:+ " records child " +:+ py_repr job_id_
               +:+ ", but its authoritative child receipt or job row is missing, unconfirmed, or belongs to a "
               +:+ "different request; refusing to submit more jobs")) ;;
          load_entries_from clock requests r record rest (seen ++ [job_id_]) (entries ++ [e])
      | _, _ => Err (GroupRequestError ("request " +:+ py_repr record.(gr_id) +:+ " records child " +:+ py_repr job_id_
               +:+ ", but its authoritative child receipt or job row is missing, unconfirmed, or belongs to a "
               +:+ "different request; refusing to submit more jobs"))
      end
  end.
Definition load_entries_or_fail (clock : Q) (requests : request_store) (r : registry) (record : GroupRequestRecord)
  : result (list JobEntry) :=
  load_entries_from clock requests r record (List.seq 1 (Z.to_nat record.(gr_submitted))) [] [].
End groups.
