(* ===== verification/GroupSpec.v ===== *)
(** * What a group receipt guarantees ([submission_group.py])

    A record that is written can be read back; whatever the callers do, a
    record keeps its identity, its progress only advances and only over
    confirmed children, a confirmed record is final; and the preparation of a
    group is not repeated once it may have run. *)

From S2P Require Import Prelude Text PyValue Numerals Diagnostics JobEntry RegistryCodec Lifecycle Registry Intent IntentSpec Group.

(** ** Reading back *)
Record wf_group (id : string) (r : GroupRequestRecord) : Prop := {
  wg_check : check_group id r = Ok tt;
  wg_created : (0 < r.(gr_created_at))%Q;
  wg_updated : (0 < r.(gr_updated_at))%Q;
  wg_exit : exit_code_ok (of_opt JInt r.(gr_exit_code)) = true;
}.
Lemma group_time_ok v q : group_time v = Ok q -> (0 < q)%Q.
Proof.
  unfold group_time. cbv zeta. destruct (is_bool v || _); [done|].
  intros (f & _ & H)%bind_ok. destruct f as [q'| |]; [|done|done]. q_case; [done|]. by injection H as <-.
Qed.
Lemma group_time_err v x : group_time v = Err x -> not_unsynced x.
Proof.
  unfold group_time. cbv zeta. destruct (is_bool v || _); [by intros [= <-]|].
  destruct v as [|b|z|f|s|l|kv]; cbn; try (by intros [= <-]).
  - destruct (Qle_bool _ 0); [by intros [= <-]|done].
  - destruct (FLOAT_OVERFLOW <=? Z.abs z); cbn; [by intros [= <-]|]. destruct (Qle_bool _ 0); [by intros [= <-]|done].
  - destruct f as [q| |]; [destruct (Qle_bool q 0); [by intros [= <-]|done]|by intros [= <-]..].
Qed.
Lemma exit_code_int v : exit_code_ok v = true -> exit_code_ok (of_opt JInt (as_int v)) = true.
Proof. by destruct v. Qed.
Lemma decode_group_wf raw id r : _decode_group raw id = Ok r -> wf_group id r.
Proof.
  destruct raw as [| | | | | |kv]; try done. unfold _decode_group. cbv zeta. intros H. ok_steps H. injection H as <-.
  match goal with G : negb (exit_code_ok _) = false |- _ => apply negb_false_iff in G end.
  repeat match goal with E : group_time _ = Ok _ |- _ => apply group_time_ok in E end.
  match goal with E : check_group _ _ = Ok ?u |- _ => destruct u end.
  split; try done. by apply exit_code_int.
Qed.
Lemma check_group_err id r x : check_group id r = Err x -> not_unsynced x.
Proof.
  unfold check_group. cbv zeta.
  repeat first [ apply bind_err_no; [intros ?; by apply raise_err | intros ? ?] | by apply raise_err ].
Qed.
Lemma decode_group_err raw id x : _decode_group raw id = Err x -> not_unsynced x.
Proof.
  destruct raw as [| | | | | |kv]; try (by intros [= <-]). unfold _decode_group. cbv zeta.
  repeat first [ apply bind_err_no; [intros ?; first [by apply raise_err | apply group_time_err | apply check_group_err]
                                    | intros ? ?] | discriminate ].
Qed.

(** The document of a record decodes to that record or not at all. *)
Lemma decode_group_asdict r id dec : _decode_group (JDict (group_asdict r)) id = Ok dec -> dec = r.
Proof.
  unfold _decode_group. cbv zeta. intros H. ok_steps H. injection H as <-.
  repeat match goal with
    | E : group_time ?v = Ok _ |- _ =>
        let w := eval hnf in v in change v with w in E;
        unfold group_time in E; cbn in E; destruct (Qle_bool _ 0) in E; [discriminate E|]; injection E as <-
    end.
  destruct r as [? ? ? ? ? ? ? ? ? [|] [|] [|]]; reflexivity.
Qed.
Lemma group_asdict_strict r : decode_strict (JDict (group_asdict r)) = Ok (JDict (group_asdict r)).
Proof.
  apply decode_strict_spec. split; [done|]. cbn. split; [|by destruct (gr_exit_code r), (gr_error_kind r), (gr_error_message r)].
  apply (bool_decide_unpack _). vm_compute. exact I.
Qed.

Section store.
Context (sha : list Ascii.ascii -> string) (py_repr : string -> string).
Abbreviation load_group := (load_group sha).
Abbreviation save_group := (save_group sha).
Abbreviation publish := (publish sha).

(** A write publishes the record as the next reader finds it, or changes nothing. *)
Lemma save_group_spec d r groups res groups' :
  save_group d r groups = (res, groups') ->
  if replaced res then wf_group r.(gr_id) r /\ load_group r.(gr_id) groups' = Ok (Some r) else groups' = groups.
Proof.
  unfold Group.save_group. destruct (validate_request_id r.(gr_id)) as [id|x] eqn:Hid.
  2:{ intros [= <- <-]. unfold validate_request_id in Hid. destruct (fullmatch _ _); [done|]. by injection Hid as <-. }
  assert (id = r.(gr_id)) as -> by (unfold validate_request_id in Hid; destruct (fullmatch _ _); [by injection Hid as ->|done]).
  destruct (_decode_group _ _) as [dec|x] eqn:Hd.
  2:{ intros [= <- <-]. pose proof (decode_group_err _ _ _ Hd). by destruct x. }
  pose proof (decode_group_asdict _ _ _ Hd) as ->.
  set (published := <[_ := _]> groups).
  assert (wf_group r.(gr_id) r /\ load_group r.(gr_id) published = Ok (Some r)) as Hok.
  { split; [by eapply decode_group_wf|]. unfold Group.load_group, request_digest. rewrite Hid. cbn [mbind result_bind].
    unfold published. rewrite lookup_insert_eq. cbn [read_record_document]. rewrite group_asdict_strict. cbn [mbind result_bind].
    by rewrite Hd. }
  by destruct d; intros [= <- <-].
Qed.
Lemma publish_spec d r groups res groups' :
  publish d r groups = (res, groups') ->
  (groups' = groups /\ exists e, res = Err e) \/
  (wf_group r.(gr_id) r /\ load_group r.(gr_id) groups' = Ok (Some r) /\ (res = Ok r \/ exists e, res = Err e)).
Proof.
  unfold Group.publish. destruct (save_group d r groups) as [[[]|e] g] eqn:E; apply save_group_spec in E; cbn in E;
    intros [= <- <-].
  - right. by destruct E; eauto.
  - destruct e; cbn in E; eauto; right; destruct E; eauto.
Qed.
Lemma load_group_wf id groups r : load_group id groups = Ok (Some r) -> wf_group id r /\ r.(gr_id) = id.
Proof.
  unfold Group.load_group. intros (dg & _ & H)%bind_ok. destruct (read_record_document _) as [[raw|]|]; try done.
  apply bind_ok in H as (rec & H & [= <-]). apply decode_group_wf in H. split; [done|].
  destruct H as [H _ _ _]. unfold check_group in H. apply bind_raise_ok in H as [_ H]. apply bind_raise_ok in H as [H _].
  by apply negb_false_iff, bool_decide_eq_true in H.
Qed.

(** ** One record's history *)
Section history.
Context {W : Type} (id : string).

(** What callers and other processes do while this request exists; the
    callers' own verdicts are [uncertain] and [confirmed].  [step_claimed] is
    also a process that died after its claim; a confirmed child stays so. *)
Inductive group_step : GroupSite W -> GroupSite W -> Prop :=
  | step_locked_claim d1 d2 action intent operation requested now s o s' :
      locked_claim sha py_repr d1 d2 action id intent operation requested now s = (o, s') -> group_step s s'
  | step_claimed d intent operation requested now s res groups' :
      group_claim sha py_repr d s.(gs_requests) id intent operation requested now s.(gs_groups) = (res, groups') ->
      group_step s (mkGroupSite groups' s.(gs_requests) s.(gs_world))
  | step_recorded d intent index job_id_ now s res groups' :
      locked_record_job sha py_repr d s.(gs_requests) id intent index job_id_ now s.(gs_groups) = (res, groups') ->
      group_step s (mkGroupSite groups' s.(gs_requests) s.(gs_world))
  | step_concluded d intent state exit_code_ kind message now s res groups' :
      state ∈ ["uncertain"; "confirmed"] ->
      locked_transition sha py_repr d id intent state exit_code_ kind message now s.(gs_groups) = (res, groups') ->
      group_step s (mkGroupSite groups' s.(gs_requests) s.(gs_world))
  | step_others groups' requests' s :
      load_group id groups' = load_group id s.(gs_groups) ->
      (forall child job_id_, child_confirmed sha s.(gs_requests) child job_id_ = Ok true ->
         child_confirmed sha requests' child job_id_ = Ok true) ->
      group_step s (mkGroupSite groups' requests' s.(gs_world)).

(** What a write may make of a record. *)
Record advances (r r' : GroupRequestRecord) : Prop := {
  ad_identity : (r'.(gr_id), r'.(gr_intent), r'.(gr_operation), r'.(gr_requested), r'.(gr_created_at))
                = (r.(gr_id), r.(gr_intent), r.(gr_operation), r.(gr_requested), r.(gr_created_at));
  ad_progress : r.(gr_submitted) <= r'.(gr_submitted);
  ad_final : r.(gr_state) = "confirmed" -> r' = r;
}.
Lemma advances_refl r : advances r r.
Proof. split; [done|lia|done]. Qed.
Lemma advances_trans r1 r2 r3 : advances r1 r2 -> advances r2 r3 -> advances r1 r3.
Proof.
  intros [I1 P1 F1] [I2 P2 F2]. split; [congruence|lia|]. intros H. specialize (F1 H). subst. auto.
Qed.

(** May the preparation run again? *)
Definition may_reopen (r : GroupRequestRecord) : bool := bool_decide (r.(gr_state) = "rejected") && reopenable r.

(** A change of the store seen from this request: no record yet, or a record
    that advances; [reopens] when a preparation may run afterwards. *)
Definition changes (groups groups' : gmap string file) : Prop := forall r, load_group id groups = Ok (Some r) ->
  exists r', load_group id groups' = Ok (Some r') /\ advances r r' /\ (may_reopen r = false -> may_reopen r' = false).
Lemma changes_refl groups : changes groups groups.
Proof. intros r H. exists r. split; [done|]. split; [apply advances_refl|done]. Qed.

Lemma publish_changes d r r' groups res groups' :
  load_group id groups = Ok (Some r) -> advances r r' -> (may_reopen r = false -> may_reopen r' = false) ->
  publish d r' groups = (res, groups') -> changes groups groups'.
Proof.
  intros Hl Ha Hm H x Hx. rewrite Hl in Hx. injection Hx as <-.
  assert (r'.(gr_id) = id) as Hid.
  { destruct (load_group_wf _ _ _ Hl) as [_ <-]. pose proof (ad_identity _ _ Ha) as E. by injection E. }
  apply publish_spec in H as [[-> _]|(_ & Hl' & _)].
  - exists r. split; [done|]. split; [apply advances_refl|done].
  - rewrite Hid in Hl'. by exists r'.
Qed.
Lemma current_group_ok intent groups r :
  current_group sha py_repr id intent groups = Ok r -> load_group id groups = Ok (Some r).
Proof.
  unfold current_group. intros (found & H & E)%bind_ok. destruct found as [x|]; [|done].
  apply bind_raise_ok in E as [_ [= ->]]. done.
Qed.

Lemma transition_changes d r state ec kind message now groups res groups' :
  load_group id groups = Ok (Some r) -> r.(gr_state) <> "confirmed" ->
  (may_reopen r = false -> may_reopen (r <| gr_state := state |> <| gr_error_kind := kind |>) = false) ->
  group_transition sha py_repr d r state ec kind message now groups = (res, groups') -> changes groups groups'.
Proof.
  intros Hl Hc Hm. unfold group_transition. destruct (negb _); [intros [= <- <-]; apply changes_refl|].
  apply (publish_changes _ r); [done| |]; [split; [done|cbn; lia|done]|exact Hm].
Qed.
Lemma claim_changes d requests intent operation requested now groups res groups' :
  _claim sha py_repr d requests id intent operation requested now groups = (res, groups') ->
  changes groups groups' /\
  match res with
  | Ok (r, false) => load_group id groups' = Ok (Some r) /\ groups' = groups
  | Ok (r, true) => load_group id groups' = Ok (Some r) /\ may_reopen r = false /\ r.(gr_state) = "preparing"
  | Err _ => True
  end.
Proof.
  unfold _claim. destruct (_ ≫= _) as [[r [|]]|e] eqn:H; [| |by intros [= <- <-]; split; [apply changes_refl|]].
  - apply bind_ok in H as (single & _ & H). apply bind_raise_ok in H as [_ H]. apply bind_ok in H as (existing & Hex & H).
    destruct existing as [x|]; [by apply bind_raise_ok in H as [_ [=]]|].
    apply bind_raise_ok in H as [_ H]. apply bind_raise_ok in H as [_ H]. apply bind_ok in H as (id' & Hid & [= <-]).
    assert (id' = id) as -> by (unfold validate_request_id in Hid; destruct (fullmatch _ _); [by injection Hid as ->|done]).
    destruct (publish d _ groups) as [res' g] eqn:E. apply publish_spec in E. cbn [gr_id] in E.
    assert (changes groups g) as Hch by (intros x Hx; by rewrite Hex in Hx).
    destruct res' as [r'|e]; intros [= <- <-]; (split; [done|]); [|done].
    destruct E as [[_ [e [=]]]|(_ & Hl & [[= ->]|[e [=]]])]. done.
  - intros [= <- <-]. split; [apply changes_refl|]. split; [|done].
    apply bind_ok in H as (single & _ & H). apply bind_raise_ok in H as [_ H]. apply bind_ok in H as (existing & Hex & H).
    destruct existing as [x|]; [apply bind_raise_ok in H as [_ [= <-]]; done|].
    apply bind_raise_ok in H as [_ H]. apply bind_raise_ok in H as [_ H]. by apply bind_ok in H as (? & _ & [=]).
Qed.

(** ** The steps *)
Definition record_at (groups : gmap string file) (P : GroupRequestRecord -> Prop) : Prop :=
  exists r, load_group id groups = Ok (Some r) /\ P r.

(** The record of a finished transition, or the one it started from. *)
Lemma transition_at d r state ec kind message now groups res groups' :
  load_group id groups = Ok (Some r) -> r.(gr_state) <> "confirmed" ->
  group_transition sha py_repr d r state ec kind message now groups = (res, groups') ->
  (groups' = groups /\ exists e, res = Err e) \/
  exists r', load_group id groups' = Ok (Some r') /\ advances r r' /\ r'.(gr_state) = state /\ r'.(gr_error_kind) = kind
             /\ (res = Ok r' \/ exists e, res = Err e).
Proof.
  intros Hl Hc. unfold group_transition. destruct (negb _); [intros [= <- <-]; eauto|]. intros H.
  apply publish_spec in H as [H|(_ & Hl' & Hr)]; [by left|]. right.
  destruct (load_group_wf _ _ _ Hl) as [_ <-]. eexists. split; [exact Hl'|].
  split; [by split; [|cbn; lia|]|]. by split_and!.
Qed.

(** Did the preparation ask to be run again? *)
Definition retry_safe (o : prepare_outcome) : bool := match o with ActionFailed safe _ _ => safe | ActionDone => false end.
Definition not_retried (action : option (W -> prepare_outcome * W)) (w : W) : Prop :=
  forall a, action = Some a -> retry_safe (a w).1 = false.

(** Running the preparation advances the record, and leaves it reopenable
    only when the preparation said so. *)
Lemma run_action_at d (action : W -> prepare_outcome * W) request_id r now s o s' :
  load_group id s.(gs_groups) = Ok (Some r) -> r.(gr_state) = "preparing" ->
  run_action sha py_repr d action request_id r now s = (o, s') ->
  s'.(gs_requests) = s.(gs_requests) /\
  record_at s'.(gs_groups) (fun r' => advances r r' /\
    (retry_safe (action s.(gs_world)).1 = false -> may_reopen r' = false)).
Proof.
  intros Hl Hs. unfold run_action. destruct (action _) as [[|safe name msg] w] eqn:Ha;
    destruct (group_transition _ _ _ _ _ _ _ _ _) as [res g] eqn:E; intros [= <- <-]; cbn; (split; [done|]);
    (eapply transition_at in E; [|exact Hl|by rewrite Hs]);
    (destruct E as [[-> _]|(r' & Hl' & Hadv & Hst & Hk & _)];
       [exists r; split; [exact Hl|]; split; [apply advances_refl|]; intros _; unfold may_reopen; by rewrite Hs
       |exists r'; split; [exact Hl'|]; split; [exact Hadv|]]).
  - intros _. unfold may_reopen. by rewrite Hst.
  - intros Hn. cbn in Hn. subst. unfold may_reopen, reopenable. by rewrite Hst, Hk.
Qed.

Lemma claim_fresh d requests intent operation requested now groups r groups' :
  _claim sha py_repr d requests id intent operation requested now groups = (Ok (r, true), groups') ->
  load_group id groups = Ok None.
Proof.
  unfold _claim. destruct (_ ≫= _) as [[x [|]]|e] eqn:H; [|done|done]. intros _.
  apply bind_ok in H as (single & _ & H). apply bind_raise_ok in H as [_ H]. apply bind_ok in H as (existing & Hex & H).
  destruct existing as [y|]; [by apply bind_raise_ok in H as [_ [=]]|done].
Qed.
(** A claim that runs nothing keeps the world; one that runs the preparation
    found no record or a reopenable one. *)
Lemma after_claim_idle d action request_id r now (s : GroupSite W) o s' :
  after_claim sha py_repr d action request_id r false now s = (o, s') -> s' = s.
Proof. unfold after_claim. destruct action as [a|]; [destruct (bool_decide _)|]; by intros [= <- <-]. Qed.
Lemma after_claim_at d action request_id r now s o s' :
  load_group id s.(gs_groups) = Ok (Some r) -> r.(gr_state) = "preparing" ->
  after_claim sha py_repr d action request_id r true now s = (o, s') ->
  s'.(gs_requests) = s.(gs_requests) /\
  record_at s'.(gs_groups) (fun r' => advances r r' /\
    (not_retried action s.(gs_world) -> may_reopen r' = false)).
Proof.
  intros Hl Hs. unfold after_claim. destruct action as [a|].
  - intros H. apply run_action_at in H as (Hr & r' & Hl' & Ha & Hm); [|done|done]. split; [done|].
    exists r'. split; [done|]. split; [done|]. intros Hn. apply Hm. by apply Hn.
  - intros [= <- <-]. split; [done|]. exists r. split; [done|]. split; [apply advances_refl|]. intros _. unfold may_reopen. by rewrite Hs.
Qed.

(** One [locked_claim]: what it leaves under the request. *)
Lemma locked_claim_spec d1 d2 action intent operation requested now (s : GroupSite W) o s' :
  locked_claim sha py_repr d1 d2 action id intent operation requested now s = (o, s') ->
  s'.(gs_requests) = s.(gs_requests) /\ changes s.(gs_groups) s'.(gs_groups) /\
  (record_at s.(gs_groups) (fun r => may_reopen r = false) -> s'.(gs_world) = s.(gs_world)) /\
  (s'.(gs_world) <> s.(gs_world) ->
     not_retried action s.(gs_world) -> record_at s'.(gs_groups) (fun r => may_reopen r = false)).
Proof.
  unfold locked_claim. destruct (_claim _ _ _ _ _ _ _ _ _ _) as [claimed g] eqn:E.
  pose proof (claim_changes _ _ _ _ _ _ _ _ _ E) as [Hch Hres].
  assert (forall o1, (o1, mkGroupSite g s.(gs_requests) s.(gs_world)) = (o, s') ->
    s'.(gs_requests) = s.(gs_requests) /\ changes s.(gs_groups) s'.(gs_groups) /\
    (record_at s.(gs_groups) (fun r => may_reopen r = false) -> s'.(gs_world) = s.(gs_world)) /\
    (s'.(gs_world) <> s.(gs_world) ->
       not_retried action s.(gs_world) -> record_at s'.(gs_groups) (fun r => may_reopen r = false))) as Hidle.
  { intros o1 [= _ <-]. cbn. by split_and!. }
  destruct claimed as [[r created]|e]; [|destruct e; apply Hidle]. destruct created.
  - (* a fresh claim *)
    destruct Hres as (Hl & Hm & Hs). intros H. apply after_claim_at in H as (Hr & r' & Hl' & Ha & Hn); [|done|done].
    assert (load_group id s.(gs_groups) = Ok None) as Hnone by (eapply claim_fresh; exact E).
    split; [done|]. split; [|split].
    + intros x Hx. by rewrite Hnone in Hx.
    + intros (x & Hx & _). by rewrite Hnone in Hx.
    + intros _ Hno. exists r'. split; [done|]. by apply Hn.
  - destruct Hres as [Hl ->]. destruct (bool_decide (r.(gr_state) = "rejected")) eqn:Hrej.
    2:{ intros H. apply after_claim_idle in H as ->. by eapply Hidle. }
    destruct (reopenable r) eqn:Hre; cbn [negb]; [|apply Hidle].
    assert (may_reopen r = true) as Hmay by (unfold may_reopen; by rewrite Hrej).
    apply bool_decide_eq_true in Hrej.
    destruct (group_transition _ _ _ _ _ _ _ _ _ _) as [res g] eqn:Et; cbn [gs_groups] in Et.
    pose proof (transition_at _ _ _ _ _ _ _ _ _ _ Hl ltac:(by rewrite Hrej) Et) as Ht.
    destruct res as [r1|e].
    + destruct Ht as [[_ [? [=]]]|(r2 & Hl2 & Ha2 & Hs2 & _ & [[= <-]|[? [=]]])]. intros H.
      apply after_claim_at in H as (Hr & r' & Hl' & Ha & Hn); [|done|done]. split; [done|]. split; [|split].
      * intros x Hx. rewrite Hl in Hx. injection Hx as <-. exists r'. split; [done|].
        split; [by eapply advances_trans|by rewrite Hmay].
      * intros (x & Hx & Hxm). rewrite Hl in Hx. injection Hx as <-. by rewrite Hmay in Hxm.
      * intros _ Hno. exists r'. split; [done|]. by apply Hn.
    + intros [= <- <-]. cbn. split; [done|]. split; [|by split].
      eapply transition_changes; [exact Hl|by rewrite Hrej|by rewrite Hmay|exact Et].
Qed.
Lemma record_job_spec d requests r index job_id_ now groups res groups' :
  load_group id groups = Ok (Some r) -> r.(gr_state) ∉ GROUP_TERMINAL_STATES ->
  record_job sha d requests r index job_id_ now groups = (res, groups') ->
  groups' = groups \/
  (exists child, item_request_id sha id index = Ok child /\ child_confirmed sha requests child job_id_ = Ok true) /\
  record_at groups' (fun r' => advances r r' /\ may_reopen r' = false /\
    r'.(gr_submitted) = index /\ index = r.(gr_submitted) + 1).
Proof.
  intros Hl Ht. destruct (load_group_wf _ _ _ Hl) as [_ Hid]. unfold record_job. destruct (_ ;; _) as [[]|e] eqn:H;
    [|by intros [= <- <-]; left].
  apply bind_raise_ok in H as [_ H]. apply bind_raise_ok in H as [_ H]. apply bind_raise_ok in H as [Hp H].
  apply bind_ok in H as (child & Hc & H). apply bind_ok in H as (ok & Hok & H).
  assert (ok = true) as -> by (destruct ok; [done|discriminate H]).
  destruct (index <=? _) eqn:Hi; [by intros [= <- <-]; left|]. intros Hpub.
  apply publish_spec in Hpub as [[-> _]|(_ & Hl' & _)]; [by left|]. right. rewrite Hid in Hc.
  split; [by exists child|]. eexists. split; [rewrite <- Hid; exact Hl'|]. apply Z.leb_gt in Hi. apply Z.ltb_ge in Hp.
  split; [split; [done|cbn; lia|]|split; [|split; [done|lia]]].
  - intros Hs. exfalso. apply Ht. rewrite Hs. unfold GROUP_TERMINAL_STATES. set_solver.
  - unfold may_reopen. cbn. by case_bool_decide.
Qed.
Lemma recorded_spec d requests intent index job_id_ now groups res groups' :
  locked_record_job sha py_repr d requests id intent index job_id_ now groups = (res, groups') ->
  groups' = groups \/ exists r, load_group id groups = Ok (Some r) /\
  (exists child, item_request_id sha id index = Ok child /\ child_confirmed sha requests child job_id_ = Ok true) /\
  record_at groups' (fun r' => advances r r' /\ may_reopen r' = false /\
    r'.(gr_submitted) = index /\ index = r.(gr_submitted) + 1).
Proof.
  unfold locked_record_job. destruct (current_group _ _ _ _ _) as [r|e] eqn:Hc; [|by intros [= <- <-]; left].
  apply current_group_ok in Hc. case_bool_decide as Ht; [by intros [= <- <-]; left|]. intros H.
  eapply record_job_spec in H; [|done..]. destruct H as [H|H]; [by left|right; by exists r].
Qed.
Lemma concluded_changes d intent state ec kind message now groups res groups' :
  state ∈ ["uncertain"; "confirmed"] ->
  locked_transition sha py_repr d id intent state ec kind message now groups = (res, groups') -> changes groups groups'.
Proof.
  intros Hs. unfold locked_transition. destruct (current_group _ _ _ _ _) as [r|e] eqn:Hc;
    [|by intros [= <- <-]; apply changes_refl].
  apply current_group_ok in Hc. case_bool_decide as Ht; [intros [= <- <-]; apply changes_refl|].
  apply (transition_changes _ r); [done| |].
  - intros E. apply Ht. rewrite E. unfold GROUP_TERMINAL_STATES. set_solver.
  - intros _. unfold may_reopen. cbn. apply elem_of_cons in Hs as [->|Hs]; [done|].
    by apply list_elem_of_singleton in Hs as ->.
Qed.

Lemma step_changes s s' : group_step s s' -> changes s.(gs_groups) s'.(gs_groups).
Proof.
  intros H. destruct H as [d1 d2 action intent operation requested now s o s' H | d intent operation requested now s res g H
    | d intent index job_id_ now s res g H | d intent state ec kind message now s res g Hs H | g q s Hl _]; cbn.
  - by apply locked_claim_spec in H as (_ & H & _).
  - unfold group_claim in H. destruct (_claim _ _ _ _ _ _ _ _ _ _) as [[[x b]|e] g'] eqn:E; injection H as _ <-;
      by apply claim_changes in E as [E _].
  - apply recorded_spec in H as [->|(r & Hl & _ & r' & Hl' & Ha & Hm & _)]; [apply changes_refl|].
    intros x Hx. rewrite Hl in Hx. injection Hx as <-. by exists r'.
  - by eapply concluded_changes.
  - intros r Hr. rewrite Hl. by apply changes_refl.
Qed.

Lemma record_advances s s' r :
  rtc group_step s s' -> load_group id s.(gs_groups) = Ok (Some r) ->
  exists r', load_group id s'.(gs_groups) = Ok (Some r') /\ advances r r' /\ wf_group id r'.
Proof.
  intros H. revert r. induction H as [s|s1 s2 s3 H1 _ IH]; intros r Hr.
  - exists r. split; [done|]. split; [apply advances_refl|by eapply load_group_wf].
  - destruct (step_changes _ _ H1 r Hr) as (r' & Hr' & Ha & _). destruct (IH r' Hr') as (r'' & Hr'' & Ha' & Hw).
    exists r''. split; [done|]. split; [by eapply advances_trans|done].
Qed.

(** Once the record may not be reopened, no step touches the world. *)
Lemma closed_idle s s' : rtc group_step s s' -> record_at s.(gs_groups) (fun r => may_reopen r = false) ->
  s'.(gs_world) = s.(gs_world).
Proof.
  induction 1 as [s|s1 s2 s3 H1 _ IH]; intros Hc; [done|].
  assert (record_at s2.(gs_groups) (fun r => may_reopen r = false)) as Hc2.
  { destruct Hc as (r & Hr & Hm). destruct (step_changes _ _ H1 r Hr) as (r' & Hr' & _ & Hm'). exists r'. auto. }
  rewrite (IH Hc2). destruct H1; try done. by apply locked_claim_spec in H as (_ & _ & H & _); auto.
Qed.

(** C12. A preparation that ran and did not ask to be repeated is not run again
    under its request, whoever claims it. *)
Theorem preparation_runs_once d1 d2 action intent operation requested now s o s1 s2 :
  locked_claim sha py_repr d1 d2 (Some action) id intent operation requested now s = (o, s1) ->
  s1.(gs_world) <> s.(gs_world) -> retry_safe (action s.(gs_world)).1 = false ->
  rtc group_step s1 s2 -> s2.(gs_world) = s1.(gs_world).
Proof.
  intros H Hran Hret Hsteps. apply locked_claim_spec in H as (_ & _ & _ & H).
  eapply closed_idle; [exact Hsteps|]. apply H; [done|]. by intros a [= <-].
Qed.

(** ** Progress counts confirmed children *)
Definition prefix_confirmed (s : GroupSite W) : Prop := forall r, load_group id s.(gs_groups) = Ok (Some r) ->
  forall index, 1 <= index <= r.(gr_submitted) -> exists child job_id_,
    item_request_id sha id index = Ok child /\ child_confirmed sha s.(gs_requests) child job_id_ = Ok true.

(** A change that records no further child. *)
Definition counts (groups groups' : gmap string file) : Prop := forall r', load_group id groups' = Ok (Some r') ->
  r'.(gr_submitted) = 0 \/ exists r, load_group id groups = Ok (Some r) /\ r.(gr_submitted) = r'.(gr_submitted).
Lemma counts_refl groups : counts groups groups.
Proof. intros r H. right. by exists r. Qed.
Lemma counts_trans g1 g2 g3 : counts g1 g2 -> counts g2 g3 -> counts g1 g3.
Proof.
  intros H1 H2 r3 H3. destruct (H2 _ H3) as [H|(r2 & Hl2 & <-)]; [by left|]. exact (H1 _ Hl2).
Qed.
Lemma publish_counts d r res groups groups' :
  r.(gr_id) = id ->
  r.(gr_submitted) = 0 \/ (exists x, load_group id groups = Ok (Some x) /\ x.(gr_submitted) = r.(gr_submitted)) ->
  publish d r groups = (res, groups') -> counts groups groups'.
Proof.
  intros Hid Hx H. apply publish_spec in H as [[-> _]|(_ & Hl & _)]; [apply counts_refl|].
  intros r' Hr'. rewrite Hid, Hr' in Hl. by injection Hl as ->.
Qed.
Lemma transition_counts d r state ec kind message now groups res groups' :
  load_group id groups = Ok (Some r) ->
  group_transition sha py_repr d r state ec kind message now groups = (res, groups') -> counts groups groups'.
Proof.
  intros Hl. unfold group_transition. destruct (negb _); [intros [= <- <-]; apply counts_refl|].
  destruct (load_group_wf _ _ _ Hl) as [_ Hid]. apply publish_counts; [exact Hid|right; by exists r].
Qed.
Lemma claim_counts d requests intent operation requested now groups res groups' :
  _claim sha py_repr d requests id intent operation requested now groups = (res, groups') -> counts groups groups'.
Proof.
  unfold _claim. destruct (_ ≫= _) as [[r [|]]|e] eqn:H; [|intros [= <- <-]; apply counts_refl..].
  apply bind_ok in H as (single & _ & H). apply bind_raise_ok in H as [_ H]. apply bind_ok in H as (existing & _ & H).
  destruct existing as [y|]; [by apply bind_raise_ok in H as [_ [=]]|].
  apply bind_raise_ok in H as [_ H]. apply bind_raise_ok in H as [_ H]. apply bind_ok in H as (id' & Hid & [= <-]).
  assert (id' = id) as -> by (unfold validate_request_id in Hid; destruct (fullmatch _ _); [by injection Hid as ->|done]).
  destruct (publish d _ groups) as [res' g] eqn:E. intros H.
  assert (g = groups') as <- by (destruct res'; by injection H). eapply publish_counts; [| |exact E]; [done|by left].
Qed.
Lemma after_claim_counts d action request_id r created now (s : GroupSite W) o s' :
  load_group id s.(gs_groups) = Ok (Some r) ->
  after_claim sha py_repr d action request_id r created now s = (o, s') -> counts s.(gs_groups) s'.(gs_groups).
Proof.
  intros Hl. unfold after_claim. destruct action as [a|]; [|intros [= _ <-]; apply counts_refl].
  destruct created; [|destruct (bool_decide _); intros [= _ <-]; apply counts_refl].
  unfold run_action. destruct (a _) as [[|safe name msg] w]; destruct (group_transition _ _ _ _ _ _ _ _ _ _) eqn:E;
    intros [= _ <-]; by eapply transition_counts.
Qed.
Lemma locked_claim_counts d1 d2 action intent operation requested now (s : GroupSite W) o s' :
  locked_claim sha py_repr d1 d2 action id intent operation requested now s = (o, s') ->
  counts s.(gs_groups) s'.(gs_groups).
Proof.
  unfold locked_claim. destruct (_claim _ _ _ _ _ _ _ _ _ _) as [claimed g] eqn:E.
  pose proof (claim_counts _ _ _ _ _ _ _ _ _ E) as Hg. apply claim_changes in E as [_ Hres].
  destruct claimed as [[r created]|e]; [|by destruct e; intros [= _ <-]].
  destruct created; [destruct Hres as (Hl & _)|destruct Hres as [Hl _]];
    [intros H; eapply after_claim_counts in H; [|exact Hl]; by eapply counts_trans|].
  destruct (bool_decide _).
  2:{ intros H. apply after_claim_idle in H as ->. exact Hg. }
  destruct (negb _) eqn:Hre; [by intros [= _ <-]|]. destruct (group_transition _ _ _ _ _ _ _ _ _ _) as [res g'] eqn:Et.
  pose proof (transition_counts _ _ _ _ _ _ _ _ _ _ Hl Et) as Hg'. destruct res as [r1|e].
  - unfold group_transition in Et. destruct (negb _) in Et; [done|].
    destruct (load_group_wf _ _ _ Hl) as [_ Hid]. apply publish_spec in Et as [[_ [? [=]]]|(_ & Hl' & [[= ->]|[? [=]]])].
    cbn [gr_id] in Hl'. intros H. eapply after_claim_counts in H; [|rewrite <- Hid; exact Hl'].
    eapply counts_trans; [exact Hg|]. by eapply counts_trans.
  - intros [= _ <-]. by eapply counts_trans.
Qed.
Lemma concluded_counts d intent state ec kind message now groups res groups' :
  locked_transition sha py_repr d id intent state ec kind message now groups = (res, groups') -> counts groups groups'.
Proof.
  unfold locked_transition. destruct (current_group _ _ _ _ _) as [r|e] eqn:Hc; [|by intros [= <- <-]; apply counts_refl].
  apply current_group_ok in Hc. case_bool_decide; [intros [= <- <-]; apply counts_refl|]. by apply transition_counts.
Qed.

(** A step that records nothing keeps the prefix, if confirmed children stay so. *)
Lemma counts_prefix (s s' : GroupSite W) : counts s.(gs_groups) s'.(gs_groups) ->
  (forall child job_id_, child_confirmed sha s.(gs_requests) child job_id_ = Ok true ->
     child_confirmed sha s'.(gs_requests) child job_id_ = Ok true) ->
  prefix_confirmed s -> prefix_confirmed s'.
Proof.
  intros Hc Hq Hp r' Hr' index Hi. destruct (Hc _ Hr') as [H0|(r & Hr & Heq)]; [lia|].
  destruct (Hp _ Hr index ltac:(lia)) as (child & j & ? & ?). exists child, j. auto.
Qed.
Lemma recorded_prefix d intent index job_id_ now (s : GroupSite W) res groups' :
  locked_record_job sha py_repr d s.(gs_requests) id intent index job_id_ now s.(gs_groups) = (res, groups') ->
  prefix_confirmed s -> prefix_confirmed (mkGroupSite groups' s.(gs_requests) s.(gs_world)).
Proof.
  intros H Hp. apply recorded_spec in H as [->|(r & Hl & (child & Hc & Hok) & r' & Hl' & _ & _ & Hs & Hn)]; [exact Hp|].
  intros x Hx i Hi. cbn in Hx |- *. rewrite Hl' in Hx. injection Hx as <-.
  destruct (decide (i = index)) as [->|]; [by exists child, job_id_|]. apply (Hp r Hl i). lia.
Qed.

Lemma steps_prefix s s' : rtc group_step s s' -> prefix_confirmed s -> prefix_confirmed s'.
Proof.
  intros H Hp.
  induction H as [s|s1 s2 s3 H1 _ IH]; [exact Hp|]. apply IH. clear IH.
  destruct H1 as [d1 d2 action intent operation requested now s o s' H | d intent operation requested now s res g H
    | d intent index job_id_ now s res g H | d intent state ec kind message now s res g Hs H | g q s Hl Hq].
  - apply (counts_prefix s); [by eapply locked_claim_counts| |exact Hp].
    by apply locked_claim_spec in H as (-> & _).
  - apply (counts_prefix s); [|by intros|exact Hp]. cbn. unfold group_claim in H.
    destruct (_claim _ _ _ _ _ _ _ _ _ _) as [[[x b]|e] g'] eqn:E; injection H as _ <-; by eapply claim_counts.
  - by eapply recorded_prefix.
  - apply (counts_prefix s); [by eapply concluded_counts|by intros|exact Hp].
  - apply (counts_prefix s); [|exact Hq|exact Hp]. cbn. intros r Hr. right. exists r. by rewrite <- Hl.
Qed.

(** C13. Whatever is done under a group request from its first claim on: its
    progress counts confirmed children only, without a gap; and a record keeps
    its identity, never loses progress, and is final once confirmed. *)
Theorem group_history (s0 s1 s2 : GroupSite W) :
  load_group id s0.(gs_groups) = Ok None -> rtc group_step s0 s1 -> rtc group_step s1 s2 ->
  prefix_confirmed s2 /\ forall r1, load_group id s1.(gs_groups) = Ok (Some r1) ->
    exists r2, load_group id s2.(gs_groups) = Ok (Some r2) /\ advances r1 r2 /\ wf_group id r2.
Proof.
  intros Hnone H1 H2. split; [|by intros r1 Hr1; eapply record_advances].
  apply (steps_prefix s0); [by etrans|]. intros r Hr. by rewrite Hnone in Hr.
Qed.
End history.
End store.

(** ** A chain of two jobs *)
Definition length_sha (data : list Ascii.ascii) : string := pretty (length data).
Definition example_intent : string := String.concat "" (repeat "0" 64).
(** The preparation, counted by how often it ran. *)
Definition counted (o : prepare_outcome) (runs : nat) : prepare_outcome * nat := (o, S runs).
Definition first_child : RequestRecord :=
  mkRequestRecord REQUEST_SCHEMA "dtg:5:000001" example_intent "20260101-0000_base_0123456789abcdef" "confirmed"
    100%Q 100%Q None None "none" None None None.
Definition empty_site : GroupSite nat :=
  mkGroupSite ∅ {[ length_sha (utf8_encode "dtg:5:000001") := StoredFile (Some (JDict (asdict first_child))) 0%Q ]} 0%nat.
Abbreviation prepared_site o :=
  ((locked_claim length_sha id Published Published (Some (counted o)) "exp:1" example_intent "chain" 2 100%Q empty_site).2).
Abbreviation recorded_groups :=
  ((locked_record_job length_sha id Published (gs_requests empty_site) "exp:1" example_intent 1
      "20260101-0000_base_0123456789abcdef" 200%Q (gs_groups (prepared_site ActionDone))).2).
Abbreviation recorded_site :=
  (mkGroupSite recorded_groups (gs_requests (prepared_site ActionDone)) (gs_world (prepared_site ActionDone))).

Lemma prepared_step o : group_step length_sha id "exp:1" empty_site (prepared_site o).
Proof. eapply step_locked_claim. apply surjective_pairing. Qed.
Lemma recorded_step : group_step length_sha id "exp:1" (prepared_site ActionDone) recorded_site.
Proof. eapply step_recorded. apply surjective_pairing. Qed.

Lemma group_history_witness :
  prefix_confirmed length_sha "exp:1" recorded_site /\
  exists r1 r2, load_group length_sha "exp:1" (gs_groups (prepared_site ActionDone)) = Ok (Some r1) /\
    load_group length_sha "exp:1" (gs_groups recorded_site) = Ok (Some r2) /\ advances r1 r2 /\
    r1.(gr_submitted) < r2.(gr_submitted).
Proof.
  destruct (group_history length_sha id "exp:1" empty_site (prepared_site ActionDone) recorded_site) as [Hp Ha].
  - vm_compute. reflexivity.
  - apply rtc_once, prepared_step.
  - apply rtc_once, recorded_step.
  - split; [exact Hp|].
    destruct (load_group length_sha "exp:1" (gs_groups (prepared_site ActionDone))) as [[r1|]|] eqn:Hr;
      [|vm_compute in Hr; discriminate Hr..].
    destruct (Ha r1 eq_refl) as (r2 & Hr2 & Hadv & _). exists r1, r2. split; [reflexivity|]. split; [exact Hr2|].
    split; [exact Hadv|]. vm_compute in Hr. injection Hr as <-. vm_compute in Hr2. injection Hr2 as <-. reflexivity.
Defined.
(** The same claim again, after a preparation that failed for good. *)
Lemma preparation_runs_once_witness :
  let failed := prepared_site (ActionFailed false "RuntimeError" "no space") in
  let again := (locked_claim length_sha id Published Published (Some (counted ActionDone)) "exp:1" example_intent "chain" 2
                  300%Q failed).2 in
  gs_world failed = 1%nat /\ gs_world again = gs_world failed.
Proof.
  split; [vm_compute; reflexivity|].
  eapply (preparation_runs_once length_sha id "exp:1").
  - apply surjective_pairing.
  - vm_compute. discriminate.
  - reflexivity.
  - apply rtc_once. eapply step_locked_claim. apply surjective_pairing.
Defined.
