(* ===== verification/Kill.v ===== *)
(** * Killing jobs ([cli/commands/kill.py])

    [dt kill] on the head: a queued row is dequeued once the attempt it may
    carry is proven cancelled; any other row is signalled, and what becomes of
    it follows the verdict of the node.  Each call under a job lock is atomic;
    the nodes are a world [W].  What is printed for a person is left out. *)

From S2P Require Import Prelude Text PyValue Numerals Diagnostics Layout JobEntry RegistryCodec Lifecycle Registry ActiveIndex RegistryOps Config StatusProbe Refs Probe RunSpec Placement Termination Claim Intent Recovery Launch Dispatch.

Definition EXIT_NOT_FOUND : Z := 4.
Definition EXIT_UNREACHABLE : Z := 5.

(** What [termination_probe] builds a command from. *)
Record kill_command := mkKill {
  k_dir : string;
  k_pgid : option Z;
  k_sig : string;
  k_boot_id : option string;
  k_session : option string;
  k_cancel_sentinel : bool;
  k_layout : option string;
  k_ignore_exit_marker : bool;
}.

(** The outcome for the exit code, the one for machines, the row, the message. *)
Record kill_report := mkKillReport {
  kr_outcome : string;
  kr_machine : string;
  kr_entry : option JobEntry;
  kr_message : string;
}.
Definition kill_exit_code (outcome : string) : Z :=
  if bool_decide (outcome = "ok") then 0 else if bool_decide (outcome = "notfound") then EXIT_NOT_FOUND else 1.
Definition exit_for_kill_outcomes (outcomes : list string) : Z :=
  if forallb (fun o => bool_decide (o = "ok")) outcomes then 0
  else if bool_decide (outcomes = ["notfound"]) then EXIT_NOT_FOUND
  else if forallb (fun o => bool_decide (o = "unreachable")) outcomes then EXIT_UNREACHABLE
  else 1.

Definition none_or (v : option string) : string := default "None" v.

Section kill.
Context (encoded_size : json -> nat) (index_writable : bool)
  (sha256_hexdigest : list Ascii.ascii -> string) (py_repr : string -> string).
Context {W : Type} (cfg : HeadConfig) (now : Q).
(** Whether the disk takes a write; the signalling command; the commands of a
    dispatch; the status probe; the staged job. *)
Context (writable : Site W -> bool)
  (run_kill : string -> bool -> kill_command -> W -> remote_reply * W)
  (run_on : string -> bool -> remote_command -> W -> remote_reply * W)
  (probe : W -> string -> bool -> option string -> list _ProbeTarget -> StatusProbe.reply)
  (drop_staging : string -> W -> W).
(** What the person answers, and the names the head suggests for a reference. *)
Context (consent : string -> result unit) (suggestions : string -> list string).

Definition on_world {A} (f : W -> A * W) : D W A := fun s =>
  let '(x, w) := f s.(st_world) in (Ok x, mkSite s.(st_registry) w).
Definition store_row (entry : JobEntry) : D W JobEntry := fun s =>
  on_registry (save encoded_size index_writable now (writable s) entry) s.
Definition load_row (job_id_ : string) : D W (option JobEntry) := on_registry (load now job_id_).
Definition refresh_locked (entry : JobEntry) : D W JobEntry := fun s =>
  (found ← on_registry (refresh_status_locked encoded_size index_writable (probe s.(st_world)) now (writable s) entry);
   mret found.1) s.
Definition refresh (entry : JobEntry) : D W JobEntry := fun s =>
  (found ← on_registry (refresh_status encoded_size index_writable (probe s.(st_world)) now (writable s) entry);
   mret found.1) s.

Definition reporting (outcome machine : string) (entry : JobEntry) (message : string) : D W kill_report :=
  mret (mkKillReport outcome machine (Some entry) message).

(** ** Under the job lock *)
Definition kill_target (entry : JobEntry) (uncertain terminal_sweep : bool) : string :=
  if uncertain then "uncertain launch " +:+ entry.(job_id)
  else if terminal_sweep then "leftover processes of " +:+ entry.(job_id)
  else "group " +:+ none_or (pretty <$> entry.(pgid)).
Definition live_status (entry : JobEntry) : bool := bool_decide (entry.(status) ∈ [Running; Lost]).

(** The exit marker predates the signal. *)
Definition record_completion (entry : JobEntry) (detail : option string) (sig : string) : D W kill_report :=
  entry ← refresh_locked entry;
  entry ← (if bool_decide (entry.(status) = Finished) then mret entry
           else
             code ← raising (match detail with Some d => z ← py_int d; Ok (Some z) | None => Ok None end);
             store_row (entry <| status := Finished |> <| exit_code := code |>
                              <| finished_at := finish_time entry now |> <| result_state := None |>
                              <| reason := Some "completed before kill; recorded from exit marker" |>));
  reporting "ok" "completed" entry (entry.(job_id) +:+ " completed before " +:+ sig +:+ " was sent").
Definition killed_row (entry : JobEntry) (uncertain : bool) (sig : string) : JobEntry :=
  entry <| status := Killed |> <| result_state := Some Cancelled |> <| finished_at := Some now |>
        <| reason := Some (if uncertain
                           then "uncertain launch cleanup confirmed dead by user (" +:+ sig +:+ "); previous: "
                                +:+ none_or entry.(reason)
                           else "killed by user (" +:+ sig +:+ ")") |>.

Definition judge_kill (entry : JobEntry) (uncertain terminal_sweep : bool) (sig : string) (v : verdict)
  : D W kill_report :=
  let target := kill_target entry uncertain terminal_sweep in
  let where_ := target +:+ " on " +:+ entry.(node) in
  match v with
  | Unverified detail => reporting "unverified" "unverified" entry ("could not verify death of " +:+ where_ +:+ ": " +:+ detail)
  | Alive => reporting "alive" "survived" entry (where_ +:+ " survived " +:+ sig)
  | Exited detail => record_completion entry detail sig
  | Dead =>
      if terminal_sweep
      then reporting "ok" "swept" entry ("sent " +:+ sig +:+ " to " +:+ where_ +:+ "; no owned survivors")
      else
        entry ← store_row (killed_row entry uncertain sig);
        reporting "ok" "killed" entry ("sent " +:+ sig +:+ " to " +:+ where_ +:+ "; confirmed dead")
  end.
Definition kill_command_of (entry : JobEntry) (uncertain terminal_sweep : bool) (sig : string) : kill_command :=
  mkKill entry.(job_dir) entry.(pgid) sig entry.(boot_id) (if uncertain then Some entry.(session) else None) uncertain
    entry.(storage_layout) terminal_sweep.

Definition signal_row (entry : JobEntry) (sig : string) (sweep : bool) : D W kill_report :=
  let uncertain := is_uncertain_launch entry in
  let terminal_sweep := sweep && negb uncertain && negb (live_status entry) in
  let unverified detail := judge_kill entry uncertain terminal_sweep sig (Unverified detail) in
  if negb (live_status entry) && negb uncertain && negb terminal_sweep
  then reporting "ok" "already_terminal" entry (entry.(job_id) +:+ " is already " +:+ status_name entry.(status))
  else
    match termination_guard sha256_hexdigest entry.(job_dir) (Some entry.(job_id))
            (if uncertain then Some entry.(session) else None) None with
    | Err e => unverified (exn_message e)
    | Ok _ =>
        reply ← on_world (run_kill entry.(node) entry.(node_local) (kill_command_of entry uncertain terminal_sweep sig));
        match reply with
        | Unreached _ message => unverified message
        | Replied returncode stdout stderr =>
            judge_kill entry uncertain terminal_sweep sig
              (termination_verdict py_repr returncode (Some stdout) (Some stderr))
        end
    end.
Definition _kill_locked (entry : JobEntry) (sig : string) (sweep : bool) : D W kill_report :=
  current ← load_row entry.(job_id);
  signal_row (default entry current) sig sweep.

(** ** One reference *)
Definition dequeued_row (entry : JobEntry) : JobEntry :=
  (if bool_decide (is_Some entry.(dispatch_node)) then unclaimed entry else entry)
    <| status := Killed |> <| result_state := Some Cancelled |> <| finished_at := Some now |>
    <| reason := Some "dequeued by user" |>.
(** The rows of [cancel_queued_attempt] live on the site. *)
Definition cancel_attempt (entry : JobEntry) : D W (option string) :=
  cancel_queued_attempt sha256_hexdigest py_repr cfg
    (fun n local c s => let '(reply, w) := run_on n local c s.(st_world) in (reply, mkSite s.(st_registry) w)) entry.
Definition dequeue (entry : JobEntry) : D W kill_report :=
  problem ← (if bool_decide (is_Some entry.(dispatch_node)) then cancel_attempt entry else mret None);
  match problem with
  | Some problem =>
      reporting "unverified" "dispatch_attempt_unverified" entry
        (entry.(job_id) +:+ " keeps a dispatch attempt on " +:+ none_or entry.(dispatch_node)
         +:+ " that could not be cancelled: " +:+ problem)
  | None =>
      entry ← store_row (dequeued_row entry);
      on_world (fun w => (tt, drop_staging entry.(job_id) w)) ;;
      reporting "ok" "dequeued" entry ("dequeued " +:+ entry.(job_id))
  end.

(** A row that is, or is no longer, queued. *)
Definition kill_started (entry : JobEntry) (force sweep : bool) : D W kill_report :=
  entry ← refresh entry;
  let uncertain := is_uncertain_launch entry in
  if negb (live_status entry) && negb uncertain && negb sweep
  then reporting "ok" "already_terminal" entry (entry.(job_id) +:+ " is already " +:+ status_name entry.(status))
  else
    let target :=
      if uncertain then "any process from uncertain launch " +:+ entry.(job_id) +:+ " on " +:+ entry.(node)
      else if negb (live_status entry) then "leftover processes of " +:+ entry.(job_id) +:+ " on " +:+ entry.(node)
      else entry.(job_id) +:+ " (pgid " +:+ none_or (pretty <$> entry.(pgid)) +:+ " on " +:+ entry.(node) +:+ ")" in
    raising (consent ("kill " +:+ target +:+ "?")) ;;
    _kill_locked entry (if force : bool then "KILL" else "TERM") sweep.
Definition kill_entry (entry : JobEntry) (force sweep : bool) : D W kill_report :=
  if bool_decide (entry.(status) = Queued) then
    raising (consent ("remove queued job " +:+ entry.(job_id) +:+ " from the queue?")) ;;
    current ← load_row entry.(job_id);
    let entry := default entry current in
    if bool_decide (entry.(status) = Queued) then dequeue entry else kill_started entry force sweep
  else kill_started entry force sweep.
Definition _kill_one (ref : string) (force sweep : bool) : D W kill_report :=
  found ← on_registry (find now cfg ref);
  match found with
  | None =>
      let names := suggestions ref in
      mret (mkKillReport "notfound" "not_found" None
        ("no job matching " +:+ py_repr ref
         +:+ (if bool_decide (names = []) then "" else "; did you mean " +:+ join ", " names +:+ "?")))
  | Some entry => kill_entry entry force sweep
  end.

(** The loop of the command; a damaged registry is the outcome of its reference. *)
Fixpoint kill_refs (refs : list string) (force sweep : bool) (s : Site W) : result (list string) * Site W :=
  match refs with
  | [] => (Ok [], s)
  | ref :: rest =>
      let '(outcome, s) := match _kill_one ref force sweep s with
                           | (Ok report, s) => (Ok report.(kr_outcome), s)
                           | (Err (RegistryError _), s) => (Ok "unverified", s)
                           | (Err e, s) => (Err e, s)
                           end in
      match outcome with
      | Err e => (Err e, s)
      | Ok outcome =>
          match kill_refs rest force sweep s with
          | (Ok outcomes, s) => (Ok (outcome :: outcomes), s)
          | (Err e, s) => (Err e, s)
          end
      end
  end.
End kill.
