(* ===== verification/KillSpec.v ===== *)
(** * What a kill proves ([cli/commands/kill.py])

    The nodes are known through [KillContract]: a signal starts nothing, and a
    verdict [DEAD] means that nothing runs in the capsule that was named.
    Against it a kill reports what is true, and whatever it does to a row, the
    row of a job goes on naming every capsule that may be running it. *)

From S2P Require Import Prelude Text PyValue Numerals Diagnostics Layout JobEntry RegistryCodec CodecFacts CodecSound CodecSpec CodecCanonical Lifecycle Registry ActiveIndex RegistryOps RegistryFacts RegistrySpec RegistryScan Config StatusProbe StatusSpec Refs Probe RunSpec Placement Termination Claim ClaimSpec GateSpec Intent Derive Recovery RecoverySpec Launch LaunchSpec Dispatch DispatchFacts DispatchSpec Kill.

Class KillContract {W : Type} (capsules : W -> gset capsule) (py_repr : string -> string)
    (run_kill : string -> bool -> kill_command -> W -> remote_reply * W)
    (run_on : string -> bool -> remote_command -> W -> remote_reply * W) (drop_staging : string -> W -> W) : Prop := {
  kc_kill n local c w reply w' : run_kill n local c w = (reply, w') -> capsules w' ⊆ capsules w;
  kc_dead n local c w rc out err w' :
    run_kill n local c w = (Replied rc out err, w') -> termination_verdict py_repr rc (Some out) (Some err) = Dead ->
    capsules w' ⊆ capsules w ∖ {[ (n, c.(k_dir)) ]};
  kc_marker n local c w rc out err w' code :
    run_kill n local c w = (Replied rc out err, w') -> c.(k_ignore_exit_marker) = true ->
    termination_verdict py_repr rc (Some out) (Some err) <> Exited code;
  kc_step n local c w reply w' : run_on n local c w = (reply, w') -> capsules w' ⊆ capsules w;
  kc_cancelled n local d pg b se tok lay w rc out err w' :
    run_on n local (Terminate d pg b se tok lay) w = (Replied rc out err, w') ->
    termination_verdict py_repr rc (Some out) (Some err) = Dead -> capsules w' ⊆ capsules w ∖ {[ (n, d) ]};
  kc_staging j w : capsules (drop_staging j w) ⊆ capsules w;
}.

(** ** Rows a refresh returns *)
Lemma list_all_unique now r : Forall unique_keys (list_all now r).1.
Proof.
  unfold list_all. destruct (scan_directories r) as [slots damage]. cbv zeta. cbn [fst]. unfold by_job_id.
  rewrite sort_by_perm. apply Forall_concat, Forall_fmap, Forall_concat, Forall_fmap, Forall_true. intros s.
  apply Forall_fmap, Forall_true. intros n. unfold compose, read_listed.
  case_bool_decide; [constructor|]. destruct (_read_entry_path now s n false r) eqn:E; [|constructor].
  constructor; [|constructor]. by eapply read_entry_unique.
Qed.
Lemma newest_in best l : newest best l ∈ best :: l.
Proof.
  revert best. induction l as [|e l IH]; intros best; cbn [newest]; [by left|].
  specialize (IH (if q_ltb best.(created_at) e.(created_at) then e else best)).
  destruct (q_ltb _ _); set_solver.
Qed.
Lemma resolved_in entries ref e : (_resolve_ref_against entries ref).1 = Some e -> e ∈ entries.
Proof.
  unfold _resolve_ref_against. destruct (List.filter _ entries) as [|a l] eqn:Hf.
  - destruct (List.filter (id_matches ref) entries) as [|b [|c l]] eqn:Hg; try done. intros [= ->].
    assert (e ∈ List.filter (id_matches ref) entries) as Hin by (rewrite Hg; by left). by apply elem_of_filterb in Hin as [? _].
  - intros [= <-]. pose proof (newest_in a l) as Hin. rewrite <- Hf in Hin. by apply elem_of_filterb in Hin as [? _].
Qed.
Lemma find_unique now cfg ref r res r' : find now cfg ref r = (res, r') ->
  r' = r /\ forall e, res = Ok (Some e) -> unique_keys e.
Proof.
  unfold find, resolve_ref, mbind, M_bind. destruct (_scope_ref _ _) as [scoped|]; [|by intros [= <- <-]].
  destruct (load now scoped r) as [[exact_|x] r1] eqn:Hl; pose proof (load_ok _ _ _ _ _ Hl) as ->; [|by intros [= <- <-]].
  destruct exact_ as [x|]; cbn; intros [= <- <-]; (split; [done|]); intros e [= H].
  - subst. by eapply load_unique.
  - apply resolved_in in H. pose proof (list_all_unique now r) as Hall. rewrite Forall_forall in Hall. auto.
Qed.

(** Evidence moves no job to another node. *)
Lemma when_node c f acc : (forall e, (f e).(node) = e.(node)) -> (when c f acc).1.(node) = acc.1.(node).
Proof. intros H. unfold when. destruct (c acc.1); [apply H|done]. Qed.
Lemma mark_running_node e t row : _mark_running_from_probe e t = Some row -> row.(node) = e.(node).
Proof.
  unfold _mark_running_from_probe. set (acc0 := when _ _ (e, false)).
  assert (acc0.1.(node) = e.(node)) as H0 by (unfold acc0; by rewrite when_node by (intros []; reflexivity)).
  clearbody acc0. set (acc1 := if negb _ then _ else _).
  assert (acc1.1.(node) = e.(node)) as H1.
  { unfold acc1. destruct (negb _); [exact H0|]. by rewrite when_node by (intros []; reflexivity). }
  clearbody acc1. set (acc := when _ _ (when _ _ (when _ _ acc1))).
  assert (acc.1.(node) = e.(node)) as H by (unfold acc; by rewrite !when_node by (intros []; reflexivity)).
  clearbody acc. destruct acc as [x []]; [|done]. by intros [= <-].
Qed.
Lemma mark_lost_node now e token dir row : _mark_lost_from_probe now e token dir = Some row -> row.(node) = e.(node).
Proof.
  unfold _mark_lost_from_probe. destruct (bool_decide (e.(status) = Lost)); [|by intros [= <-]].
  set (acc := when _ _ (when _ _ _)). assert (acc.1.(node) = e.(node)) as H.
  { unfold acc. by rewrite !when_node by (intros []; reflexivity). }
  clearbody acc. destruct acc as [x []]; [|done]. by intros [= <-].
Qed.
Lemma probe_verdict_node now e tokens dir o row o' :
  probe_verdict now e tokens dir o = (Some row, o') -> row.(node) = e.(node).
Proof.
  unfold probe_verdict. destruct (_ && bool_decide (is_Some _)); [done|].
  destruct (negb (bool_decide (_ ∈ liveness_tokens))).
  { destruct (py_int _) as [code|]; [|done]. destruct (negb _); [done|]. intros [= <- _].
    unfold finished_row. by destruct (p_started_at tokens). }
  destruct (rebooted e _); [by intros [= <- _]|].
  destruct (bool_decide (_ = "RUNNING")).
  { destruct (_ && dependency_settled e); [done|]. intros H%(f_equal fst). by eapply mark_running_node. }
  destruct (bool_decide (_ = "UNVERIFIED")); [done|]. destruct (bool_decide _); [|by intros [= <- _]].
  intros H%(f_equal fst). by eapply mark_lost_node.
Qed.

Lemma coherent_status e : coherent e -> e.(status) ∈ [Running; Finished; Lost].
Proof. unfold coherent. destruct e.(status); try done; intros _; set_solver. Qed.
(** What refreshing a row under its lock writes and returns. *)
Lemma refresh_row size ok run now writable e r res r' :
  unique_keys e -> refresh_status_locked size ok run now writable e r = (res, r') ->
  (r' = r /\ forall x o, res = Ok (x, o) -> x = e) \/
  exists (row : JobEntry) out, refreshable e = true /\ coherent row /\ same_job row e /\ row.(node) = e.(node) /\
    save size ok now writable row r = (out, r') /\ forall x o, res = Ok (x, o) -> out = Ok x.
Proof.
  intros Hu. unfold refresh_status_locked. destruct (refreshable e) eqn:Href; [|intros [= <- <-]; left; split; [done|by intros ? ? [= <- _]]].
  cbn [negb]. destruct (validate_job_capsule _ _); [|intros [= <- <-]; left; split; [done|by intros ? ? [= <- _]]].
  destruct (_run_status_probe _ _ _ _) as [[tokens|] o]; [|intros [= <- <-]; left; split; [done|by intros ? ? [= <- _]]].
  unfold _apply_status_probe. destruct (probe_verdict _ _ _ _ _) as [[row|] o'] eqn:Hv;
    [|intros [= <- <-]; left; split; [done|by intros ? ? [= <- _]]].
  pose proof (probe_verdict_node _ _ _ _ _ _ _ Hv) as Hn. apply probe_verdict_coherent in Hv as (Hc & Hs & _); [|done].
  unfold mbind, M_bind. destruct (save size ok now writable row r) as [out r1] eqn:E. intros H. right. exists row, out.
  do 4 (split; [done|]). destruct out; injection H as <- <-; (split; [done|]); [by intros ? ? [= <- _]|done].
Qed.

(** What a save publishes and returns, whether or not it replaces a row. *)
Lemma fill_layout_place role existing cand : same_place cand (fill_layout role existing cand).
Proof. unfold fill_layout. repeat case_match; by repeat split. Qed.
Lemma saved_place size now cand r out r' existing row s :
  unique_keys cand -> saved size now cand r out r' existing row s ->
  same_place cand out /\ unique_keys out /\ row_sat r' cand.(job_id) (same_place cand).
Proof.
  intros Hu S. destruct (saved_row_fields _ _ _ _ _ _ _ _ _ S) as [Hrow _].
  destruct (saved_out size now cand r out r' existing row s S Hu) as (_ & _ & Huo).
  assert (same_place cand row) as Hp by (rewrite Hrow; by repeat split).
  destruct (sv_row _ _ _ _ _ _ _ _ _ S) as (filled & persisted & -> & _ & _ & Hout & _).
  split; [|split; [exact Huo|]].
  - pose proof (fill_layout_place r.(head_role) existing cand) as Hf. rewrite Hout. destruct (custom_env_loaded _) eqn:E; [done|].
    eapply same_place_trans; [exact Hf|]. unfold stamp. cbn. rewrite E. by repeat split.
  - intros now'. exists (complete (Some now) (canonical row)).
    destruct (saved_load _ _ _ _ _ _ _ _ _ now' Hu S) as [Hload _]. split; [exact Hload|].
    eapply same_place_trans; [exact Hp|]. eapply same_place_trans; [apply canonical_same_place|apply complete_same_place].
Qed.

(** ** Naming the capsules of a job *)

(** Like [names_capsules] of a dispatch; a lost row counts, since its leader
    may be dead while children live on. *)
Definition tracked (cfg : HeadConfig) (R : gset capsule) (e : JobEntry) : Prop :=
  (e.(status) = Queued /\
     exists name d, e.(dispatch_node) = Some name /\ node_dir cfg e name = Some d /\ R ⊆ {[ (name, d) ]}) \/
  ((e.(status) ∈ [Running; Finished; Lost] \/ is_uncertain_launch e = true) /\ R ⊆ {[ (e.(node), e.(job_dir)) ]}).
Lemma tracked_mono cfg R R' e : R' ⊆ R -> tracked cfg R e -> tracked cfg R' e.
Proof.
  intros HR [(Hq & n & d & Hn & Hd & H)|[Hs H]]; [left|right].
  - split; [done|]. exists n, d. split; [done|]. split; [done|]. by etrans.
  - split; [done|]. by etrans.
Qed.
Lemma tracked_placed cfg R e : tracked cfg R e -> e.(status) <> Queued -> R ⊆ {[ (e.(node), e.(job_dir)) ]}.
Proof. by intros [[Hq _]|[_ H]] Hn. Qed.
Lemma tracked_attempt cfg R e : tracked cfg R e -> e.(status) = Queued ->
  exists name d, e.(dispatch_node) = Some name /\ node_dir cfg e name = Some d /\ R ⊆ {[ (name, d) ]}.
Proof.
  intros [[_ H]|[[H|H] _]] Hq; [done| |].
  - rewrite Hq in H. set_solver.
  - unfold is_uncertain_launch in H. by rewrite Hq in H.
Qed.

Section kill.
Context (size : json -> nat) (ok : bool) (sha256_hexdigest : list Ascii.ascii -> string) (py_repr : string -> string).
Context {W : Type} (cfg : HeadConfig) (now : Q) (writable : Site W -> bool)
  (run_kill : string -> bool -> kill_command -> W -> remote_reply * W)
  (run_on : string -> bool -> remote_command -> W -> remote_reply * W)
  (probe : W -> string -> bool -> option string -> list _ProbeTarget -> StatusProbe.reply)
  (drop_staging : string -> W -> W).
Context (capsules : W -> gset capsule) `{nodes : !KillContract capsules py_repr run_kill run_on drop_staging}.
Abbreviation alive := (alive capsules).

(** The capsules are those of the job [jid]. *)
Section job.
Context (jid : string).
Definition site_tracked (s : Site W) : Prop :=
  alive s = ∅ \/ row_sat s.(st_registry) jid (tracked cfg (alive s)).
(** What is known of a row held in memory. *)
Definition held (s : Site W) (e : JobEntry) : Prop :=
  unique_keys e /\ (e.(job_id) = jid -> alive s = ∅ \/ tracked cfg (alive s) e).

Lemma site_shrinks s w : capsules w ⊆ alive s -> site_tracked s -> site_tracked (mkSite s.(st_registry) w).
Proof.
  intros HR [H|H]; [left; unfold DispatchSpec.alive in *; cbn; set_solver|]. right.
  eapply row_sat_impl; [|exact H]. intros e. by apply tracked_mono.
Qed.
Lemma held_shrinks s e r w : capsules w ⊆ alive s -> held s e -> held (mkSite r w) e.
Proof.
  intros HR [Hu H]. split; [done|]. intros Hid. destruct (H Hid) as [He|Ht]; [left|right].
  - unfold DispatchSpec.alive in *. cbn. set_solver.
  - by eapply tracked_mono.
Qed.
Lemma site_same s r : same_rows s.(st_registry) r -> site_tracked s -> site_tracked (mkSite r s.(st_world)).
Proof. intros Hr [H|H]; [by left|right]. by eapply row_sat_same. Qed.

(** Loading a row, or keeping the one in memory when it is gone. *)
Lemma load_held e s : site_tracked s -> unique_keys e ->
  wp (load_row now e.(job_id)) (fun res s' => s' = s /\ forall current, res = Ok current -> held s (default e current) /\
    (default e current).(job_id) = e.(job_id)) s.
Proof.
  intros Hs He. apply wp_registry. intros res r H. pose proof (load_ok _ _ _ _ _ H) as ->.
  split; [by destruct s|]. intros [x|] ->; cbn.
  2:{ split; [|done]. split; [done|]. intros Hid. left. destruct Hs as [Hs|Hs]; [done|].
      destruct (Hs now) as (y & Hy & _). by rewrite <- Hid, H in Hy. }
  pose proof (load_id _ _ _ _ _ H) as Hx. split; [|done]. split; [by eapply load_unique|]. intros Hid.
  destruct Hs as [Hs|Hs]; [by left|right]. destruct (Hs now) as (y & Hy & Ht). rewrite <- Hid, Hx, H in Hy.
  by injection Hy as <-.
Qed.

(** Saving a row that names what may still run. *)
Lemma store_held cand s : site_tracked s -> unique_keys cand ->
  (cand.(job_id) = jid -> alive s = ∅ \/
     (cand.(status) ∈ [Running; Finished; Lost] /\ alive s ⊆ {[ (cand.(node), cand.(job_dir)) ]})) ->
  wp (store_row size ok now writable cand)
    (fun res s' => s'.(st_world) = s.(st_world) /\ site_tracked s' /\
       forall x, res = Ok x -> unique_keys x /\ x.(job_id) = cand.(job_id) /\ x.(status) = cand.(status) /\
         x.(node) = cand.(node) /\ x.(job_dir) = cand.(job_dir)) s.
Proof using Type.
  intros Hs Hu Hc. apply wp_registry. intros res r H. cbn. split; [done|].
  destruct (save_effect _ _ _ _ _ _ _ _ Hu H) as [Hothers Hrow].
  destruct res as [x|err]; [|split; [by apply site_same|done]].
  apply save_inv in H as (existing & row & sl & S). destruct (saved_place _ _ _ _ _ _ _ _ _ Hu S) as (Hp & Hux & Hsat).
  split; [|intros y [= <-]; destruct Hp; by split_and!].
  destruct Hs as [Hs|Hs]; [by left|]. destruct (decide (jid = cand.(job_id))) as [E|Hne]; [|right; by apply Hothers].
  destruct (Hc (eq_sym E)) as [He|[Hst HR]]; [by left|right]. rewrite E.
  eapply row_sat_impl; [|exact Hsat]. intros e [_ H2 _ H4 H5 _]. right. rewrite H2, H4, H5. split; [by left|exact HR].
Qed.

Lemma refresh_locked_held e s : site_tracked s -> held s e ->
  wp (refresh_locked size ok now writable probe e)
    (fun res s' => s'.(st_world) = s.(st_world) /\ site_tracked s' /\
       forall x, res = Ok x -> held s' x /\ x.(job_id) = e.(job_id) /\ x.(node) = e.(node) /\ x.(job_dir) = e.(job_dir)) s.
Proof using Type.
  intros Hs [Hu Hh]. unfold wp, refresh_locked, mbind, D_bind, on_registry.
  destruct (refresh_status_locked _ _ _ _ _ _ _) as [res r] eqn:E. pose proof (refresh_row _ _ _ _ _ _ _ _ _ Hu E) as Hr.
  destruct Hr as [[-> Hx]|(row & out & Href & Hc & Hj & Hn & Hsave & Hx)].
  - destruct res as [[x o]|err]; cbn; (split; [done|]); (split; [by destruct s|]); [|done].
    intros y [= <-]. by rewrite (Hx x o eq_refl).
  - destruct Hj as (Hid & _ & Hd & _ & _ & Hur).
    assert (row.(job_id) = jid -> alive s = ∅ \/
      (row.(status) ∈ [Running; Finished; Lost] /\ alive s ⊆ {[ (row.(node), row.(job_dir)) ]})) as Hrow.
    { intros Hj. destruct (Hh ltac:(congruence)) as [He|Ht]; [by left|right]. split; [by apply coherent_status|].
      rewrite Hn, Hd. apply (tracked_placed cfg); [exact Ht|]. intros Hq. unfold refreshable in Href.
      by rewrite Hq in Href. }
    pose proof (store_held row s Hs (Hur Hu) Hrow) as H. unfold wp, store_row, on_registry in H. rewrite Hsave in H.
    destruct H as (_ & Hs' & Hy). destruct res as [[x o]|err]; cbn; (split; [done|]); (split; [exact Hs'|]); [|done].
    intros y [= <-]. specialize (Hy x (Hx x o eq_refl)) as (Hux & Hxi & Hxs & Hxn & Hxd).
    split; [|by rewrite Hxi, Hxn, Hxd]. split; [done|]. intros Hj. rewrite Hxi in Hj.
    destruct (Hrow Hj) as [He|[Hst HR]]; [by left|right; right]. rewrite Hxs, Hxn, Hxd. split; [by left|exact HR].
Qed.

Abbreviation safe := (fun _ => site_tracked).
(** A row in memory that says where its job may be running. *)
Definition placed (s : Site W) (e : JobEntry) : Prop :=
  e.(job_id) = jid -> alive s ⊆ {[ (e.(node), e.(job_dir)) ]}.
Lemma placed_empty s (e : JobEntry) : alive s = ∅ -> placed s e.
Proof. unfold placed. intros -> _. set_solver. Qed.
Lemma held_placed s e : held s e -> live_status e = true \/ is_uncertain_launch e = true -> placed s e.
Proof.
  intros [_ H] Hl Hid. destruct (H Hid) as [He|Ht]; [by apply placed_empty|]. apply (tracked_placed cfg); [exact Ht|]. intros Hq.
  unfold live_status, is_uncertain_launch in Hl. rewrite Hq in Hl. destruct Hl as [Hl|Hl]; [|done].
  apply bool_decide_eq_true in Hl. set_solver.
Qed.

Lemma completion_safe e detail sig s : site_tracked s -> held s e -> placed s e ->
  wp (record_completion size ok now writable probe e detail sig) safe s.
Proof using nodes.
  intros Hs He Hp. apply wp_bind. eapply wp_mono; [by apply refresh_locked_held|].
  intros [x|err] s' (Hw & Hs' & Hx); [|exact Hs']. destruct (Hx x eq_refl) as ([Hux _] & Hid & Hn & Hd).
  apply wp_bind. case_bool_decide as Hf; [exact Hs'|]. apply wp_bind, wp_raising.
  destruct (match detail with Some d => _ | None => _ end) as [code|err]; [|exact Hs'].
  eapply wp_mono; [apply store_held; [exact Hs'|by destruct Hux; split|]|].
  - cbn. intros Hj. right. split; [set_solver|]. rewrite Hn, Hd. unfold DispatchSpec.alive in *. rewrite Hw.
    apply Hp. congruence.
  - intros [y|err] s'' (_ & H & _); exact H.
Qed.
Lemma judge_safe e uncertain sweep sig v s : site_tracked s -> held s e ->
  (sweep = false -> placed s e) -> (v = Dead -> sweep = false -> e.(job_id) = jid -> alive s = ∅) ->
  (forall code, v = Exited code -> sweep = false) ->
  wp (judge_kill size ok now writable probe e uncertain sweep sig v) safe s.
Proof using nodes.
  intros Hs He Hp Hd Hx. unfold judge_kill. cbv zeta. destruct v as [| |code|detail]; [| exact Hs | | exact Hs].
  - destruct sweep; [exact Hs|]. apply wp_bind. eapply wp_mono; [apply store_held; [exact Hs|by destruct He as [[] _]; split|]|].
    + intros Hj. left. by apply Hd.
    + intros [y|err] s'' (_ & H & _); exact H.
  - apply completion_safe; [exact Hs|exact He|]. apply Hp. by eapply Hx.
Qed.
Lemma signal_safe e sig sweep s : site_tracked s -> held s e ->
  wp (signal_row size ok sha256_hexdigest py_repr now writable run_kill probe e sig sweep) safe s.
Proof using nodes.
  intros Hs He. unfold signal_row. cbv zeta. set (u := is_uncertain_launch e). set (t := sweep && negb u && negb (live_status e)).
  destruct (negb (live_status e) && negb u && negb t) eqn:Hg; [exact Hs|].
  assert (t = false -> placed s e) as Hp.
  { intros Ht. apply held_placed; [exact He|]. rewrite Ht in Hg. unfold u in *.
    destruct (live_status e); [by left|]. destruct (is_uncertain_launch e); [by right|done]. }
  destruct (termination_guard _ _ _ _ _); [|by apply judge_safe].
  apply wp_bind. apply wp_fun. intros res s' H. unfold on_world in H.
  destruct (run_kill _ _ _ _) as [reply w] eqn:E. injection H as <- <-.
  pose proof (kc_kill _ _ _ _ _ _ E) as Hw.
  assert (site_tracked (mkSite s.(st_registry) w)) as Hs' by (by apply site_shrinks).
  assert (held (mkSite s.(st_registry) w) e) as He' by (by eapply held_shrinks).
  assert (t = false -> placed (mkSite s.(st_registry) w) e) as Hp'.
  { intros Ht Hid. etrans; [exact Hw|]. by apply Hp. }
  destruct reply as [ty message|rc out err]; [by apply judge_safe|]. apply judge_safe; try done.
  - intros Hv Ht Hid. pose proof (kc_dead _ _ _ _ _ _ _ _ E Hv) as Hd. specialize (Hp Ht Hid).
    unfold DispatchSpec.alive in *. cbn in *. set_solver.
  - intros code Hv. destruct t eqn:Et; [|done]. by apply (kc_marker _ _ _ _ _ _ _ _ code E) in Hv.
Qed.
Lemma kill_locked_safe e sig sweep s : site_tracked s -> unique_keys e ->
  wp (_kill_locked size ok sha256_hexdigest py_repr now writable run_kill probe e sig sweep) safe s.
Proof using nodes.
  intros Hs He. apply wp_bind. eapply wp_mono; [by apply load_held|].
  intros [current|err] s' [-> H]; [|exact Hs]. destruct (H _ eq_refl) as [Hh _]. by apply signal_safe.
Qed.

(** ** Dequeueing *)
Lemma cancel_attempt_sound e s res s' :
  cancel_attempt sha256_hexdigest py_repr cfg run_on e s = (res, s') ->
  s'.(st_registry) = s.(st_registry) /\ alive s' ⊆ alive s /\
  forall name d, res = Ok None -> e.(dispatch_node) = Some name -> node_dir cfg e name = Some d ->
    alive s' ⊆ alive s ∖ {[ (name, d) ]}.
Proof using nodes.
  unfold cancel_attempt, cancel_queued_attempt. destruct (e.(dispatch_node)) as [name|]; [|by intros [= <- <-]; split_and!].
  unfold node_dir. destruct (configured_node cfg name) as [n|] eqn:Hn; [|by intros [= <- <-]; split_and!].
  unfold mbind, D_bind, raising. destruct (job_dir_for_node _ _ _) as [d|x] eqn:Hj; [|by intros [= <- <-]; split_and!].
  unfold on_nodes, _cancel_orphan, cancel_with. destruct (termination_guard _ _ _ _ _);
    [|intros [= <- <-]; split_and!; [done|done|by intros ? ? [=]]].
  destruct (run_on _ _ _ _) as [reply w] eqn:E. pose proof (kc_step _ _ _ _ _ _ E) as Hw.
  destruct reply as [ty message|rc out err]; intros [= <- <-]; (split; [done|]); (split; [exact Hw|]);
    intros name' d' [= Hv] [= <-] Hnd; rewrite Hn, Hj in Hnd; injection Hnd as <-.
  apply cancel_verdict_none in Hv. pose proof (kc_cancelled _ _ _ _ _ _ _ _ _ _ _ _ _ E Hv) as Hd.
  by rewrite queued_node_name, (configured_name _ _ _ Hn) in Hd.
Qed.
Lemma site_of (s : Site W) r : s.(st_registry) = r -> s = mkSite r s.(st_world).
Proof using. intros <-. by destruct s. Qed.
Lemma dequeue_safe e s : site_tracked s -> held s e -> e.(status) = Queued ->
  wp (dequeue size ok sha256_hexdigest py_repr cfg now writable run_on drop_staging e) safe s.
Proof using nodes probe.
  intros Hs He Hq. unfold dequeue. apply wp_bind.
  assert (forall r w, capsules w ⊆ alive s -> (e.(job_id) = jid -> capsules w = ∅) -> site_tracked (mkSite r w) ->
    wp (entry ← store_row size ok now writable (dequeued_row now e);
        on_world (fun w => (tt, drop_staging entry.(job_id) w)) ;;
        reporting "ok" "dequeued" entry ("dequeued " +:+ entry.(job_id))) safe (mkSite r w)) as Hstore.
  { intros r w Hw Hempty Ht. apply wp_bind. eapply wp_mono; [apply store_held; [exact Ht| |]|].
    - unfold dequeued_row, unclaimed. destruct He as [[] _]. by case_bool_decide; split.
    - intros Hj. left. apply Hempty. revert Hj. unfold dequeued_row, unclaimed. by case_bool_decide.
    - intros [x|err] s' (_ & H & _); [|exact H]. apply wp_bind, wp_fun. intros res s'' [= <- <-].
      apply site_shrinks; [unfold DispatchSpec.alive; apply kc_staging|exact H]. }
  case_bool_decide as Hd.
  - apply wp_fun. intros res s' H. apply cancel_attempt_sound in H as (Hr & Hw & Hdead).
    assert (s' = mkSite s.(st_registry) s'.(st_world)) as Es' by exact (site_of _ _ Hr).
    assert (site_tracked s') as Hs' by (rewrite Es'; by apply site_shrinks).
    destruct res as [[problem|]|err]; [exact Hs'| |exact Hs']. rewrite Es'. apply Hstore; [exact Hw| |by rewrite <- Es'].
    intros Hid. destruct He as [_ He]. destruct (He Hid) as [H0|Ht]; [unfold DispatchSpec.alive in *; set_solver|].
    destruct (tracked_attempt _ _ _ Ht Hq) as (name & d & Hn & Hnd & HR). specialize (Hdead name d eq_refl Hn Hnd).
    unfold DispatchSpec.alive in *. set_solver.
  - cbn. destruct s as [r w]. apply Hstore; [done| |exact Hs].
    intros Hid. destruct He as [_ He]. destruct (He Hid) as [H0|Ht]; [exact H0|].
    destruct (tracked_attempt _ _ _ Ht Hq) as (name & d & Hn & _). by destruct Hd.
Qed.

(** ** One reference, and a list of them *)
Context (consent : string -> result unit) (suggestions : string -> list string).
Lemma refresh_held e s : site_tracked s -> unique_keys e ->
  wp (refresh size ok now writable probe e) (fun res s' => site_tracked s' /\ forall x, res = Ok x -> held s' x) s.
Proof using nodes.
  intros Hs He. unfold wp, refresh, mbind, D_bind, on_registry, refresh_status, mbind, M_bind.
  pose proof (load_held e s Hs He) as Hl. unfold wp, load_row, on_registry in Hl. destruct s as [r0 w]. cbn [st_registry st_world] in *.
  destruct (load now _ _) as [[current|err] r]; destruct Hl as [[= ->] Hl]; [|by split].
  destruct (Hl _ eq_refl) as [Hh _]. pose proof (refresh_locked_held _ _ Hs Hh) as H.
  unfold wp, refresh_locked, mbind, D_bind, on_registry in H. cbn [st_registry st_world] in H.
  destruct (refresh_status_locked _ _ _ _ _ _ _) as [[found|err] r]; destruct H as (_ & H & Hx); (split; [exact H|]); [|done].
  intros x [= <-]. by apply Hx.
Qed.
Abbreviation kill_started := (kill_started size ok sha256_hexdigest py_repr now writable run_kill probe consent).
Abbreviation kill_entry :=
  (kill_entry size ok sha256_hexdigest py_repr cfg now writable run_kill run_on probe drop_staging consent).
Abbreviation _kill_one :=
  (_kill_one size ok sha256_hexdigest py_repr cfg now writable run_kill run_on probe drop_staging consent suggestions).
Abbreviation kill_refs :=
  (kill_refs size ok sha256_hexdigest py_repr cfg now writable run_kill run_on probe drop_staging consent suggestions).
Lemma started_safe e force sweep s : site_tracked s -> unique_keys e -> wp (kill_started e force sweep) safe s.
Proof using nodes.
  intros Hs He. apply wp_bind. eapply wp_mono; [by apply refresh_held|].
  intros [x|err] s' [Hs' Hx]; [|exact Hs']. destruct (Hx x eq_refl) as [Hux _]. cbv zeta.
  destruct (_ && negb sweep); [exact Hs'|]. apply wp_bind, wp_raising. destruct (consent _); [|exact Hs'].
  by apply kill_locked_safe.
Qed.
Lemma entry_safe e force sweep s : site_tracked s -> unique_keys e -> wp (kill_entry e force sweep) safe s.
Proof using nodes.
  intros Hs He. unfold kill_entry. case_bool_decide; [|by apply started_safe].
  apply wp_bind, wp_raising. destruct (consent _); [|exact Hs].
  apply wp_bind. eapply wp_mono; [by apply load_held|]. intros [current|err] s' [-> Hx]; [|exact Hs].
  destruct (Hx _ eq_refl) as [Hh _]. cbv zeta. case_bool_decide; [by apply dequeue_safe|].
  apply started_safe; [exact Hs|apply Hh].
Qed.
Lemma one_safe ref force sweep s : site_tracked s -> wp (_kill_one ref force sweep) safe s.
Proof using nodes.
  intros Hs. apply wp_bind, wp_registry. intros res r [-> Hu]%find_unique.
  assert (mkSite s.(st_registry) s.(st_world) = s) as -> by (by destruct s).
  destruct res as [[e|]|err]; [|exact Hs..]. by apply entry_safe, Hu.
Qed.
Lemma refs_safe refs force sweep s res s' :
  kill_refs refs force sweep s = (res, s') -> site_tracked s -> site_tracked s'.
Proof using nodes.
  revert s res. induction refs as [|ref rest IH]; intros s res; cbn; [by intros [= _ <-]|].
  destruct (_kill_one ref force sweep s) as [report s1] eqn:E. intros H Hs.
  assert (site_tracked s1) as H1 by (pose proof (one_safe ref force sweep s Hs) as H1; unfold wp in H1; by rewrite E in H1).
  clear E Hs. destruct report as [report|[]];
    [destruct (kill_refs rest force sweep s1) as [[outcomes|err] s2] eqn:E2; injection H as _ <-; by eapply IH| ..];
    try (by injection H as _ <-).
  destruct (kill_refs rest force sweep s1) as [[outcomes|err] s2] eqn:E2; injection H as _ <-; by eapply IH.
Qed.
End job.

(** ** What is reported *)

(** What [_kill_locked] may report of the store and the nodes it leaves. *)
Inductive told (s s' : Site W) (x : JobEntry) : string * string -> Prop :=
  | told_killed : x.(status) = Killed -> (x.(node), x.(job_dir)) ∉ alive s' ->
      row_sat s'.(st_registry) x.(job_id) (fun r => r.(status) = Killed /\ (r.(node), r.(job_dir)) = (x.(node), x.(job_dir))) ->
      told s s' x ("ok", "killed")
  | told_swept : x.(status) ∉ [Running; Lost] -> (x.(node), x.(job_dir)) ∉ alive s' -> s'.(st_registry) = s.(st_registry) ->
      told s s' x ("ok", "swept")
  | told_completed : x.(status) = Finished -> told s s' x ("ok", "completed")
  | told_terminal : x.(status) ∉ [Running; Lost] -> s' = s -> told s s' x ("ok", "already_terminal")
  | told_survived : s'.(st_registry) = s.(st_registry) -> told s s' x ("alive", "survived")
  | told_unverified : s'.(st_registry) = s.(st_registry) -> told s s' x ("unverified", "unverified").
Definition told_report (s : Site W) (res : result kill_report) (s' : Site W) : Prop :=
  forall rep, res = Ok rep -> exists x, rep.(kr_entry) = Some x /\ told s s' x (rep.(kr_outcome), rep.(kr_machine)).

Lemma store_post cand s : unique_keys cand ->
  wp (store_row size ok now writable cand)
    (fun res s' => s'.(st_world) = s.(st_world) /\ forall x, res = Ok x -> same_place cand x /\
       row_sat s'.(st_registry) cand.(job_id) (same_place cand)) s.
Proof using Type.
  intros Hu. apply wp_registry. intros res r H. split; [done|]. intros x ->.
  apply save_inv in H as (existing & row & sl & S). by destruct (saved_place _ _ _ _ _ _ _ _ _ Hu S) as (? & _ & ?).
Qed.
Lemma completion_told e detail sig s s0 : unique_keys e ->
  wp (record_completion size ok now writable probe e detail sig) (told_report s0) s.
Proof using Type.
  intros Hu. apply wp_bind, wp_fun. intros found s1 H1. unfold refresh_locked, mbind, D_bind, on_registry in H1.
  destruct (refresh_status_locked _ _ _ _ _ _ _) as [[[x o]|err] r] eqn:E; injection H1 as <- <-; [|done].
  assert (unique_keys x) as Hux.
  { apply refresh_row in E as [[_ H]|(row & out & _ & _ & Hj & _ & Hs & H)]; [by rewrite (H x o eq_refl)| |exact Hu].
    rewrite (H x o eq_refl) in Hs. apply save_inv in Hs as (? & ? & ? & S).
    destruct Hj as (_ & _ & _ & _ & _ & Hr). by destruct (saved_place _ _ _ _ _ _ _ _ _ (Hr Hu) S) as (_ & ? & _). }
  cbn [fst]. apply wp_bind. case_bool_decide as Hf.
  - intros rep [= <-]. exists x. split; [done|]. by constructor.
  - apply wp_bind, wp_raising. destruct (match detail with Some d => _ | None => _ end) as [code|err]; [|done].
    eapply wp_mono; [apply store_post; by destruct Hux; split|]. intros [y|err] s2 [_ Hy]; [|done].
    intros rep [= <-]. exists y. split; [done|]. constructor. destruct (Hy y eq_refl) as [Hp _]. by rewrite (sp_status _ _ Hp).
Qed.
Lemma judge_told e u t sig v s s0 : unique_keys e -> s.(st_registry) = s0.(st_registry) ->
  (v = Dead -> (e.(node), e.(job_dir)) ∉ alive s) -> (t = true -> e.(status) ∉ [Running; Lost]) ->
  wp (judge_kill size ok now writable probe e u t sig v) (told_report s0) s.
Proof using Type.
  intros Hu Hs Hv Ht. unfold judge_kill. cbv zeta. destruct v as [| |code|detail].
  - destruct t.
    + intros rep [= <-]. exists e. split; [done|]. apply told_swept; auto.
    + apply wp_bind. eapply wp_mono; [apply store_post; by destruct Hu; split|]. intros [x|err] s1 [Hw Hx]; [|done].
      intros rep [= <-]. exists x. split; [done|]. destruct (Hx x eq_refl) as [[Hi Hst _ Hn Hd _] Hrow]. cbn in *.
      apply told_killed; [done| |].
      * rewrite Hn, Hd. unfold DispatchSpec.alive in *. rewrite Hw. by apply Hv.
      * rewrite Hi. eapply row_sat_impl; [|exact Hrow]. intros r [_ H2 _ H4 H5 _]. cbn in *. rewrite Hn, Hd, H2, H4, H5. done.
  - intros rep [= <-]. exists e. split; [done|]. by apply told_survived.
  - by apply completion_told.
  - intros rep [= <-]. exists e. split; [done|]. by apply told_unverified.
Qed.
Lemma signal_told e sig sweep s : unique_keys e ->
  wp (signal_row size ok sha256_hexdigest py_repr now writable run_kill probe e sig sweep) (told_report s) s.
Proof using nodes.
  intros Hu. unfold signal_row. cbv zeta. set (u := is_uncertain_launch e). set (t := sweep && negb u && negb (live_status e)).
  assert (live_status e = false -> e.(status) ∉ [Running; Lost]) as Hl by (apply bool_decide_eq_false_1).
  destruct (negb (live_status e) && negb u && negb t) eqn:Hg.
  { intros rep [= <-]. exists e. split; [done|]. apply told_terminal; [|done]. apply Hl. by destruct (live_status e). }
  assert (t = true -> e.(status) ∉ [Running; Lost]) as Ht.
  { unfold t. intros [_ H]%andb_true_iff. apply Hl. by destruct (live_status e). }
  destruct (termination_guard _ _ _ _ _); [|by apply judge_told]. apply wp_bind, wp_fun. intros res s' H. unfold on_world in H.
  destruct (run_kill _ _ _ _) as [reply w] eqn:E. injection H as <- <-.
  destruct reply as [ty message|rc out err]; [by apply judge_told|]. apply judge_told; try done.
  intros Hv. pose proof (kc_dead _ _ _ _ _ _ _ _ E Hv) as Hd. unfold DispatchSpec.alive. cbn in *. set_solver.
Qed.

(** C9. Whatever [kill] is asked and answered, and whichever of the listed jobs it
    reaches, the stored row of a job goes on naming every capsule that may be
    running it: a row is dequeued or called killed only when nothing is left. *)
Theorem kill_keeps_track consent suggestions jid refs force sweep s res s' :
  kill_refs size ok sha256_hexdigest py_repr cfg now writable run_kill run_on probe drop_staging consent suggestions
    refs force sweep s = (res, s') ->
  site_tracked jid s -> site_tracked jid s'.
Proof using nodes. by apply refs_safe. Qed.

End kill.

(** ** A node that swallows TERM *)
Definition stubborn_run (n : string) (_ : bool) (c : kill_command) (w : gset capsule) : remote_reply * gset capsule :=
  if bool_decide (c.(k_sig) = "KILL") then (Replied 0 "DEAD" "", w ∖ {[ (n, c.(k_dir)) ]}) else (Replied 0 "ALIVE" "", w).
Definition silent_run (_ : string) (_ : bool) (_ : remote_command) (w : gset capsule) : remote_reply * gset capsule :=
  (Replied 1 "" "", w).
Definition keep_staging (_ : string) (w : gset capsule) : gset capsule := w.
#[export] Instance stubborn_contract : KillContract id id stubborn_run silent_run keep_staging.
Proof.
  split; unfold stubborn_run, silent_run.
  - intros n local c w reply w'. case_bool_decide; intros [= _ <-]; set_solver.
  - intros n local c w rc out err w'. by case_bool_decide; intros [= <- <- <- <-].
  - intros n local c w rc out err w' code. case_bool_decide; by intros [= <- <- <- <-].
  - by intros n local c w reply w' [= _ <-].
  - by intros n local d pg b se tok lay w rc out err w' [= <- <- <- <-].
  - done.
Qed.
Definition target_row : JobEntry :=
  test_entry <| node := "n2" |> <| worker_root := Some "~/dt" |> <| pgid := Some 4242 |>.
Definition target_site : Site (gset capsule) :=
  mkSite (save sample_size true 200%Q true target_row sample_registry).2 {[ (target_row.(node), target_row.(job_dir)) ]}.
Definition unanswered (_ : gset capsule) (_ : string) (_ : bool) (_ : option string) (_ : list _ProbeTarget) : StatusProbe.reply :=
  StatusProbe.Raised "timed out" "TimeoutError".
Abbreviation kill_targets force :=
  (kill_refs sample_size true (fun _ => "0") id (mkHeadConfig "head" [] 1 (mkQueueCfg None 0) "~/dt" ROLE_LAYOUT) 300
     (fun _ => true) stubborn_run silent_run unanswered keep_staging (fun _ => Ok tt) (fun _ => [])
     [target_row.(job_id)] force false target_site).

Lemma target_unique : unique_keys target_row.
Proof. split; vm_compute; try discriminate; constructor. Qed.
Lemma target_tracked : site_tracked (mkHeadConfig "head" [] 1 (mkQueueCfg None 0) "~/dt" ROLE_LAYOUT) id target_row.(job_id) target_site.
Proof.
  right. unfold target_site. cbn [st_registry st_world].
  destruct (save sample_size true 200%Q true target_row sample_registry) as [[x|e] r] eqn:E;
    [|exfalso; apply (f_equal (fun p => is_ok p.1)) in E; vm_compute in E; discriminate E].
  apply save_inv in E as (existing & row & sl & S). destruct (saved_place _ _ _ _ _ _ _ _ _ target_unique S) as (_ & _ & H).
  eapply row_sat_impl; [|exact H]. intros e [_ Hs _ Hn Hd _]. right. rewrite Hs, Hn, Hd. split; [left; by left|done].
Qed.
Lemma kill_keeps_track_witness :
  (kill_targets false).1 = Ok ["alive"] /\ alive id (kill_targets false).2 <> ∅ /\
  site_tracked (mkHeadConfig "head" [] 1 (mkQueueCfg None 0) "~/dt" ROLE_LAYOUT) id target_row.(job_id) (kill_targets false).2.
Proof.
  split; [vm_compute; reflexivity|]. split; [apply (bool_decide_unpack _); vm_compute; exact I|].
  eapply (kill_keeps_track sample_size true (fun _ => "0") id).
  - apply stubborn_contract.
  - apply surjective_pairing.
  - exact target_tracked.
Defined.
Abbreviation killed_target :=
  (_kill_locked sample_size true (fun _ => "0") id 300 (fun _ => true) stubborn_run unanswered target_row "KILL" false target_site).

(** A lost verdict that was finalized is shielded from every writer, the kill
    included: the processes are confirmed dead, and the command ends with an
    unreadable-registry error instead. *)
Lemma finalized_loss_kill_refused :
  (_kill_locked sample_size true (fun _ => "0") id 300 (fun _ => true) stubborn_run unanswered lost_entry "KILL" false
     (mkSite stored_lost ∅)).1 = Err (RegistryError "a finalized lost result cannot be reopened").
Proof. vm_compute. reflexivity. Qed.
