(* ===== verification/LinkMetrics.v ===== *)
(** * Measured throughput of transfer edges ([link_metrics.py])

    One small JSON document per edge remembers a smoothed rate.  A record folds
    one observed transfer into it; ranking reads it through half-decade buckets
    and forgets slow evidence once it is stale.  As in [RouteHealth] the store
    maps a key to what its file holds, and a call runs under the edge's lock;
    [writable] says whether the new file can be published. *)

From S2P Require Import Prelude Text PyValue JobEntry RegistryCodec Config RouteHealth.

Definition LINK_SCHEMA_VERSION : string := "dt_link_metrics_v1".
Definition CONTROL_LINK_SCOPE : string := "control".
Definition MIN_SAMPLE_BYTES : Z := Z.shiftl 1 20.
Definition MIN_SAMPLE_SECONDS : Q := 1 # 4.
Definition FAST_SAMPLE_FLOOR_BYTES : Z := Z.shiftl 32 20.
Definition SMOOTHING_DOWN : Q := 3 # 10.
Definition SMOOTHING_UP : Q := 1 # 2.
Definition SLOW_EVIDENCE_TTL_S : Q := 900.
Definition _ORIGINS : list string := ["transfer"; "probe"].
Definition _MAX_BPS : Q := inject_Z (10 ^ 12).
Definition _MAX_SAMPLE_BYTES : Z := Z.shiftl 1 100.

Record LinkSample := mkSample {
  ls_smoothed_bps : Q;
  ls_last_bps : Q;
  ls_last_bytes : Z;
  ls_origin : string;
  ls_sampled_at : Q;
}.
Definition age_s (s : LinkSample) (now : Q) : Q := q_max 0 (now - s.(ls_sampled_at)).
Definition site_link_scope (name : string) : string := "site:" +:+ name.

Definition link_error (what : string) : exn := LinkMetricsError ("link metrics " +:+ what).
Definition link_fields : list string :=
  ["schema_version"; "key_digest"; "smoothed_bps"; "last_bps"; "last_bytes"; "origin"; "sampled_at"].
Definition link_number (raw : list (string * json)) (name : string) : result Q :=
  let invalid := link_error (name +:+ " is invalid") in
  let value := dict_get name raw in
  raise_if (negb (is_int value || is_float value) || is_bool value) invalid ;;
  numeric ← py_float value;
  match numeric with
  | Fin q => raise_if (negb (Qle_bool 0 q && Qle_bool q (q_max _MAX_BPS (inject_Z (10 ^ 11))))) invalid ;; Ok q
  | _ => Err invalid
  end.
Definition _validate_sample (raw : json) (expected_key : string) : result LinkSample :=
  match raw with
  | JDict raw =>
      raise_if (negb (same_keys raw link_fields)) (link_error "state has an invalid schema") ;;
      raise_if (negb (str_in [LINK_SCHEMA_VERSION] (dict_get "schema_version" raw)))
        (link_error "state has an unsupported version") ;;
      raise_if (negb (str_in [expected_key] (dict_get "key_digest" raw)))
        (link_error "state key does not match its path") ;;
      origin ← match dict_get "origin" raw with
               | JStr o => if bool_decide (o ∈ _ORIGINS) then Ok o else Err (link_error "origin is invalid")
               | _ => Err (link_error "origin is invalid")
               end;
      last_bytes ← match as_int (dict_get "last_bytes" raw) with
                   | Some n => if (n <? 0) || (_MAX_SAMPLE_BYTES <? n) then Err (link_error "byte count is invalid") else Ok n
                   | None => Err (link_error "byte count is invalid")
                   end;
      smoothed ← link_number raw "smoothed_bps";
      last_bps ← link_number raw "last_bps";
      sampled_at ← link_number raw "sampled_at";
      Ok (mkSample smoothed last_bps last_bytes origin sampled_at)
  | _ => Err (link_error "state has an invalid schema")
  end.
(** [asdict(sample)] with sorted keys. *)
Definition encode_sample (key : string) (s : LinkSample) : json :=
  JDict [("key_digest", JStr key); ("last_bps", JFloat (Fin s.(ls_last_bps))); ("last_bytes", JInt s.(ls_last_bytes));
         ("origin", JStr s.(ls_origin)); ("sampled_at", JFloat (Fin s.(ls_sampled_at)));
         ("schema_version", JStr LINK_SCHEMA_VERSION); ("smoothed_bps", JFloat (Fin s.(ls_smoothed_bps)))].

Definition read_sample (key : string) (s : store) : result (option LinkSample) :=
  match s !! key with
  | None => Ok None
  | Some OversizedState => Err (link_error "state is not a bounded file")
  | Some UnsafeState => Err (link_error "state is unsafe")
  | Some MalformedState => Err (link_error "state is malformed")
  | Some (LexedState doc) =>
      match decode_strict doc with
      | Err _ => Err (link_error "state is malformed")
      | Ok raw => sample ← _validate_sample raw key; Ok (Some sample)
      end
  end.

(** The observed rate of a transfer worth learning from. *)
Definition observed_bps (transferred_bytes : Z) (elapsed_seconds : pyfloat) : option Q :=
  match elapsed_seconds with
  | Fin elapsed =>
      if (transferred_bytes <? MIN_SAMPLE_BYTES) || (_MAX_SAMPLE_BYTES <? transferred_bytes) || q_ltb elapsed 0 then None
      else if q_ltb elapsed MIN_SAMPLE_SECONDS then
        if transferred_bytes <? FAST_SAMPLE_FLOOR_BYTES then None
        else Some (q_min _MAX_BPS (inject_Z transferred_bytes / MIN_SAMPLE_SECONDS))
      else Some (q_min _MAX_BPS (inject_Z transferred_bytes / elapsed))
  | _ => None
  end.
Definition blend (prior : option LinkSample) (observed : Q) : Q :=
  match prior with
  | None => observed
  | Some p =>
      let weight := if Qle_bool p.(ls_smoothed_bps) observed then SMOOTHING_UP else SMOOTHING_DOWN in
      (weight * observed + (1 - weight) * p.(ls_smoothed_bps))%Q
  end.

Section operations.
Context (encoded_size : json -> nat) (sha256_hexdigest : list Ascii.ascii -> string).

Definition link_key (scope source destination : string) : string :=
  sha256_hexdigest (route_material scope source destination).
Definition sample (scope source destination : string) (s : store) : result (option LinkSample) :=
  read_sample (link_key scope source destination) s.
Definition write_sample (writable : bool) (key : string) (x : LinkSample) (s : store) : result unit * store :=
  if (MAX_STATE_BYTES <? encoded_size (encode_sample key x))%nat
  then (Err (link_error "state exceeds its size limit"), s)
  else if writable then (Ok tt, <[key := LexedState (encode_sample key x)]> s)
  else (Err (link_error "state cannot be published"), s).

(** The caller's record is [None] when the transfer taught nothing. *)
Definition record (writable : bool) (scope source destination : string) (transferred_bytes : Z)
    (elapsed_seconds : pyfloat) (origin : string) (now : Q) (s : store) : result (option LinkSample) * store :=
  if negb (bool_decide (origin ∈ _ORIGINS)) then (Err (LinkMetricsError "invalid link metrics origin"), s)
  else
    match observed_bps transferred_bytes elapsed_seconds with
    | None => (Ok None, s)
    | Some observed =>
        let key := link_key scope source destination in
        match (match read_sample key s with Err (LinkMetricsError _) => Ok None | found => found end) with
        | Err e => (Err e, s)
        | Ok prior =>
            let x := mkSample (q_min _MAX_BPS (blend prior observed)) observed transferred_bytes origin now in
            match write_sample writable key x s with
            | (Ok _, s) => (Ok (Some x), s)
            | (Err e, s) => (Err e, s)
            end
        end
    end.
End operations.

(** ** Ranking *)
Definition UNMEASURED_BUCKET : Z := 2.
Definition throughput_bucket (bps : option pyfloat) : Z :=
  match bps with
  | Some (Fin bps) =>
      if Qle_bool bps 0 then UNMEASURED_BUCKET
      else
        let mib := (bps / inject_Z (Z.shiftl 1 20))%Q in
        if Qle_bool 100 mib then 0 else if Qle_bool 30 mib then 1 else if Qle_bool 10 mib then 2
        else if Qle_bool 3 mib then 3 else if Qle_bool 1 mib then 4 else 5
  | _ => UNMEASURED_BUCKET
  end.
Definition effective_throughput_bps (found : option LinkSample) (now : Q) : option Q :=
  match found with
  | None => None
  | Some s =>
      if q_ltb now s.(ls_sampled_at) then None
      else if (UNMEASURED_BUCKET <? throughput_bucket (Some (Fin s.(ls_smoothed_bps))))
              && q_ltb SLOW_EVIDENCE_TTL_S (age_s s now) then None
      else Some s.(ls_smoothed_bps)
  end.

(** ** Bounds of the smoothing *)
Ltac q_cases := unfold q_ltb, q_max, q_min, negb in *; repeat first [q_case | done].
Definition sample_ok (s : LinkSample) : Prop :=
  (0 <= s.(ls_smoothed_bps) <= _MAX_BPS)%Q /\ (0 <= s.(ls_last_bps) <= _MAX_BPS)%Q /\
  (0 <= s.(ls_sampled_at) <= _MAX_BPS)%Q /\ 0 <= s.(ls_last_bytes) <= _MAX_SAMPLE_BYTES /\ s.(ls_origin) ∈ _ORIGINS.
Lemma link_number_ok raw name q : link_number raw name = Ok q -> (0 <= q <= _MAX_BPS)%Q.
Proof.
  unfold link_number. cbv zeta. intros [_ H]%bind_raise_ok. apply bind_ok in H as (f & _ & H).
  destruct f as [q'| |]; [|done|done]. apply bind_raise_ok in H as [H [= <-]].
  apply negb_false_iff, andb_true_iff in H as [H1%q_leb_le H2%q_leb_le]. split; [exact H1|]. exact H2.
Qed.
Lemma validated_ok raw key s : _validate_sample raw key = Ok s -> sample_ok s.
Proof.
  destruct raw as [| | | | | |kv]; try done. unfold _validate_sample. intros H.
  do 3 (apply bind_raise_ok in H as [_ H]). apply bind_ok in H as (o & Ho & H). apply bind_ok in H as (n & Hn & H).
  apply bind_ok in H as (a & Ha & H). apply bind_ok in H as (b & Hb & H). apply bind_ok in H as (c & Hc & [= <-]).
  apply link_number_ok in Ha, Hb, Hc. split; [done|]. split; [done|]. split; [done|]. cbn. split.
  - destruct (as_int _) as [m|]; [|done]. destruct (_ || _) eqn:E; [done|]. injection Hn as <-.
    apply orb_false_iff in E as [?%Z.ltb_ge ?%Z.ltb_ge]. lia.
  - destruct (dict_get _ _); try done. case_bool_decide; [|done]. by injection Ho as <-.
Qed.
Lemma sample_roundtrip key s store : sample_ok s ->
  read_sample key (<[key := LexedState (encode_sample key s)]> store) = Ok (Some s).
Proof.
  intros (H1 & H2 & H3 & H4 & H5). unfold read_sample. rewrite lookup_insert_eq.
  rewrite (proj2 (decode_strict_spec _ (encode_sample key s))).
  2:{ split; [done|]. unfold encode_sample. cbn [strict]. split; [|done]. apply (bool_decide_unpack _). vm_compute. exact I. }
  destruct s as [sm la n o at_]. cbn [ls_smoothed_bps ls_last_bps ls_last_bytes ls_origin ls_sampled_at] in *.
  unfold encode_sample, _validate_sample. cbn [ls_smoothed_bps ls_last_bps ls_last_bytes ls_origin ls_sampled_at].
  set (kv := [("key_digest", JStr key); _; _; _; _; _; _]).
  assert (same_keys kv link_fields = true) as -> by reflexivity.
  assert (dict_get "schema_version" kv = JStr LINK_SCHEMA_VERSION) as -> by reflexivity.
  assert (dict_get "key_digest" kv = JStr key) as -> by reflexivity.
  assert (dict_get "origin" kv = JStr o) as -> by reflexivity.
  assert (dict_get "last_bytes" kv = JInt n) as -> by reflexivity.
  assert (forall name q, dict_get name kv = JFloat (Fin q) -> (0 <= q <= _MAX_BPS)%Q -> link_number kv name = Ok q) as Hnum.
  { intros name q Hq [Hl Hh]. unfold link_number. rewrite Hq. cbn [is_int is_float is_bool orb negb raise_if mbind result_bind py_float].
    change (q_max _ _) with _MAX_BPS. by rewrite (proj2 (q_leb_le 0 q) Hl), (proj2 (q_leb_le q _MAX_BPS) Hh). }
  rewrite (Hnum "smoothed_bps" sm), (Hnum "last_bps" la), (Hnum "sampled_at" at_) by done.
  cbn [str_in]. rewrite (bool_decide_true (key ∈ [key])) by (by left).
  rewrite (bool_decide_true (LINK_SCHEMA_VERSION ∈ _)) by (by left). rewrite (bool_decide_true (o ∈ _ORIGINS)) by done.
  assert (((n <? 0) || (_MAX_SAMPLE_BYTES <? n)) = false) as Hn by (apply orb_false_iff; rewrite !Z.ltb_ge; lia).
  change (as_int (JInt n)) with (Some n). cbv iota beta. by rewrite Hn.
Qed.

Lemma observed_bounds n t q : observed_bps n t = Some q -> MIN_SAMPLE_BYTES <= n <= _MAX_SAMPLE_BYTES /\ (0 < q <= _MAX_BPS)%Q.
Proof.
  unfold observed_bps. destruct t as [e| |]; [|done|done]. destruct (_ || _) eqn:Hb; [done|].
  apply orb_false_iff in Hb as [[H1%Z.ltb_ge H2%Z.ltb_ge]%orb_false_iff He%q_ltb_ge].
  assert (0 < inject_Z n)%Q as Hn by (change 0%Q with (inject_Z 0); rewrite <- Zlt_Qlt; change MIN_SAMPLE_BYTES with 1048576 in H1; lia).
  assert (forall w, (0 < w)%Q -> (0 < q_min _MAX_BPS (inject_Z n / w) <= _MAX_BPS)%Q) as Hmin.
  { intros w Hw. assert (0 < inject_Z n / w)%Q as Hd by (apply Qlt_shift_div_l; lra).
    assert (0 < _MAX_BPS)%Q as Hm by reflexivity. unfold q_min. destruct (q_ltb _ _) eqn:E.
    - apply q_ltb_lt in E. lra.
    - lra. }
  intros H. split; [lia|]. destruct (q_ltb e MIN_SAMPLE_SECONDS) eqn:Hs.
  - destruct (n <? FAST_SAMPLE_FLOOR_BYTES); [done|]. injection H as <-. by apply Hmin.
  - injection H as <-. apply Hmin. apply q_ltb_ge in Hs. unfold MIN_SAMPLE_SECONDS in Hs. lra.
Qed.

(** The smoothed rate lies between the old one and the observation, and one
    slow transfer takes at most three tenths off. *)
Lemma blend_bounds prior q : (0 <= q)%Q -> (forall p, prior = Some p -> (0 <= p.(ls_smoothed_bps))%Q) ->
  match prior with
  | None => blend prior q = q
  | Some p => (q_min q p.(ls_smoothed_bps) <= blend prior q <= q_max q p.(ls_smoothed_bps))%Q /\
              ((7 # 10) * p.(ls_smoothed_bps) <= blend prior q)%Q
  end.
Proof.
  intros Hq Hp. destruct prior as [p|]; [|done]. specialize (Hp p eq_refl). unfold blend, SMOOTHING_UP, SMOOTHING_DOWN.
  unfold q_min, q_max, q_ltb. destruct (Qle_bool (ls_smoothed_bps p) q) eqn:E1, (Qle_bool q (ls_smoothed_bps p)) eqn:E2;
    cbn [negb]; rewrite ?q_leb_le, ?q_leb_gt in *; split; try split; lra.
Qed.

Section guarantees.
Context (encoded_size : json -> nat) (sha256_hexdigest : list Ascii.ascii -> string).
Implicit Types (s : store) (t : pyfloat) (now : Q) (n : Z) (o scope source destination : string).

(** What a record starts from: a damaged file counts as no evidence. *)
Definition prior_sample (key : string) (s : store) : option LinkSample :=
  match read_sample key s with Ok p => p | Err _ => None end.
Lemma prior_sample_ok key s p : prior_sample key s = Some p -> sample_ok p.
Proof.
  unfold prior_sample, read_sample. destruct (s !! key) as [f|]; [destruct f as [| | |doc]|]; try done.
  destruct (decode_strict doc); [|done]. destruct (_validate_sample _ _) eqn:E; cbn; [|done]. intros [= <-]. by eapply validated_ok.
Qed.

(** What one call of [record] may answer. *)
Definition recorded key n t o now s (x : LinkSample) : Prop :=
  observed_bps n t = Some x.(ls_last_bps) /\ x.(ls_last_bytes) = n /\ x.(ls_origin) = o /\ x.(ls_sampled_at) = now /\
  (0 < x.(ls_smoothed_bps) <= _MAX_BPS)%Q /\
  match prior_sample key s with
  | None => (x.(ls_smoothed_bps) == x.(ls_last_bps))%Q
  | Some p => (q_min x.(ls_last_bps) p.(ls_smoothed_bps) <= x.(ls_smoothed_bps) <= q_max x.(ls_last_bps) p.(ls_smoothed_bps))%Q /\
              ((7 # 10) * p.(ls_smoothed_bps) <= x.(ls_smoothed_bps))%Q
  end.
Lemma q_min_below (top q : Q) : (q <= top)%Q -> (q_min top q == q)%Q.
Proof. intros H. unfold q_min. destruct (q_ltb q top) eqn:E; [done|]. apply q_ltb_ge in E. lra. Qed.
Lemma smoothed_recorded key n t o now s q : observed_bps n t = Some q ->
  recorded key n t o now s (mkSample (q_min _MAX_BPS (blend (prior_sample key s) q)) q n o now).
Proof.
  intros Hq. destruct (observed_bounds _ _ _ Hq) as [_ [Hlo Hhi]]. split; [done|]. do 3 (split; [done|]).
  cbn [ls_smoothed_bps ls_last_bps]. destruct (prior_sample key s) as [p|] eqn:Hp.
  - apply prior_sample_ok in Hp as ([Hp1 Hp2] & _).
    destruct (blend_bounds (Some p) q) as [[B1 B2] B3]; [lra|by intros ? [= <-]|].
    assert (blend (Some p) q <= _MAX_BPS /\ 0 < blend (Some p) q)%Q as [B4 B5].
    { unfold blend, SMOOTHING_UP, SMOOTHING_DOWN. destruct (Qle_bool _ _); split; lra. }
    pose proof (q_min_below _ _ B4) as E. repeat split; lra.
  - pose proof (q_min_below _ _ Hhi) as E. cbn [blend]. repeat split; lra.
Qed.

End guarantees.

(** ** Ranking evidence expires *)
(** C39. Bad news about an edge expires: the ranking sees a bucket below the
    one of an unmeasured edge only on a sample that is not dated in the future
    and at most fifteen minutes old, so a congested moment or a clock stepped
    back pins no edge for ever, while a sample at least as good as unmeasured is
    used however old it is. *)
Theorem slow_evidence_expires (found : option LinkSample) (now : Q) :
  let seen := effective_throughput_bps found now in
  (UNMEASURED_BUCKET < throughput_bucket (Fin <$> seen) ->
   exists s, found = Some s /\ (s.(ls_sampled_at) <= now <= s.(ls_sampled_at) + SLOW_EVIDENCE_TTL_S)%Q) /\
  (forall s, found = Some s -> (s.(ls_sampled_at) <= now)%Q ->
     throughput_bucket (Some (Fin s.(ls_smoothed_bps))) <= UNMEASURED_BUCKET -> seen = Some s.(ls_smoothed_bps)).
Proof.
  cbv zeta. destruct found as [s|]; [|by split]. unfold effective_throughput_bps.
  destruct (q_ltb now (ls_sampled_at s)) eqn:Ef.
  { apply q_ltb_lt in Ef. split; [done|]. intros ? [= <-] H. lra. }
  apply q_ltb_ge in Ef. destruct (UNMEASURED_BUCKET <? _) eqn:Eb; cbn [andb].
  2:{ apply Z.ltb_ge in Eb. split; [intros H; by destruct (proj1 (Z.lt_nge _ _) H)|]. by intros ? [= <-]. }
  apply Z.ltb_lt in Eb. destruct (q_ltb SLOW_EVIDENCE_TTL_S _) eqn:Ea; (split; [|intros ? [= <-] _ ?; lia]); [done|].
  intros _. exists s. split; [done|]. split; [done|]. apply q_ltb_ge in Ea. unfold age_s, q_max in Ea.
  destruct (q_ltb _ _) eqn:E0; [|apply q_ltb_ge in E0; unfold SLOW_EVIDENCE_TTL_S]; lra.
Qed.

(** An integer no double can hold makes [float] raise before the finiteness
    test, and [OverflowError] is not the error the readers catch: the damaged
    file is not reported as such, and [record] does not repair it. *)
Definition huge_sample (key : string) : json :=
  JDict [("key_digest", JStr key); ("last_bps", JFloat (Fin 1)); ("last_bytes", JInt MIN_SAMPLE_BYTES); ("origin", JStr "transfer");
         ("sampled_at", JFloat (Fin 1)); ("schema_version", JStr LINK_SCHEMA_VERSION); ("smoothed_bps", JInt (Z.shiftl 1 2000))].
Lemma huge_sample_escapes :
  let digest := fun _ : list Ascii.ascii => "k" in
  let s := {[ "k" := LexedState (huge_sample "k") ]} : store in
  read_sample "k" s = Err (OverflowError "int too large to convert to float") /\
  record (fun _ => 100%nat) digest true CONTROL_LINK_SCOPE "a" "b" (Z.shiftl 1 30) (Fin 10) "transfer" 5%Q s =
    (Err (OverflowError "int too large to convert to float"), s).
Proof. split; vm_compute; reflexivity. Qed.
(** Two transfers over one edge: 100 MiB/s, then a congested 10 MiB/s. *)
Example record_twice :
  let digest := fun _ : list Ascii.ascii => "k" in
  let run := record (fun _ => 100%nat) digest true CONTROL_LINK_SCOPE "a" "b" in
  let '(r1, s1) := run (Z.shiftl 1000 20) (Fin 10) "transfer" 5%Q (∅ : store) in
  let '(r2, s2) := run (Z.shiftl 100 20) (Fin 10) "probe" 9%Q s1 in
  match r1, r2 with
  | Ok (Some x), Ok (Some y) =>
      (x.(ls_smoothed_bps) == inject_Z (Z.shiftl 100 20))%Q /\ (y.(ls_smoothed_bps) == inject_Z (Z.shiftl 73 20))%Q
  | _, _ => False
  end.
Proof. vm_compute. split; reflexivity. Qed.

Lemma slow_evidence_expires_witness :
  let s := mkSample (inject_Z (Z.shiftl 1 18)) 1 1 "transfer" 100 in
  exists s', Some s = Some s' /\ (s'.(ls_sampled_at) <= 1000 <= s'.(ls_sampled_at) + SLOW_EVIDENCE_TTL_S)%Q.
Proof. cbv zeta. apply (slow_evidence_expires (Some _) 1000). vm_compute. reflexivity. Defined.
